(** * Asset merger engine: comparison, difference documents, sorting, validation

    A shallow embedding of the reconciliation core of the merger tool
    ([lib/differ.py], [lib/differ_utils.py], [lib/sorter.py],
    [lib/validator.py]) and the properties its specification states.

    Conventions of the embedding.
    - A Python [str] is a Rocq [string]; a character is its code point
      (0..255, Latin-1), and the character classes ([isspace], [isdigit],
      [lower]) are Python's on those code points.
    - A Python value of a record field or a JSON scalar is a [value]:
      [None], a [bool], an [int] (unbounded, [Z]) or a [str].  Python floats
      as *stored* values, lists and nested objects are not modelled; floats
      as *computed* values (the result of [float(...)], of a division) are
      IEEE binary64 numbers, [spec_float] with [prec = 53], [emax = 1024].
    - A Python [dict] with string keys is an association list in insertion
      order; [dict_get] reads the first binding of a key.
    - A call that can raise returns [exn A]: [Ok a] or [Raise e], [e] the
      class of the exception.
    - [int] of a string keeps to the limit on the number of digits the
      interpreter starts with (4300); what [pathlib] and the file system
      do is a parameter of the functions that write files. *)

From Stdlib Require Import ZArith List String Ascii Bool Arith Lia.
From Stdlib Require Import DecimalString DecimalPos DecimalZ SpecFloat.
From Stdlib Require Import Permutation Sorted.
Import ListNotations.
Local Open Scope string_scope.

(** ** Python values and helpers *)
Module Py.

Inductive pyexc : Type :=
| TypeError
| ValueError
| AttributeError
| OverflowError.

Inductive exn (A : Type) : Type :=
| Ok (a : A)
| Raise (e : pyexc).
Arguments Ok {A} a.
Arguments Raise {A} e.

Definition bind {A B : Type} (c : exn A) (k : A -> exn B) : exn B :=
  match c with
  | Ok a => k a
  | Raise e => Raise e
  end.

Inductive value : Type :=
| VNone
| VBool (b : bool)
| VInt (z : Z)
| VStr (s : string).

Definition dict (V : Type) : Type := list (string * V).

Fixpoint dict_get {V : Type} (k : string) (d : dict V) : option V :=
  match d with
  | [] => None
  | (k', v) :: d' => if String.eqb k k' then Some v else dict_get k d'
  end.

(** [k in d] *)
Definition has_key {V : Type} (k : string) (d : dict V) : bool :=
  match dict_get k d with
  | Some _ => true
  | None => false
  end.

Definition keys {V : Type} (d : dict V) : list string := map fst d.

(** [str(n)] for an [int]. *)
Definition str_of_Z (z : Z) : string := NilZero.string_of_int (Z.to_int z).
Definition str_of_nat (n : nat) : string := str_of_Z (Z.of_nat n).

(** [str(v)], also what an f-string writes for [{v}]. *)
Definition str (v : value) : string :=
  match v with
  | VNone => "None"
  | VBool true => "True"
  | VBool false => "False"
  | VInt z => str_of_Z z
  | VStr s => s
  end.

(** Truth value of [v] ([if v:], [not v]). *)
Definition truthy (v : value) : bool :=
  match v with
  | VNone => false
  | VBool b => b
  | VInt z => negb (Z.eqb z 0)
  | VStr s => negb (String.eqb s "")
  end.

(** [a == b]; [bool] is a subclass of [int], so [True == 1]. *)
Definition py_eqb (a b : value) : bool :=
  match a, b with
  | VNone, VNone => true
  | VStr s, VStr t => String.eqb s t
  | VInt x, VInt y => Z.eqb x y
  | VBool x, VBool y => Bool.eqb x y
  | VBool x, VInt y => Z.eqb (if x then 1 else 0) y
  | VInt x, VBool y => Z.eqb x (if y then 1 else 0)
  | _, _ => false
  end.

(** [v is None] *)
Definition is_none (v : value) : bool :=
  match v with
  | VNone => true
  | _ => false
  end.

(** [v in s] for a set or list [s] of hashable values. *)
Definition py_in (v : value) (s : list value) : bool :=
  existsb (py_eqb v) s.

(** Code points. *)
Definition code (c : ascii) : nat := nat_of_ascii c.

(** [c.isspace()] on code points below 256. *)
Definition isspace (c : ascii) : bool :=
  let n := code c in
  (((9 <=? n) && (n <=? 13)) || ((28 <=? n) && (n <=? 32))
   || (n =? 133) || (n =? 160))%nat.

(** Stripping the characters of a class from the two ends of a string. *)
Fixpoint lstrip_by (p : ascii -> bool) (s : string) : string :=
  match s with
  | EmptyString => EmptyString
  | String c s' => if p c then lstrip_by p s' else s
  end.

Fixpoint rstrip_by (p : ascii -> bool) (s : string) : string :=
  match s with
  | EmptyString => EmptyString
  | String c s' =>
      match rstrip_by p s' with
      | EmptyString => if p c then EmptyString else String c EmptyString
      | r => String c r
      end
  end.

Definition strip_by (p : ascii -> bool) (s : string) : string :=
  rstrip_by p (lstrip_by p s).

(** [s.strip()] *)
Definition strip (s : string) : string := strip_by isspace s.

(** [s.strip(c)] for one character [c]. *)
Definition strip_char (c : ascii) (s : string) : string :=
  strip_by (Ascii.eqb c) s.

(** [s.split()]: the words between runs of white space. *)
Fixpoint split_ws (s : string) : list string :=
  match s with
  | EmptyString => []
  | String c s' =>
      let r := split_ws s' in
      if isspace c then r
      else
        match s' with
        | EmptyString => [String c EmptyString]
        | String c' _ =>
            if isspace c' then String c EmptyString :: r
            else match r with
                 | w :: tl => String c w :: tl
                 | [] => [String c EmptyString]
                 end
        end
  end.

(** [s.startswith(p)] *)
Fixpoint startswith (p s : string) : bool :=
  match p with
  | EmptyString => true
  | String a p' =>
      match s with
      | EmptyString => false
      | String b s' => Ascii.eqb a b && startswith p' s'
      end
  end.

(** [s.split(':', 1)[1]]: what follows the first colon ([None] stands for
    the [IndexError] when there is none). *)
Fixpoint after_colon (s : string) : option string :=
  match s with
  | EmptyString => None
  | String c s' => if Ascii.eqb c ":" then Some s' else after_colon s'
  end.

(** The line feed, the carriage return and the double quote. *)
Definition LF : ascii := ascii_of_nat 10.
Definition CR : ascii := ascii_of_nat 13.
Definition QUOTE : ascii := ascii_of_nat 34.
Definition nl : string := String LF EmptyString.
Definition quote : string := String QUOTE EmptyString.

(** [c.lower()] on code points below 256: the letters [A-Z] and the
    Latin-1 capitals other than the multiplication sign. *)
Definition lower_char (c : ascii) : ascii :=
  let n := code c in
  if (((65 <=? n) && (n <=? 90))
      || ((192 <=? n) && (n <=? 222) && negb (n =? 215)))%nat
  then ascii_of_nat (n + 32)
  else c.

Fixpoint lower (s : string) : string :=
  match s with
  | EmptyString => EmptyString
  | String c s' => String (lower_char c) (lower s')
  end.

(** The decimal digits [0-9], which is what [\d] matches below 256. *)
Definition is_decimal (c : ascii) : bool :=
  let n := code c in ((48 <=? n) && (n <=? 57))%nat.

(** [c.isdigit()] on code points below 256: the decimal digits and the
    superscripts two, three and one. *)
Definition isdigit_char (c : ascii) : bool :=
  let n := code c in
  is_decimal c || ((n =? 178) || (n =? 179) || (n =? 185))%nat.

Fixpoint all_chars (p : ascii -> bool) (s : string) : bool :=
  match s with
  | EmptyString => true
  | String c s' => p c && all_chars p s'
  end.

(** [s.isdigit()] *)
Definition isdigit (s : string) : bool :=
  negb (String.eqb s "") && all_chars isdigit_char s.

(** [sys.get_int_max_str_digits()]: the interpreter starts with 4300, and
    nothing in the code changes it. *)
Definition int_max_str_digits : nat := 4300.

(** [int(s)] for a string [s] with [s.isdigit()]: the superscripts are
    digits for [isdigit] but not for [int], which raises [ValueError], as
    it does for a numeral of more digits than the limit allows. *)
Definition int_of_digits (s : string) : exn Z :=
  if (int_max_str_digits <? String.length s)%nat then Raise ValueError
  else
    match NilEmpty.uint_of_string s with
    | Some d => Ok (Z.of_uint d)
    | None => Raise ValueError
    end.

(** [re.split(r'(\d+)', s)]: the runs between the digit runs, and the digit
    runs themselves, in turn; the list starts and ends with a run that is
    not of digits, empty when [s] starts or ends with a digit. *)
Fixpoint re_split_digits (s : string) : list string :=
  match s with
  | EmptyString => [EmptyString]
  | String c s' =>
      let r := re_split_digits s' in
      if is_decimal c then
        match r with
        | EmptyString :: d :: tl => EmptyString :: String c d :: tl
        | _ => EmptyString :: String c EmptyString :: r
        end
      else
        match r with
        | nd :: tl => String c nd :: tl
        | [] => [String c EmptyString]
        end
  end.

End Py.
Import Py.

(** ** Python floats: IEEE binary64, every operation rounded to nearest-even *)
Module float.

Definition prec : Z := 53.
Definition emax : Z := 1024.

Definition float : Type := spec_float.

Definition sub : float -> float -> float := SFsub prec emax.
Definition mul : float -> float -> float := SFmul prec emax.
Definition abs : float -> float := SFabs.
(** [x <= y]: false when either is a NaN. *)
Definition leb : float -> float -> bool := SFleb.

(** The float nearest to [n / d], for [n >= 0] and [d > 0], with sign [s]. *)
Definition of_quotient (s : bool) (n d : Z) : float :=
  match n with
  | Z0 => S754_zero s
  | _ =>
      let '(q, e, l) := SFdiv_core_binary prec emax n 0 d 0 in
      binary_round_aux prec emax s q e l
  end.

(** The float nearest to [m * 10^e], for [m >= 0], with sign [s]: what
    [float] makes of a decimal numeral. *)
Definition of_decimal (s : bool) (m e : Z) : float :=
  match e with
  | Zneg p => of_quotient s m (Z.pow_pos 10 p)
  | _ => binary_normalize prec emax (if s then - (m * 10 ^ e) else m * 10 ^ e) 0 s
  end%Z.

(** [float(n)] for an [int]: [OverflowError] when [n] rounds out of range. *)
Definition of_int (n : Z) : exn float :=
  match binary_normalize prec emax n 0 false with
  | S754_infinity _ => Raise OverflowError
  | f => Ok f
  end.

(** [a / b] for two [int]s, [b <> 0]: the nearest float to the quotient. *)
Definition int_truediv (a b : Z) : exn float :=
  match of_quotient (xorb (a <? 0)%Z (b <? 0)%Z) (Z.abs a) (Z.abs b) with
  | S754_infinity _ => Raise OverflowError
  | f => Ok f
  end.

(** The integer nearest to [n / d] ([d > 0]), halves to the even one. *)
Definition round_half_even (n d : Z) : Z :=
  let q := (n / d)%Z in
  let r := (n mod d)%Z in
  match (2 * r ?= d)%Z with
  | Lt => q
  | Gt => (q + 1)%Z
  | Eq => if Z.even q then q else (q + 1)%Z
  end.

(** [round(x, 2)]: the exact value of [x] is rounded to hundredths, halves
    to even, and the decimal numeral read back as a float. *)
Definition round2 (x : float) : float :=
  match x with
  | S754_finite s m e =>
      let hundredths :=
        match e with
        | Zneg p => round_half_even (Zpos m * 100) (Z.pow_pos 2 p)
        | _ => (Zpos m * 2 ^ e * 100)%Z
        end in
      of_decimal s hundredths (-2)
  | _ => x
  end.

(** White space for [float(s)]: the ASCII white space and the two Latin-1
    spaces (the separators 28..31 are white space for [str.strip] only). *)
Definition isspace (c : ascii) : bool :=
  let n := code c in
  (((9 <=? n) && (n <=? 13)) || (n =? 32) || (n =? 133) || (n =? 160))%nat.

(** Underscores may only stand between two digits; they are then dropped.
    [prev] tells whether the character before is a digit. *)
Fixpoint drop_underscores (prev : bool) (s : string) : option string :=
  match s with
  | EmptyString => Some EmptyString
  | String c s' =>
      if Ascii.eqb c "_" then
        match s' with
        | String c' _ =>
            if prev && is_decimal c' then drop_underscores false s' else None
        | EmptyString => None
        end
      else option_map (String c) (drop_underscores (is_decimal c) s')
  end.

(** The longest run of digits at the head of [s], and what follows. *)
Fixpoint span_digits (s : string) : string * string :=
  match s with
  | String c s' =>
      if is_decimal c then let '(d, r) := span_digits s' in (String c d, r)
      else (EmptyString, s)
  | EmptyString => (EmptyString, EmptyString)
  end.

(** The number a run of digits writes. *)
Definition digits_value (d : string) : Z :=
  match NilEmpty.uint_of_string d with
  | Some u => Z.of_uint u
  | None => 0%Z
  end.

(** A sign at the head of [s]. *)
Definition split_sign (s : string) : bool * string :=
  match s with
  | String "-" s' => (true, s')
  | String "+" s' => (false, s')
  | _ => (false, s)
  end.

(** The exponent part: nothing, or [e]/[E], a sign and digits. *)
Definition parse_exponent (s : string) : option Z :=
  match s with
  | EmptyString => Some 0%Z
  | String c s' =>
      if Ascii.eqb c "e" || Ascii.eqb c "E" then
        let '(neg, s'') := split_sign s' in
        let '(d, rest) := span_digits s'' in
        if String.eqb d "" || negb (String.eqb rest "") then None
        else Some (if neg then - digits_value d else digits_value d)%Z
      else None
  end.

(** [float(s)] for a string: [None] is [ValueError]. *)
Definition of_string (s : string) : option float :=
  match drop_underscores false (strip_by isspace s) with
  | None => None
  | Some t =>
      let '(neg, body) := split_sign t in
      let word := lower body in
      if String.eqb word "inf" || String.eqb word "infinity"
      then Some (S754_infinity neg)
      else if String.eqb word "nan" then Some S754_nan
      else
        let '(int_part, rest) := span_digits body in
        let '(frac_part, rest) :=
          match rest with
          | String "." rest' => span_digits rest'
          | _ => (EmptyString, rest)
          end in
        if String.eqb int_part "" && String.eqb frac_part "" then None
        else
          match parse_exponent rest with
          | None => None
          | Some e =>
              Some (of_decimal neg (digits_value (int_part ++ frac_part))
                      (e - Z.of_nat (String.length frac_part)))
          end
  end.

(** [float(v)] *)
Definition of_value (v : value) : exn float :=
  match v with
  | VNone => Raise TypeError
  | VBool b => of_int (if b then 1 else 0)
  | VInt n => of_int n
  | VStr s =>
      match of_string s with
      | Some f => Ok f
      | None => Raise ValueError
      end
  end.

End float.

(** ** [lib/validator.py] *)
Module validator.

Inductive ValidationStatus : Type :=
| PASSED
| PASSED_WITH_WARNINGS
| FAILED
| SKIPPED
| ERROR.

Definition ValidationStatus_eqb (a b : ValidationStatus) : bool :=
  match a, b with
  | PASSED, PASSED | PASSED_WITH_WARNINGS, PASSED_WITH_WARNINGS
  | FAILED, FAILED | SKIPPED, SKIPPED | ERROR, ERROR => true
  | _, _ => false
  end.

(** [class ValidationResult]; the two time stamps are opaque strings. *)
Record ValidationResult : Type := mkResult {
  name : string;
  status : ValidationStatus;
  checks_performed : nat;
  passed_checks : nat;
  warnings : list string;
  errors : list string;
  critical_errors : list string;
  info_messages : list string;
  start_time : option string;
  end_time : option string;
  metadata : dict value
}.

(** [ValidationResult.__init__] *)
Definition new_result (n : string) : ValidationResult :=
  {| name := n; status := PASSED; checks_performed := 0; passed_checks := 0;
     warnings := []; errors := []; critical_errors := []; info_messages := [];
     start_time := None; end_time := None; metadata := [] |}.

Definition set_status (s : ValidationStatus) (r : ValidationResult) :=
  {| name := name r; status := s; checks_performed := checks_performed r;
     passed_checks := passed_checks r; warnings := warnings r;
     errors := errors r; critical_errors := critical_errors r;
     info_messages := info_messages r; start_time := start_time r;
     end_time := end_time r; metadata := metadata r |}.

Definition set_errors (l : list string) (r : ValidationResult) :=
  {| name := name r; status := status r; checks_performed := checks_performed r;
     passed_checks := passed_checks r; warnings := warnings r;
     errors := l; critical_errors := critical_errors r;
     info_messages := info_messages r; start_time := start_time r;
     end_time := end_time r; metadata := metadata r |}.

Definition set_warnings (l : list string) (r : ValidationResult) :=
  {| name := name r; status := status r; checks_performed := checks_performed r;
     passed_checks := passed_checks r; warnings := l;
     errors := errors r; critical_errors := critical_errors r;
     info_messages := info_messages r; start_time := start_time r;
     end_time := end_time r; metadata := metadata r |}.

Definition set_critical_errors (l : list string) (r : ValidationResult) :=
  {| name := name r; status := status r; checks_performed := checks_performed r;
     passed_checks := passed_checks r; warnings := warnings r;
     errors := errors r; critical_errors := l;
     info_messages := info_messages r; start_time := start_time r;
     end_time := end_time r; metadata := metadata r |}.

Definition set_info_messages (l : list string) (r : ValidationResult) :=
  {| name := name r; status := status r; checks_performed := checks_performed r;
     passed_checks := passed_checks r; warnings := warnings r;
     errors := errors r; critical_errors := critical_errors r;
     info_messages := l; start_time := start_time r;
     end_time := end_time r; metadata := metadata r |}.

Definition set_counts (c p : nat) (r : ValidationResult) :=
  {| name := name r; status := status r; checks_performed := c;
     passed_checks := p; warnings := warnings r;
     errors := errors r; critical_errors := critical_errors r;
     info_messages := info_messages r; start_time := start_time r;
     end_time := end_time r; metadata := metadata r |}.

(** The truth value of an optional message ([elif message:]). *)
Definition message_given (message : option string) : bool :=
  match message with
  | Some m => negb (String.eqb m "")
  | None => false
  end.

(** [ValidationResult.add_check(passed, message=None)] *)
Definition add_check (passed : bool) (message : option string)
    (r : ValidationResult) : ValidationResult :=
  let r := set_counts (checks_performed r + 1) (passed_checks r) r in
  if passed then set_counts (checks_performed r) (passed_checks r + 1) r
  else
    match message with
    | Some m => if message_given message then set_errors (errors r ++ [m]) r else r
    | None => r
    end.

(** [ValidationResult.add_warning(message)] *)
Definition add_warning (message : string) (r : ValidationResult) : ValidationResult :=
  let r := set_warnings (warnings r ++ [message]) r in
  if ValidationStatus_eqb (status r) PASSED
  then set_status PASSED_WITH_WARNINGS r
  else r.

(** [ValidationResult.add_error(message, critical=False)] *)
Definition add_error (message : string) (critical : bool)
    (r : ValidationResult) : ValidationResult :=
  if critical then
    let r := set_critical_errors (critical_errors r ++ [message]) r in
    set_status FAILED r
  else
    let r := set_errors (errors r ++ [message]) r in
    if ValidationStatus_eqb (status r) PASSED
       || ValidationStatus_eqb (status r) PASSED_WITH_WARNINGS
    then set_status FAILED r
    else r.

(** [ValidationResult.add_info(message)] *)
Definition add_info (message : string) (r : ValidationResult) : ValidationResult :=
  set_info_messages (info_messages r ++ [message]) r.

(** A call of one of the four recording methods, and a sequence of them
    applied in order to one result. *)
Inductive call : Type :=
| AddCheck (passed : bool) (message : option string)
| AddWarning (message : string)
| AddError (message : string) (critical : bool)
| AddInfo (message : string).

Definition do_call (c : call) (r : ValidationResult) : ValidationResult :=
  match c with
  | AddCheck p m => add_check p m r
  | AddWarning m => add_warning m r
  | AddError m c => add_error m c r
  | AddInfo m => add_info m r
  end.

Definition do_calls (cs : list call) (r : ValidationResult) : ValidationResult :=
  fold_left (fun r c => do_call c r) cs r.

(** What a call leaves behind: the result object is mutated in place, so it
    keeps the messages recorded before an exception. *)
Inductive outcome : Type :=
| Returned (r : ValidationResult)
| Raised (e : pyexc) (r : ValidationResult).

(** [s.replace(old, new)] for a one-character [old]. *)
Fixpoint replace_char (old : ascii) (new : string) (s : string) : string :=
  match s with
  | EmptyString => EmptyString
  | String c s' =>
      if Ascii.eqb c old then new ++ replace_char old new s'
      else String c (replace_char old new s')
  end.

(** [VALID_APL_STATUS] *)
Definition VALID_APL_STATUS : list value :=
  [VStr "applied"; VStr "failed"; VStr "skipped"; VStr "pending"].

(** A JSON document as [json.load] returns it, as far as [validate_apl_file]
    looks into it. *)
Inductive json : Type :=
| JScalar (v : value)
| JList (items : list (dict value))
| JObject (entries : option (list (dict value))) (timestamp : option value)
    (user : option value) (summary : option (dict value)).

Inductive loaded : Type :=
| FileNotFound
| InvalidJSON (msg : string)
| Parsed (data : json).

Section Validator.

(** [datetime.fromisoformat(s)] returns ([true]) or raises [ValueError]. *)
Variable fromisoformat : string -> bool.
(** [str(e)] of a caught exception. *)
Variable exc_text : pyexc -> string.

(** [MergerValidator._validate_timestamp(timestamp, result, context)] *)
Definition _validate_timestamp (timestamp : value) (result : ValidationResult)
    (context : string) : outcome :=
  match timestamp with
  | VStr ts =>
      if fromisoformat (replace_char "Z" "+00:00" ts) then
        Returned (add_check true
          (Some (if String.eqb context "" then "Timestamp valid"
                 else context ++ " timestamp valid")) result)
      else
        Returned (add_error
          (if String.eqb context "" then "Invalid timestamp format: " ++ ts
           else context ++ " Invalid timestamp format: " ++ ts) false result)
  | _ => Raised AttributeError result
  end.

(** The part of the loop body of [_validate_apl_entries] up to the time
    stamp: the status check. *)
Definition apl_check_status (i : nat) (entry : dict value)
    (result : ValidationResult) : ValidationResult :=
  match dict_get "status" entry with
  | Some status =>
      let result :=
        if negb (py_in status VALID_APL_STATUS)
        then add_error ("Entry " ++ str_of_nat i ++ ": Invalid status '"
                        ++ str status ++ "'") false result
        else result in
      if py_eqb status (VStr "failed") && negb (has_key "error" entry)
      then add_warning ("Entry " ++ str_of_nat i
                        ++ ": Failed status without error message") result
      else result
  | None => result
  end.

(** The sequence check, with the set [seen_sequences]. *)
Definition apl_check_sequence (i : nat) (entry : dict value)
    (seen_sequences : list value) (result : ValidationResult)
    : list value * ValidationResult :=
  match dict_get "sequence" entry with
  | Some seq =>
      let result :=
        if py_in seq seen_sequences
        then add_error ("Entry " ++ str_of_nat i ++ ": Duplicate sequence number "
                        ++ str seq) false result
        else result in
      (if py_in seq seen_sequences then seen_sequences
       else (seen_sequences ++ [seq])%list,
       result)
  | None => (seen_sequences, result)
  end.

(** The command check. *)
Definition apl_check_command (i : nat) (entry : dict value)
    (result : ValidationResult) : ValidationResult :=
  match dict_get "command" entry with
  | Some cmd =>
      let bad := match cmd with
                 | VStr c => String.eqb (strip c) ""
                 | _ => true
                 end in
      if bad then add_error ("Entry " ++ str_of_nat i ++ ": Invalid command") false result
      else result
  | None => result
  end.

(** The [for i, entry in enumerate(entries)] loop of [_validate_apl_entries]. *)
Fixpoint apl_entries_loop (i : nat) (entries : list (dict value))
    (seen_sequences : list value) (result : ValidationResult) : outcome :=
  match entries with
  | [] => Returned result
  | entry :: rest =>
      if negb (has_key "asset_id" entry) then
        apl_entries_loop (S i) rest seen_sequences
          (add_error ("Entry " ++ str_of_nat i ++ ": Missing asset_id") false result)
      else
        let result := apl_check_status i entry result in
        let '(seen_sequences, result) :=
          apl_check_sequence i entry seen_sequences result in
        let after_timestamp :=
          match dict_get "timestamp" entry with
          | Some ts => _validate_timestamp ts result ("Entry " ++ str_of_nat i)
          | None => Returned result
          end in
        match after_timestamp with
        | Raised e result => Raised e result
        | Returned result =>
            apl_entries_loop (S i) rest seen_sequences
              (apl_check_command i entry result)
        end
  end.

(** [MergerValidator._validate_apl_entries(entries, result)] *)
Definition _validate_apl_entries (entries : list (dict value))
    (result : ValidationResult) : outcome :=
  match apl_entries_loop 0 entries [] result with
  | Raised e result => Raised e result
  | Returned result =>
      Returned (add_check (Nat.eqb (List.length (errors result)) 0)
                  (Some "APL entries validation") result)
  end.

Definition set_metadata (k : string) (v : value) (r : ValidationResult) :=
  {| name := name r; status := status r; checks_performed := checks_performed r;
     passed_checks := passed_checks r; warnings := warnings r;
     errors := errors r; critical_errors := critical_errors r;
     info_messages := info_messages r; start_time := start_time r;
     end_time := end_time r;
     metadata := if has_key k (metadata r)
                 then map (fun kv => if String.eqb (fst kv) k then (k, v) else kv)
                        (metadata r)
                 else (metadata r ++ [(k, v)])%list |}.

Definition set_times (t0 t1 : option string) (r : ValidationResult) :=
  {| name := name r; status := status r; checks_performed := checks_performed r;
     passed_checks := passed_checks r; warnings := warnings r;
     errors := errors r; critical_errors := critical_errors r;
     info_messages := info_messages r; start_time := t0;
     end_time := t1; metadata := metadata r |}.

Definition then_do (o : outcome) (k : ValidationResult -> outcome) : outcome :=
  match o with
  | Returned r => k r
  | Raised e r => Raised e r
  end.

Definition or_default (d : value) (o : option value) : value :=
  match o with
  | Some v => v
  | None => d
  end.

(** The [try] block of [validate_apl_file] once the document is loaded. *)
Definition validate_apl_data (data : json) (result : ValidationResult) : outcome :=
  let result := add_check true (Some "JSON structure valid") result in
  match data with
  | JObject entries timestamp user summary =>
      then_do
        (match entries with
         | Some entries =>
             _validate_apl_entries entries
               (add_info ("Found " ++ str_of_nat (List.length entries) ++ " entries")
                  result)
         | None => Returned result
         end)
        (fun result =>
           then_do
             (match timestamp with
              | Some ts => _validate_timestamp ts result ""
              | None => Returned result
              end)
             (fun result =>
                let result :=
                  match user with
                  | Some u => add_info ("Applied by user: " ++ str u) result
                  | None => result
                  end in
                Returned
                  match summary with
                  | Some stats =>
                      set_metadata "skipped" (or_default (VInt 0) (dict_get "skipped" stats))
                        (set_metadata "failed" (or_default (VInt 0) (dict_get "failed" stats))
                           (set_metadata "applied"
                              (or_default (VInt 0) (dict_get "applied" stats)) result))
                  | None => result
                  end))
  | JList items =>
      _validate_apl_entries items
        (add_info ("Found " ++ str_of_nat (List.length items) ++ " items") result)
  | JScalar _ =>
      Returned (add_error "Invalid APL structure: expected dict or list" false result)
  end.

(** [MergerValidator.validate_apl_file(filepath)]: [filename] is
    [Path(filepath).name], [file] what opening and loading [filepath] gives,
    [t0] and [t1] the two readings of the clock. *)
Definition validate_apl_file (filepath filename : string) (file : loaded)
    (t0 t1 : string) : ValidationResult :=
  let result := set_times (Some t0) None (new_result ("APL File: " ++ filename)) in
  let result :=
    match file with
    | FileNotFound => add_error ("File not found: " ++ filepath) true result
    | InvalidJSON msg => add_error ("Invalid JSON: " ++ msg) true result
    | Parsed data =>
        match validate_apl_data data result with
        | Returned result => result
        | Raised e result => add_error ("Validation error: " ++ exc_text e) true result
        end
    end in
  set_times (start_time result) (Some t1) result.

End Validator.

(** The sequence numbers of a change list, in order of appearance. *)
Definition sequences (entries : list (dict value)) : list value :=
  flat_map (fun entry => match dict_get "sequence" entry with
                         | Some seq => [seq]
                         | None => []
                         end) entries.

(** No two of the values are equal ([==]). *)
Fixpoint py_distinct (l : list value) : bool :=
  match l with
  | [] => true
  | v :: l' => negb (py_in v l') && py_distinct l'
  end.

(** How many entries create the asset [asset_id]. *)
Definition create_count (asset_id : value) (entries : list (dict value)) : nat :=
  List.length
    (filter (fun entry =>
               match dict_get "asset_id" entry, dict_get "operation" entry with
               | Some a, Some op => py_eqb a asset_id && py_eqb op (VStr "create")
               | _, _ => false
               end) entries).

(** The entries of a change-list document. *)
Definition apl_entries (data : json) : list (dict value) :=
  match data with
  | JObject (Some entries) _ _ _ => entries
  | JList items => items
  | _ => []
  end.

End validator.

(** ** [lib/sorter.py] *)
Module sorter.

(** An element of a sort key: an [int], a [str], or [float('inf')]. *)
Inductive key_part : Type :=
| KInt (z : Z)
| KStr (s : string)
| KInf.

(** [x == y] on key elements. *)
Definition key_part_eqb (x y : key_part) : bool :=
  match x, y with
  | KInt a, KInt b => Z.eqb a b
  | KStr a, KStr b => String.eqb a b
  | KInf, KInf => true
  | _, _ => false
  end.

(** [x < y] on key elements: numbers with numbers, strings with strings by
    code point; a number and a string raise [TypeError]. *)
Definition key_part_ltb (x y : key_part) : exn bool :=
  match x, y with
  | KInt a, KInt b => Ok (Z.ltb a b)
  | KInt _, KInf => Ok true
  | KInf, KInt _ => Ok false
  | KInf, KInf => Ok false
  | KStr a, KStr b => Ok (String.ltb a b)
  | _, _ => Raise TypeError
  end.

(** [a < b] on lists: the first pair of unequal elements decides, and a
    proper prefix is smaller. *)
Fixpoint key_ltb (a b : list key_part) : exn bool :=
  match a, b with
  | [], [] => Ok false
  | [], _ :: _ => Ok true
  | _ :: _, [] => Ok false
  | x :: a', y :: b' =>
      if key_part_eqb x y then key_ltb a' b' else key_part_ltb x y
  end.

(** [a > b] on lists. *)
Fixpoint key_gtb (a b : list key_part) : exn bool :=
  match a, b with
  | [], [] => Ok false
  | [], _ :: _ => Ok false
  | _ :: _, [] => Ok true
  | x :: a', y :: b' =>
      if key_part_eqb x y then key_gtb a' b' else key_part_ltb y x
  end.

(** The loop of [natural_sort_key] over the parts of the split. *)
Fixpoint key_parts (parts : list string) : exn (list key_part) :=
  match parts with
  | [] => Ok []
  | part :: rest =>
      if isdigit part then
        bind (int_of_digits part) (fun n =>
        bind (key_parts rest) (fun ks => Ok (KInt n :: ks)))
      else if negb (String.eqb part "") then
        bind (key_parts rest) (fun ks => Ok (KStr part :: ks))
      else key_parts rest
  end.

(** [SortingStrategy.natural_sort_key(text)] *)
Definition natural_sort_key (text : value) : exn (list key_part) :=
  match text with
  | VNone => Ok [KInf; KStr ""]
  | _ =>
      let text := lower (strip (str text)) in
      bind (key_parts (re_split_digits text)) (fun parts =>
      Ok match parts with
         | [] => [KStr ""]
         | _ => parts
         end)
  end.

(** An asset: a dictionary of fields. *)
Definition asset : Type := dict value.

(** [d.get(k, default)] *)
Definition get_default (k : string) (default : value) (d : asset) : value :=
  match dict_get k d with
  | Some v => v
  | None => default
  end.

(** [SortingStrategy.asset_id_comparator(a, b)]: -1, 0 or 1. *)
Definition asset_id_comparator (a b : asset) : exn Z :=
  let a_id := get_default "asset_id" (VStr "") a in
  let b_id := get_default "asset_id" (VStr "") b in
  if negb (truthy a_id) && negb (truthy b_id) then Ok 0%Z
  else if negb (truthy a_id) then Ok 1%Z
  else if negb (truthy b_id) then Ok (-1)%Z
  else
    bind (natural_sort_key a_id) (fun a_key =>
    bind (natural_sort_key b_id) (fun b_key =>
    bind (key_ltb a_key b_key) (fun lt =>
    if lt then Ok (-1)%Z
    else bind (key_gtb a_key b_key) (fun gt =>
         if gt then Ok 1%Z else Ok 0%Z))))%Z.

(** [sorted(l, key=cmp_to_key(cmp))]: the sort only asks [K(x) < K(y)], that
    is [cmp(x, y) < 0].  Python's sort is stable; which pairs it compares is
    its own affair, and it is modelled by insertion: each element, in turn,
    goes before the first element it is smaller than.  A comparison that
    raises ends the sort. *)
Section Sorted.
Context {A : Type}.
Variable cmp : A -> A -> exn Z.

Definition cmp_lt (x y : A) : exn bool :=
  bind (cmp x y) (fun c => Ok (Z.ltb c 0)).

Fixpoint insert (x : A) (l : list A) : exn (list A) :=
  match l with
  | [] => Ok [x]
  | y :: l' =>
      bind (cmp_lt x y) (fun lt =>
      if lt then Ok (x :: y :: l')
      else bind (insert x l') (fun r => Ok (y :: r)))
  end.

Definition stable_sort (l : list A) : exn (list A) :=
  fold_left (fun acc x => bind acc (insert x)) l (Ok []).

(** [sorted(l, key=cmp_to_key(cmp), reverse=reverse)]: with [reverse] the
    list is reversed, sorted, and reversed again. *)
Definition sorted (l : list A) (reverse : bool) : exn (list A) :=
  if reverse then bind (stable_sort (rev l)) (fun r => Ok (rev r))
  else stable_sort l.

End Sorted.

(** [SortingStrategy.FIELD_PRIORITY] *)
Definition FIELD_PRIORITY : dict Z :=
  [("asset_id", 1); ("ip_address", 2); ("hostname", 3); ("serial_number", 4);
   ("model", 5); ("manufacturer", 6); ("location", 7); ("department", 8);
   ("status", 9); ("last_updated", 90); ("created_date", 91); ("notes", 99)]%Z.

(** [field_sort_key(field)]: the pair (priority, lower-cased name). *)
Definition field_sort_key (field : string) : Z * string :=
  (match dict_get (lower field) FIELD_PRIORITY with
   | Some p => p
   | None => 50%Z
   end, lower field).

(** The comparison of two such pairs, as a three-way result. *)
Definition field_cmp (f g : string) : exn Z :=
  let '(p, n) := field_sort_key f in
  let '(q, m) := field_sort_key g in
  Ok (if Z.ltb p q then (-1)%Z
      else if Z.ltb q p then 1%Z
      else if String.ltb n m then (-1)%Z
      else if String.ltb m n then 1%Z
      else 0%Z).

(** [SortingStrategy.sort_asset_fields(asset)]: the same bindings, the keys
    in sorted order. *)
Definition sort_asset_fields (a : asset) : asset :=
  match sorted field_cmp (keys a) false with
  | Ok ks => map (fun k => (k, get_default k VNone a)) ks
  | Raise _ => a
  end.

(** The body of [sort_assets] around a sorting procedure [py_sorted]:
    whatever is raised while sorting is caught, and the list passed in is
    returned. *)
Definition sort_assets_with (py_sorted : list asset -> bool -> exn (list asset))
    (assets : list asset) (reverse : bool) : list asset :=
  match py_sorted assets reverse with
  | Ok sorted_assets => map sort_asset_fields sorted_assets
  | Raise _ => assets
  end.

(** [SortingStrategy.sort_assets(assets, reverse=False)] *)
Definition sort_assets (assets : list asset) (reverse : bool) : list asset :=
  sort_assets_with (sorted asset_id_comparator) assets reverse.

(** [d.get(k)] *)
Definition get (k : string) (d : asset) : value := get_default k VNone d.

(** The body of the loop of [validate_sort_order] for one adjacent pair:
    [Some false] is [return False], [None] goes on to the next pair. *)
Definition check_pair (key_field : string) (prev curr : asset)
    : exn (option bool) :=
  let prev_val := get key_field prev in
  let curr_val := get key_field curr in
  if is_none prev_val && negb (is_none curr_val) then Ok (Some false)
  else if is_none prev_val || is_none curr_val then Ok None
  else
    bind (natural_sort_key (VStr (str prev_val))) (fun prev_key =>
    bind (natural_sort_key (VStr (str curr_val))) (fun curr_key =>
    bind (key_gtb prev_key curr_key) (fun gt =>
    if gt then Ok (Some false) else Ok None))).

(** [SortingStrategy.validate_sort_order(items, key_field='asset_id')] *)
Fixpoint validate_sort_order_from (key_field : string) (prev : asset)
    (rest : list asset) : exn bool :=
  match rest with
  | [] => Ok true
  | curr :: rest' =>
      bind (check_pair key_field prev curr) (fun r =>
      match r with
      | Some b => Ok b
      | None => validate_sort_order_from key_field curr rest'
      end)
  end.

Definition validate_sort_order (items : list asset) (key_field : string)
    : exn bool :=
  match items with
  | [] => Ok true
  | first :: rest => validate_sort_order_from key_field first rest
  end.

End sorter.

(** ** [lib/differ.py] *)
Module differ.

(** The configuration read by [DifferAgent.__init__]. *)
Record config : Type := mkConfig {
  case_sensitive : bool;
  normalize_whitespace : bool;
  excluded_fields : list string;
  tolerance : float.float
}.

(** The configuration when no [config] is passed: the tolerance is the
    float [0.01]. *)
Definition default_config : config :=
  {| case_sensitive := false;
     normalize_whitespace := true;
     excluded_fields := [];
     tolerance := float.of_decimal false 1 (-2) |}.

(** [self.stats] *)
Record stats : Type := mkStats {
  total_assets_processed : nat;
  matched_assets : nat;
  zabbix_only : nat;
  topdesk_only : nat;
  assets_with_differences : nat;
  total_differences : nat
}.

Definition new_stats : stats :=
  {| total_assets_processed := 0; matched_assets := 0; zabbix_only := 0;
     topdesk_only := 0; assets_with_differences := 0; total_differences := 0 |}.

(** One entry of a list of differences. *)
Record difference : Type := mkDifference {
  field_name : string;
  zabbix_value : value;
  topdesk_value : value;
  difference_type : string
}.

Section Differ.
Variable self : config.

(** [DifferAgent.normalize_value(value)] *)
Definition normalize_value (v : value) : value :=
  match v with
  | VNone => VStr "null"
  | VStr s =>
      let s := if normalize_whitespace self
               then String.concat " " (split_ws s) else s in
      let s := if negb (case_sensitive self) then lower s else s in
      VStr s
  | _ => v
  end.

(** [DifferAgent.compare_values(zabbix_val, topdesk_val, field_name)]: the
    [try] catches [ValueError] and [TypeError]; an [OverflowError] of
    [float(...)] leaves the function. *)
Definition compare_values (zabbix_val topdesk_val : value) (field : string)
    : exn bool :=
  if is_none zabbix_val && is_none topdesk_val then Ok true
  else if is_none zabbix_val || is_none topdesk_val then Ok false
  else
    let zabbix_norm := normalize_value zabbix_val in
    let topdesk_norm := normalize_value topdesk_val in
    match float.of_value zabbix_val with
    | Ok zabbix_num =>
        match float.of_value topdesk_val with
        | Ok topdesk_num =>
            Ok (float.leb (float.abs (float.sub zabbix_num topdesk_num))
                  (tolerance self))
        | Raise OverflowError => Raise OverflowError
        | Raise _ => Ok (py_eqb zabbix_norm topdesk_norm)
        end
    | Raise OverflowError => Raise OverflowError
    | Raise _ => Ok (py_eqb zabbix_norm topdesk_norm)
    end.

Definition excluded (field : string) : bool :=
  existsb (String.eqb field) (excluded_fields self).

(** [DifferAgent._handle_single_system_asset(asset_id, asset_data, system)] *)
Definition _handle_single_system_asset (asset_id : string)
    (asset_data : dict value) (system : string) : list difference :=
  let differences :=
    flat_map (fun item =>
      let '(field, v) := item in
      if negb (excluded field) then
        [ {| field_name := field;
             zabbix_value := if String.eqb system "zabbix" then v else VStr "null";
             topdesk_value := if String.eqb system "topdesk" then v else VStr "null";
             difference_type :=
               "missing_in_" ++ (if String.eqb system "zabbix" then "topdesk"
                                 else "zabbix") |} ]
      else []) asset_data in
  {| field_name := "_system_presence";
     zabbix_value := VStr (if String.eqb system "zabbix" then "present" else "absent");
     topdesk_value := VStr (if String.eqb system "topdesk" then "present" else "absent");
     difference_type := "asset_missing" |} :: differences.

(** [d.get(k)] *)
Definition get (k : string) (d : dict value) : value :=
  match dict_get k d with
  | Some v => v
  | None => VNone
  end.

(** [set(a.keys()) | set(b.keys())]: a set has no order of its own; the
    elements are taken in the order of [nodup]. *)
Definition union_keys {V : Type} (a b : dict V) : list string :=
  nodup string_dec (keys a ++ keys b).

(** The loop of [_compare_matched_assets] over the fields. *)
Fixpoint compare_fields (fields : list string) (zabbix_asset topdesk_asset : dict value)
    : exn (list difference) :=
  match fields with
  | [] => Ok []
  | field :: rest =>
      if excluded field then compare_fields rest zabbix_asset topdesk_asset
      else
        let zabbix_value := get field zabbix_asset in
        let topdesk_value := get field topdesk_asset in
        bind
          (if negb (has_key field zabbix_asset) then
             Ok [ {| field_name := field; zabbix_value := VStr "null";
                     topdesk_value := VStr (str topdesk_value);
                     difference_type := "missing_in_zabbix" |} ]
           else if negb (has_key field topdesk_asset) then
             Ok [ {| field_name := field; zabbix_value := VStr (str zabbix_value);
                     topdesk_value := VStr "null";
                     difference_type := "missing_in_topdesk" |} ]
           else
             bind (compare_values zabbix_value topdesk_value field) (fun equal =>
             if negb equal then
               Ok [ {| field_name := field; zabbix_value := VStr (str zabbix_value);
                       topdesk_value := VStr (str topdesk_value);
                       difference_type := "value_mismatch" |} ]
             else Ok []))
          (fun diff =>
           bind (compare_fields rest zabbix_asset topdesk_asset) (fun diffs =>
           Ok (diff ++ diffs)%list))
  end.

(** [DifferAgent._compare_matched_assets(zabbix_asset, topdesk_asset)] *)
Definition _compare_matched_assets (zabbix_asset topdesk_asset : dict value)
    : exn (list difference) :=
  compare_fields (union_keys zabbix_asset topdesk_asset) zabbix_asset topdesk_asset.

(** [d.get(k, {})] *)
Definition get_asset (k : string) (d : dict (dict value)) : dict value :=
  match dict_get k d with
  | Some a => a
  | None => []
  end.

(** [not asset] for a dictionary. *)
Definition is_empty (a : dict value) : bool :=
  match a with
  | [] => true
  | _ => false
  end.

Definition count_asset (which : nat) (st : stats) : stats :=
  {| total_assets_processed := total_assets_processed st;
     matched_assets := matched_assets st + (if Nat.eqb which 0 then 1 else 0);
     zabbix_only := zabbix_only st + (if Nat.eqb which 1 then 1 else 0);
     topdesk_only := topdesk_only st + (if Nat.eqb which 2 then 1 else 0);
     assets_with_differences := assets_with_differences st;
     total_differences := total_differences st |}.

Definition count_differences (n : nat) (st : stats) : stats :=
  {| total_assets_processed := total_assets_processed st;
     matched_assets := matched_assets st;
     zabbix_only := zabbix_only st;
     topdesk_only := topdesk_only st;
     assets_with_differences := assets_with_differences st + 1;
     total_differences := total_differences st + n |}.

Definition set_total (n : nat) (st : stats) : stats :=
  {| total_assets_processed := n;
     matched_assets := matched_assets st;
     zabbix_only := zabbix_only st;
     topdesk_only := topdesk_only st;
     assets_with_differences := assets_with_differences st;
     total_differences := total_differences st |}.

(** The loop of [compare_assets] over the asset identifiers. *)
Fixpoint compare_ids (ids : list string) (zabbix_data topdesk_data : dict (dict value))
    (all_differences : dict (list difference)) (st : stats)
    : exn (dict (list difference) * stats) :=
  match ids with
  | [] => Ok (all_differences, st)
  | asset_id :: rest =>
      let zabbix_asset := get_asset asset_id zabbix_data in
      let topdesk_asset := get_asset asset_id topdesk_data in
      bind
        (if is_empty zabbix_asset then
           Ok (count_asset 2 st,
               _handle_single_system_asset asset_id topdesk_asset "topdesk")
         else if is_empty topdesk_asset then
           Ok (count_asset 1 st,
               _handle_single_system_asset asset_id zabbix_asset "zabbix")
         else
           bind (_compare_matched_assets zabbix_asset topdesk_asset) (fun differences =>
           Ok (count_asset 0 st, differences)))
        (fun r =>
         let '(st, differences) := r in
         match differences with
         | [] => compare_ids rest zabbix_data topdesk_data all_differences st
         | _ =>
             compare_ids rest zabbix_data topdesk_data
               (all_differences ++ [(asset_id, differences)])%list
               (count_differences (List.length differences) st)
         end)
  end.

(** [DifferAgent.compare_assets(zabbix_data, topdesk_data)], from the
    statistics [st] the agent holds when it is called. *)
Definition compare_assets (zabbix_data topdesk_data : dict (dict value)) (st : stats)
    : exn (dict (list difference) * stats) :=
  let all_asset_ids := union_keys zabbix_data topdesk_data in
  compare_ids all_asset_ids zabbix_data topdesk_data []
    (set_total (List.length all_asset_ids) st).

End Differ.

(** The document [generate_dif_file] builds before it writes it. *)
Record dif_content : Type := mkContent {
  asset_id : string;
  timestamp : string;
  content_total_differences : nat;
  differences : list (string * value * value);
  note : option string;
  value_mismatches : nat;
  missing_in_zabbix : nat;
  missing_in_topdesk : nat;
  similarity_score : option float.float
}.

(** The last difference of type [asset_missing], if any. *)
Definition find_asset_missing (diffs : list difference) : option difference :=
  fold_left (fun found d =>
               if String.eqb (difference_type d) "asset_missing" then Some d
               else found) diffs None.

Definition count_type (t : string) (diffs : list difference) : nat :=
  List.length (filter (fun d => String.eqb (difference_type d) t) diffs).

(** The names other than the presence marker. *)
Definition field_names (diffs : list difference) : list string :=
  map field_name
    (filter (fun d => negb (String.eqb (field_name d) "_system_presence")) diffs).

(** The similarity score of [generate_dif_file]. *)
Definition similarity (asset_missing : option difference) (diffs : list difference)
    : exn (option float.float) :=
  match asset_missing, diffs with
  | None, _ :: _ =>
      let total_fields := List.length (nodup string_dec (field_names diffs)) in
      let matching_fields := (Z.of_nat total_fields - Z.of_nat (List.length diffs))%Z in
      if (0 <? total_fields)%nat then
        bind (float.int_truediv matching_fields (Z.of_nat total_fields)) (fun ratio =>
        bind (float.of_int 100) (fun hundred =>
        Ok (Some (float.round2 (float.mul ratio hundred)))))
      else Ok None
  | _, _ => Ok None
  end.

(** The first part of [DifferAgent.generate_dif_file(asset_id, differences)]:
    the document, with the reading [now] of the clock. *)
Definition build_dif_content (now : string) (id : string) (diffs : list difference)
    : exn dif_content :=
  let asset_missing := find_asset_missing diffs in
  bind (similarity asset_missing diffs) (fun score =>
  Ok {| asset_id := id;
        timestamp := now;
        content_total_differences := List.length diffs;
        differences :=
          map (fun d => (field_name d, zabbix_value d, topdesk_value d))
            (filter (fun d => negb (String.eqb (field_name d) "_system_presence"))
               diffs);
        note :=
          match asset_missing with
          | Some d =>
              if py_eqb (zabbix_value d) (VStr "absent")
              then Some "Asset exists only in Topdesk system"
              else Some "Asset exists only in Zabbix system"
          | None => None
          end;
        value_mismatches := count_type "value_mismatch" diffs;
        missing_in_zabbix := count_type "missing_in_zabbix" diffs;
        missing_in_topdesk := count_type "missing_in_topdesk" diffs;
        similarity_score := score |}).

Section Writer.
(** [str(x)] of a float, as an f-string writes it. *)
Variable float_repr : float.float -> string.

(** The three lines of one difference. *)
Definition difference_lines (d : string * value * value) : string :=
  let '(field, zabbix, topdesk) := d in
  "  - field_name: " ++ field ++ nl
  ++ "    zabbix_value: " ++ quote ++ str zabbix ++ quote ++ nl
  ++ "    topdesk_value: " ++ quote ++ str topdesk ++ quote ++ nl.

(** The comment lines that close the file. *)
Definition trailer (c : dif_content) : string :=
  nl ++ "# Generated: " ++ timestamp c ++ nl
  ++ "# Total differences: " ++ str_of_nat (content_total_differences c) ++ nl
  ++ match similarity_score c with
     | Some score => "# Similarity score: " ++ float_repr score ++ "%" ++ nl
     | None => ""
     end
  ++ "# Value mismatches: " ++ str_of_nat (value_mismatches c) ++ nl
  ++ "# Missing in Zabbix: " ++ str_of_nat (missing_in_zabbix c) ++ nl
  ++ "# Missing in Topdesk: " ++ str_of_nat (missing_in_topdesk c) ++ nl.

(** The second part of [generate_dif_file]: the text written to the file. *)
Definition dif_text (c : dif_content) : string :=
  "asset_id: " ++ asset_id c ++ nl
  ++ match note c with
     | Some n => "note: " ++ n ++ nl
     | None => ""
     end
  ++ "differences:" ++ nl
  ++ String.concat "" (map difference_lines (differences c))
  ++ trailer c.

(** [DifferAgent.generate_dif_file(asset_id, differences)]: the text of the
    file [<asset_id>.dif]. *)
Definition generate_dif_file (now : string) (id : string) (diffs : list difference)
    : exn string :=
  bind (build_dif_content now id diffs) (fun c => Ok (dif_text c)).

End Writer.

End differ.

(** ** [lib/differ_utils.py] *)
Module differ_utils.

(** [f.readlines()] of a file opened in text mode: a line ends at a line
    feed, at a carriage return, or at the two in a row, and carries a line
    feed at its end; the last line may have none. *)
Fixpoint readlines (s : string) : list string :=
  match s with
  | EmptyString => []
  | String c s' =>
      let r := readlines s' in
      if Ascii.eqb c LF then nl :: r
      else if Ascii.eqb c CR then
        match s' with
        | String c' _ => if Ascii.eqb c' LF then r else nl :: r
        | EmptyString => nl :: r
        end
      else
        match s' with
        | EmptyString => [String c EmptyString]
        | _ => match r with
               | l :: tl => String c l :: tl
               | [] => [String c EmptyString]
               end
        end
  end.

(** [d[k] = v] *)
Fixpoint dict_set {V : Type} (k : string) (v : V) (d : dict V) : dict V :=
  match d with
  | [] => [(k, v)]
  | (k', v') :: d' =>
      if String.eqb k k' then (k, v) :: d' else (k', v') :: dict_set k v d'
  end.

(** [parsed_data], without the [metadata] read from the comment lines. *)
Record parsed_data : Type := mkParsed {
  asset_id : option string;
  note : option string;
  differences : list (dict string)
}.

(** The variables of the loop of [parse_dif_file]. *)
Record parser : Type := mkParser {
  data : parsed_data;
  current_section : option string;
  current_diff : dict string
}.

Definition initial : parser :=
  {| data := {| asset_id := None; note := None; differences := [] |};
     current_section := None;
     current_diff := [] |}.

Definition field_after_colon (line : string) : string :=
  match after_colon line with
  | Some rest => strip rest
  | None => ""
  end.

(** The body of the loop, for one line of the file. *)
Definition parse_line (st : parser) (line : string) : parser :=
  let line := strip line in
  if String.eqb line "" then st
  else if startswith "#" line then st
  else if startswith "asset_id:" line then
    {| data := {| asset_id := Some (field_after_colon line);
                  note := note (data st);
                  differences := differences (data st) |};
       current_section := current_section st;
       current_diff := current_diff st |}
  else if startswith "note:" line then
    {| data := {| asset_id := asset_id (data st);
                  note := Some (field_after_colon line);
                  differences := differences (data st) |};
       current_section := current_section st;
       current_diff := current_diff st |}
  else if String.eqb line "differences:" then
    {| data := data st;
       current_section := Some "differences";
       current_diff := current_diff st |}
  else
    match current_section st with
    | Some "differences" =>
        if startswith "- field_name:" line then
          {| data :=
               match current_diff st with
               | [] => data st
               | _ => {| asset_id := asset_id (data st);
                         note := note (data st);
                         differences := (differences (data st)
                                         ++ [current_diff st])%list |}
               end;
             current_section := current_section st;
             current_diff := [("field_name", field_after_colon line)] |}
        else if startswith "zabbix_value:" line then
          {| data := data st;
             current_section := current_section st;
             current_diff :=
               dict_set "zabbix_value" (strip_char QUOTE (field_after_colon line))
                 (current_diff st) |}
        else if startswith "topdesk_value:" line then
          {| data := data st;
             current_section := current_section st;
             current_diff :=
               dict_set "topdesk_value" (strip_char QUOTE (field_after_colon line))
                 (current_diff st) |}
        else st
    | _ => st
    end.

(** [DifFileParser.parse_dif_file(filepath)], on the text of the file. *)
Definition parse_dif_file (text : string) : parsed_data :=
  let st := fold_left parse_line (readlines text) initial in
  match current_diff st with
  | [] => data st
  | _ => {| asset_id := asset_id (data st);
            note := note (data st);
            differences := (differences (data st) ++ [current_diff st])%list |}
  end.

End differ_utils.

(** ** Further code of the four files *)

(** *** [ValidationResult.get_summary] *)
Module ValidationResult_summary.
Import validator sorter differ differ_utils.

(** [ValidationStatus.value] *)
Definition status_value (s : ValidationStatus) : string :=
  match s with
  | PASSED => "PASSED"
  | PASSED_WITH_WARNINGS => "PASSED_WITH_WARNINGS"
  | FAILED => "FAILED"
  | SKIPPED => "SKIPPED"
  | ERROR => "ERROR"
  end.

(** The dictionary [get_summary] returns; [duration] is the type of what
    [total_seconds()] gives. *)
Record summary (duration : Type) : Type := mkSummary {
  summary_name : string;
  summary_status : string;
  summary_checks_performed : nat;
  summary_passed_checks : nat;
  failed_checks : Z;
  warnings_count : nat;
  errors_count : nat;
  critical_errors_count : nat;
  duration_seconds : option duration;
  summary_timestamp : string
}.
Arguments mkSummary {duration}.
Arguments summary_name {duration}.
Arguments summary_status {duration}.
Arguments summary_checks_performed {duration}.
Arguments summary_passed_checks {duration}.
Arguments failed_checks {duration}.
Arguments warnings_count {duration}.
Arguments errors_count {duration}.
Arguments critical_errors_count {duration}.
Arguments duration_seconds {duration}.
Arguments summary_timestamp {duration}.

(** [ValidationResult.get_summary()]: [total_seconds t1 t0] is
    [(t1 - t0).total_seconds()], [now] the reading of the clock. *)
Definition get_summary {duration : Type} (total_seconds : string -> string -> duration)
    (now : string) (self : ValidationResult) : summary duration :=
  {| summary_name := name self;
     summary_status := status_value (status self);
     summary_checks_performed := checks_performed self;
     summary_passed_checks := passed_checks self;
     failed_checks := Z.of_nat (checks_performed self) - Z.of_nat (passed_checks self);
     warnings_count := List.length (warnings self);
     errors_count := List.length (errors self);
     critical_errors_count := List.length (critical_errors self);
     duration_seconds :=
       match start_time self, end_time self with
       | Some t0, Some t1 => Some (total_seconds t1 t0)
       | _, _ => None
       end;
     summary_timestamp := now |}.

End ValidationResult_summary.

(** *** [MergerValidator]: difference entries, assets, recommendations *)
Module MergerValidator.
Import validator sorter differ differ_utils.

(** [s.split(sep)] for a one-character separator: at least one part. *)
Fixpoint split_on (sep : ascii) (s : string) : list string :=
  match s with
  | EmptyString => [EmptyString]
  | String c s' =>
      if Ascii.eqb c sep then EmptyString :: split_on sep s'
      else match split_on sep s' with
           | p :: ps => String c p :: ps
           | [] => [String c EmptyString]
           end
  end.

(** [int(s)] for a string, [None] standing for [ValueError]: white space
    around, a sign, then decimal digits with single underscores between
    them.  [max_str_digits] is [sys.get_int_max_str_digits()], 0 when there
    is no limit; the limit is looked at for more than 640 digits only. *)
Definition int_of_string (max_str_digits : nat) (s : string) : option Z :=
  let '(neg, body) := float.split_sign (strip_by float.isspace s) in
  match float.drop_underscores false body with
  | None => None
  | Some t =>
      if String.eqb t "" || negb (all_chars is_decimal t) then None
      else
        let digits := String.length t in
        if ((640 <? digits) && (0 <? max_str_digits) && (max_str_digits <? digits))%nat
        then None
        else Some (if neg then - float.digits_value t else float.digits_value t)%Z
  end.

(** [VALID_DIF_OPERATIONS] *)
Definition VALID_DIF_OPERATIONS : list value :=
  [VStr "add"; VStr "modify"; VStr "delete"; VStr "create"].

(** [REQUIRED_ASSET_FIELDS] and [EXPECTED_ASSET_FIELDS] *)
Definition REQUIRED_ASSET_FIELDS : list string := ["asset_id"].

Definition EXPECTED_ASSET_FIELDS : list string :=
  ["asset_id"; "hostname"; "ip_address"; "serial_number"; "model"; "manufacturer";
   "location"; "department"; "status"; "notes"; "last_updated"].

(** [asset_operations[asset_id].append(op)] on the [defaultdict(list)], whose
    keys are compared with [==]. *)
Fixpoint append_operation (asset_id op : value) (asset_operations : list (value * list value))
    : list (value * list value) :=
  match asset_operations with
  | [] => [(asset_id, [op])]
  | (k, ops) :: rest =>
      if py_eqb k asset_id then (k, (ops ++ [op])%list) :: rest
      else (k, ops) :: append_operation asset_id op rest
  end.

(** [ops.count(v)] *)
Definition py_count (v : value) (ops : list value) : nat :=
  List.length (filter (py_eqb v) ops).

(** The loop body of [_validate_dif_entries] after the test for [asset_id]:
    the operation, the modification and the value. *)
Definition dif_check_operation (i : nat) (entry : dict value) (asset_id : value)
    (asset_operations : list (value * list value)) (result : ValidationResult)
    : list (value * list value) * ValidationResult :=
  match dict_get "operation" entry with
  | Some op =>
      let result :=
        if negb (py_in op VALID_DIF_OPERATIONS)
        then add_error ("Entry " ++ str_of_nat i ++ ": Invalid operation '"
                        ++ str op ++ "'") false result
        else result in
      (append_operation asset_id op asset_operations, result)
  | None => (asset_operations, result)
  end.

Definition dif_check_modify (i : nat) (entry : dict value) (result : ValidationResult)
    : ValidationResult :=
  match dict_get "field" entry, dict_get "operation" entry with
  | Some field, Some operation =>
      if py_eqb operation (VStr "modify")
         && (negb (has_key "old_value" entry) || negb (has_key "new_value" entry))
      then add_warning ("Entry " ++ str_of_nat i
                        ++ ": Modify operation missing old/new values") result
      else result
  | _, _ => result
  end.

Definition dif_check_value (i : nat) (entry : dict value) (result : ValidationResult)
    : ValidationResult :=
  match dict_get "value" entry with
  | Some v =>
      if is_none v
      then add_warning ("Entry " ++ str_of_nat i ++ ": Null value for "
                        ++ str (get_default "field" (VStr "unknown field") entry)) result
      else result
  | None => result
  end.

(** The [for i, entry in enumerate(entries)] loop of [_validate_dif_entries]. *)
Fixpoint dif_entries_loop (i : nat) (entries : list (dict value))
    (asset_operations : list (value * list value)) (result : ValidationResult)
    : list (value * list value) * ValidationResult :=
  match entries with
  | [] => (asset_operations, result)
  | entry :: rest =>
      match dict_get "asset_id" entry with
      | None =>
          dif_entries_loop (S i) rest asset_operations
            (add_error ("Entry " ++ str_of_nat i ++ ": Missing asset_id") false result)
      | Some asset_id =>
          let '(asset_operations, result) :=
            dif_check_operation i entry asset_id asset_operations result in
          dif_entries_loop (S i) rest asset_operations
            (dif_check_value i entry (dif_check_modify i entry result))
      end
  end.

(** The loop over [asset_operations.items()]: conflicting operations. *)
Definition dif_check_conflict (result : ValidationResult) (item : value * list value)
    : ValidationResult :=
  let '(asset_id, ops) := item in
  let result :=
    if py_in (VStr "delete") ops && (1 <? List.length ops)%nat
    then add_warning ("Asset " ++ str asset_id
                      ++ ": Delete operation with other operations") result
    else result in
  if (1 <? py_count (VStr "create") ops)%nat
  then add_error ("Asset " ++ str asset_id ++ ": Multiple create operations") false result
  else result.

(** [MergerValidator._validate_dif_entries(entries, result)] *)
Definition _validate_dif_entries (entries : list (dict value))
    (result : ValidationResult) : ValidationResult :=
  let '(asset_operations, result) := dif_entries_loop 0 entries [] result in
  let result := fold_left dif_check_conflict asset_operations result in
  add_check (Nat.eqb (List.length (errors result)) 0) (Some "DIF entries validation")
    result.

Section Assets.

(** [sys.get_int_max_str_digits()] *)
Variable max_str_digits : nat.
(** [str(s)] of a set of strings, in the order the set gives its elements. *)
Variable set_repr : list string -> string.
(** [str(e)] of a caught exception. *)
Variable exc_text : pyexc -> string.

(** [MergerValidator._is_valid_ip(ip)] *)
Definition _is_valid_ip (ip : value) : exn bool :=
  match ip with
  | VStr s =>
      let parts := split_on "." s in
      if negb (Nat.eqb (List.length parts) 4) then Ok false
      else Ok (forallb (fun part =>
                          match int_of_string max_str_digits part with
                          | Some n => (0 <=? n)%Z && (n <=? 255)%Z
                          | None => false
                          end) parts)
  | _ => Raise AttributeError
  end.

(** The three checks of [_validate_asset_fields]. *)
Definition asset_check_ip (asset : dict value) (result : ValidationResult)
    (index : nat) : outcome :=
  match dict_get "ip_address" asset with
  | Some ip =>
      if truthy ip then
        match _is_valid_ip ip with
        | Ok valid =>
            Returned
              (if negb valid
               then add_warning ("Asset " ++ str_of_nat index
                                 ++ ": Invalid IP address format: " ++ str ip) result
               else result)
        | Raise e => Raised e result
        end
      else Returned result
  | None => Returned result
  end.

Definition asset_check_serial (asset : dict value) (result : ValidationResult)
    (index : nat) : outcome :=
  match dict_get "serial_number" asset with
  | Some serial =>
      if truthy serial then
        match serial with
        | VStr s =>
            Returned
              (if (100 <? String.length s)%nat
               then add_warning ("Asset " ++ str_of_nat index
                                 ++ ": Unusually long serial number") result
               else result)
        | _ => Raised TypeError result
        end
      else Returned result
  | None => Returned result
  end.

Definition valid_statuses : list string :=
  ["active"; "inactive"; "maintenance"; "retired"; "unknown"].

Definition asset_check_status (asset : dict value) (result : ValidationResult)
    (index : nat) : outcome :=
  match dict_get "status" asset with
  | Some st =>
      if truthy st then
        match st with
        | VStr s =>
            Returned
              (if negb (existsb (String.eqb (lower s)) valid_statuses)
               then add_warning ("Asset " ++ str_of_nat index
                                 ++ ": Unusual status value: " ++ str st) result
               else result)
        | _ => Raised AttributeError result
        end
      else Returned result
  | None => Returned result
  end.

(** [MergerValidator._validate_asset_fields(asset, result, index)] *)
Definition _validate_asset_fields (asset : dict value) (result : ValidationResult)
    (index : nat) : outcome :=
  then_do (asset_check_ip asset result index) (fun result =>
  then_do (asset_check_serial asset result index) (fun result =>
  asset_check_status asset result index)).

(** [s.add(v)] on a set of values kept in insertion order. *)
Definition set_add (v : value) (s : list value) : list value :=
  if py_in v s then s else (s ++ [v])%list.

(** The required fields, the duplicate identifiers and the unexpected
    fields of one asset. *)
Definition assets_check_required (i : nat) (asset : dict value)
    (result : ValidationResult) : ValidationResult :=
  fold_left (fun result field =>
               if match dict_get field asset with
                  | Some v => is_none v
                  | None => true
                  end
               then add_error ("Asset " ++ str_of_nat i ++ ": Missing required field '"
                               ++ field ++ "'") false result
               else result) REQUIRED_ASSET_FIELDS result.

Definition assets_check_duplicate (asset : dict value) (seen_ids duplicate_ids : list value)
    (result : ValidationResult) : list value * list value * ValidationResult :=
  match dict_get "asset_id" asset with
  | Some asset_id =>
      if py_in asset_id seen_ids
      then (seen_ids, set_add asset_id duplicate_ids,
            add_error ("Duplicate asset_id: " ++ str asset_id) false result)
      else ((seen_ids ++ [asset_id])%list, duplicate_ids, result)
  | None => (seen_ids, duplicate_ids, result)
  end.

Definition assets_check_unexpected (i : nat) (asset : dict value)
    (result : ValidationResult) : ValidationResult :=
  let unexpected :=
    filter (fun k => negb (existsb (String.eqb k) EXPECTED_ASSET_FIELDS))
      (nodup string_dec (keys asset)) in
  match unexpected with
  | [] => result
  | _ => if (List.length unexpected <=? 3)%nat
         then add_info ("Asset " ++ str_of_nat i ++ ": Unexpected fields: "
                        ++ set_repr unexpected) result
         else result
  end.

(** What the loop of [_validate_assets] leaves: the two sets and the result,
    or the exception that ended it. *)
Inductive assets_outcome : Type :=
| AssetsDone (seen_ids duplicate_ids : list value) (result : ValidationResult)
| AssetsRaised (e : pyexc) (result : ValidationResult).

Fixpoint assets_loop (i : nat) (assets : list (dict value))
    (seen_ids duplicate_ids : list value) (result : ValidationResult)
    : assets_outcome :=
  match assets with
  | [] => AssetsDone seen_ids duplicate_ids result
  | asset :: rest =>
      let result := assets_check_required i asset result in
      let '(seen_ids, duplicate_ids, result) :=
        assets_check_duplicate asset seen_ids duplicate_ids result in
      match _validate_asset_fields asset result i with
      | Raised e result => AssetsRaised e result
      | Returned result =>
          assets_loop (S i) rest seen_ids duplicate_ids
            (assets_check_unexpected i asset result)
      end
  end.

(** [MergerValidator._validate_assets(assets, result)] *)
Definition _validate_assets (assets : list (dict value)) (result : ValidationResult)
    : outcome :=
  match assets_loop 0 assets [] [] result with
  | AssetsRaised e result => Raised e result
  | AssetsDone seen_ids duplicate_ids result =>
      let result :=
        set_metadata "total_assets" (VInt (Z.of_nat (List.length assets))) result in
      let result :=
        set_metadata "unique_ids" (VInt (Z.of_nat (List.length seen_ids))) result in
      let result :=
        set_metadata "duplicates" (VInt (Z.of_nat (List.length duplicate_ids))) result in
      let result :=
        match duplicate_ids with
        | [] => result
        | _ => add_error ("Found " ++ str_of_nat (List.length duplicate_ids)
                          ++ " duplicate asset IDs") false result
        end in
      Returned (add_check (Nat.eqb (List.length duplicate_ids) 0)
                  (Some "Asset ID uniqueness") result)
  end.

(** [MergerValidator.validate_assets(assets)], with the two readings [t0]
    and [t1] of the clock. *)
Definition validate_assets (assets : list (dict value)) (t0 t1 : string)
    : ValidationResult :=
  let result := set_times (Some t0) None (new_result "Assets Validation") in
  let result :=
    match _validate_assets assets result with
    | Returned result => result
    | Raised e result => add_error ("Validation error: " ++ exc_text e) true result
    end in
  set_times (start_time result) (Some t1) result.

(** A difference document in JSON as [validate_dif_file] looks into it: a
    list of entries, an object with [entries] or [assets], or something
    else. *)
Inductive dif_json : Type :=
| DifScalar (v : value)
| DifList (items : list (dict value))
| DifObject (entries assets : option (list (dict value))).

Inductive dif_loaded : Type :=
| DifFileNotFound
| DifInvalidJSON (msg : string)
| DifParsed (data : dif_json).

(** The [try] block of [validate_dif_file] once the document is loaded. *)
Definition validate_dif_data (data : dif_json) (result : ValidationResult) : outcome :=
  let result := add_check true (Some "JSON structure valid") result in
  match data with
  | DifObject (Some entries) _ =>
      Returned
        (_validate_dif_entries entries
           (add_info ("Found " ++ str_of_nat (List.length entries) ++ " entries") result))
  | DifObject None (Some assets) =>
      _validate_assets assets
        (add_info ("Found " ++ str_of_nat (List.length assets) ++ " assets") result)
  | DifObject None None =>
      Returned (add_error "Unknown DIF structure: missing 'entries' or 'assets'" false
                  result)
  | DifList items =>
      Returned
        (_validate_dif_entries items
           (add_info ("Found " ++ str_of_nat (List.length items) ++ " items") result))
  | DifScalar _ =>
      Returned (add_error "Invalid DIF structure: expected dict or list" false result)
  end.

(** [MergerValidator.validate_dif_file(filepath)]: [filename] is
    [Path(filepath).name], [file] what opening and loading [filepath] gives. *)
Definition validate_dif_file (filepath filename : string) (file : dif_loaded)
    (t0 t1 : string) : ValidationResult :=
  let result := set_times (Some t0) None (new_result ("DIF File: " ++ filename)) in
  let result :=
    match file with
    | DifFileNotFound => add_error ("File not found: " ++ filepath) true result
    | DifInvalidJSON msg => add_error ("Invalid JSON: " ++ msg) true result
    | DifParsed data =>
        match validate_dif_data data result with
        | Returned result => result
        | Raised e result => add_error ("Validation error: " ++ exc_text e) true result
        end
    end in
  set_times (start_time result) (Some t1) result.

End Assets.

(** [v > 0] *)
Definition py_gt_zero (v : value) : exn bool :=
  match v with
  | VInt z => Ok (0 <? z)%Z
  | VBool b => Ok b
  | _ => Raise TypeError
  end.

(** The loop of [_generate_recommendations] over the history. *)
Fixpoint metadata_recommendations (history : list ValidationResult) : exn (list string) :=
  match history with
  | [] => Ok []
  | validation :: rest =>
      bind (match dict_get "sync_errors" (metadata validation) with
            | Some n => bind (py_gt_zero n) (fun b =>
                        Ok (if b then ["Investigate field mapping discrepancies"] else []))
            | None => Ok []
            end) (fun sync =>
      bind (match dict_get "duplicates" (metadata validation) with
            | Some n => bind (py_gt_zero n) (fun b =>
                        Ok (if b then ["Resolve duplicate asset IDs before sync"] else []))
            | None => Ok []
            end) (fun dup =>
      bind (metadata_recommendations rest) (fun more =>
      Ok (sync ++ dup ++ more)%list)))
  end.

(** [MergerValidator._generate_recommendations()], on the validation history. *)
Definition _generate_recommendations (validation_history : list ValidationResult)
    : exn (list string) :=
  let total_warnings :=
    list_sum (map (fun v => List.length (warnings v)) validation_history) in
  let total_errors :=
    list_sum (map (fun v => List.length (errors v)) validation_history) in
  let recommendations :=
    ((if (0 <? total_errors)%nat
      then ["Address critical errors before proceeding with sync"] else [])
     ++ (if (10 <? total_warnings)%nat
         then ["Review warnings to improve data quality"] else []))%list in
  bind (metadata_recommendations validation_history) (fun more =>
  let recommendations := (recommendations ++ more)%list in
  Ok match recommendations with
     | [] => ["All validations passed successfully"]
     | _ => recommendations
     end).

End MergerValidator.

(** *** [DifferAgent.process_comparison] *)
Module DifferAgent.
Import validator sorter differ differ_utils.

(** How a call that writes files ends: it returns, or an exception of the
    computation leaves it, or one of the file system ([OSError] and its
    kin, or what [open] raises for a path it does not take). *)
Inductive ends (E A : Type) : Type :=
| Returns (a : A)
| Raises (e : pyexc)
| RaisesOS (e : E).
Arguments Returns {E A} a.
Arguments Raises {E A} e.
Arguments RaisesOS {E A} e.

Section Process.
Variable self : config.
(** [str(x)] of a float, as an f-string writes it. *)
Variable float_repr : float.float -> string.
(** [datetime.now().isoformat()]: [now k] is the reading taken for the
    file of index [k]. *)
Variable now : nat -> string.
(** The file system, and its exceptions. *)
Context {fs os_error : Type}.
(** [str(self.output_dir / filename)]: what [pathlib] makes of a file name
    under the output directory. *)
Variable filepath : string -> string.
(** [with open(filepath, 'w') as f: f.write(...) ...]: the file system once
    the block is left, and the exception that left it, if any. *)
Variable write_text : string -> string -> fs -> fs * option os_error.

(** A file the agent writes: its path, and its text. *)
Definition file : Type := (string * string)%type.

(** The loop of [process_comparison] over [all_differences.items()], from
    the file system [disk]: the file system it leaves, and the paths it
    returns or the exception that ends it.  [generate_dif_file] opens its
    file after the document is built. *)
Fixpoint generate_files (k : nat) (all_differences : dict (list difference)) (disk : fs)
    : fs * ends os_error (list string) :=
  match all_differences with
  | [] => (disk, Returns [])
  | (id, diffs) :: rest =>
      match generate_dif_file float_repr (now k) id diffs with
      | Raise e => (disk, Raises e)
      | Ok text =>
          let path := filepath (id ++ ".dif") in
          let '(disk, failure) := write_text path text disk in
          match failure with
          | Some e => (disk, RaisesOS e)
          | None =>
              let '(disk, r) := generate_files (S k) rest disk in
              (disk,
               match r with
               | Returns paths => Returns (path :: paths)
               | Raises e => Raises e
               | RaisesOS e => RaisesOS e
               end)
          end
      end
  end.

(** [DifferAgent.process_comparison(zabbix_data, topdesk_data)]: the file
    system it leaves, and what it returns: the paths of the files and the
    statistics.  The statistics the agent holds are reset first. *)
Definition process_comparison (zabbix_data topdesk_data : dict (dict value)) (disk : fs)
    : fs * ends os_error (list string * stats) :=
  match compare_assets self zabbix_data topdesk_data new_stats with
  | Raise e => (disk, Raises e)
  | Ok (all_differences, st) =>
      let '(disk, r) := generate_files 0 all_differences disk in
      (disk,
       match r with
       | Returns paths => Returns (paths, st)
       | Raises e => Raises e
       | RaisesOS e => RaisesOS e
       end)
  end.

End Process.

End DifferAgent.

(** *** [SortingStrategy.handle_edge_cases] *)
Module SortingStrategy.
Import validator sorter differ differ_utils.

Definition TAB : ascii := ascii_of_nat 9.
Definition NUL : ascii := ascii_of_nat 0.

(** The loop over [replacements.items()], in the order of the literal. *)
Definition replace_problematic (text : string) : string :=
  let text := replace_char LF " " text in
  let text := replace_char CR " " text in
  let text := replace_char TAB " " text in
  replace_char NUL "" text.

(** [SortingStrategy.handle_edge_cases(value)]; [True] gives ['0'] and
    [False] gives ['1']. *)
Definition handle_edge_cases (v : value) : string :=
  match v with
  | VNone => ""
  | VBool b => if b then "0" else "1"
  | VInt z => str_of_Z z
  | VStr s =>
      let text := replace_problematic s in
      let text := String.concat " " (split_ws text) in
      strip text
  end.

End SortingStrategy.

(** *** [SortingStrategy.sort_dif_entries] and [sort_apl_entries] *)
Module SortingKeys.
Import validator sorter differ differ_utils.

(** [a == b] on two lists of key elements. *)
Fixpoint key_eqb (a b : list key_part) : bool :=
  match a, b with
  | [], [] => true
  | x :: a', y :: b' => key_part_eqb x y && key_eqb a' b'
  | _, _ => false
  end.

(** The number a [bool] or an [int] stands for in a comparison. *)
Definition as_number (v : value) : option Z :=
  match v with
  | VBool b => Some (if b then 1 else 0)%Z
  | VInt z => Some z
  | _ => None
  end.

(** [a < b] on values: two numbers, or two strings by code point; anything
    else, [None] with [None] included, raises [TypeError]. *)
Definition py_ltb (a b : value) : exn bool :=
  match a, b with
  | VStr s, VStr t => Ok (String.ltb s t)
  | _, _ =>
      match as_number a, as_number b with
      | Some x, Some y => Ok (Z.ltb x y)
      | _, _ => Raise TypeError
      end
  end.

(** [a < b] on two tuples of three items: the first pair of items that are
    not equal decides; equal tuples are not smaller. *)
Section Tuples.
Context {K1 K2 K3 : Type}.
Variable eqb1 : K1 -> K1 -> bool.
Variable ltb1 : K1 -> K1 -> exn bool.
Variable eqb2 : K2 -> K2 -> bool.
Variable ltb2 : K2 -> K2 -> exn bool.
Variable eqb3 : K3 -> K3 -> bool.
Variable ltb3 : K3 -> K3 -> exn bool.

Definition tuple_ltb (a b : K1 * K2 * K3) : exn bool :=
  let '(a1, a2, a3) := a in
  let '(b1, b2, b3) := b in
  if negb (eqb1 a1 b1) then ltb1 a1 b1
  else if negb (eqb2 a2 b2) then ltb2 a2 b2
  else if negb (eqb3 a3 b3) then ltb3 a3 b3
  else Ok false.

End Tuples.

(** [sorted(l, key=key)]: the keys of all elements are computed first, in
    order; the elements are then sorted as their keys compare under [<],
    the sort being the stable sort of [sorted] above. *)
Section SortedByKey.
Context {A K : Type}.
Variable key : A -> exn K.
Variable ltb : K -> K -> exn bool.

Fixpoint with_keys (l : list A) : exn (list (K * A)) :=
  match l with
  | [] => Ok []
  | x :: l' =>
      bind (key x) (fun k =>
      bind (with_keys l') (fun r => Ok ((k, x) :: r)))
  end.

Definition key_cmp (x y : K * A) : exn Z :=
  bind (ltb (fst x) (fst y)) (fun lt => Ok (if lt then (-1)%Z else 0%Z)).

Definition sorted_by_key (l : list A) : exn (list A) :=
  bind (with_keys l) (fun keyed =>
  bind (stable_sort key_cmp keyed) (fun r => Ok (map snd r))).

End SortedByKey.

(** [op_order.get(operation, 99)] *)
Definition op_order (operation : value) : Z :=
  match operation with
  | VStr "add" => 1
  | VStr "modify" => 2
  | VStr "delete" => 3
  | _ => 99
  end%Z.

Definition dif_key : Type := (list key_part * Z * string)%type.

(** [dif_sort_key(entry)]: [field.lower()] raises [AttributeError] when the
    field is not a string. *)
Definition dif_sort_key (entry : asset) : exn dif_key :=
  let asset_id := get_default "asset_id" (VStr "") entry in
  let operation := get_default "operation" (VStr "modify") entry in
  let field := get_default "field" (VStr "") entry in
  bind (natural_sort_key asset_id) (fun id_key =>
  match field with
  | VStr f => Ok (id_key, op_order operation, lower f)
  | _ => Raise AttributeError
  end).

Definition dif_key_ltb : dif_key -> dif_key -> exn bool :=
  tuple_ltb key_eqb key_ltb
            Z.eqb (fun a b => Ok (Z.ltb a b))
            String.eqb (fun a b => Ok (String.ltb a b)).

(** [SortingStrategy.sort_dif_entries(entries)] *)
Definition sort_dif_entries (entries : list asset) : exn (list asset) :=
  sorted_by_key dif_sort_key dif_key_ltb entries.

Definition apl_key : Type := (value * list key_part * value)%type.

(** [apl_sort_key(entry)] *)
Definition apl_sort_key (entry : asset) : exn apl_key :=
  let timestamp := get_default "timestamp" (VStr "9999-99-99") entry in
  let asset_id := get_default "asset_id" (VStr "") entry in
  let sequence := get_default "sequence" (VInt 999999) entry in
  bind (natural_sort_key asset_id) (fun id_key =>
  Ok (timestamp, id_key, sequence)).

Definition apl_key_ltb : apl_key -> apl_key -> exn bool :=
  tuple_ltb py_eqb py_ltb key_eqb key_ltb py_eqb py_ltb.

(** [SortingStrategy.sort_apl_entries(entries)] *)
Definition sort_apl_entries (entries : list asset) : exn (list asset) :=
  sorted_by_key apl_sort_key apl_key_ltb entries.

End SortingKeys.

(** *** [DifferenceAnalyzer.analyze_difference_patterns] *)
Module DifferenceAnalyzer.
Import validator sorter differ differ_utils.

(** What the analysis raises: the [KeyError] of a difference that lacks an
    item, or the error of a float operation. *)
Inductive analysis_error : Type :=
| KeyError (key : string)
| FloatError (e : pyexc).

Inductive analyzed (A : Type) : Type :=
| Done (a : A)
| Failed (e : analysis_error).
Arguments Done {A} a.
Arguments Failed {A} e.

Definition and_then {A B} (x : analyzed A) (f : A -> analyzed B) : analyzed B :=
  match x with
  | Done a => f a
  | Failed e => Failed e
  end.

(** [needle in s] for two strings. *)
Fixpoint contains (needle s : string) : bool :=
  startswith needle s
  || match s with
     | EmptyString => false
     | String _ s' => contains needle s'
     end.

(** [if k not in d: d[k] = 0] and then [d[k] += 1]. *)
Definition increment (k : string) (d : dict nat) : dict nat :=
  dict_set k (S (match dict_get k d with Some n => n | None => 0 end)) d.

(** [analysis['system_coverage']] *)
Record system_coverage : Type := mkCoverage {
  both_systems : nat;
  coverage_zabbix_only : nat;
  coverage_topdesk_only : nat
}.

(** The dictionaries the loop over the files fills. *)
Record counts : Type := mkCounts {
  field_frequency : dict nat;
  common_differences : dict nat;
  coverage : system_coverage
}.

Definition no_counts : counts :=
  {| field_frequency := [];
     common_differences := [];
     coverage := {| both_systems := 0; coverage_zabbix_only := 0;
                    coverage_topdesk_only := 0 |} |}.

(** The system coverage of one file. *)
Definition cover (note : option string) (c : system_coverage) : system_coverage :=
  match note with
  | Some (String a n) =>
      let text := String a n in
      if contains "Zabbix" text then
        {| both_systems := both_systems c;
           coverage_zabbix_only := S (coverage_zabbix_only c);
           coverage_topdesk_only := coverage_topdesk_only c |}
      else if contains "Topdesk" text then
        {| both_systems := both_systems c;
           coverage_zabbix_only := coverage_zabbix_only c;
           coverage_topdesk_only := S (coverage_topdesk_only c) |}
      else c
  | _ =>
      {| both_systems := S (both_systems c);
         coverage_zabbix_only := coverage_zabbix_only c;
         coverage_topdesk_only := coverage_topdesk_only c |}
  end.

(** The pattern of one difference. *)
Definition pattern_of (field_name : string) (diff : dict string) : analyzed string :=
  match dict_get "zabbix_value" diff with
  | None => Failed (KeyError "zabbix_value")
  | Some zabbix =>
      if String.eqb zabbix "null" then Done (field_name ++ "_missing_in_zabbix")
      else
        match dict_get "topdesk_value" diff with
        | None => Failed (KeyError "topdesk_value")
        | Some topdesk =>
            if String.eqb topdesk "null" then Done (field_name ++ "_missing_in_topdesk")
            else Done (field_name ++ "_value_mismatch")
        end
  end.

(** The body of the loop over the differences of a file. *)
Definition count_difference (c : counts) (diff : dict string) : analyzed counts :=
  match dict_get "field_name" diff with
  | None => Failed (KeyError "field_name")
  | Some field_name =>
      and_then (pattern_of field_name diff) (fun pattern =>
      Done {| field_frequency := increment field_name (field_frequency c);
              common_differences := increment pattern (common_differences c);
              coverage := coverage c |})
  end.

Fixpoint count_differences (c : counts) (diffs : list (dict string)) : analyzed counts :=
  match diffs with
  | [] => Done c
  | diff :: rest => and_then (count_difference c diff) (fun c' => count_differences c' rest)
  end.

(** The body of the loop over the files, on the parsed data of a file. *)
Definition count_file (c : counts) (data : parsed_data) : analyzed counts :=
  count_differences
    {| field_frequency := field_frequency c;
       common_differences := common_differences c;
       coverage := cover (note data) (coverage c) |}
    (differences data).

Fixpoint count_files (c : counts) (files : list parsed_data) : analyzed counts :=
  match files with
  | [] => Done c
  | data :: rest => and_then (count_file c data) (fun c' => count_files c' rest)
  end.

(** An entry of [analysis['field_statistics']]. *)
Record field_statistic : Type := mkStatistic {
  occurrences : nat;
  percentage : float.float
}.

(** [round((count / total_occurrences) * 100, 2)] *)
Definition percent (count total_occurrences : nat) : exn float.float :=
  bind (float.int_truediv (Z.of_nat count) (Z.of_nat total_occurrences)) (fun ratio =>
  bind (float.of_int 100) (fun hundred =>
  Ok (float.round2 (float.mul ratio hundred)))).

Fixpoint statistics (total_occurrences : nat) (items : dict nat)
    : analyzed (dict field_statistic) :=
  match items with
  | [] => Done []
  | (field, count) :: rest =>
      match percent count total_occurrences with
      | Raise e => Failed (FloatError e)
      | Ok p =>
          and_then (statistics total_occurrences rest) (fun r =>
          Done ((field, {| occurrences := count; percentage := p |}) :: r))
      end
  end.

Record analysis : Type := mkAnalysis {
  total_files : nat;
  analysis_counts : counts;
  field_statistics : dict field_statistic
}.

(** [DifferenceAnalyzer.analyze_difference_patterns(dif_files)], on the
    texts of the files. *)
Definition analyze_difference_patterns (dif_files : list string) : analyzed analysis :=
  and_then (count_files no_counts (map parse_dif_file dif_files)) (fun c =>
  let total_occurrences := list_sum (map snd (field_frequency c)) in
  and_then (statistics total_occurrences (field_frequency c)) (fun st =>
  Done {| total_files := List.length dif_files;
          analysis_counts := c;
          field_statistics := st |})).

End DifferenceAnalyzer.

(** ** Properties of [ValidationResult] *)
Import validator.

Ltac by_status r :=
  let E := fresh "E" in
  destruct (validator.status r) eqn:E; cbn; rewrite ?E; cbn;
  try tauto; try congruence; try discriminate.

Section ValidationResultFacts.

Lemma do_calls_app cs1 cs2 r :
  do_calls (cs1 ++ cs2) r = do_calls cs2 (do_calls cs1 r).
Proof. unfold do_calls. apply fold_left_app. Qed.

(** The statuses a result takes during its life. *)
Definition live_status (s : ValidationStatus) : Prop :=
  s = PASSED \/ s = PASSED_WITH_WARNINGS \/ s = FAILED.

Lemma do_call_live c r : live_status (status r) -> live_status (status (do_call c r)).
Proof.
  unfold live_status. intros H.
  destruct c as [p m | m | m crit | m]; cbn.
  - unfold add_check. destruct p; cbn; [tauto|].
    destruct m as [m|]; cbn; [|tauto].
    destruct (String.eqb m ""); cbn; tauto.
  - unfold add_warning; cbn. by_status r.
    all: destruct H as [H|[H|H]]; discriminate.
  - unfold add_error. destruct crit; cbn; [tauto|]. by_status r.
    all: destruct H as [H|[H|H]]; discriminate.
  - tauto.
Qed.

Lemma do_calls_live cs : forall r,
  live_status (status r) -> live_status (status (do_calls cs r)).
Proof.
  induction cs as [|c cs IH]; intros r H; [exact H|].
  cbn. apply IH, do_call_live, H.
Qed.

Lemma do_call_failed c r : status r = FAILED -> status (do_call c r) = FAILED.
Proof.
  intros H.
  destruct c as [p m | m | m crit | m]; cbn.
  - unfold add_check. destruct p; cbn; [exact H|].
    destruct m as [m|]; cbn; [|exact H].
    destruct (String.eqb m ""); cbn; exact H.
  - unfold add_warning; cbn. by_status r.
  - unfold add_error. destruct crit; cbn; [reflexivity|]. by_status r.
  - exact H.
Qed.

Lemma do_call_not_passed c r : status r <> PASSED -> status (do_call c r) <> PASSED.
Proof.
  intros H.
  destruct c as [p m | m | m crit | m]; cbn.
  - unfold add_check. destruct p; cbn; [exact H|].
    destruct m as [m|]; cbn; [|exact H].
    destruct (String.eqb m ""); cbn; exact H.
  - unfold add_warning; cbn. by_status r.
  - unfold add_error. destruct crit; cbn; [discriminate|]. by_status r.
  - exact H.
Qed.

End ValidationResultFacts.

(** ** Claims on the validation result *)
Section ValidationResultClaims.

(** C3. The status of a [ValidationResult] starts at [PASSED]; [add_warning]
    moves [PASSED] to [PASSED_WITH_WARNINGS] and leaves every other status;
    [add_error] with [critical = false] moves the status of a result, whatever
    calls it has received, to [FAILED]; [add_error] with [critical = true] sets
    [FAILED] unconditionally; and under any sequence of calls a [FAILED] result
    stays [FAILED] and a result that left [PASSED] never returns to it. *)
Theorem status_state_machine :
  (forall n, status (new_result n) = PASSED) /\
  (forall m r, status (add_warning m r)
               = match status r with
                 | PASSED => PASSED_WITH_WARNINGS
                 | s => s
                 end) /\
  (forall m cs n, status (add_error m false (do_calls cs (new_result n))) = FAILED) /\
  (forall m r, status r = PASSED \/ status r = PASSED_WITH_WARNINGS ->
               status (add_error m false r) = FAILED) /\
  (forall m r, status (add_error m true r) = FAILED) /\
  (forall cs r, status r = FAILED -> status (do_calls cs r) = FAILED) /\
  (forall cs r, status r = PASSED_WITH_WARNINGS -> status (do_calls cs r) <> PASSED).
Proof.
  repeat split.
  - intros m r. unfold add_warning; cbn. by_status r.
  - intros m cs n.
    assert (H : live_status (status (do_calls cs (new_result n)))).
    { apply do_calls_live. left. reflexivity. }
    unfold add_error; cbn.
    destruct H as [H|[H|H]]; rewrite H; cbn; try rewrite H; reflexivity.
  - intros m r [H|H]; unfold add_error; cbn; rewrite H; reflexivity.
  - intros cs. induction cs as [|c cs IH]; intros r H; [exact H|].
    cbn. apply IH, do_call_failed, H.
  - intros cs r H.
    assert (G : forall cs r, status r <> PASSED -> status (do_calls cs r) <> PASSED).
    { clear. induction cs as [|c cs IH]; intros r H; [exact H|].
      cbn. apply IH, do_call_not_passed, H. }
    apply G. rewrite H. discriminate.
Qed.

Lemma status_state_machine_witness :
  status (do_calls [AddInfo "late"; AddCheck true None]
            (do_calls [AddWarning "w"; AddError "e" false] (new_result "run")))
  = FAILED.
Proof.
  apply (proj1 (proj2 (proj2 (proj2 (proj2 (proj2 status_state_machine)))))).
  reflexivity.
Defined.

(** C10. [add_check] changes only [checks_performed], [passed_checks] and,
    for a failed check with a message, [errors]; the status is left as it
    was, so a result that only records failed checks still reports [PASSED]. *)
Theorem add_check_frame :
  (forall passed message r,
     let r' := add_check passed message r in
     status r' = status r /\
     name r' = name r /\
     warnings r' = warnings r /\
     critical_errors r' = critical_errors r /\
     info_messages r' = info_messages r /\
     start_time r' = start_time r /\
     end_time r' = end_time r /\
     metadata r' = metadata r /\
     checks_performed r' = checks_performed r + 1 /\
     passed_checks r' = (if passed then passed_checks r + 1 else passed_checks r) /\
     errors r' = (if passed then errors r
                  else match message with
                       | Some m => if String.eqb m "" then errors r
                                   else (errors r ++ [m])%list
                       | None => errors r
                       end)) /\
  (forall messages n,
     status (do_calls (map (AddCheck false) messages) (new_result n)) = PASSED).
Proof.
  split.
  - intros passed message r. unfold add_check.
    destruct passed; cbn; [repeat split|].
    destruct message as [m|]; cbn; [|repeat split].
    destruct (String.eqb m ""); cbn; repeat split.
  - intros messages n.
    assert (G : forall r, status (do_calls (map (AddCheck false) messages) r) = status r).
    { induction messages as [|m ms IH]; intros r; [reflexivity|].
      cbn. rewrite IH. unfold add_check.
      destruct m as [m|]; cbn; [|reflexivity].
      destruct (String.eqb m ""); reflexivity. }
    rewrite G. reflexivity.
Qed.

End ValidationResultClaims.

(** ** Change-list validation *)
Section AplFacts.

Variable fromisoformat : string -> bool.
Variable exc_text : pyexc -> string.

(** [r'] is [r] after some recording calls. *)
Definition extends (r r' : ValidationResult) : Prop :=
  exists cs, r' = do_calls cs r.

Lemma extends_refl r : extends r r.
Proof. exists []. reflexivity. Qed.

Lemma extends_trans r1 r2 r3 : extends r1 r2 -> extends r2 r3 -> extends r1 r3.
Proof.
  intros [cs1 H1] [cs2 H2]. exists (cs1 ++ cs2)%list.
  rewrite do_calls_app, <- H1. exact H2.
Qed.

Lemma extends_call c r : extends r (do_call c r).
Proof. exists [c]. reflexivity. Qed.

Lemma extends_add_error m c r : extends r (add_error m c r).
Proof. apply (extends_call (AddError m c)). Qed.

Lemma extends_add_warning m r : extends r (add_warning m r).
Proof. apply (extends_call (AddWarning m)). Qed.

Lemma extends_add_check p m r : extends r (add_check p m r).
Proof. apply (extends_call (AddCheck p m)). Qed.

Ltac extends_step :=
  match goal with
  | |- extends ?r ?r => apply extends_refl
  | |- extends _ (if ?b then _ else _) => destruct b
  | |- extends _ (add_error _ _ ?x) =>
      apply (extends_trans _ x); [|apply extends_add_error]
  | |- extends _ (add_warning _ ?x) =>
      apply (extends_trans _ x); [|apply extends_add_warning]
  | |- extends _ (add_check _ _ ?x) =>
      apply (extends_trans _ x); [|apply extends_add_check]
  end.

Lemma extends_live r r' : extends r r' -> live_status (status r) -> live_status (status r').
Proof. intros [cs ->]. apply do_calls_live. Qed.

Lemma extends_failed r r' : extends r r' -> status r = FAILED -> status r' = FAILED.
Proof.
  intros [cs ->]. revert r. induction cs as [|c cs IH]; intros r H; [exact H|].
  cbn. apply IH, do_call_failed, H.
Qed.

Lemma do_call_errors c r m : In m (errors r) -> In m (errors (do_call c r)).
Proof.
  intros H. destruct c as [p msg | msg | msg crit | msg]; cbn.
  - unfold add_check. destruct p; cbn; [exact H|].
    destruct msg as [msg|]; cbn; [|exact H].
    destruct (String.eqb msg ""); cbn; [exact H|].
    apply in_or_app. left. exact H.
  - unfold add_warning; cbn. destruct (status r); exact H.
  - unfold add_error. destruct crit; cbn; [exact H|].
    destruct (status r); cbn; apply in_or_app; left; exact H.
  - exact H.
Qed.

Lemma extends_errors r r' m : extends r r' -> In m (errors r) -> In m (errors r').
Proof.
  intros [cs ->]. revert r. induction cs as [|c cs IH]; intros r H; [exact H|].
  cbn. apply IH, do_call_errors, H.
Qed.

Lemma add_error_recorded m r : In m (errors (add_error m false r)).
Proof.
  unfold add_error; cbn. destruct (status r); cbn; apply in_or_app; right; left; reflexivity.
Qed.

Lemma add_error_live m r :
  live_status (status r) -> status (add_error m false r) = FAILED.
Proof.
  intros [H|[H|H]]; unfold add_error; cbn; rewrite H; cbn; try rewrite H; reflexivity.
Qed.

Lemma apl_check_status_extends i entry r : extends r (apl_check_status i entry r).
Proof.
  unfold apl_check_status.
  destruct (dict_get "status" entry) as [st|]; repeat extends_step.
Qed.

Lemma apl_check_sequence_extends i entry seen r :
  extends r (snd (apl_check_sequence i entry seen r)).
Proof.
  unfold apl_check_sequence.
  destruct (dict_get "sequence" entry) as [sq|]; cbn [snd]; repeat extends_step.
Qed.

Lemma apl_check_command_extends i entry r : extends r (apl_check_command i entry r).
Proof.
  unfold apl_check_command.
  destruct (dict_get "command" entry) as [cmd|]; repeat extends_step.
Qed.

Definition outcome_result (o : outcome) : ValidationResult :=
  match o with
  | Returned r => r
  | Raised _ r => r
  end.

Lemma _validate_timestamp_extends ts r context :
  extends r (outcome_result (_validate_timestamp fromisoformat ts r context)).
Proof.
  unfold _validate_timestamp. destruct ts; try apply extends_refl.
  destruct (fromisoformat _); cbn [outcome_result]; repeat extends_step.
Qed.

(** One turn of the loop, for an entry that has its [asset_id]. *)
Lemma apl_entries_loop_step i entry rest seen r :
  has_key "asset_id" entry = true ->
  apl_entries_loop fromisoformat i (entry :: rest) seen r
  = let r1 := apl_check_status i entry r in
    let sr := apl_check_sequence i entry seen r1 in
    match match dict_get "timestamp" entry with
          | Some ts => _validate_timestamp fromisoformat ts (snd sr)
                         ("Entry " ++ str_of_nat i)
          | None => Returned (snd sr)
          end with
    | Raised e r3 => Raised e r3
    | Returned r3 =>
        apl_entries_loop fromisoformat (S i) rest (fst sr)
          (apl_check_command i entry r3)
    end.
Proof.
  intros H. cbn [apl_entries_loop]. rewrite H. cbn [negb].
  destruct (apl_check_sequence i entry seen (apl_check_status i entry r)).
  reflexivity.
Qed.

Lemma apl_entries_loop_skip i entry rest seen r :
  has_key "asset_id" entry = false ->
  apl_entries_loop fromisoformat i (entry :: rest) seen r
  = apl_entries_loop fromisoformat (S i) rest seen
      (add_error ("Entry " ++ str_of_nat i ++ ": Missing asset_id") false r).
Proof. intros H. cbn [apl_entries_loop]. rewrite H. reflexivity. Qed.

Lemma apl_entries_loop_extends entries : forall i seen r,
  extends r (outcome_result (apl_entries_loop fromisoformat i entries seen r)).
Proof.
  induction entries as [|entry rest IH]; intros i seen r; [apply extends_refl|].
  destruct (has_key "asset_id" entry) eqn:Hk.
  - rewrite apl_entries_loop_step by exact Hk. cbv zeta.
    pose proof (apl_check_status_extends i entry r) as E1.
    pose proof (apl_check_sequence_extends i entry seen (apl_check_status i entry r)) as E2.
    set (sr := apl_check_sequence i entry seen (apl_check_status i entry r)) in *.
    assert (E3 : forall o, extends (snd sr) (outcome_result o) ->
                 extends r (outcome_result
                   match o with
                   | Raised e r3 => Raised e r3
                   | Returned r3 =>
                       apl_entries_loop fromisoformat (S i) rest (fst sr)
                         (apl_check_command i entry r3)
                   end)).
    { intros [r3|e r3] E; cbn [outcome_result] in *.
      - eapply extends_trans; [|apply IH].
        eapply extends_trans; [|apply apl_check_command_extends].
        eapply extends_trans; [exact E1|]. eapply extends_trans; [exact E2|exact E].
      - eapply extends_trans; [exact E1|]. eapply extends_trans; [exact E2|exact E]. }
    apply E3. destruct (dict_get "timestamp" entry) as [ts|].
    + apply _validate_timestamp_extends.
    + apply extends_refl.
  - rewrite apl_entries_loop_skip by exact Hk.
    eapply extends_trans; [|apply IH]. apply extends_add_error.
Qed.

Lemma py_eqb_sym a b : py_eqb a b = py_eqb b a.
Proof.
  destruct a as [|x|x|s], b as [|y|y|t]; cbn [py_eqb]; try reflexivity.
  - destruct x, y; reflexivity.
  - apply Z.eqb_sym.
  - apply Z.eqb_sym.
  - apply Z.eqb_sym.
  - apply String.eqb_sym.
Qed.

Lemma py_in_app v l1 l2 : py_in v (l1 ++ l2) = py_in v l1 || py_in v l2.
Proof. unfold py_in. apply existsb_app. Qed.

Lemma py_in_false_iff v l :
  py_in v l = false <-> forall w, In w l -> py_eqb v w = false.
Proof.
  unfold py_in. induction l as [|x l IH]; cbn.
  - split; [intros _ w []|reflexivity].
  - rewrite orb_false_iff, IH. split.
    + intros [H1 H2] w [<-|Hw]; [exact H1|apply H2, Hw].
    + intros H. split; [apply H; left; reflexivity|].
      intros w Hw. apply H. right. exact Hw.
Qed.

Lemma sequences_cons_some entry rest sq :
  dict_get "sequence" entry = Some sq ->
  sequences (entry :: rest) = sq :: sequences rest.
Proof. intros H. unfold sequences. cbn [flat_map]. rewrite H. reflexivity. Qed.

Lemma sequences_cons_none entry rest :
  dict_get "sequence" entry = None ->
  sequences (entry :: rest) = sequences rest.
Proof. intros H. unfold sequences. cbn [flat_map]. rewrite H. reflexivity. Qed.

(** The time stamp of an entry, when there is one, is a string. *)
Definition timestamp_is_str (entry : dict value) : bool :=
  match dict_get "timestamp" entry with
  | Some (VStr _) | None => true
  | Some _ => false
  end.

Lemma apl_entries_loop_returns entries : forall i seen r,
  Forall (fun entry => timestamp_is_str entry = true) entries ->
  exists r', apl_entries_loop fromisoformat i entries seen r = Returned r'.
Proof.
  induction entries as [|entry rest IH]; intros i seen r HT.
  - exists r. reflexivity.
  - inversion HT as [|? ? Ht HT']; subst.
    destruct (has_key "asset_id" entry) eqn:Hk.
    + rewrite apl_entries_loop_step by exact Hk. cbv zeta.
      unfold timestamp_is_str in Ht.
      destruct (dict_get "timestamp" entry) as [[| | |ts]|]; try discriminate.
      * unfold _validate_timestamp. destruct (fromisoformat _); apply IH, HT'.
      * apply IH, HT'.
    + rewrite apl_entries_loop_skip by exact Hk. apply IH, HT'.
Qed.

(** A run of the loop that ends without [FAILED] met no sequence number
    twice. *)
Lemma apl_entries_loop_passed entries : forall i seen r0 r,
  live_status (status r0) ->
  apl_entries_loop fromisoformat i entries seen r0 = Returned r ->
  status r <> FAILED ->
  (forall v, In v (sequences entries) -> py_in v seen = false) /\
  py_distinct (sequences entries) = true.
Proof.
  induction entries as [|entry rest IH]; intros i seen r0 r Hlive Hrun Hok.
  - split; [intros v []|reflexivity].
  - destruct (has_key "asset_id" entry) eqn:Hk.
    + rewrite apl_entries_loop_step in Hrun by exact Hk. cbv zeta in Hrun.
      pose proof (apl_check_status_extends i entry r0) as E1.
      pose proof (apl_check_sequence_extends i entry seen (apl_check_status i entry r0)) as E2.
      assert (L2 : live_status (status (snd (apl_check_sequence i entry seen
                                               (apl_check_status i entry r0))))).
      { eapply extends_live; [exact E2|]. eapply extends_live; [exact E1|exact Hlive]. }
      pose proof (_validate_timestamp_extends) as E3.
      set (r1 := apl_check_status i entry r0) in *.
      assert (Hseq : apl_check_sequence i entry seen r1
                     = match dict_get "sequence" entry with
                       | Some sq =>
                           (if py_in sq seen then seen else (seen ++ [sq])%list,
                            if py_in sq seen
                            then add_error ("Entry " ++ str_of_nat i
                                            ++ ": Duplicate sequence number " ++ str sq)
                                   false r1
                            else r1)
                       | None => (seen, r1)
                       end) by reflexivity.
      set (sr := apl_check_sequence i entry seen r1) in *.
      assert (exists r3, extends (snd sr) r3 /\
                apl_entries_loop fromisoformat (S i) rest (fst sr)
                  (apl_check_command i entry r3) = Returned r) as (r3 & E & Hrest).
      { destruct (dict_get "timestamp" entry) as [ts|].
        - specialize (E3 ts (snd sr) ("Entry " ++ str_of_nat i)).
          destruct (_validate_timestamp fromisoformat ts (snd sr) _) as [r3|e r3];
            [|discriminate].
          exists r3. split; [exact E3|exact Hrun].
        - exists (snd sr). split; [apply extends_refl|exact Hrun]. }
      assert (L3 : live_status (status (apl_check_command i entry r3))).
      { eapply extends_live; [apply apl_check_command_extends|].
        eapply extends_live; [exact E|exact L2]. }
      destruct (IH _ _ _ _ L3 Hrest Hok) as [Hseen Hdist].
      assert (Hnf : status (snd sr) <> FAILED).
      { intros HF. apply Hok.
        pose proof (apl_entries_loop_extends rest (S i) (fst sr)
                      (apl_check_command i entry r3)) as E4.
        rewrite Hrest in E4. cbn [outcome_result] in E4.
        eapply extends_failed; [exact E4|].
        eapply extends_failed; [apply apl_check_command_extends|].
        eapply extends_failed; [exact E|exact HF]. }
      destruct (dict_get "sequence" entry) as [sq|] eqn:Hsq.
      * rewrite (sequences_cons_some _ _ _ Hsq).
        destruct (py_in sq seen) eqn:Hin.
        { exfalso. apply Hnf. rewrite Hseq. cbn [snd].
          apply add_error_live. eapply extends_live; [exact E1|exact Hlive]. }
        rewrite Hseq in Hseen. cbn [fst] in Hseen.
        assert (Hfresh : forall v, In v (sequences rest) ->
                  py_in v seen = false /\ py_eqb v sq = false).
        { intros v Hv. specialize (Hseen v Hv).
          rewrite py_in_app in Hseen. apply orb_false_iff in Hseen.
          destruct Hseen as [H1 H2]. split; [exact H1|].
          cbn in H2. rewrite orb_false_r in H2. exact H2. }
        split.
        { intros v [<-|Hv]; [exact Hin|apply Hfresh, Hv]. }
        cbn [py_distinct]. rewrite Hdist, andb_true_r.
        apply negb_true_iff, py_in_false_iff. intros w Hw.
        rewrite py_eqb_sym. apply Hfresh, Hw.
      * rewrite (sequences_cons_none _ _ Hsq).
        rewrite Hseq in Hseen. cbn [fst] in Hseen. split; assumption.
    + rewrite apl_entries_loop_skip in Hrun by exact Hk.
      exfalso. apply Hok.
      pose proof (apl_entries_loop_extends rest (S i) seen
                    (add_error ("Entry " ++ str_of_nat i ++ ": Missing asset_id")
                       false r0)) as E.
      rewrite Hrun in E. cbn [outcome_result] in E.
      eapply extends_failed; [exact E|]. apply add_error_live, Hlive.
Qed.

(** The error message recorded for a repeated sequence number. *)
Definition duplicate_sequence_error (k : nat) (v : value) : string :=
  "Entry " ++ str_of_nat k ++ ": Duplicate sequence number " ++ str v.

Lemma apl_entries_loop_duplicate entries : forall i seen r0 r,
  Forall (fun entry => has_key "asset_id" entry = true) entries ->
  apl_entries_loop fromisoformat i entries seen r0 = Returned r ->
  py_distinct (sequences entries) = false \/
  (exists v, In v (sequences entries) /\ py_in v seen = true) ->
  exists k v, In v (sequences entries) /\ In (duplicate_sequence_error k v) (errors r).
Proof.
  induction entries as [|entry rest IH]; intros i seen r0 r HA Hrun Hdup.
  - destruct Hdup as [Hd|[v [[] _]]]. discriminate.
  - inversion HA as [|? ? Hk HA']; subst.
    rewrite apl_entries_loop_step in Hrun by exact Hk. cbv zeta in Hrun.
    set (r1 := apl_check_status i entry r0) in *.
    assert (Hseq : apl_check_sequence i entry seen r1
                   = match dict_get "sequence" entry with
                     | Some sq =>
                         (if py_in sq seen then seen else (seen ++ [sq])%list,
                          if py_in sq seen
                          then add_error (duplicate_sequence_error i sq) false r1
                          else r1)
                     | None => (seen, r1)
                     end) by reflexivity.
    set (sr := apl_check_sequence i entry seen r1) in *.
    assert (exists r3, extends (snd sr) r3 /\
              apl_entries_loop fromisoformat (S i) rest (fst sr)
                (apl_check_command i entry r3) = Returned r) as (r3 & E & Hrest).
    { destruct (dict_get "timestamp" entry) as [ts|].
      - pose proof (_validate_timestamp_extends ts (snd sr) ("Entry " ++ str_of_nat i)) as E3.
        destruct (_validate_timestamp fromisoformat ts (snd sr) _) as [r3|e r3];
          [|discriminate].
        exists r3. split; [exact E3|exact Hrun].
      - exists (snd sr). split; [apply extends_refl|exact Hrun]. }
    assert (Ext : extends (snd sr) r).
    { pose proof (apl_entries_loop_extends rest (S i) (fst sr)
                    (apl_check_command i entry r3)) as E4.
      rewrite Hrest in E4. cbn [outcome_result] in E4.
      eapply extends_trans; [exact E|].
      eapply extends_trans; [apply apl_check_command_extends|exact E4]. }
    destruct (dict_get "sequence" entry) as [sq|] eqn:Hsq.
    + rewrite (sequences_cons_some _ _ _ Hsq) in *.
      destruct (py_in sq seen) eqn:Hin.
      * exists i, sq. split; [left; reflexivity|].
        eapply extends_errors; [exact Ext|]. rewrite Hseq. cbn [snd].
        apply add_error_recorded.
      * assert (Hdup' : py_distinct (sequences rest) = false \/
                  (exists v, In v (sequences rest) /\ py_in v (fst sr) = true)).
        { rewrite Hseq. cbn [fst].
          destruct Hdup as [Hd|[v [[<-|Hv] Hvin]]].
          - cbn [py_distinct] in Hd. apply andb_false_iff in Hd.
            destruct Hd as [Hd|Hd]; [|left; exact Hd].
            right. apply negb_false_iff in Hd. unfold py_in in Hd.
            apply existsb_exists in Hd. destruct Hd as [w [Hw Heq]].
            exists w. split; [exact Hw|].
            rewrite py_in_app. apply orb_true_iff. right.
            cbn. rewrite py_eqb_sym, Heq. reflexivity.
          - congruence.
          - right. exists v. split; [exact Hv|].
            rewrite py_in_app, Hvin. reflexivity. }
        destruct (IH _ _ _ _ HA' Hrest Hdup') as (k & v & Hv & Hm).
        exists k, v. split; [right; exact Hv|exact Hm].
    + rewrite (sequences_cons_none _ _ Hsq) in *.
      assert (Hdup' : py_distinct (sequences rest) = false \/
                (exists v, In v (sequences rest) /\ py_in v (fst sr) = true)).
      { rewrite Hseq. cbn [fst]. exact Hdup. }
      exact (IH _ _ _ _ HA' Hrest Hdup').
Qed.

Lemma add_check_status p m r : status (add_check p m r) = status r.
Proof.
  unfold add_check. destruct p; cbn; [reflexivity|].
  destruct m as [m|]; cbn; [|reflexivity].
  destruct (String.eqb m ""); reflexivity.
Qed.

Lemma _validate_apl_entries_passed entries r0 r :
  live_status (status r0) ->
  _validate_apl_entries fromisoformat entries r0 = Returned r ->
  status r <> FAILED ->
  py_distinct (sequences entries) = true.
Proof.
  unfold _validate_apl_entries. intros Hlive Hrun Hok.
  destruct (apl_entries_loop fromisoformat 0 entries [] r0) as [r1|e r1] eqn:Hloop;
    [|discriminate].
  injection Hrun as <-. rewrite add_check_status in Hok.
  exact (proj2 (apl_entries_loop_passed _ _ _ _ _ Hlive Hloop Hok)).
Qed.

Lemma set_metadata_status k v r : status (set_metadata k v r) = status r.
Proof. reflexivity. Qed.

Lemma validate_apl_data_passed data r0 r :
  live_status (status r0) ->
  validate_apl_data fromisoformat data r0 = Returned r ->
  status r <> FAILED ->
  py_distinct (sequences (apl_entries data)) = true.
Proof.
  intros Hlive Hrun Hok.
  assert (Hlive1 : forall m, live_status (status (add_info m
                      (add_check true (Some "JSON structure valid") r0)))).
  { intros m. cbn [add_info set_info_messages status]. rewrite add_check_status. exact Hlive. }
  destruct data as [v|items|[entries|] ts user summary]; try reflexivity.
  - cbn [validate_apl_data apl_entries] in *.
    eapply _validate_apl_entries_passed; [apply Hlive1|exact Hrun|exact Hok].
  - cbn [validate_apl_data apl_entries then_do] in *.
    destruct (_validate_apl_entries fromisoformat entries _) as [r1|e r1] eqn:Hent;
      [|discriminate].
    eapply _validate_apl_entries_passed; [apply Hlive1|exact Hent|].
    intros HF. apply Hok.
    assert (exists r2, extends r1 r2 /\
              Returned r = Returned
                match summary with
                | Some stats =>
                    set_metadata "skipped" (or_default (VInt 0) (dict_get "skipped" stats))
                      (set_metadata "failed" (or_default (VInt 0) (dict_get "failed" stats))
                         (set_metadata "applied"
                            (or_default (VInt 0) (dict_get "applied" stats))
                            match user with
                            | Some u => add_info ("Applied by user: " ++ str u) r2
                            | None => r2
                            end))
                | None =>
                    match user with
                    | Some u => add_info ("Applied by user: " ++ str u) r2
                    | None => r2
                    end
                end) as (r2 & E & Hr).
    { unfold then_do in Hrun. destruct ts as [ts|].
      - pose proof (_validate_timestamp_extends ts r1 "") as E3.
        destruct (_validate_timestamp fromisoformat ts r1 "") as [r2|e r2];
          [|discriminate].
        exists r2. split; [exact E3|]. symmetry. exact Hrun.
      - exists r1. split; [apply extends_refl|]. symmetry. exact Hrun. }
    injection Hr as ->.
    pose proof (extends_failed _ _ E HF) as HF2.
    destruct summary as [stats|], user as [u|]; cbn; exact HF2.
Qed.

End AplFacts.

(** C4 (amended). A change list whose entries all carry an [asset_id] (and
    whose time stamps are strings) and in which two entries share a sequence
    number is validated to [FAILED], with a duplicate-sequence error among
    the recorded errors; and a change-list document whose validation does
    not end in [FAILED] has no sequence number twice. *)
Theorem apl_duplicate_sequence_rejected :
  (forall fromisoformat entries n,
     Forall (fun entry => has_key "asset_id" entry = true) entries ->
     Forall (fun entry => timestamp_is_str entry = true) entries ->
     py_distinct (sequences entries) = false ->
     exists r,
       _validate_apl_entries fromisoformat entries (new_result n) = Returned r /\
       status r = FAILED /\
       exists k v, In v (sequences entries) /\
                   In (duplicate_sequence_error k v) (errors r)) /\
  (forall fromisoformat exc_text filepath filename data t0 t1,
     status (validate_apl_file fromisoformat exc_text filepath filename
               (Parsed data) t0 t1) <> FAILED ->
     py_distinct (sequences (apl_entries data)) = true).
Proof.
  split.
  - intros fromisoformat entries n HA HT Hdup.
    destruct (apl_entries_loop_returns fromisoformat entries 0 [] (new_result n) HT)
      as [r Hloop].
    unfold _validate_apl_entries. rewrite Hloop.
    eexists. split; [reflexivity|].
    rewrite add_check_status.
    assert (Hlive : live_status (status (new_result n))) by (left; reflexivity).
    split.
    + destruct (status r) eqn:Hs; try reflexivity.
      all: assert (Hok : status r <> FAILED) by (rewrite Hs; discriminate).
      all: pose proof (proj2 (apl_entries_loop_passed fromisoformat _ _ _ _ _
                                 Hlive Hloop Hok)) as Hd.
      all: congruence.
    + destruct (apl_entries_loop_duplicate fromisoformat entries 0 [] (new_result n) r
                  HA Hloop (or_introl Hdup)) as (k & v & Hv & Hm).
      exists k, v. split; [exact Hv|].
      apply (do_call_errors (AddCheck _ _)). exact Hm.
  - intros fromisoformat exc_text filepath filename data t0 t1 Hok.
    unfold validate_apl_file in Hok. cbn [set_times status] in Hok.
    set (r0 := set_times (Some t0) None (new_result ("APL File: " ++ filename))) in *.
    destruct (validate_apl_data fromisoformat data r0) as [r|e r] eqn:Hrun.
    + eapply validate_apl_data_passed; [|exact Hrun|exact Hok].
      left. reflexivity.
    + exfalso. apply Hok. reflexivity.
Qed.

Lemma apl_duplicate_sequence_rejected_witness :
  (let entries :=
     [ [("sequence", VInt 1); ("asset_id", VStr "srv-001"); ("status", VStr "applied")];
       [("sequence", VInt 1); ("asset_id", VStr "srv-002"); ("status", VStr "applied")] ] in
   exists r,
     _validate_apl_entries (fun _ => true) entries (new_result "APL File: a.apl")
     = Returned r /\
     status r = FAILED /\
     exists k v, In v (sequences entries) /\ In (duplicate_sequence_error k v) (errors r)) /\
  (let data :=
     JObject (Some [ [("sequence", VInt 1); ("asset_id", VStr "srv-001")];
                     [("sequence", VInt 2); ("asset_id", VStr "srv-002");
                      ("status", VStr "failed")] ])
       (Some (VStr "2024-01-01T00:00:00Z")) None None in
   py_distinct (sequences (apl_entries data)) = true).
Proof.
  split.
  - intros entries.
    apply (proj1 apl_duplicate_sequence_rejected (fun _ => true) entries).
    + repeat constructor.
    + repeat constructor.
    + reflexivity.
  - intros data.
    apply (proj2 apl_duplicate_sequence_rejected (fun _ => true) (fun _ => "")
             "a.apl" "a.apl" data "t0" "t1").
    vm_compute. discriminate.
Defined.

(** C4, as stated, fails.  The change-list validator does not look at
    operations, so a change list with two [create] entries for one asset
    passes with [PASSED].  And a time stamp that is not a string stops the
    loop with an [AttributeError] ([timestamp.replace]) before the second
    of two equal sequence numbers is seen: the file is [FAILED] by the
    critical error of the handler, with no duplicate-sequence error. *)
Lemma apl_two_creates_pass :
  (let entries :=
     [ [("sequence", VInt 1); ("asset_id", VStr "srv-004"); ("operation", VStr "create")];
       [("sequence", VInt 2); ("asset_id", VStr "srv-004"); ("operation", VStr "create")] ] in
   status (validate_apl_file (fun _ => true) (fun _ => "") "a.apl" "a.apl"
             (Parsed (JList entries)) "t0" "t1") = PASSED /\
   create_count (VStr "srv-004") entries = 2) /\
  (let entries :=
     [ [("sequence", VInt 1); ("asset_id", VStr "srv-001"); ("timestamp", VInt 0)];
       [("sequence", VInt 1); ("asset_id", VStr "srv-002")] ] in
   let r := validate_apl_file (fun _ => true) (fun _ => "") "a.apl" "a.apl"
              (Parsed (JList entries)) "t0" "t1" in
   py_distinct (sequences entries) = false /\
   status r = FAILED /\ errors r = [] /\
   critical_errors r = ["Validation error: "]).
Proof. repeat split; reflexivity. Qed.


(** ** Sorting with a comparison that may raise *)
Import sorter.

Section SortedFacts.
Context {A : Type}.
Variable cmp : A -> A -> exn Z.

Lemma insert_perm x l : forall r, insert cmp x l = Ok r -> Permutation r (x :: l).
Proof.
  induction l as [|y l IH]; intros r H; cbn in H.
  - injection H as <-. apply Permutation_refl.
  - destruct (cmp_lt cmp x y) as [[|]|e]; cbn in H; try discriminate.
    + injection H as <-. apply Permutation_refl.
    + destruct (insert cmp x l) as [r'|e]; cbn in H; [|discriminate].
      injection H as <-.
      eapply Permutation_trans; [|apply perm_swap].
      apply perm_skip, IH. reflexivity.
Qed.

Lemma fold_insert_raise l e :
  fold_left (fun acc x => bind acc (insert cmp x)) l (Raise e) = Raise e.
Proof. induction l as [|x l IH]; [reflexivity|exact IH]. Qed.

Lemma fold_insert_perm l : forall acc r,
  fold_left (fun acc x => bind acc (insert cmp x)) l (Ok acc) = Ok r ->
  Permutation r (l ++ acc).
Proof.
  induction l as [|x l IH]; intros acc r H; cbn in H.
  - injection H as <-. apply Permutation_refl.
  - destruct (insert cmp x acc) as [acc'|e] eqn:Hi.
    + eapply Permutation_trans; [apply IH, H|].
      eapply Permutation_trans; [apply Permutation_app_head, insert_perm, Hi|].
      apply Permutation_sym, Permutation_middle.
    + rewrite fold_insert_raise in H. discriminate.
Qed.

Lemma stable_sort_perm l r : stable_sort cmp l = Ok r -> Permutation r l.
Proof.
  intros H. apply fold_insert_perm in H. rewrite app_nil_r in H. exact H.
Qed.

Lemma sorted_perm l reverse r : sorted cmp l reverse = Ok r -> Permutation r l.
Proof.
  unfold sorted. destruct reverse; [|apply stable_sort_perm].
  destruct (stable_sort cmp (rev l)) as [r'|e] eqn:H; cbn; [|discriminate].
  intros [= <-]. apply stable_sort_perm in H.
  eapply Permutation_trans; [apply Permutation_sym, Permutation_rev|].
  eapply Permutation_trans; [exact H|]. apply Permutation_sym, Permutation_rev.
Qed.

(** Every comparison among the elements of [l] returns. *)
Definition comparable (l : list A) : Prop :=
  forall x y, In x l -> In y l -> exists c, cmp x y = Ok c.

Lemma insert_returns x l :
  (forall y, In y l -> exists c, cmp x y = Ok c) ->
  exists r, insert cmp x l = Ok r.
Proof.
  induction l as [|y l IH]; intros H; cbn.
  - eexists. reflexivity.
  - destruct (H y (or_introl eq_refl)) as [c Hc].
    unfold cmp_lt. rewrite Hc. cbn.
    destruct (c <? 0)%Z; [eexists; reflexivity|].
    destruct IH as [r Hr]; [intros z Hz; apply H; right; exact Hz|].
    rewrite Hr. eexists. reflexivity.
Qed.

Lemma fold_insert_returns l : forall acc,
  comparable (l ++ acc) ->
  exists r, fold_left (fun acc x => bind acc (insert cmp x)) l (Ok acc) = Ok r.
Proof.
  induction l as [|x l IH]; intros acc H; cbn.
  - eexists. reflexivity.
  - destruct (insert_returns x acc) as [acc' Hacc'].
    { intros y Hy. apply H; [left; reflexivity|].
      right. apply in_or_app. right. exact Hy. }
    rewrite Hacc'. apply IH.
    intros a b Ha Hb. apply H.
    + apply in_app_or in Ha. destruct Ha as [Ha|Ha].
      * right. apply in_or_app. left. exact Ha.
      * apply (Permutation_in _ (insert_perm _ _ _ Hacc')) in Ha.
        destruct Ha as [<-|Ha]; [left; reflexivity|].
        right. apply in_or_app. right. exact Ha.
    + apply in_app_or in Hb. destruct Hb as [Hb|Hb].
      * right. apply in_or_app. left. exact Hb.
      * apply (Permutation_in _ (insert_perm _ _ _ Hacc')) in Hb.
        destruct Hb as [<-|Hb]; [left; reflexivity|].
        right. apply in_or_app. right. exact Hb.
Qed.

Lemma stable_sort_returns l : comparable l -> exists r, stable_sort cmp l = Ok r.
Proof.
  intros H. apply fold_insert_returns. rewrite app_nil_r. exact H.
Qed.

(** [x] may stand before [y]: [y] is not smaller than [x]. *)
Definition in_order (x y : A) : Prop := cmp_lt cmp y x = Ok false.

Hypothesis cmp_asym : forall x y, cmp_lt cmp x y = Ok true -> cmp_lt cmp y x = Ok false.

Lemma insert_hdrel x l : forall r a,
  insert cmp x l = Ok r -> in_order a x -> HdRel in_order a l -> HdRel in_order a r.
Proof.
  destruct l as [|y l]; intros r a H Hax Hal; cbn in H.
  - injection H as <-. constructor. exact Hax.
  - destruct (cmp_lt cmp x y) as [[|]|e]; cbn in H; try discriminate.
    + injection H as <-. constructor. exact Hax.
    + destruct (insert cmp x l) as [r'|e]; cbn in H; [|discriminate].
      injection H as <-. constructor. inversion Hal; assumption.
Qed.

Lemma insert_sorted x l : forall r,
  insert cmp x l = Ok r -> Sorted in_order l -> Sorted in_order r.
Proof.
  induction l as [|y l IH]; intros r H Hs; cbn in H.
  - injection H as <-. repeat constructor.
  - destruct (cmp_lt cmp x y) as [[|]|e] eqn:Hxy; cbn in H; try discriminate.
    + injection H as <-. constructor; [exact Hs|].
      constructor. apply cmp_asym, Hxy.
    + destruct (insert cmp x l) as [r'|e] eqn:Hi; cbn in H; [|discriminate].
      injection H as <-. inversion Hs as [|? ? Hs' Hhd]; subst.
      constructor; [apply IH; [reflexivity|exact Hs']|].
      eapply insert_hdrel; [exact Hi|exact Hxy|exact Hhd].
Qed.

Lemma fold_insert_sorted l : forall acc r,
  fold_left (fun acc x => bind acc (insert cmp x)) l (Ok acc) = Ok r ->
  Sorted in_order acc -> Sorted in_order r.
Proof.
  induction l as [|x l IH]; intros acc r H Hs; cbn in H.
  - injection H as <-. exact Hs.
  - destruct (insert cmp x acc) as [acc'|e] eqn:Hi.
    + eapply IH; [exact H|]. eapply insert_sorted; [exact Hi|exact Hs].
    + rewrite fold_insert_raise in H. discriminate.
Qed.

Lemma stable_sort_sorted l r : stable_sort cmp l = Ok r -> Sorted in_order r.
Proof. intros H. eapply fold_insert_sorted; [exact H|constructor]. Qed.

End SortedFacts.

(** ** Strings *)
Ltac each_char c :=
  destruct c as [[] [] [] [] [] [] [] []]; try reflexivity; try discriminate.

Section StringFacts.

Lemma append_nil_r s : s ++ "" = s.
Proof. induction s as [|c s IH]; cbn; [reflexivity|rewrite IH; reflexivity]. Qed.

Lemma append_assoc (s t u : string) : (s ++ t) ++ u = s ++ (t ++ u).
Proof. induction s as [|c s IH]; cbn; [reflexivity|rewrite IH; reflexivity]. Qed.

Lemma append_eq_nil s t : s ++ t = "" -> s = "" /\ t = "".
Proof. destruct s; cbn; [intros ->; split; reflexivity|discriminate]. Qed.

Lemma all_chars_app p s t : all_chars p (s ++ t) = all_chars p s && all_chars p t.
Proof.
  induction s as [|c s IH]; cbn; [reflexivity|].
  rewrite IH, andb_assoc. reflexivity.
Qed.

Lemma all_chars_impl (p q : ascii -> bool) s :
  (forall c, p c = true -> q c = true) -> all_chars p s = true -> all_chars q s = true.
Proof.
  intros H. induction s as [|c s IH]; cbn; [reflexivity|].
  intros Hs. apply andb_true_iff in Hs. destruct Hs as [Hc Hs].
  rewrite (H c Hc), (IH Hs). reflexivity.
Qed.

Lemma rstrip_by_app p s t :
  rstrip_by p t <> "" -> rstrip_by p (s ++ t) = s ++ rstrip_by p t.
Proof.
  intros Ht. induction s as [|c s IH]; cbn; [reflexivity|].
  rewrite IH. destruct (s ++ rstrip_by p t) eqn:E; [|reflexivity].
  apply append_eq_nil in E. destruct E as [_ E]. contradiction.
Qed.

Lemma rstrip_by_app_nil p s t :
  rstrip_by p t = "" -> rstrip_by p (s ++ t) = rstrip_by p s.
Proof.
  intros Ht. induction s as [|c s IH]; cbn; [exact Ht|].
  rewrite IH. reflexivity.
Qed.

Lemma rstrip_by_none p s :
  all_chars (fun c => negb (p c)) s = true -> rstrip_by p s = s.
Proof.
  induction s as [|c s IH]; cbn; [reflexivity|].
  intros H. apply andb_true_iff in H. destruct H as [Hc Hs].
  rewrite (IH Hs). destruct s; [|reflexivity].
  apply negb_true_iff in Hc. rewrite Hc. reflexivity.
Qed.

Lemma lower_app s t : lower (s ++ t) = lower s ++ lower t.
Proof. induction s as [|c s IH]; cbn; [reflexivity|rewrite IH; reflexivity]. Qed.

Lemma is_decimal_lower c : is_decimal (lower_char c) = is_decimal c.
Proof. each_char c. Qed.

Lemma isdigit_char_lower c : isdigit_char (lower_char c) = isdigit_char c.
Proof. each_char c. Qed.

Lemma lower_char_decimal c : is_decimal c = true -> lower_char c = c.
Proof. each_char c. Qed.

Lemma is_decimal_not_space c : is_decimal c = true -> isspace c = false.
Proof. each_char c. Qed.

Lemma is_decimal_isdigit c : is_decimal c = true -> isdigit_char c = true.
Proof. unfold isdigit_char. intros ->. reflexivity. Qed.

Lemma isdigit_char_not_decimal c : isdigit_char c = false -> is_decimal c = false.
Proof. unfold isdigit_char. intros H. apply orb_false_iff in H. apply H. Qed.

Lemma lower_decimal s : all_chars is_decimal s = true -> lower s = s.
Proof.
  induction s as [|c s IH]; cbn; [reflexivity|].
  intros H. apply andb_true_iff in H. destruct H as [Hc Hs].
  rewrite (lower_char_decimal c Hc), (IH Hs). reflexivity.
Qed.

Lemma all_chars_lower (p : ascii -> bool) s :
  (forall c, p (lower_char c) = p c) -> all_chars p (lower s) = all_chars p s.
Proof.
  intros H. induction s as [|c s IH]; cbn; [reflexivity|].
  rewrite H, IH. reflexivity.
Qed.

(** The split of a run of digits, and of a text in front of a split. *)
Lemma re_split_digits_run d :
  d <> "" -> all_chars is_decimal d = true -> re_split_digits d = [""; d; ""].
Proof.
  induction d as [|c d IH]; [congruence|]. intros _ H.
  cbn in H. apply andb_true_iff in H. destruct H as [Hc Hd].
  cbn [re_split_digits]. rewrite Hc.
  destruct d as [|c' d']; [reflexivity|].
  rewrite IH; [reflexivity|discriminate|exact Hd].
Qed.

Lemma re_split_digits_text q rest nd tl :
  all_chars (fun c => negb (is_decimal c)) q = true ->
  re_split_digits rest = nd :: tl ->
  re_split_digits (q ++ rest) = (q ++ nd) :: tl.
Proof.
  intros Hq Hr. induction q as [|c q IH]; cbn; [exact Hr|].
  cbn in Hq. apply andb_true_iff in Hq. destruct Hq as [Hc Hq].
  apply negb_true_iff in Hc. rewrite Hc, (IH Hq). reflexivity.
Qed.

(** Decimal numerals. *)
Lemma string_of_uint_decimal u : all_chars is_decimal (NilEmpty.string_of_uint u) = true.
Proof. induction u; cbn; try reflexivity; exact IHu. Qed.

Lemma str_of_nat_uint n :
  exists u, u <> Decimal.Nil /\ str_of_nat n = NilEmpty.string_of_uint u /\
            Z.of_uint u = Z.of_nat n.
Proof.
  unfold str_of_nat, str_of_Z.
  pose proof (DecimalZ.of_to (Z.of_nat n)) as Hz.
  unfold Z.of_int in Hz.
  destruct (Z.of_nat n) as [|p|p] eqn:E; try lia.
  - exists (Decimal.D0 Decimal.Nil). repeat split. discriminate.
  - cbn [Z.to_int] in *. exists (Pos.to_uint p).
    assert (Hn : Pos.to_uint p <> Decimal.Nil) by apply DecimalPos.Unsigned.to_uint_nonnil.
    repeat split; [exact Hn| |exact Hz].
    cbn. unfold NilZero.string_of_uint.
    destruct (Pos.to_uint p); [congruence|reflexivity..].
Qed.

Lemma string_of_uint_nonempty u : u <> Decimal.Nil -> NilEmpty.string_of_uint u <> "".
Proof. destruct u; cbn; congruence. Qed.

Lemma str_of_nat_decimal n : all_chars is_decimal (str_of_nat n) = true.
Proof. destruct (str_of_nat_uint n) as (u & _ & -> & _). apply string_of_uint_decimal. Qed.

Lemma str_of_nat_nonempty n : str_of_nat n <> "".
Proof.
  destruct (str_of_nat_uint n) as (u & Hu & -> & _). apply string_of_uint_nonempty, Hu.
Qed.

Lemma digits_value_str_of_nat n : float.digits_value (str_of_nat n) = Z.of_nat n.
Proof.
  destruct (str_of_nat_uint n) as (u & _ & -> & Hz).
  unfold float.digits_value. rewrite NilEmpty.usu. exact Hz.
Qed.

Lemma uint_of_string_decimal d :
  all_chars is_decimal d = true -> exists u, NilEmpty.uint_of_string d = Some u.
Proof.
  induction d as [|c d IH]; [exists Decimal.Nil; reflexivity|].
  cbn [all_chars]. intros H. apply andb_true_iff in H. destruct H as [Hc Hd].
  destruct (IH Hd) as [u Hu]. cbn [NilEmpty.uint_of_string]. rewrite Hu.
  revert Hc. each_char c; intros _; eexists; reflexivity.
Qed.

(** [int] of a run of decimal digits: the number it writes, unless the run
    is longer than the limit allows. *)
Lemma int_of_digits_decimal d :
  all_chars is_decimal d = true ->
  int_of_digits d
  = if (int_max_str_digits <? String.length d)%nat then Raise ValueError
    else Ok (float.digits_value d).
Proof.
  intros Hd. unfold int_of_digits, float.digits_value.
  destruct (uint_of_string_decimal d Hd) as [u ->]. reflexivity.
Qed.

Lemma int_of_digits_str_of_nat n :
  String.length (str_of_nat n) <= int_max_str_digits ->
  int_of_digits (str_of_nat n) = Ok (Z.of_nat n).
Proof.
  intros Hn. rewrite (int_of_digits_decimal _ (str_of_nat_decimal n)).
  apply Nat.ltb_ge in Hn. rewrite Hn, digits_value_str_of_nat. reflexivity.
Qed.

(** [int] raises [ValueError] whenever it raises. *)
Lemma int_of_digits_raises s e : int_of_digits s = Raise e -> e = ValueError.
Proof.
  unfold int_of_digits. destruct (_ <? _)%nat; [congruence|].
  destruct (NilEmpty.uint_of_string s); congruence.
Qed.

End StringFacts.

(** ** Sort keys and the comparison of assets *)
Section KeyFacts.

Lemma key_part_eqb_sym x y : key_part_eqb x y = key_part_eqb y x.
Proof.
  destruct x, y; cbn; try reflexivity; [apply Z.eqb_sym|apply String.eqb_sym].
Qed.

Lemma key_gtb_ltb a : forall b, key_gtb a b = key_ltb b a.
Proof.
  induction a as [|x a IH]; intros [|y b]; cbn; try reflexivity.
  rewrite key_part_eqb_sym, IH. reflexivity.
Qed.

Lemma string_ltb_asym s t : String.ltb s t = true -> String.ltb t s = false.
Proof.
  unfold String.ltb. rewrite (String.compare_antisym s t).
  destruct (String.compare t s); cbn; congruence.
Qed.

Lemma key_part_ltb_asym x y :
  key_part_ltb x y = Ok true -> key_part_ltb y x = Ok false.
Proof.
  destruct x, y; cbn; try discriminate; try reflexivity; intros [= H]; f_equal.
  - apply Z.ltb_lt in H. apply Z.ltb_ge. lia.
  - apply string_ltb_asym, H.
Qed.

Lemma key_ltb_asym a : forall b, key_ltb a b = Ok true -> key_ltb b a = Ok false.
Proof.
  induction a as [|x a IH]; intros [|y b]; cbn; try discriminate; try reflexivity.
  rewrite (key_part_eqb_sym y x).
  destruct (key_part_eqb x y); [apply IH|apply key_part_ltb_asym].
Qed.

(** The identifier the comparator reads. *)
Definition id_of (a : asset) : value := get_default "asset_id" (VStr "") a.

Lemma comparator_falsy_truthy a b :
  truthy (id_of a) = false -> truthy (id_of b) = true ->
  asset_id_comparator a b = Ok 1%Z /\ asset_id_comparator b a = Ok (-1)%Z.
Proof.
  unfold asset_id_comparator, id_of. intros -> ->. split; reflexivity.
Qed.

Lemma comparator_falsy_falsy a b :
  truthy (id_of a) = false -> truthy (id_of b) = false ->
  asset_id_comparator a b = Ok 0%Z.
Proof. unfold asset_id_comparator, id_of. intros -> ->. reflexivity. Qed.

Lemma comparator_truthy a b :
  truthy (id_of a) = true -> truthy (id_of b) = true ->
  asset_id_comparator a b
  = bind (natural_sort_key (id_of a)) (fun a_key =>
    bind (natural_sort_key (id_of b)) (fun b_key =>
    bind (key_ltb a_key b_key) (fun lt =>
    if lt then Ok (-1)%Z
    else bind (key_ltb b_key a_key) (fun gt =>
         if gt then Ok 1%Z else Ok 0%Z)))).
Proof.
  unfold asset_id_comparator, id_of. intros -> ->. cbn [negb andb].
  destruct (natural_sort_key _) as [ka|]; [|reflexivity].
  destruct (natural_sort_key _) as [kb|]; [|reflexivity].
  cbn [bind]. rewrite key_gtb_ltb. reflexivity.
Qed.

Lemma comparator_asym x y :
  cmp_lt asset_id_comparator x y = Ok true ->
  cmp_lt asset_id_comparator y x = Ok false.
Proof.
  unfold cmp_lt.
  destruct (truthy (id_of x)) eqn:Hx, (truthy (id_of y)) eqn:Hy.
  - rewrite (comparator_truthy x y Hx Hy), (comparator_truthy y x Hy Hx).
    destruct (natural_sort_key (id_of x)) as [kx|]; [|discriminate].
    destruct (natural_sort_key (id_of y)) as [ky|]; [|discriminate].
    cbn [bind].
    destruct (key_ltb kx ky) as [[|]|] eqn:Hlt; cbn [bind]; try discriminate.
    + rewrite (key_ltb_asym _ _ Hlt). cbn [bind]. reflexivity.
    + destruct (key_ltb ky kx) as [[|]|]; cbn; discriminate.
  - destruct (comparator_falsy_truthy y x Hy Hx) as [-> ->]. reflexivity.
  - destruct (comparator_falsy_truthy x y Hx Hy) as [-> ->]. discriminate.
  - rewrite (comparator_falsy_falsy x y Hx Hy). discriminate.
Qed.

(** A text that starts with a character other than white space. *)
Definition starts_clean (p : string) : bool :=
  match p with
  | String c _ => negb (isspace c)
  | EmptyString => false
  end.

(** The key of a text without digits followed by a run of digits. *)
Lemma natural_sort_key_text_digits p d n :
  starts_clean p = true ->
  all_chars (fun c => negb (isdigit_char c)) p = true ->
  d <> "" -> all_chars is_decimal d = true ->
  int_of_digits d = Ok n ->
  natural_sort_key (VStr (p ++ d)) = Ok [KStr (lower p); KInt n].
Proof.
  intros Hp Hnd Hd Hdec Hint. unfold natural_sort_key. cbn [str].
  assert (Hstrip : strip (p ++ d) = p ++ d).
  { unfold strip, strip_by. destruct p as [|c p]; [discriminate|]. cbn in Hp.
    apply negb_true_iff in Hp. cbn [append lstrip_by]. rewrite Hp.
    change (String c (p ++ d)) with (String c p ++ d).
    assert (Hr : rstrip_by isspace d = d).
    { apply rstrip_by_none. eapply all_chars_impl; [|exact Hdec].
      intros c' Hc'. rewrite (is_decimal_not_space c' Hc'). reflexivity. }
    rewrite rstrip_by_app; rewrite Hr; [reflexivity|exact Hd]. }
  rewrite Hstrip, lower_app, (lower_decimal d Hdec).
  assert (Hq : all_chars (fun c => negb (isdigit_char c)) (lower p) = true).
  { rewrite all_chars_lower; [exact Hnd|].
    intros c. rewrite isdigit_char_lower. reflexivity. }
  assert (Hq0 : lower p <> "") by (destruct p; [discriminate|cbn; discriminate]).
  rewrite (re_split_digits_text (lower p) d "" [d; ""]).
  - rewrite append_nil_r. cbn [key_parts].
    assert (H1 : isdigit (lower p) = false).
    { unfold isdigit. destruct (lower p) as [|c q]; [reflexivity|].
      cbn in Hq |- *. apply andb_true_iff in Hq. destruct Hq as [Hc _].
      apply negb_true_iff in Hc. rewrite Hc. reflexivity. }
    assert (H2 : isdigit d = true).
    { unfold isdigit. apply andb_true_iff. split.
      - destruct d; [congruence|reflexivity].
      - eapply all_chars_impl; [|exact Hdec]. apply is_decimal_isdigit. }
    rewrite H1, H2, Hint.
    assert (H3 : String.eqb (lower p) "" = false)
      by (destruct (lower p); [congruence|reflexivity]).
    rewrite H3. reflexivity.
  - eapply all_chars_impl; [|exact Hq].
    intros c Hc. apply negb_true_iff in Hc. apply negb_true_iff.
    apply isdigit_char_not_decimal, Hc.
  - apply re_split_digits_run; assumption.
Qed.

(** *** The key of an identifier, run by run *)

(** A run of an identifier: decimal digits, or characters none of which
    is a decimal digit. *)
Inductive run : Type :=
| Digits (d : string)
| Other (t : string).

Definition run_text (r : run) : string :=
  match r with
  | Digits d => d
  | Other t => t
  end.

(** The runs written one after the other. *)
Fixpoint text_of_runs (rs : list run) : string :=
  match rs with
  | [] => ""
  | r :: tl => run_text r ++ text_of_runs tl
  end.

(** A run is not empty, and holds characters of its kind only. *)
Definition is_run (r : run) : bool :=
  match r with
  | Digits d => negb (String.eqb d "") && all_chars is_decimal d
  | Other t => negb (String.eqb t "") && all_chars (fun c => negb (is_decimal c)) t
  end.

Definition same_kind (r r' : run) : bool :=
  match r, r' with
  | Digits _, Digits _ | Other _, Other _ => true
  | _, _ => false
  end.

(** The runs are as long as they can be: no two of a kind are neighbours. *)
Fixpoint alternate (rs : list run) : bool :=
  match rs with
  | r :: tl =>
      match tl with
      | r' :: _ => negb (same_kind r r') && alternate tl
      | [] => true
      end
  | [] => true
  end.

(** [rs] are the runs of [s]. *)
Definition splits_into (s : string) (rs : list run) : Prop :=
  text_of_runs rs = s /\ forallb is_run rs = true /\ alternate rs = true.

(** A run of digits is read when it is not longer than [int] allows; a run
    of other characters is read unless all of them are superscript digits,
    which [isdigit] takes for digits and [int] does not. *)
Definition run_readable (r : run) : bool :=
  match r with
  | Digits d => (String.length d <=? int_max_str_digits)%nat
  | Other t => negb (isdigit t)
  end.

(** The part of the key a run gives: the number the digits write, or the
    text in lower case. *)
Definition run_part (r : run) : key_part :=
  match r with
  | Digits d => KInt (float.digits_value d)
  | Other t => KStr (lower t)
  end.

(** The parts of [re.split] for a list of runs: the first, and the others. *)
Fixpoint split_parts (rs : list run) : string * list string :=
  match rs with
  | [] => ("", [])
  | Other t :: tl => let '(h, r) := split_parts tl in (t ++ h, r)
  | Digits d :: tl => let '(h, r) := split_parts tl in ("", d :: h :: r)
  end.

Definition lower_run (r : run) : run :=
  match r with
  | Digits d => Digits d
  | Other t => Other (lower t)
  end.

Lemma re_split_digits_nonempty s : re_split_digits s <> [].
Proof.
  destruct s as [|c s]; cbn [re_split_digits]; [discriminate|].
  destruct (is_decimal c).
  - destruct (re_split_digits s) as [|[|] [|]]; discriminate.
  - destruct (re_split_digits s); discriminate.
Qed.

(** A run of digits in front of a text that does not start with one. *)
Lemma re_split_digits_digits d rest h r :
  d <> "" -> all_chars is_decimal d = true ->
  re_split_digits rest = h :: r -> (h <> "" \/ r = []) ->
  re_split_digits (d ++ rest) = "" :: d :: h :: r.
Proof.
  intros Hne Hd Hrest Hh. induction d as [|c d IH]; [congruence|].
  cbn [all_chars] in Hd. apply andb_true_iff in Hd. destruct Hd as [Hc Hd].
  cbn [append re_split_digits]. rewrite Hc.
  destruct d as [|c' d'].
  - cbn [append]. rewrite Hrest.
    destruct h as [|a h']; [|reflexivity].
    destruct Hh as [Hh| ->]; [congruence|reflexivity].
  - rewrite IH; [reflexivity|discriminate|exact Hd].
Qed.

Lemma split_parts_head rs :
  forallb is_run rs = true ->
  match rs with
  | Other _ :: _ => fst (split_parts rs) <> ""
  | _ => fst (split_parts rs) = ""
  end.
Proof.
  destruct rs as [|[d|t] tl]; cbn [split_parts forallb]; intros H.
  - reflexivity.
  - destruct (split_parts tl). reflexivity.
  - apply andb_true_iff in H. destruct H as [Ht _].
    unfold is_run in Ht. apply andb_true_iff in Ht. destruct Ht as [Ht _].
    destruct (split_parts tl) as [h r]. cbn [fst].
    destruct t; [discriminate Ht|discriminate].
Qed.

Lemma re_split_digits_runs rs :
  forallb is_run rs = true -> alternate rs = true ->
  re_split_digits (text_of_runs rs) = fst (split_parts rs) :: snd (split_parts rs).
Proof.
  induction rs as [|r tl IH]; [reflexivity|].
  intros Hr Ha. cbn [forallb] in Hr. apply andb_true_iff in Hr. destruct Hr as [Hr Htl].
  assert (Ha' : alternate tl = true).
  { cbn [alternate] in Ha. destruct tl; [reflexivity|].
    apply andb_true_iff in Ha. apply Ha. }
  specialize (IH Htl Ha').
  pose proof (split_parts_head tl Htl) as Hhead.
  destruct r as [d|t]; cbn [text_of_runs run_text split_parts];
    destruct (split_parts tl) as [h r] eqn:Hsp; cbn [fst snd] in *;
    unfold is_run in Hr; apply andb_true_iff in Hr; destruct Hr as [Hne Hall].
  - apply re_split_digits_digits; try assumption.
    + destruct d; [discriminate Hne|discriminate].
    + destruct tl as [|[d'|t'] tl'].
      * cbn in Hsp. injection Hsp as <- <-. right. reflexivity.
      * cbn [alternate same_kind negb andb] in Ha. discriminate Ha.
      * left. exact Hhead.
  - apply re_split_digits_text; assumption.
Qed.

Lemma isdigit_decimal d :
  d <> "" -> all_chars is_decimal d = true -> isdigit d = true.
Proof.
  intros Hne Hd. unfold isdigit. apply andb_true_iff. split.
  - destruct d; [congruence|reflexivity].
  - eapply all_chars_impl; [|exact Hd]. apply is_decimal_isdigit.
Qed.

(** [int] does not read a text without a decimal digit. *)
Lemma int_of_digits_other t :
  t <> "" -> all_chars (fun c => negb (is_decimal c)) t = true ->
  int_of_digits t = Raise ValueError.
Proof.
  intros Hne Ht. unfold int_of_digits. destruct (_ <? _)%nat; [reflexivity|].
  destruct t as [|c t]; [congruence|].
  cbn [all_chars] in Ht. apply andb_true_iff in Ht. destruct Ht as [Hc _].
  cbn [NilEmpty.uint_of_string]. destruct (NilEmpty.uint_of_string t); [|reflexivity].
  revert Hc. each_char c.
Qed.

(** The loop of [natural_sort_key] over the parts of a list of runs. *)
Fixpoint run_keys (rs : list run) : exn (list key_part) :=
  match rs with
  | [] => Ok []
  | r :: tl =>
      if run_readable r then
        bind (run_keys tl) (fun ks =>
        Ok (match r with Digits d => KInt (float.digits_value d) | Other t => KStr t end
            :: ks))
      else Raise ValueError
  end.

Lemma run_keys_raises rs e : run_keys rs = Raise e -> e = ValueError.
Proof.
  induction rs as [|r tl IH]; cbn [run_keys]; [discriminate|].
  destruct (run_readable r); [|congruence].
  destruct (run_keys tl) as [ks|e']; cbn [bind]; [discriminate|].
  intros [= <-]. apply IH. reflexivity.
Qed.

Lemma key_parts_empty l : key_parts ("" :: l) = key_parts l.
Proof. reflexivity. Qed.

Lemma key_parts_digits d l :
  isdigit d = true ->
  key_parts (d :: l)
  = bind (int_of_digits d) (fun n => bind (key_parts l) (fun ks => Ok (KInt n :: ks))).
Proof. intros H. cbn [key_parts]. rewrite H. reflexivity. Qed.

Lemma key_parts_text t l :
  isdigit t = false -> t <> "" ->
  key_parts (t :: l) = bind (key_parts l) (fun ks => Ok (KStr t :: ks)).
Proof.
  intros H Hne. cbn [key_parts]. rewrite H.
  destruct (String.eqb_spec t "") as [E|_]; [contradiction|reflexivity].
Qed.

Lemma key_parts_runs rs :
  forallb is_run rs = true -> alternate rs = true ->
  (forall ks, run_keys rs = Ok ks ->
     key_parts (fst (split_parts rs) :: snd (split_parts rs)) = Ok ks) /\
  (forall e, run_keys rs = Raise e ->
     key_parts (fst (split_parts rs) :: snd (split_parts rs)) = Raise ValueError).
Proof.
  induction rs as [|r tl IH].
  { intros _ _. split; [intros ks [= <-]; reflexivity|discriminate]. }
  intros Hr Ha. cbn [forallb] in Hr. apply andb_true_iff in Hr. destruct Hr as [Hr Htl].
  assert (Ha' : alternate tl = true).
  { cbn [alternate] in Ha. destruct tl; [reflexivity|].
    apply andb_true_iff in Ha. apply Ha. }
  specialize (IH Htl Ha'). destruct IH as [IHok IHerr].
  pose proof (split_parts_head tl Htl) as Hhead.
  unfold is_run in Hr.
  destruct r as [d|t]; apply andb_true_iff in Hr; destruct Hr as [Hne Hall];
    cbn [split_parts run_keys run_readable];
    destruct (split_parts tl) as [h r] eqn:Hsp; cbn [fst snd] in *.
  - (* digits *)
    assert (Hd : d <> "") by (destruct d; [discriminate Hne|discriminate]).
    rewrite key_parts_empty, (key_parts_digits d _ (isdigit_decimal d Hd Hall)).
    rewrite (int_of_digits_decimal d Hall).
    destruct (Nat.leb_spec (String.length d) int_max_str_digits) as [Hle|Hgt].
    + apply Nat.ltb_ge in Hle. rewrite Hle. cbn [bind].
      split.
      * intros ks Hks. destruct (run_keys tl) as [ks'|e]; [|discriminate Hks].
        cbn [bind] in Hks. injection Hks as <-.
        rewrite (IHok ks' eq_refl). reflexivity.
      * intros e He. destruct (run_keys tl) as [ks'|e'] eqn:Htlk; [discriminate He|].
        rewrite (IHerr e' eq_refl). reflexivity.
    + apply Nat.ltb_lt in Hgt. rewrite Hgt.
      split; [discriminate|reflexivity].
  - (* other characters: what follows is the end, or a run of digits *)
    assert (Ht : t <> "") by (destruct t; [discriminate Hne|discriminate]).
    assert (Hh : h = "").
    { destruct tl as [|[d'|t'] tl']; [exact Hhead|exact Hhead|].
      cbn [alternate same_kind negb andb] in Ha. discriminate Ha. }
    subst h. rewrite append_nil_r.
    rewrite key_parts_empty in IHok, IHerr.
    destruct (isdigit t) eqn:Hdig; cbn [negb].
    + rewrite (key_parts_digits t _ Hdig), (int_of_digits_other t Ht Hall).
      split; [discriminate|reflexivity].
    + rewrite (key_parts_text t _ Hdig Ht). split.
      * intros ks Hks. destruct (run_keys tl) as [ks'|e]; [|discriminate Hks].
        cbn [bind] in Hks. injection Hks as <-.
        rewrite (IHok ks' eq_refl). reflexivity.
      * intros e He. destruct (run_keys tl) as [ks'|e'] eqn:Htlk; [discriminate He|].
        rewrite (IHerr e' eq_refl). reflexivity.
Qed.

Lemma is_run_lower rs :
  forallb is_run rs = true -> forallb is_run (map lower_run rs) = true.
Proof.
  induction rs as [|r tl IH]; [reflexivity|].
  cbn [map forallb]. intros H. apply andb_true_iff in H. destruct H as [Hr Htl].
  rewrite (IH Htl), andb_true_r.
  destruct r as [d|t]; [exact Hr|].
  unfold lower_run, is_run in *. apply andb_true_iff in Hr. destruct Hr as [Hne Hall].
  apply andb_true_iff. split.
  - destruct t; [discriminate Hne|reflexivity].
  - rewrite all_chars_lower; [exact Hall|].
    intros c. rewrite is_decimal_lower. reflexivity.
Qed.

Lemma text_of_runs_lower rs :
  forallb is_run rs = true ->
  text_of_runs (map lower_run rs) = lower (text_of_runs rs).
Proof.
  induction rs as [|r tl IH]; [reflexivity|].
  cbn [map forallb text_of_runs]. intros H. apply andb_true_iff in H.
  destruct H as [Hr Htl]. rewrite (IH Htl), lower_app.
  destruct r as [d|t]; cbn [lower_run run_text]; [|reflexivity].
  unfold is_run in Hr. apply andb_true_iff in Hr.
  rewrite (lower_decimal d (proj2 Hr)). reflexivity.
Qed.

Lemma alternate_lower rs : alternate (map lower_run rs) = alternate rs.
Proof.
  induction rs as [|r tl IH]; [reflexivity|].
  cbn [map alternate]. destruct tl as [|r' tl']; [reflexivity|].
  cbn [map] in IH |- *. rewrite IH. destruct r, r'; reflexivity.
Qed.

Lemma isdigit_lower t : isdigit (lower t) = isdigit t.
Proof.
  unfold isdigit. rewrite all_chars_lower by apply isdigit_char_lower.
  destruct t; reflexivity.
Qed.

Lemma run_keys_lower rs :
  run_keys (map lower_run rs)
  = if forallb run_readable rs then Ok (map run_part rs) else Raise ValueError.
Proof.
  induction rs as [|r tl IH]; [reflexivity|].
  cbn [map run_keys forallb]. rewrite IH.
  assert (Hr : run_readable (lower_run r) = run_readable r).
  { destruct r as [d|t]; [reflexivity|]. cbn [lower_run run_readable].
    rewrite isdigit_lower. reflexivity. }
  rewrite Hr. destruct (run_readable r); [|reflexivity]. cbn [andb].
  destruct (forallb run_readable tl); [|reflexivity].
  cbn [bind]. destruct r; reflexivity.
Qed.

(** The key of a value that is not null, from the runs of its text. *)
Lemma natural_sort_key_runs v rs :
  is_none v = false -> splits_into (strip (str v)) rs ->
  natural_sort_key v
  = if forallb run_readable rs
    then Ok (match rs with [] => [KStr ""] | _ => map run_part rs end)
    else Raise ValueError.
Proof.
  intros Hv (Htext & Hruns & Halt).
  assert (Hk : natural_sort_key v
               = bind (key_parts (re_split_digits (lower (strip (str v)))))
                   (fun parts => Ok match parts with [] => [KStr ""] | _ => parts end)).
  { destruct v; [discriminate Hv|reflexivity..]. }
  rewrite Hk, <- Htext, <- (text_of_runs_lower rs Hruns).
  pose proof (is_run_lower rs Hruns) as Hruns'.
  pose proof (alternate_lower rs) as Halt'. rewrite Halt in Halt'.
  rewrite (re_split_digits_runs _ Hruns' Halt').
  destruct (key_parts_runs _ Hruns' Halt') as [Hok Herr].
  rewrite run_keys_lower in Hok, Herr.
  destruct (forallb run_readable rs).
  - rewrite (Hok _ eq_refl). cbn [bind]. destruct rs; reflexivity.
  - rewrite (Herr ValueError eq_refl). reflexivity.
Qed.

(** Every text has its runs. *)
Lemma splits_into_runs s : exists rs, splits_into s rs.
Proof.
  induction s as [|c s (rs & Htext & Hruns & Halt)].
  { exists []. repeat split. }
  destruct (is_decimal c) eqn:Hc.
  - destruct rs as [|[d|t] tl].
    + exists [Digits (String c "")]. cbn in Htext. subst s.
      repeat split. cbn. rewrite Hc. reflexivity.
    + exists (Digits (String c d) :: tl). split; [|split].
      * cbn [text_of_runs run_text append] in *. rewrite Htext. reflexivity.
      * cbn [forallb is_run String.eqb negb all_chars andb] in *.
        rewrite Hc. cbn [andb].
        apply andb_true_iff in Hruns. destruct Hruns as [Hd Htl].
        apply andb_true_iff in Hd. rewrite (proj2 Hd), Htl. reflexivity.
      * exact Halt.
    + exists (Digits (String c "") :: Other t :: tl). split; [|split].
      * cbn [text_of_runs run_text append] in *. rewrite Htext. reflexivity.
      * cbn [forallb] in *. rewrite Hruns.
        cbn [is_run String.eqb negb all_chars andb]. rewrite Hc. reflexivity.
      * cbn [alternate same_kind negb andb] in *. exact Halt.
  - destruct rs as [|[d|t] tl].
    + exists [Other (String c "")]. cbn in Htext. subst s.
      repeat split. cbn. rewrite Hc. reflexivity.
    + exists (Other (String c "") :: Digits d :: tl). split; [|split].
      * cbn [text_of_runs run_text append] in *. rewrite Htext. reflexivity.
      * cbn [forallb] in *. rewrite Hruns.
        cbn [is_run String.eqb negb all_chars andb]. rewrite Hc. reflexivity.
      * cbn [alternate same_kind negb andb] in *. exact Halt.
    + exists (Other (String c t) :: tl). split; [|split].
      * cbn [text_of_runs run_text append] in *. rewrite Htext. reflexivity.
      * cbn [forallb is_run String.eqb negb all_chars andb] in *.
        rewrite Hc. cbn [negb andb].
        apply andb_true_iff in Hruns. destruct Hruns as [Ht Htl].
        apply andb_true_iff in Ht. rewrite (proj2 Ht), Htl. reflexivity.
      * exact Halt.
Qed.

(** A numeral longer than [int] allows, behind a text. *)
Lemma natural_sort_key_long_numeral p d :
  starts_clean p = true ->
  all_chars (fun c => negb (isdigit_char c)) p = true ->
  all_chars is_decimal d = true ->
  int_max_str_digits < String.length d ->
  natural_sort_key (VStr (p ++ d)) = Raise ValueError.
Proof.
  intros Hp Hnd Hdec Hlong.
  assert (Hd : d <> "").
  { intros ->. cbn in Hlong. lia. }
  assert (Hndec : all_chars (fun c => negb (is_decimal c)) p = true).
  { eapply all_chars_impl; [|exact Hnd].
    intros c Hc. apply negb_true_iff in Hc. apply negb_true_iff.
    apply isdigit_char_not_decimal, Hc. }
  assert (Hstrip : strip (p ++ d) = p ++ d).
  { unfold strip, strip_by. destruct p as [|c p]; [discriminate|]. cbn in Hp.
    apply negb_true_iff in Hp. cbn [append lstrip_by]. rewrite Hp.
    change (String c (p ++ d)) with (String c p ++ d).
    assert (Hr : rstrip_by isspace d = d).
    { apply rstrip_by_none. eapply all_chars_impl; [|exact Hdec].
      intros c' Hc'. rewrite (is_decimal_not_space c' Hc'). reflexivity. }
    rewrite rstrip_by_app; rewrite Hr; [reflexivity|exact Hd]. }
  rewrite (natural_sort_key_runs (VStr (p ++ d)) [Other p; Digits d] eq_refl).
  - cbn [forallb run_readable]. apply Nat.leb_gt in Hlong. rewrite Hlong.
    rewrite andb_false_r. reflexivity.
  - cbn [str]. rewrite Hstrip. split; [|split].
    + cbn [text_of_runs run_text]. rewrite append_nil_r. reflexivity.
    + cbn [forallb is_run]. rewrite Hndec, Hdec.
      destruct p; [discriminate Hp|]. destruct d; [congruence|]. reflexivity.
    + reflexivity.
Qed.

End KeyFacts.

(** C7 (amended). [natural_sort_key] strips the text of a value and splits
    it into its runs of decimal digits and its runs of other characters.
    The key holds, run by run, the number a run of digits writes and the
    lower-cased text of another run; [ValueError] is raised instead when a
    run of digits is longer than [int] reads (4300 digits) or a run of other
    characters holds superscript digits only; a text without runs has the
    key of the empty string.  So the keys of "asset2", "asset10" and
    "asset100" are in that order, and in general a common text followed by
    numerals is ordered by the numbers.  In [asset_id_comparator] an asset
    whose identifier is null, absent or empty (any value that counts as
    false) compares strictly after every asset whose identifier is not, and
    two such assets compare equal. *)
Theorem natural_sort_and_null_last :
  (natural_sort_key (VStr "asset2") = Ok [KStr "asset"; KInt 2] /\
   natural_sort_key (VStr "asset10") = Ok [KStr "asset"; KInt 10] /\
   natural_sort_key (VStr "asset100") = Ok [KStr "asset"; KInt 100] /\
   key_ltb [KStr "asset"; KInt 2] [KStr "asset"; KInt 10] = Ok true /\
   key_ltb [KStr "asset"; KInt 10] [KStr "asset"; KInt 100] = Ok true) /\
  (forall v rs,
     is_none v = false -> splits_into (strip (str v)) rs ->
     natural_sort_key v
     = if forallb run_readable rs
       then Ok (match rs with [] => [KStr ""] | _ => map run_part rs end)
       else Raise ValueError) /\
  (forall s, exists rs, splits_into s rs) /\
  (forall n, float.digits_value (str_of_nat n) = Z.of_nat n) /\
  (forall p n m,
     starts_clean p = true ->
     all_chars (fun c => negb (isdigit_char c)) p = true ->
     String.length (str_of_nat n) <= int_max_str_digits ->
     String.length (str_of_nat m) <= int_max_str_digits ->
     natural_sort_key (VStr (p ++ str_of_nat n))
       = Ok [KStr (lower p); KInt (Z.of_nat n)] /\
     natural_sort_key (VStr (p ++ str_of_nat m))
       = Ok [KStr (lower p); KInt (Z.of_nat m)] /\
     key_ltb [KStr (lower p); KInt (Z.of_nat n)] [KStr (lower p); KInt (Z.of_nat m)]
       = Ok (n <? m)%nat) /\
  (forall p n,
     starts_clean p = true ->
     all_chars (fun c => negb (isdigit_char c)) p = true ->
     int_max_str_digits < String.length (str_of_nat n) ->
     natural_sort_key (VStr (p ++ str_of_nat n)) = Raise ValueError) /\
  (forall a b,
     truthy (id_of a) = false -> truthy (id_of b) = true ->
     asset_id_comparator a b = Ok 1%Z /\ asset_id_comparator b a = Ok (-1)%Z) /\
  (forall a b,
     truthy (id_of a) = false -> truthy (id_of b) = false ->
     asset_id_comparator a b = Ok 0%Z).
Proof.
  split; [repeat split; reflexivity|].
  split; [apply natural_sort_key_runs|].
  split; [apply splits_into_runs|].
  split; [apply digits_value_str_of_nat|].
  split; [|split; [|split; [apply comparator_falsy_truthy|apply comparator_falsy_falsy]]].
  - intros p n m Hp Hnd Hn Hm.
    assert (Hkey : forall k, String.length (str_of_nat k) <= int_max_str_digits ->
              natural_sort_key (VStr (p ++ str_of_nat k))
              = Ok [KStr (lower p); KInt (Z.of_nat k)]).
    { intros k Hk. apply natural_sort_key_text_digits; try assumption.
      - apply str_of_nat_nonempty.
      - apply str_of_nat_decimal.
      - apply int_of_digits_str_of_nat, Hk. }
    split; [apply Hkey, Hn|]. split; [apply Hkey, Hm|].
    cbn [key_ltb key_part_eqb]. rewrite String.eqb_refl.
    cbn [key_ltb key_part_eqb key_part_ltb].
    destruct (Z.eqb_spec (Z.of_nat n) (Z.of_nat m)) as [E|E].
    + apply Nat2Z.inj in E. subst. rewrite Nat.ltb_irrefl. reflexivity.
    + f_equal. destruct (Nat.ltb_spec n m), (Z.ltb_spec (Z.of_nat n) (Z.of_nat m));
        try reflexivity; lia.
  - intros p n Hp Hnd Hlong.
    apply natural_sort_key_long_numeral; try assumption. apply str_of_nat_decimal.
Qed.

Lemma natural_sort_and_null_last_witness :
  natural_sort_key (VStr " Rack12-B07 ")
    = Ok [KStr "rack"; KInt 12; KStr "-b"; KInt 7] /\
  natural_sort_key (VStr ("SRV-" ++ str_of_nat 7)) = Ok [KStr "srv-"; KInt 7] /\
  asset_id_comparator [("hostname", VStr "no_id")] [("asset_id", VStr "asset1")] = Ok 1%Z.
Proof.
  split; [|split].
  - apply (proj1 (proj2 natural_sort_and_null_last) (VStr " Rack12-B07 ")
             [Other "Rack"; Digits "12"; Other "-B"; Digits "07"] eq_refl).
    repeat split.
  - apply (proj1 (proj2 (proj2 (proj2 (proj2 natural_sort_and_null_last))))
             "SRV-" 7%nat 7%nat); try reflexivity; cbn; unfold int_max_str_digits; lia.
  - apply (proj1 (proj2 (proj2 (proj2 (proj2 (proj2 (proj2 natural_sort_and_null_last))))))
             [("hostname", VStr "no_id")] [("asset_id", VStr "asset1")]); reflexivity.
Defined.

(** C7, as stated, fails: the empty string is an identifier that is not
    null, and a null identifier compares equal to it, not after it. *)
Lemma null_not_after_empty :
  asset_id_comparator [("asset_id", VNone)] [("asset_id", VStr "")] = Ok 0%Z /\
  asset_id_comparator [("asset_id", VNone)] [("asset_id", VStr "")] <> Ok 1%Z.
Proof. split; [reflexivity|discriminate]. Qed.

(** ** Sorting assets and checking the order *)
Section SortAssetsFacts.

Lemma field_cmp_returns f g : exists c, field_cmp f g = Ok c.
Proof.
  unfold field_cmp. destruct (field_sort_key f), (field_sort_key g).
  eexists. reflexivity.
Qed.

Lemma dict_get_map_keys (a : asset) k ks :
  dict_get k (map (fun k' => (k', get_default k' VNone a)) ks)
  = if existsb (String.eqb k) ks then Some (get_default k VNone a) else None.
Proof.
  induction ks as [|k' ks IH]; cbn; [reflexivity|].
  destruct (String.eqb_spec k k') as [->|]; cbn; [reflexivity|exact IH].
Qed.

Lemma dict_get_not_key {V} (d : dict V) k :
  existsb (String.eqb k) (keys d) = false -> dict_get k d = None.
Proof.
  induction d as [|[k' v] d IH]; cbn; [reflexivity|].
  destruct (String.eqb k k'); cbn; [discriminate|exact IH].
Qed.

(** Reordering the fields of an asset does not change what a field holds. *)
Lemma get_sort_asset_fields k a : get k (sort_asset_fields a) = get k a.
Proof.
  unfold sort_asset_fields.
  destruct (sorted field_cmp (keys a) false) as [ks|e] eqn:Hs; [|reflexivity].
  apply sorted_perm in Hs.
  unfold get at 1. unfold get_default at 1. rewrite dict_get_map_keys.
  destruct (existsb (String.eqb k) ks) eqn:Hk; [reflexivity|].
  unfold get, get_default. rewrite dict_get_not_key; [reflexivity|].
  destruct (existsb (String.eqb k) (keys a)) eqn:Hk'; [|reflexivity].
  apply existsb_exists in Hk'. destruct Hk' as [x [Hx Hkx]].
  apply (Permutation_in _ (Permutation_sym Hs)) in Hx.
  rewrite <- Hk. symmetry. apply existsb_exists. exists x. split; assumption.
Qed.

Lemma check_pair_get k a a' b b' :
  get k a' = get k a -> get k b' = get k b ->
  check_pair k a' b' = check_pair k a b.
Proof. unfold check_pair. intros -> ->. reflexivity. Qed.

Lemma validate_sort_order_from_map (f : asset -> asset) k :
  (forall a, get k (f a) = get k a) ->
  forall rest prev,
    validate_sort_order_from k (f prev) (map f rest)
    = validate_sort_order_from k prev rest.
Proof.
  intros Hf. induction rest as [|curr rest IH]; intros prev; cbn; [reflexivity|].
  rewrite (check_pair_get k prev (f prev) curr (f curr)) by apply Hf.
  destruct (check_pair k prev curr) as [[b|]|e]; cbn; try reflexivity.
  apply IH.
Qed.

Lemma validate_sort_order_map (f : asset -> asset) k items :
  (forall a, get k (f a) = get k a) ->
  validate_sort_order (map f items) k = validate_sort_order items k.
Proof.
  intros Hf. destruct items as [|first rest]; [reflexivity|].
  apply validate_sort_order_from_map, Hf.
Qed.

(** An identifier that is null (or absent), or else counts as true. *)
Definition id_null_or_truthy (a : asset) : bool :=
  is_none (get "asset_id" a) || truthy (get "asset_id" a).

Lemma truthy_id_of a : truthy (id_of a) = truthy (get "asset_id" a).
Proof.
  unfold id_of, get, get_default. destruct (dict_get "asset_id" a); reflexivity.
Qed.

Lemma id_of_truthy a : truthy (get "asset_id" a) = true -> id_of a = get "asset_id" a.
Proof.
  unfold id_of, get, get_default. destruct (dict_get "asset_id" a); [reflexivity|discriminate].
Qed.

Lemma natural_sort_key_str v :
  is_none v = false -> natural_sort_key (VStr (str v)) = natural_sort_key v.
Proof. destruct v; [discriminate|reflexivity..]. Qed.

Lemma truthy_not_None v : truthy v = true -> is_none v = false.
Proof. destruct v; [discriminate|reflexivity..]. Qed.

(** Two neighbours of a sorted list pass the check of [validate_sort_order]. *)
Lemma check_pair_in_order x y :
  id_null_or_truthy x = true -> id_null_or_truthy y = true ->
  in_order asset_id_comparator x y ->
  check_pair "asset_id" x y = Ok None.
Proof.
  unfold id_null_or_truthy, in_order, cmp_lt. intros Hx Hy Hord.
  unfold check_pair.
  destruct (truthy (get "asset_id" y)) eqn:Ty.
  - destruct (truthy (get "asset_id" x)) eqn:Tx.
    + rewrite (truthy_not_None _ Tx), (truthy_not_None _ Ty). cbn [negb andb orb].
      rewrite (natural_sort_key_str _ (truthy_not_None _ Tx)).
      rewrite (natural_sort_key_str _ (truthy_not_None _ Ty)).
      rewrite comparator_truthy in Hord by (rewrite truthy_id_of; assumption).
      rewrite (id_of_truthy _ Tx), (id_of_truthy _ Ty) in Hord.
      destruct (natural_sort_key (get "asset_id" y)) as [ky|]; [|discriminate].
      destruct (natural_sort_key (get "asset_id" x)) as [kx|]; [|discriminate].
      cbn [bind] in *. rewrite key_gtb_ltb.
      destruct (key_ltb ky kx) as [[|]|]; cbn in Hord |- *;
        [discriminate|reflexivity|discriminate].
    + exfalso.
      destruct (comparator_falsy_truthy x y) as [_ H];
        [rewrite truthy_id_of; exact Tx|rewrite truthy_id_of; exact Ty|].
      rewrite H in Hord. discriminate.
  - rewrite orb_false_r in Hy. rewrite Hy. cbn [negb]. rewrite andb_false_r, orb_true_r.
    reflexivity.
Qed.

Lemma validate_sorted_from rest : forall prev,
  Forall (fun a => id_null_or_truthy a = true) (prev :: rest) ->
  Sorted (in_order asset_id_comparator) (prev :: rest) ->
  validate_sort_order_from "asset_id" prev rest = Ok true.
Proof.
  induction rest as [|curr rest IH]; intros prev Hid Hs; [reflexivity|].
  inversion Hs as [|? ? Hs' Hhd]; subst. inversion Hhd; subst.
  inversion Hid as [|? ? Hp Hid']; subst. inversion Hid' as [|? ? Hc _]; subst.
  cbn [validate_sort_order_from]. rewrite check_pair_in_order by assumption.
  cbn [bind]. apply IH; assumption.
Qed.

(** What the specification calls a violation of the order, in terms of the
    values of the key field of two neighbours: a null before a value, or two
    values whose keys are in the wrong order. *)
Definition violates_order (prev_val curr_val : value) : Prop :=
  (is_none prev_val = true /\ is_none curr_val = false) \/
  (is_none prev_val = false /\ is_none curr_val = false /\
   exists prev_key curr_key,
     natural_sort_key (VStr (str prev_val)) = Ok prev_key /\
     natural_sort_key (VStr (str curr_val)) = Ok curr_key /\
     key_ltb curr_key prev_key = Ok true).

(** The two neighbours are in order: a null after anything, or two values
    whose keys compare and are not in the wrong order. *)
Definition respects_order (prev_val curr_val : value) : Prop :=
  is_none curr_val = true \/
  (is_none prev_val = false /\ is_none curr_val = false /\
   exists prev_key curr_key,
     natural_sort_key (VStr (str prev_val)) = Ok prev_key /\
     natural_sort_key (VStr (str curr_val)) = Ok curr_key /\
     key_ltb curr_key prev_key = Ok false).

Lemma check_pair_violates k prev curr :
  violates_order (get k prev) (get k curr) <-> check_pair k prev curr = Ok (Some false).
Proof.
  unfold violates_order, check_pair. split.
  - intros [[-> ->]|(-> & -> & kp & kc & -> & -> & H)]; [reflexivity|].
    cbn [andb orb negb bind]. rewrite key_gtb_ltb, H. reflexivity.
  - destruct (is_none (get k prev)), (is_none (get k curr)); cbn [andb orb negb];
      intros Hc; try discriminate Hc; [left; split; reflexivity|].
    destruct (natural_sort_key (VStr (str (get k prev)))) as [kp|]; [|discriminate Hc].
    destruct (natural_sort_key (VStr (str (get k curr)))) as [kc|]; [|discriminate Hc].
    cbn [bind] in Hc. rewrite key_gtb_ltb in Hc.
    destruct (key_ltb kc kp) as [[|]|] eqn:H; cbn in Hc; try discriminate Hc.
    right. repeat split. exists kp, kc. repeat split. exact H.
Qed.

Lemma check_pair_respects k prev curr :
  respects_order (get k prev) (get k curr) <-> check_pair k prev curr = Ok None.
Proof.
  unfold respects_order, check_pair. split.
  - intros [->|(-> & -> & kp & kc & -> & -> & H)].
    + destruct (is_none (get k prev)); reflexivity.
    + cbn [andb orb negb bind]. rewrite key_gtb_ltb, H. reflexivity.
  - destruct (is_none (get k prev)), (is_none (get k curr)); cbn [andb orb negb];
      intros Hc; try discriminate Hc; try (left; reflexivity).
    destruct (natural_sort_key (VStr (str (get k prev)))) as [kp|]; [|discriminate Hc].
    destruct (natural_sort_key (VStr (str (get k curr)))) as [kc|]; [|discriminate Hc].
    cbn [bind] in Hc. rewrite key_gtb_ltb in Hc.
    destruct (key_ltb kc kp) as [[|]|] eqn:H; cbn in Hc; try discriminate Hc.
    right. repeat split. exists kp, kc. repeat split. exact H.
Qed.

(** The list is in order up to its last element. *)
Definition in_order_upto (k : string) (l : list asset) : Prop :=
  Sorted (fun a b => respects_order (get k a) (get k b)) l.

Lemma validate_first_violation k l : forall prev curr rest,
  in_order_upto k (l ++ [prev]) ->
  violates_order (get k prev) (get k curr) ->
  validate_sort_order ((l ++ [prev]) ++ curr :: rest) k = Ok false.
Proof.
  induction l as [|a l IH]; intros prev curr rest Hs Hv.
  - cbn. apply check_pair_violates in Hv. rewrite Hv. reflexivity.
  - specialize (IH prev curr rest). cbn [app] in Hs |- *.
    inversion Hs as [|? ? Hs' Hhd]; subst.
    specialize (IH Hs' Hv).
    destruct (l ++ [prev])%list as [|b t] eqn:E; [destruct l; discriminate|].
    inversion Hhd as [|? ? Hab]; subst. apply check_pair_respects in Hab.
    cbn in IH |- *. rewrite Hab. cbn [bind]. exact IH.
Qed.

Lemma validate_false_violation k rest : forall first,
  validate_sort_order_from k first rest = Ok false ->
  exists l prev curr rest',
    first :: rest = ((l ++ [prev]) ++ curr :: rest')%list /\
    in_order_upto k (l ++ [prev]) /\
    violates_order (get k prev) (get k curr).
Proof.
  induction rest as [|b rest IH]; intros a H; [discriminate|].
  cbn in H. destruct (check_pair k a b) as [[[|]|]|] eqn:Hc; cbn in H; try discriminate.
  - exists [], a, b, rest. repeat split.
    + repeat constructor.
    + apply check_pair_violates, Hc.
  - destruct (IH b H) as (l & prev & curr & rest' & E & Hs & Hv).
    exists (a :: l), prev, curr, rest'. repeat split.
    + cbn. rewrite E. reflexivity.
    + cbn. constructor; [exact Hs|].
      destruct (l ++ [prev])%list as [|b' t] eqn:E'; [destruct l; discriminate|].
      cbn in E. injection E as <- _. constructor. apply check_pair_respects, Hc.
    + exact Hv.
Qed.

End SortAssetsFacts.

(** C8. When sorting fails, [sort_assets] returns the list it was given,
    whatever the sorting procedure and wherever in it the exception comes
    from: the result is either the input itself or a complete rearrangement
    of it (with the fields of each asset put in order), never something in
    between, and no exception leaves the function, whose result is always a
    list.  A number against a text at the same place of two keys is such a
    failure. *)
Theorem sort_assets_failure_returns_input :
  (forall py_sorted assets reverse e,
     py_sorted assets reverse = Raise e ->
     sort_assets_with py_sorted assets reverse = assets) /\
  (forall assets reverse e,
     sorted asset_id_comparator assets reverse = Raise e ->
     sort_assets assets reverse = assets) /\
  (forall assets reverse,
     sort_assets assets reverse = assets \/
     exists l, sorted asset_id_comparator assets reverse = Ok l /\
               Permutation l assets /\
               sort_assets assets reverse = map sort_asset_fields l) /\
  (let assets := [[("asset_id", VStr "srv1")]; [("asset_id", VStr "10")];
                  [("asset_id", VStr "asset1")]] in
   asset_id_comparator [("asset_id", VStr "10")] [("asset_id", VStr "srv1")]
   = Raise TypeError /\
   sorted asset_id_comparator assets false = Raise TypeError /\
   sort_assets assets false = assets).
Proof.
  split; [|split; [|split]].
  - intros py_sorted assets reverse e H. unfold sort_assets_with. rewrite H. reflexivity.
  - intros assets reverse e H. unfold sort_assets, sort_assets_with. rewrite H.
    reflexivity.
  - intros assets reverse. unfold sort_assets, sort_assets_with.
    destruct (sorted asset_id_comparator assets reverse) as [l|e] eqn:H.
    + right. exists l. repeat split. apply (sorted_perm _ _ _ _ H).
    + left. reflexivity.
  - repeat split.
Qed.

Lemma sort_assets_failure_returns_input_witness :
  let assets := [[("asset_id", VStr "a")]; [("asset_id", VStr "1")]] in
  sort_assets assets true = assets.
Proof.
  intros assets.
  apply (proj1 (proj2 sort_assets_failure_returns_input) assets true TypeError).
  reflexivity.
Defined.

(** C9 (amended). For a list of assets whose identifiers are null, absent or
    count as true, and whose identifiers all compare with one another,
    [validate_sort_order] returns true on what [sort_assets] produces in
    ascending order; and on any list it returns false at the first adjacent
    pair that violates the order, the pairs before it being in order. *)
Theorem validate_accepts_sorted :
  (forall assets,
     Forall (fun a => id_null_or_truthy a = true) assets ->
     comparable asset_id_comparator assets ->
     validate_sort_order (sort_assets assets false) "asset_id" = Ok true) /\
  (forall k l prev curr rest,
     in_order_upto k (l ++ [prev]) ->
     violates_order (get k prev) (get k curr) ->
     validate_sort_order ((l ++ [prev]) ++ curr :: rest) k = Ok false) /\
  (forall k items,
     validate_sort_order items k = Ok false ->
     exists l prev curr rest,
       items = ((l ++ [prev]) ++ curr :: rest)%list /\
       in_order_upto k (l ++ [prev]) /\
       violates_order (get k prev) (get k curr)).
Proof.
  split; [|split].
  - intros assets Hid Hcmp. unfold sort_assets, sort_assets_with, sorted.
    destruct (stable_sort_returns asset_id_comparator assets Hcmp) as [l Hl].
    rewrite Hl. rewrite validate_sort_order_map by apply get_sort_asset_fields.
    pose proof (stable_sort_sorted _ comparator_asym _ _ Hl) as Hs.
    pose proof (stable_sort_perm _ _ _ Hl) as Hp.
    assert (Hid' : Forall (fun a => id_null_or_truthy a = true) l).
    { apply Forall_forall. intros a Ha. rewrite Forall_forall in Hid.
      apply Hid. eapply Permutation_in; [exact Hp|exact Ha]. }
    destruct l as [|first rest]; [reflexivity|].
    apply validate_sorted_from; assumption.
  - intros k l prev curr rest. apply validate_first_violation.
  - intros k [|first rest] H; [discriminate|].
    apply validate_false_violation, H.
Qed.

Lemma validate_accepts_sorted_witness :
  validate_sort_order
    (sort_assets [[("asset_id", VStr "asset10")]; [("asset_id", VNone)];
                  [("asset_id", VStr "asset2")]; [("hostname", VStr "no_id")]] false)
    "asset_id" = Ok true /\
  validate_sort_order
    [[("asset_id", VStr "asset1")]; [("asset_id", VStr "asset10")];
     [("asset_id", VStr "asset2")]; [("asset_id", VStr "asset1")]]
    "asset_id" = Ok false.
Proof.
  split.
  - apply (proj1 validate_accepts_sorted).
    + repeat constructor.
    + intros x y Hx Hy. cbn in Hx, Hy.
      repeat (destruct Hx as [<-|Hx]); try contradiction;
        repeat (destruct Hy as [<-|Hy]); try contradiction;
        eexists; reflexivity.
  - apply (proj1 (proj2 validate_accepts_sorted) "asset_id"
             [[("asset_id", VStr "asset1")]] [("asset_id", VStr "asset10")]
             [("asset_id", VStr "asset2")] [[("asset_id", VStr "asset1")]]).
    + apply Sorted_cons; [apply Sorted_cons; constructor|].
      apply HdRel_cons. right. repeat split.
      exists [KStr "asset"; KInt 1], [KStr "asset"; KInt 10]. repeat split.
    + right. repeat split.
      exists [KStr "asset"; KInt 10], [KStr "asset"; KInt 2]. repeat split.
Defined.

(** C9, as stated, fails.  When the sort fails [sort_assets] produces the
    list it was given, and on it [validate_sort_order] does not return true
    (here the comparison of the two keys raises in it as well); and what
    [sort_assets] produces in descending order is rejected.  An empty
    identifier after a null one is left where it is by the sort, for which
    both are null, and rejected by [validate_sort_order], for which only
    [None] is. *)
Lemma validate_rejects_sort_output :
  (let assets := [[("asset_id", VStr "a")]; [("asset_id", VStr "1")]] in
   sort_assets assets false = assets /\
   validate_sort_order (sort_assets assets false) "asset_id" = Raise TypeError) /\
  (let assets := [[("asset_id", VStr "asset1")]; [("asset_id", VStr "asset2")]] in
   sort_assets assets true = rev assets /\
   validate_sort_order (sort_assets assets true) "asset_id" = Ok false) /\
  (let assets := [[("asset_id", VNone)]; [("asset_id", VStr "")]] in
   sort_assets assets false = assets /\
   validate_sort_order (sort_assets assets false) "asset_id" = Ok false).
Proof. repeat split. Qed.

(** ** Comparing two sets of records *)
Import differ.

Section CompareFacts.
Variable self : config.
Variables zabbix_data topdesk_data : dict (dict value).

(** The three categories of an asset identifier. *)
Definition is_topdesk_only (id : string) : bool :=
  is_empty (get_asset id zabbix_data).

Definition is_zabbix_only (id : string) : bool :=
  negb (is_empty (get_asset id zabbix_data)) && is_empty (get_asset id topdesk_data).

Definition is_matched (id : string) : bool :=
  negb (is_empty (get_asset id zabbix_data))
  && negb (is_empty (get_asset id topdesk_data)).

Definition count (p : string -> bool) (ids : list string) : nat :=
  List.length (filter p ids).

Lemma categories_partition ids :
  count is_matched ids + count is_zabbix_only ids + count is_topdesk_only ids
  = List.length ids.
Proof.
  unfold count, is_matched, is_zabbix_only, is_topdesk_only.
  induction ids as [|id ids IH]; [reflexivity|].
  cbn [filter List.length].
  destruct (is_empty (get_asset id zabbix_data)),
           (is_empty (get_asset id topdesk_data)); cbn [negb andb List.length]; lia.
Qed.

Lemma compare_ids_counts ids : forall all st r st',
  compare_ids self ids zabbix_data topdesk_data all st = Ok (r, st') ->
  total_assets_processed st' = total_assets_processed st /\
  matched_assets st' = matched_assets st + count is_matched ids /\
  zabbix_only st' = zabbix_only st + count is_zabbix_only ids /\
  topdesk_only st' = topdesk_only st + count is_topdesk_only ids.
Proof.
  unfold count, is_matched, is_zabbix_only, is_topdesk_only.
  induction ids as [|id ids IH]; intros all st r st' H.
  - cbn in H. injection H as _ <-. cbn. repeat split; lia.
  - cbn [compare_ids] in H. cbn [filter].
    destruct (is_empty (get_asset id zabbix_data)) eqn:Ez;
      [|destruct (is_empty (get_asset id topdesk_data)) eqn:Et].
    + cbn [bind negb andb] in H |- *.
      destruct (_handle_single_system_asset self id _ "topdesk");
        apply IH in H; cbn in H |- *;
        destruct (is_empty (get_asset id topdesk_data)); cbn; repeat split; lia.
    + cbn [bind negb andb] in H |- *.
      destruct (_handle_single_system_asset self id _ "zabbix");
        apply IH in H; cbn in H |- *; repeat split; lia.
    + cbn [negb andb] in H |- *.
      destruct (_compare_matched_assets self _ _) as [diffs|e]; [|discriminate].
      cbn [bind] in H.
      destruct diffs; apply IH in H; cbn in H |- *; repeat split; lia.
Qed.

(** No stored number is too large for a float. *)
Definition float_safe (v : value) : bool :=
  match float.of_value v with
  | Raise OverflowError => false
  | _ => true
  end.

Definition asset_float_safe (a : dict value) : bool :=
  forallb (fun kv => float_safe (snd kv)) a.

Definition data_float_safe (d : dict (dict value)) : bool :=
  forallb (fun kv => asset_float_safe (snd kv)) d.

Lemma get_float_safe field a : asset_float_safe a = true -> float_safe (get field a) = true.
Proof.
  unfold get. induction a as [|[k v] a IH]; cbn; [reflexivity|].
  intros H. apply andb_true_iff in H. destruct H as [Hv Ha].
  destruct (String.eqb field k); [exact Hv|apply IH, Ha].
Qed.

Lemma get_asset_float_safe id d :
  data_float_safe d = true -> asset_float_safe (get_asset id d) = true.
Proof.
  unfold get_asset. induction d as [|[k a] d IH]; cbn; [reflexivity|].
  intros H. apply andb_true_iff in H. destruct H as [Ha Hd].
  destruct (String.eqb id k); [exact Ha|apply IH, Hd].
Qed.

Lemma compare_values_returns a b field :
  float_safe a = true -> float_safe b = true ->
  exists r, compare_values self a b field = Ok r.
Proof.
  unfold float_safe, compare_values. intros Ha Hb.
  destruct (is_none a && is_none b); [eexists; reflexivity|].
  destruct (is_none a || is_none b); [eexists; reflexivity|].
  destruct (float.of_value a) as [x|[]]; try discriminate;
    try (eexists; reflexivity).
  destruct (float.of_value b) as [y|[]]; try discriminate; eexists; reflexivity.
Qed.

Lemma compare_fields_returns fields z t :
  asset_float_safe z = true -> asset_float_safe t = true ->
  exists r, compare_fields self fields z t = Ok r.
Proof.
  intros Hz Ht. induction fields as [|field rest IH]; cbn [compare_fields].
  - eexists. reflexivity.
  - destruct IH as [r Hr]. rewrite Hr.
    destruct (excluded self field); [eexists; reflexivity|].
    destruct (negb (has_key field z)); [eexists; reflexivity|].
    destruct (negb (has_key field t)); [eexists; reflexivity|].
    destruct (compare_values_returns (get field z) (get field t) field) as [eq Heq];
      try (apply get_float_safe; assumption).
    rewrite Heq. cbn [bind]. destruct (negb eq); eexists; reflexivity.
Qed.

Lemma compare_ids_returns ids : forall all st,
  data_float_safe zabbix_data = true -> data_float_safe topdesk_data = true ->
  exists r st', compare_ids self ids zabbix_data topdesk_data all st = Ok (r, st').
Proof.
  induction ids as [|id ids IH]; intros all st Hz Ht; cbn [compare_ids].
  - eexists. eexists. reflexivity.
  - destruct (is_empty (get_asset id zabbix_data));
      [|destruct (is_empty (get_asset id topdesk_data))].
    + cbn [bind]. destruct (_handle_single_system_asset self id _ "topdesk");
        apply IH; assumption.
    + cbn [bind]. destruct (_handle_single_system_asset self id _ "zabbix");
        apply IH; assumption.
    + unfold _compare_matched_assets.
      destruct (compare_fields_returns
                  (union_keys (get_asset id zabbix_data) (get_asset id topdesk_data))
                  (get_asset id zabbix_data) (get_asset id topdesk_data)) as [diffs Hd];
        try (apply get_asset_float_safe; assumption).
      rewrite Hd. cbn [bind]. destruct diffs; apply IH; assumption.
Qed.

End CompareFacts.

(** C6. [compare_assets] counts every identifier of the union of the two
    key sets in exactly one of [matched_assets], [zabbix_only] and
    [topdesk_only], so from fresh statistics the three counters sum to
    [total_assets_processed], the number of distinct identifiers.  The run
    completes whenever no stored number is too large for a float. *)
Theorem compare_assets_partitions :
  (forall self zabbix_data topdesk_data st all_differences st',
     compare_assets self zabbix_data topdesk_data st = Ok (all_differences, st') ->
     let ids := union_keys zabbix_data topdesk_data in
     NoDup ids /\
     (forall id, In id ids <-> In id (keys zabbix_data) \/ In id (keys topdesk_data)) /\
     total_assets_processed st' = List.length ids /\
     matched_assets st'
       = matched_assets st + count (is_matched zabbix_data topdesk_data) ids /\
     zabbix_only st'
       = zabbix_only st + count (is_zabbix_only zabbix_data topdesk_data) ids /\
     topdesk_only st'
       = topdesk_only st + count (is_topdesk_only zabbix_data) ids /\
     count (is_matched zabbix_data topdesk_data) ids
       + count (is_zabbix_only zabbix_data topdesk_data) ids
       + count (is_topdesk_only zabbix_data) ids = List.length ids) /\
  (forall self zabbix_data topdesk_data all_differences st',
     compare_assets self zabbix_data topdesk_data new_stats = Ok (all_differences, st') ->
     matched_assets st' + zabbix_only st' + topdesk_only st'
     = total_assets_processed st') /\
  (forall self zabbix_data topdesk_data st,
     data_float_safe zabbix_data = true -> data_float_safe topdesk_data = true ->
     exists all_differences st',
       compare_assets self zabbix_data topdesk_data st = Ok (all_differences, st')).
Proof.
  split; [|split].
  - intros self z t st all st' H ids. unfold compare_assets in H.
    apply compare_ids_counts in H. cbn in H. destruct H as (H0 & H1 & H2 & H3).
    split; [apply NoDup_nodup|].
    split.
    { intros id. unfold ids, union_keys. rewrite nodup_In. apply in_app_iff. }
    repeat split; try assumption. apply categories_partition.
  - intros self z t all st' H. unfold compare_assets in H.
    apply compare_ids_counts in H. cbn in H. destruct H as (H0 & H1 & H2 & H3).
    rewrite H0, H1, H2, H3. apply categories_partition.
  - intros self z t st Hz Ht. unfold compare_assets.
    apply compare_ids_returns; assumption.
Qed.

Lemma compare_assets_partitions_witness :
  let zabbix_data := [("A", [("id", VStr "A"); ("cpu_cores", VInt 8)]);
                      ("C", [("id", VStr "C")])] in
  let topdesk_data := [("A", [("id", VStr "A"); ("cpu_cores", VStr "8.0")]);
                       ("B", [("id", VStr "B"); ("os", VStr "Linux")])] in
  exists all_differences st',
    compare_assets default_config zabbix_data topdesk_data new_stats
    = Ok (all_differences, st') /\
    matched_assets st' + zabbix_only st' + topdesk_only st' = total_assets_processed st'.
Proof.
  intros zabbix_data topdesk_data.
  destruct (proj2 (proj2 compare_assets_partitions) default_config
              zabbix_data topdesk_data new_stats eq_refl eq_refl)
    as (all_differences & st' & H).
  exists all_differences, st'. split; [exact H|].
  exact (proj1 (proj2 compare_assets_partitions) _ _ _ _ _ H).
Defined.

(** The three counters are incremented, and the total is assigned: on an
    agent that has already run, and whose statistics are not reset as
    [process_comparison] resets them, the counters hold the sum of the
    two runs. *)
Lemma compare_assets_accumulates :
  let zabbix_data := [("A", [("id", VStr "A")])] in
  let topdesk_data := [("B", [("id", VStr "B")])] in
  exists d1 st1 d2 st2,
    compare_assets default_config zabbix_data topdesk_data new_stats = Ok (d1, st1) /\
    compare_assets default_config zabbix_data topdesk_data st1 = Ok (d2, st2) /\
    total_assets_processed st2 = 2 /\
    matched_assets st2 + zabbix_only st2 + topdesk_only st2 = 4.
Proof. do 4 eexists. repeat split. Qed.

(** ** Equality of two values *)
Section ValueFacts.

Lemma split_ws_words s :
  Forall (fun w => w <> "" /\ all_chars (fun c => negb (isspace c)) w = true)
    (split_ws s).
Proof.
  induction s as [|c s IH]; cbn [split_ws]; [constructor|].
  destruct (isspace c) eqn:Hc; [exact IH|].
  assert (H1 : String c "" <> "" /\
               all_chars (fun c => negb (isspace c)) (String c "") = true).
  { split; [discriminate|]. cbn. rewrite Hc. reflexivity. }
  destruct s as [|c' s']; [repeat constructor; apply H1|].
  destruct (isspace c'); [constructor; [exact H1|exact IH]|].
  destruct (split_ws (String c' s')) as [|w tl]; [repeat constructor; apply H1|].
  inversion IH as [|? ? [Hw1 Hw2] Htl]; subst.
  constructor; [|exact Htl]. split; [discriminate|].
  cbn. rewrite Hc, Hw2. reflexivity.
Qed.

Lemma lower_char_idem c : lower_char (lower_char c) = lower_char c.
Proof. each_char c. Qed.

Lemma lower_idem s : lower (lower s) = lower s.
Proof.
  induction s as [|c s IH]; [reflexivity|].
  cbn [lower]. rewrite lower_char_idem, IH. reflexivity.
Qed.

Lemma isspace_lower_char c : isspace (lower_char c) = isspace c.
Proof. each_char c. Qed.

Lemma split_ws_eq c s :
  split_ws (String c s)
  = if isspace c then split_ws s
    else match s with
         | EmptyString => [String c EmptyString]
         | String c' _ =>
             if isspace c' then String c EmptyString :: split_ws s
             else match split_ws s with
                  | w :: tl => String c w :: tl
                  | [] => [String c EmptyString]
                  end
         end.
Proof. reflexivity. Qed.

Lemma split_ws_lower s : split_ws (lower s) = map lower (split_ws s).
Proof.
  induction s as [|c s IH]; [reflexivity|].
  cbn [lower]. rewrite !split_ws_eq, isspace_lower_char, IH.
  destruct (isspace c); [reflexivity|].
  destruct s as [|c' s']; [reflexivity|].
  cbn [lower]. rewrite isspace_lower_char.
  destruct (isspace c'); [reflexivity|].
  destruct (split_ws (String c' s')) as [|w tl]; reflexivity.
Qed.

Lemma lower_concat ws :
  lower (String.concat " " ws) = String.concat " " (map lower ws).
Proof.
  induction ws as [|w ws IH]; [reflexivity|].
  destruct ws as [|w' ws']; [reflexivity|].
  cbn [String.concat map] in IH |- *. rewrite !lower_app, IH. reflexivity.
Qed.

(** A word: not empty, and without white space. *)
Definition is_word (w : string) : Prop :=
  w <> "" /\ all_chars (fun c => negb (isspace c)) w = true.

Lemma is_word_head c w : is_word (String c w) -> isspace c = false.
Proof.
  intros [_ H]. cbn [all_chars] in H. apply andb_true_iff in H.
  apply negb_true_iff, H.
Qed.

Lemma is_word_tail c c' w : is_word (String c (String c' w)) -> is_word (String c' w).
Proof.
  intros [_ H]. cbn [all_chars] in H. apply andb_true_iff in H.
  split; [discriminate|apply H].
Qed.

Lemma split_ws_word_then w rest :
  is_word w ->
  split_ws (w ++ String " " rest) = w :: split_ws rest.
Proof.
  induction w as [|c w IH]; intros Hw; [destruct Hw; congruence|].
  change (String c w ++ String " " rest) with (String c (w ++ String " " rest)).
  rewrite split_ws_eq, (is_word_head _ _ Hw).
  destruct w as [|c' w'].
  - reflexivity.
  - change (String c' w' ++ String " " rest) with (String c' (w' ++ String " " rest)).
    cbv iota. rewrite (is_word_head _ _ (is_word_tail _ _ _ Hw)).
    change (String c' (w' ++ String " " rest)) with (String c' w' ++ String " " rest).
    rewrite (IH (is_word_tail _ _ _ Hw)). reflexivity.
Qed.

Lemma split_ws_word w : is_word w -> split_ws w = [w].
Proof.
  induction w as [|c w IH]; intros Hw; [destruct Hw; congruence|].
  rewrite split_ws_eq, (is_word_head _ _ Hw).
  destruct w as [|c' w']; [reflexivity|].
  cbv iota. rewrite (is_word_head _ _ (is_word_tail _ _ _ Hw)).
  rewrite (IH (is_word_tail _ _ _ Hw)). reflexivity.
Qed.

(** [' '.join(ws).split() == ws] for a list of words. *)
Lemma split_ws_concat ws :
  Forall is_word ws -> split_ws (String.concat " " ws) = ws.
Proof.
  induction 1 as [|w ws Hw Hws IH]; [reflexivity|].
  destruct ws as [|w' ws'].
  - cbn [String.concat]. apply split_ws_word, Hw.
  - change (String.concat " " (w :: w' :: ws'))
      with (w ++ String " " (String.concat " " (w' :: ws'))).
    rewrite (split_ws_word_then _ _ Hw), IH. reflexivity.
Qed.

Lemma split_ws_is_word s : Forall is_word (split_ws s).
Proof. apply split_ws_words. Qed.

Lemma is_word_lower w : is_word w -> is_word (lower w).
Proof.
  intros [Hne Hw]. split.
  - destruct w; [congruence|discriminate].
  - clear Hne. induction w as [|c w IH]; [reflexivity|].
    cbn [lower all_chars] in Hw |- *. apply andb_true_iff in Hw.
    rewrite isspace_lower_char. apply andb_true_iff.
    split; [apply Hw|apply IH, Hw].
Qed.

End ValueFacts.

(** ** The values of floats *)
Section FloatValueFacts.
Local Open Scope Z_scope.


(** The least exponent of a float. *)
Definition emin : Z := SpecFloat.emin float.prec float.emax.

(** The value of a float in units of [2^emin], the least positive float. *)
Definition ticks (x : float.float) : Z :=
  match x with
  | S754_finite s m e => cond_Zopp s (Zpos m * 2 ^ (e - emin))
  | _ => 0
  end.

Definition is_finite (x : float.float) : bool :=
  match x with
  | S754_finite _ _ _ | S754_zero _ => true
  | _ => false
  end.

Definition valid (x : float.float) : bool := valid_binary float.prec float.emax x.

(** The unit in the last place of a float. *)
Definition ulp (x : float.float) : Z :=
  match x with
  | S754_finite _ _ e => 2 ^ (e - emin)
  | _ => 1
  end.

Lemma digits2_pos_size m : digits2_pos m = Pos.size m.
Proof. induction m; cbn; congruence. Qed.

Lemma digits2_bounds m :
  2 ^ (Zpos (digits2_pos m) - 1) <= Zpos m < 2 ^ Zpos (digits2_pos m).
Proof.
  rewrite digits2_pos_size. split.
  - pose proof (Pos.size_le m) as H.
    assert (H' : (2 ^ Zpos (Pos.size m) <= 2 * Zpos m)%Z).
    { change 2 with (Zpos 2). rewrite <- Pos2Z.inj_pow, <- Pos2Z.inj_mul.
      apply Pos2Z.pos_le_pos. exact H. }
    assert (E : 2 ^ Zpos (Pos.size m) = 2 * 2 ^ (Zpos (Pos.size m) - 1)).
    { rewrite <- Z.pow_succ_r by lia. f_equal. lia. }
    lia.
  - pose proof (Pos.size_gt m) as H.
    change 2 with (Zpos 2). rewrite <- Pos2Z.inj_pow. apply Pos2Z.pos_lt_pos. exact H.
Qed.


Lemma valid_finite s m e :
  valid (S754_finite s m e) = true ->
  emin <= e <= float.emax - float.prec /\
  Zpos (digits2_pos m) <= float.prec /\
  (emin < e -> Zpos (digits2_pos m) = float.prec).
Proof.
  unfold valid, valid_binary, bounded, canonical_mantissa, fexp.
  fold emin. intros H. apply andb_true_iff in H. destruct H as [Hc He].
  apply Z.eqb_eq in Hc. apply Z.leb_le in He. lia.
Qed.

Lemma pow2_pos k : 0 <= k -> 0 < 2 ^ k.
Proof. intros H. apply Z.pow_pos_nonneg; lia. Qed.

Lemma pow2_split a b : 0 <= a -> 0 <= b -> 2 ^ (a + b) = 2 ^ a * 2 ^ b.
Proof. intros. apply Z.pow_add_r; assumption. Qed.

Lemma pow2_le a b : 0 <= a <= b -> 2 ^ a <= 2 ^ b.
Proof. intros H. apply Z.pow_le_mono_r; lia. Qed.

(** Of two valid positive floats, the one with the smaller exponent is the
    smaller. *)
Lemma ticks_exponent_lt s1 m1 e1 s2 m2 e2 :
  valid (S754_finite s1 m1 e1) = true -> valid (S754_finite s2 m2 e2) = true ->
  e1 < e2 ->
  Zpos m1 * 2 ^ (e1 - emin) < Zpos m2 * 2 ^ (e2 - emin).
Proof.
  intros H1 H2 Hlt.
  destruct (valid_finite _ _ _ H1) as (He1 & Hd1 & _).
  destruct (valid_finite _ _ _ H2) as (He2 & _ & Hd2).
  specialize (Hd2 ltac:(lia)).
  pose proof (digits2_bounds m1) as B1. pose proof (digits2_bounds m2) as B2.
  rewrite Hd2 in B2.
  assert (Hm1 : Zpos m1 < 2 ^ 53).
  { eapply Z.lt_le_trans; [apply B1|]. apply pow2_le. unfold float.prec in *. lia. }
  assert (Hm2 : 2 ^ 52 <= Zpos m2) by (unfold float.prec in B2; apply B2).
  replace (e2 - emin) with ((e2 - e1) + (e1 - emin)) by lia.
  rewrite pow2_split by lia.
  pose proof (pow2_pos (e1 - emin) ltac:(lia)) as Hp.
  assert (Hk : 2 <= 2 ^ (e2 - e1)).
  { change 2 with (2 ^ 1) at 1. apply pow2_le. lia. }
  assert (Hbig : Zpos m1 < Zpos m2 * 2 ^ (e2 - e1)).
  { change (2 ^ 53) with (2 ^ 52 * 2) in Hm1. nia. }
  rewrite Z.mul_assoc. apply Z.mul_lt_mono_pos_r; assumption.
Qed.

Lemma compare_cont_eq m1 m2 : Pos.compare_cont Eq m1 m2 = (Zpos m1 ?= Zpos m2).
Proof. reflexivity. Qed.

Lemma compare_positive_ticks s1 m1 e1 s2 m2 e2 :
  valid (S754_finite s1 m1 e1) = true -> valid (S754_finite s2 m2 e2) = true ->
  match e1 ?= e2 with
  | Lt => Lt
  | Gt => Gt
  | Eq => Pos.compare_cont Eq m1 m2
  end = (Zpos m1 * 2 ^ (e1 - emin) ?= Zpos m2 * 2 ^ (e2 - emin)).
Proof.
  intros H1 H2. symmetry.
  destruct (Z.compare_spec e1 e2) as [E|L|G].
  - subst e2. rewrite compare_cont_eq.
    destruct (valid_finite _ _ _ H1) as (He1 & _).
    pose proof (pow2_pos (e1 - emin) ltac:(lia)) as Hp.
    destruct (Z.compare_spec (Zpos m1) (Zpos m2)) as [E|L|G].
    + rewrite E. apply Z.compare_refl.
    + apply Z.compare_lt_iff. apply Z.mul_lt_mono_pos_r; assumption.
    + apply Z.compare_gt_iff. apply Z.mul_lt_mono_pos_r; assumption.
  - apply Z.compare_lt_iff. eapply ticks_exponent_lt; eassumption.
  - apply Z.compare_gt_iff. eapply ticks_exponent_lt; eassumption.
Qed.

Lemma ticks_finite_pos s m e :
  valid (S754_finite s m e) = true -> 0 < Zpos m * 2 ^ (e - emin).
Proof.
  intros H. destruct (valid_finite _ _ _ H) as (He & _).
  pose proof (pow2_pos (e - emin) ltac:(lia)). nia.
Qed.

(** On valid floats, [SFcompare] compares the values. *)
Lemma compare_ticks x y :
  valid x = true -> valid y = true -> is_finite x = true -> is_finite y = true ->
  SFcompare x y = Some (ticks x ?= ticks y).
Proof.
  intros Vx Vy Fx Fy.
  destruct x as [sx|sx| |sx mx ex]; try discriminate Fx;
    destruct y as [sy|sy| |sy my ey]; try discriminate Fy;
    cbn [SFcompare ticks]; f_equal.
  - pose proof (ticks_finite_pos _ _ _ Vy) as Hy.
    destruct sy; cbn [cond_Zopp]; symmetry;
      [apply Z.compare_gt_iff|apply Z.compare_lt_iff]; lia.
  - pose proof (ticks_finite_pos _ _ _ Vx) as Hx.
    destruct sx; cbn [cond_Zopp]; symmetry;
      [apply Z.compare_lt_iff|apply Z.compare_gt_iff]; lia.
  - pose proof (ticks_finite_pos _ _ _ Vx) as Hx.
    pose proof (ticks_finite_pos _ _ _ Vy) as Hy.
    destruct sx, sy; cbn [cond_Zopp].
    + rewrite Z.compare_opp.
      rewrite <- (compare_positive_ticks true my ey true mx ex Vy Vx).
      rewrite (Z.compare_antisym ex ey), !compare_cont_eq.
      rewrite (Z.compare_antisym (Zpos mx) (Zpos my)).
      destruct (ex ?= ey); reflexivity.
    + symmetry. apply Z.compare_lt_iff. lia.
    + symmetry. apply Z.compare_gt_iff. lia.
    + apply (compare_positive_ticks false mx ex false my ey Vx Vy).
Qed.

Lemma leb_ticks x y :
  valid x = true -> valid y = true -> is_finite x = true -> is_finite y = true ->
  float.leb x y = (ticks x <=? ticks y).
Proof.
  intros Vx Vy Fx Fy. unfold float.leb, SFleb. rewrite (compare_ticks x y Vx Vy Fx Fy).
  unfold Z.leb. destruct (ticks x ?= ticks y); reflexivity.
Qed.


(** *** Shifting a mantissa to the right *)

Lemma iter_pos_nat {A} (f : A -> A) p : forall x,
  iter_pos f p x = Nat.iter (Pos.to_nat p) f x.
Proof.
  induction p as [p IH|p IH|]; intros x; cbn [iter_pos].
  - rewrite !IH, Pos2Nat.inj_xI.
    replace (S (2 * Pos.to_nat p))%nat with (Pos.to_nat p + (Pos.to_nat p + 1))%nat by lia.
    rewrite !Nat.iter_add. reflexivity.
  - rewrite !IH, Pos2Nat.inj_xO.
    replace (2 * Pos.to_nat p)%nat with (Pos.to_nat p + Pos.to_nat p)%nat by lia.
    rewrite Nat.iter_add. reflexivity.
  - reflexivity.
Qed.

Lemma shr_1_spec m r s :
  0 <= m ->
  exists b : bool,
    shr_1 (Build_shr_record m r s) = Build_shr_record ((m - Z.b2z b) / 2) b (r || s) /\
    m = 2 * ((m - Z.b2z b) / 2) + Z.b2z b.
Proof.
  intros Hm. destruct m as [|[p|p|]|p]; try lia.
  - exists false. split; [reflexivity|reflexivity].
  - exists true. cbn [shr_1 Z.b2z]. replace (Zpos p~1 - 1) with (2 * Zpos p) by lia.
    rewrite Z.mul_comm, Z.div_mul by lia. split; [reflexivity|lia].
  - exists false. cbn [shr_1 Z.b2z]. replace (Zpos p~0 - 0) with (2 * Zpos p) by lia.
    rewrite Z.mul_comm, Z.div_mul by lia. split; [reflexivity|lia].
  - exists true. split; reflexivity.
Qed.

(** After [k] shifts: the quotient by [2^k], and whether anything was lost. *)
Lemma shr_iter m0 r0 s0 k :
  0 <= m0 ->
  exists q rem r s,
    Nat.iter k shr_1 (Build_shr_record m0 r0 s0) = Build_shr_record q r s /\
    0 <= q /\ m0 = q * 2 ^ Z.of_nat k + rem /\ 0 <= rem < 2 ^ Z.of_nat k /\
    (r0 || s0 = false -> (r || s = false <-> rem = 0)).
Proof.
  intros Hm. induction k as [|k (q & rem & r & s & Hk & Hq & Hval & Hrem & Hex)].
  - exists m0, 0, r0, s0. cbn. repeat split; try lia. intros _. exact H.
  - rewrite Nat.iter_succ, Hk.
    destruct (shr_1_spec q r s Hq) as (b & Hstep & Hb).
    rewrite Hstep.
    pose proof (pow2_pos (Z.of_nat k) ltac:(lia)) as Hp.
    assert (Hpow : 2 ^ Z.of_nat (S k) = 2 * 2 ^ Z.of_nat k).
    { rewrite Nat2Z.inj_succ, Z.pow_succ_r by lia. reflexivity. }
    exists ((q - Z.b2z b) / 2), (rem + Z.b2z b * 2 ^ Z.of_nat k), b, (r || s)%bool.
    split; [reflexivity|]. split.
    { apply Z.div_pos; [destruct b; cbn [Z.b2z] in *; lia|lia]. }
    split; [rewrite Hpow; nia|].
    split; [rewrite Hpow; destruct b; cbn [Z.b2z]; lia|].
    intros H0. specialize (Hex H0).
    destruct b; cbn [Z.b2z orb].
    + split; [discriminate|lia].
    + rewrite Hex. lia.
Qed.

Lemma round_nearest_even_spec q r s :
  let m := round_nearest_even q (loc_of_shr_record (Build_shr_record q r s)) in
  (m = q \/ m = q + 1) /\ (r || s = false -> m = q).
Proof.
  destruct r, s; cbn; try destruct (Z.even q); auto with zarith.
Qed.


(** *** Rounding a mantissa and an exponent to a float *)

Lemma fexp_eq E : fexp float.prec float.emax E = Z.max (E - 53) emin.
Proof. reflexivity. Qed.

Lemma emin_eq : emin = -1074.
Proof. reflexivity. Qed.

Lemma iter_xO_value m d : Zpos (Pos.iter xO m d) = Zpos m * 2 ^ Zpos d.
Proof.
  induction d as [|d IH] using Pos.peano_ind.
  - cbn [Pos.iter]. change (2 ^ 1) with 2. lia.
  - rewrite Pos.iter_succ, Pos2Z.inj_xO, IH, Pos2Z.inj_succ, Z.pow_succ_r by lia. lia.
Qed.

Lemma iter_xO_digits m d :
  Zpos (digits2_pos (Pos.iter xO m d)) = Zpos (digits2_pos m) + Zpos d.
Proof.
  induction d as [|d IH] using Pos.peano_ind.
  - cbn [Pos.iter digits2_pos]. lia.
  - rewrite Pos.iter_succ. cbn [digits2_pos]. rewrite Pos2Z.inj_succ, IH. lia.
Qed.

Lemma digits2_unique m k :
  2 ^ (k - 1) <= Zpos m < 2 ^ k -> Zpos (digits2_pos m) = k.
Proof.
  intros [Hlo Hhi]. pose proof (digits2_bounds m) as [Blo Bhi].
  set (d := Zpos (digits2_pos m)) in *.
  assert (Hd : 0 < d) by (unfold d; lia).
  destruct (Z.lt_trichotomy d k) as [L|[E|G]]; [|exact E|].
  - assert (H : 2 ^ d <= 2 ^ (k - 1)) by (apply pow2_le; lia). lia.
  - destruct (Z.le_gt_cases 0 k) as [Hk|Hk].
    + assert (H : 2 ^ k <= 2 ^ (d - 1)) by (apply pow2_le; lia). lia.
    + rewrite (Z.pow_neg_r 2 k) in Hhi by lia. lia.
Qed.

(** A mantissa that is canonical for its exponent is not rounded. *)
Lemma binary_round_aux_exact s m e :
  canonical_mantissa float.prec float.emax m e = true ->
  binary_round_aux float.prec float.emax s (Zpos m) e loc_Exact
  = if e <=? float.emax - float.prec then S754_finite s m e else S754_infinity s.
Proof.
  unfold canonical_mantissa. intros H. apply Z.eqb_eq in H.
  unfold binary_round_aux, shr_fexp. cbn [Zdigits2 shr_record_of_loc].
  rewrite H, Z.sub_diag. cbn [shr loc_of_shr_record shr_m round_nearest_even].
  cbn [Zdigits2]. rewrite H, Z.sub_diag. cbn [shr shr_m]. reflexivity.
Qed.

(** A mantissa of at most 53 digits is not rounded: [binary_round] only
    moves it to its canonical exponent. *)
Lemma binary_round_short s mx ex :
  emin <= ex -> Zpos (digits2_pos mx) <= 53 ->
  exists m e,
    e <= ex /\
    binary_round float.prec float.emax s mx ex
    = (if e <=? float.emax - float.prec then S754_finite s m e else S754_infinity s) /\
    canonical_mantissa float.prec float.emax m e = true /\
    emin <= e /\
    Zpos m * 2 ^ (e - emin) = Zpos mx * 2 ^ (ex - emin).
Proof.
  intros Hex Hshort. unfold binary_round.
  set (dx := Zpos (digits2_pos mx)) in *.
  set (e' := fexp float.prec float.emax (dx + ex)).
  assert (He' : e' = Z.max (dx + ex - 53) emin) by apply fexp_eq.
  unfold shl_align.
  destruct (e' - ex) as [|p|d] eqn:Hn; [| lia |].
  - assert (E : e' = ex) by lia.
    assert (Hc : canonical_mantissa float.prec float.emax mx ex = true).
    { unfold canonical_mantissa. fold dx e'. apply Z.eqb_eq, E. }
    exists mx, ex. rewrite (binary_round_aux_exact s mx ex Hc).
    split; [lia|]. split; [reflexivity|]. split; [exact Hc|]. split; [exact Hex|].
    reflexivity.
  - assert (E : ex = e' + Zpos d) by lia.
    set (mz := Pos.iter xO mx d).
    assert (Hc : canonical_mantissa float.prec float.emax mz e' = true).
    { unfold canonical_mantissa. unfold mz. rewrite iter_xO_digits. fold dx.
      apply Z.eqb_eq. fold e'. replace (dx + Zpos d + e') with (dx + ex) by lia.
      reflexivity. }
    exists mz, e'. rewrite (binary_round_aux_exact s mz e' Hc).
    split; [lia|]. split; [reflexivity|]. split; [exact Hc|]. split; [lia|].
    unfold mz. rewrite iter_xO_value.
    replace (ex - emin) with (Zpos d + (e' - emin)) by lia.
    rewrite pow2_split by lia. lia.
Qed.

(** What [binary_round] makes of a positive mantissa [mx] and an exponent
    [ex] that is not below the least: a float with the sign given, or the
    infinity when its exponent would be too large; the float is canonical,
    and its value is the value given when that is a float, and otherwise
    one of the two floats around it. *)
Lemma binary_round_spec s mx ex :
  emin <= ex ->
  exists m e,
    binary_round float.prec float.emax s mx ex
    = (if e <=? float.emax - float.prec then S754_finite s m e else S754_infinity s) /\
    canonical_mantissa float.prec float.emax m e = true /\
    emin <= e /\
    (Zpos m * 2 ^ (e - emin) = Zpos mx * 2 ^ (ex - emin) \/
     exists g k,
       0 < g /\ Zpos m * 2 ^ (e - emin) = k * g /\
       Zpos m * 2 ^ (e - emin) - g < Zpos mx * 2 ^ (ex - emin)
         < Zpos m * 2 ^ (e - emin) + g /\
       2 ^ 52 * g <= Zpos mx * 2 ^ (ex - emin) /\
       2 ^ 52 * g <= Zpos m * 2 ^ (e - emin) /\
       exists e', emin <= e' /\ g = 2 ^ (e' - emin)).
Proof.
  intros Hex.
  destruct (Z.le_gt_cases (Zpos (digits2_pos mx)) 53) as [Hshort|Hlong].
  { destruct (binary_round_short s mx ex Hex Hshort) as (m & e & _ & Hr & Hc & He & HV).
    exists m, e. split; [exact Hr|]. split; [exact Hc|]. split; [exact He|].
    left. exact HV. }
  unfold binary_round.
  set (dx := Zpos (digits2_pos mx)).
  set (e' := fexp float.prec float.emax (dx + ex)).
  assert (He' : e' = Z.max (dx + ex - 53) emin) by apply fexp_eq.
  unfold shl_align.
  destruct (e' - ex) as [|p|d] eqn:Hn.
  - lia.
  - (* the mantissa is too long: it is shifted to the right *)
    assert (En : Zpos p = dx - 53) by lia.
    assert (Ee : e' = ex + Zpos p) by lia.
    unfold binary_round_aux, shr_fexp. cbn [Zdigits2 shr_record_of_loc].
    fold dx e'. rewrite Hn. cbn [shr]. rewrite iter_pos_nat.
    destruct (shr_iter (Zpos mx) false false (Pos.to_nat p) ltac:(lia))
      as (q & rem & r & s0 & Hiter & Hq & Hval & Hrem & Hexact).
    specialize (Hexact eq_refl).
    rewrite Hiter. cbn [shr_m]. rewrite positive_nat_Z in Hval, Hrem.
    pose proof (round_nearest_even_spec q r s0) as Hspec. cbv zeta in Hspec.
    remember (round_nearest_even q (loc_of_shr_record (Build_shr_record q r s0)))
      as mr eqn:Emr.
    clear Emr. destruct Hspec as [Hm Hsame].
    pose proof (digits2_bounds mx) as [Blo Bhi]. fold dx in Blo, Bhi.
    pose proof (pow2_pos (Zpos p) ltac:(lia)) as Hp.
    assert (Hdx : 2 ^ dx = 2 ^ 53 * 2 ^ Zpos p).
    { replace dx with (53 + Zpos p) by lia. apply pow2_split; lia. }
    assert (Hdx1 : 2 ^ (dx - 1) = 2 ^ 52 * 2 ^ Zpos p).
    { replace (dx - 1) with (52 + Zpos p) by lia. apply pow2_split; lia. }
    assert (Hq52 : 2 ^ 52 <= q < 2 ^ 53) by nia.
    set (g := 2 ^ (e' - emin)).
    assert (Hg : g = 2 ^ Zpos p * 2 ^ (ex - emin)).
    { unfold g. replace (e' - emin) with (Zpos p + (ex - emin)) by lia.
      apply pow2_split; lia. }
    pose proof (pow2_pos (ex - emin) ltac:(lia)) as Hpe.
    assert (Hg0 : 0 < g) by (rewrite Hg; nia).
    assert (HV : q * g <= Zpos mx * 2 ^ (ex - emin) < (q + 1) * g).
    { rewrite Hg. nia. }
    assert (HVs : mr = q + 1 -> q * g < Zpos mx * 2 ^ (ex - emin)).
    { intros Hup.
      assert (Hr : rem <> 0).
      { intros Hr. apply Hexact in Hr. apply Hsame in Hr. lia. }
      rewrite Hg. nia. }
    assert (Hm2 : 2 ^ 52 <= mr <= 2 ^ 53) by lia.
    destruct mr as [|m2|m2]; [lia| |lia].
    cbn [Zdigits2].
    destruct (Z.eq_dec (Zpos m2) (2 ^ 53)) as [Hcarry|Hnc].
    + (* the rounded mantissa has one digit more *)
      assert (Hd2 : Zpos (digits2_pos m2) = 54).
      { apply digits2_unique. rewrite Hcarry. change (54 - 1) with 53.
        split; [lia|]. apply Z.pow_lt_mono_r; lia. }
      rewrite Hd2, fexp_eq.
      replace (Z.max (54 + (ex + Zpos p) - 53) emin - (ex + Zpos p)) with 1 by lia.
      assert (Em : m2 = 9007199254740992%positive).
      { apply Pos2Z.inj. rewrite Hcarry. reflexivity. }
      subst m2. cbn [shr iter_pos shr_1 shr_m].
      exists 4503599627370496%positive, (ex + Zpos p + 1).
      split; [reflexivity|]. split.
      { unfold canonical_mantissa. apply Z.eqb_eq. rewrite fexp_eq.
        change (Zpos (digits2_pos 4503599627370496)) with 53. lia. }
      split; [lia|]. right. exists g, (2 ^ 53). split; [exact Hg0|].
      assert (HR : Zpos 4503599627370496 * 2 ^ (ex + Zpos p + 1 - emin) = 2 ^ 53 * g).
      { unfold g. replace (ex + Zpos p + 1 - emin) with (1 + (e' - emin)) by lia.
        rewrite pow2_split by lia. change (2 ^ 1) with 2.
        change (Zpos 4503599627370496) with (2 ^ 52).
        change (2 ^ 53) with (2 ^ 52 * 2). lia. }
      rewrite HR. split; [reflexivity|].
      assert (Hq1 : q + 1 = 2 ^ 53) by lia.
      specialize (HVs ltac:(lia)).
      split; [nia|]. split; [nia|]. split; [nia|].
      exists e'. split; [lia|reflexivity].
    + assert (Hd2 : Zpos (digits2_pos m2) = 53).
      { apply digits2_unique. change (53 - 1) with 52. lia. }
      rewrite Hd2, fexp_eq.
      replace (Z.max (53 + (ex + Zpos p) - 53) emin - (ex + Zpos p)) with 0 by lia.
      cbn [shr shr_m].
      exists m2, (ex + Zpos p).
      split; [reflexivity|]. split.
      { unfold canonical_mantissa. apply Z.eqb_eq. rewrite fexp_eq, Hd2. lia. }
      split; [lia|]. right. exists g, (Zpos m2). split; [exact Hg0|].
      rewrite <- Ee. fold g. split; [reflexivity|].
      assert (Hqg : 2 ^ 52 * g <= q * g) by (apply Z.mul_le_mono_nonneg_r; lia).
      assert (HR : Zpos m2 * g = q * g \/
                   (Zpos m2 * g = q * g + g /\ q * g < Zpos mx * 2 ^ (ex - emin))).
      { destruct Hm as [Hm|Hm]; [left; rewrite Hm; reflexivity|right].
        split; [rewrite Hm; ring|apply HVs, Hm]. }
      assert (HV' : Zpos mx * 2 ^ (ex - emin) < q * g + g) by lia.
      split; [lia|]. split; [lia|]. split; [lia|].
      exists e'. split; [lia|reflexivity].
  - lia.
Qed.


(** *** What is rounded is a float *)

Lemma Zdigits2_bounds m :
  0 < m -> 2 ^ (Zdigits2 m - 1) <= m < 2 ^ Zdigits2 m.
Proof. destruct m as [|p|p]; try lia. intros _. apply digits2_bounds. Qed.

(** The result of [binary_round_aux] is a float of the format, for a
    mantissa and an exponent that are precise enough. *)
Lemma binary_round_aux_valid s m e l :
  0 <= m -> e <= fexp float.prec float.emax (Zdigits2 m + e) ->
  valid (binary_round_aux float.prec float.emax s m e l) = true.
Proof.
  intros Hm Hn. pose proof emin_eq as Hemin.
  unfold binary_round_aux, shr_fexp.
  set (d := Zdigits2 m) in *.
  set (E := fexp float.prec float.emax (d + e)) in *.
  assert (HE : E = Z.max (d + e - 53) emin) by apply fexp_eq.
  assert (Hd0 : 0 <= d) by (unfold d; destruct m; cbn; lia).
  assert (Hfirst : exists q r0 s0,
            shr (shr_record_of_loc m l) e (E - e) = (Build_shr_record q r0 s0, E) /\
            0 <= q /\ exists rem, m = q * 2 ^ (E - e) + rem /\ 0 <= rem < 2 ^ (E - e)).
  { assert (Hrec : exists r0 s0, shr_record_of_loc m l = Build_shr_record m r0 s0).
    { destruct l as [|[]]; do 2 eexists; reflexivity. }
    destruct Hrec as (r0 & s0 & ->).
    destruct (E - e) as [|p|p] eqn:En; [| |lia].
    - exists m, r0, s0. cbn [shr]. replace e with E by lia.
      split; [reflexivity|]. split; [exact Hm|]. exists 0. change (2 ^ 0) with 1. lia.
    - cbn [shr]. rewrite iter_pos_nat.
      destruct (shr_iter m r0 s0 (Pos.to_nat p) Hm)
        as (q & rem & r & s1 & Hiter & Hq & Hval & Hrem & _).
      rewrite positive_nat_Z in Hval, Hrem.
      exists q, r, s1. rewrite Hiter. replace (e + Zpos p) with E by lia.
      split; [reflexivity|]. split; [exact Hq|]. exists rem. split; assumption. }
  destruct Hfirst as (q & r0 & s0 & -> & Hq & rem & Hval & Hrem).
  cbn [shr_m].
  pose proof (round_nearest_even_spec q r0 s0) as Hspec. cbv zeta in Hspec.
  remember (round_nearest_even q (loc_of_shr_record (Build_shr_record q r0 s0)))
    as mr eqn:Emr.
  clear Emr. destruct Hspec as [Hmr _].
  pose proof (pow2_pos (E - e) ltac:(lia)) as Hp.
  (* the quotient has at most 53 digits, and 53 above the least exponent *)
  assert (Hq53 : q < 2 ^ 53).
  { destruct (Z.eq_dec m 0) as [->|Hm0]; [nia|].
    pose proof (Zdigits2_bounds m ltac:(lia)) as [_ Bhi]. fold d in Bhi.
    assert (Hle : 2 ^ d <= 2 ^ 53 * 2 ^ (E - e)).
    { rewrite <- pow2_split by lia. apply pow2_le. lia. }
    change (2 ^ 53) with 9007199254740992 in *. nia. }
  assert (Hq52 : emin < E -> 2 ^ 52 <= q).
  { intros HEm.
    assert (Hd : E - e = d - 53) by lia.
    assert (Hm0 : 0 < m).
    { destruct (Z.eq_dec m 0) as [->|]; [|lia]. unfold d in Hd. cbn in Hd. lia. }
    pose proof (Zdigits2_bounds m Hm0) as [Blo _]. fold d in Blo.
    assert (Hge : 2 ^ 52 * 2 ^ (E - e) <= 2 ^ (d - 1)).
    { rewrite <- pow2_split by lia. apply pow2_le. lia. }
    change (2 ^ 52) with 4503599627370496 in *. nia. }
  destruct mr as [|m2|m2]; [| |lia].
  - (* rounded to zero *)
    cbn [Zdigits2]. rewrite fexp_eq.
    destruct (Z.max (0 + E - 53) emin - E) as [|p|p] eqn:En; [reflexivity|lia|reflexivity].
  - cbn [Zdigits2].
    destruct (Z.eq_dec (Zpos m2) (2 ^ 53)) as [Hcarry|Hnc].
    + assert (Hd2 : Zpos (digits2_pos m2) = 54).
      { apply digits2_unique. rewrite Hcarry. change (54 - 1) with 53.
        split; [lia|]. apply Z.pow_lt_mono_r; lia. }
      rewrite Hd2, fexp_eq.
      replace (Z.max (54 + E - 53) emin - E) with 1 by lia.
      assert (Em : m2 = 9007199254740992%positive).
      { apply Pos2Z.inj. rewrite Hcarry. reflexivity. }
      subst m2. cbn [shr shr_record_of_loc iter_pos shr_1 shr_m].
      destruct (E + 1 <=? float.emax - float.prec) eqn:Hb; [|reflexivity].
      unfold valid, valid_binary, bounded. rewrite Hb, andb_true_r.
      unfold canonical_mantissa. apply Z.eqb_eq. rewrite fexp_eq.
      change (Zpos (digits2_pos 4503599627370496)) with 53. lia.
    + assert (Hm2 : Zpos m2 < 2 ^ 53) by lia.
      assert (Hd2 : Zpos (digits2_pos m2) <= 53).
      { pose proof (digits2_bounds m2) as [Blo _].
        destruct (Z.le_gt_cases (Zpos (digits2_pos m2)) 53) as [L|G]; [exact L|exfalso].
        assert (H : 2 ^ 53 <= 2 ^ (Zpos (digits2_pos m2) - 1)) by (apply pow2_le; lia).
        lia. }
      assert (Hd2' : emin < E -> Zpos (digits2_pos m2) = 53).
      { intros HEm. apply digits2_unique. change (53 - 1) with 52.
        specialize (Hq52 HEm). lia. }
      assert (Hc : Z.max (Zpos (digits2_pos m2) + E - 53) emin = E).
      { destruct (Z.eq_dec E emin) as [Ee|Ee]; [lia|].
        rewrite Hd2' by lia. lia. }
      rewrite fexp_eq, Hc, Z.sub_diag. cbn [shr shr_record_of_loc shr_m].
      destruct (E <=? float.emax - float.prec) eqn:Hb; [|reflexivity].
      unfold valid, valid_binary, bounded. rewrite Hb, andb_true_r.
      unfold canonical_mantissa. apply Z.eqb_eq. rewrite fexp_eq. exact Hc.
Qed.

(** The quotient [SFdiv_core_binary] hands to the rounding is precise
    enough. *)
Lemma div_core_precise n d :
  0 < n -> 0 < d ->
  let '(q, e, l) := SFdiv_core_binary float.prec float.emax n 0 d 0 in
  0 <= q /\ e <= fexp float.prec float.emax (Zdigits2 q + e).
Proof.
  intros Hn Hd. pose proof emin_eq as Hemin. unfold SFdiv_core_binary.
  rewrite !Z.add_0_r, Z.sub_diag.
  set (d1 := Zdigits2 n). set (d2 := Zdigits2 d).
  set (e' := Z.min (fexp float.prec float.emax (d1 - d2)) 0).
  assert (He' : e' = Z.min (Z.max (d1 - d2 - 53) emin) 0).
  { unfold e'. rewrite fexp_eq. reflexivity. }
  assert (Hm' : match 0 - e' with
                | Zpos _ => Z.shiftl n (0 - e')
                | 0 => n
                | Zneg _ => 0
                end = n * 2 ^ (- e')).
  { destruct (0 - e') as [|p|p] eqn:Es; [| |lia].
    - replace (- e') with 0 by lia. change (2 ^ 0) with 1. lia.
    - rewrite Z.shiftl_mul_pow2 by lia. f_equal. f_equal. lia. }
  rewrite Hm'. set (m' := n * 2 ^ (- e')).
  pose proof (pow2_pos (- e') ltac:(lia)) as Hp.
  assert (Hm0 : 0 < m') by (unfold m'; nia).
  pose proof (Z_div_mod m' d ltac:(lia)) as Hdiv.
  destruct (Z.div_eucl m' d) as [q r]. destruct Hdiv as [Hq Hr].
  assert (Hq0 : 0 <= q) by nia.
  split; [exact Hq0|]. rewrite fexp_eq.
  destruct (Z.le_gt_cases e' emin) as [L|G]; [lia|].
  assert (Hs : 53 + d2 - d1 <= - e') by lia.
  pose proof (Zdigits2_bounds n Hn) as [Blo _]. fold d1 in Blo.
  pose proof (Zdigits2_bounds d Hd) as [_ Bhi]. fold d2 in Bhi.
  assert (Hd1 : 0 < d1) by (unfold d1; destruct n; cbn; lia).
  assert (Hd2 : 0 < d2) by (unfold d2; destruct d; cbn; lia).
  assert (Hbig : 2 ^ 52 * 2 ^ d2 <= m').
  { unfold m'. rewrite <- pow2_split by lia.
    apply Z.le_trans with (2 ^ (d1 - 1) * 2 ^ (- e')).
    - rewrite <- pow2_split by lia. apply pow2_le. lia.
    - apply Z.mul_le_mono_nonneg_r; lia. }
  assert (Hq52 : 2 ^ 52 <= q).
  { change (2 ^ 52) with 4503599627370496 in *. nia. }
  assert (Hdq : 53 <= Zdigits2 q).
  { pose proof (Zdigits2_bounds q ltac:(lia)) as [_ Qhi].
    destruct (Z.le_gt_cases 53 (Zdigits2 q)) as [L|G']; [exact L|exfalso].
    assert (H : 2 ^ Zdigits2 q <= 2 ^ 52).
    { apply pow2_le. split; [destruct q; cbn; lia|lia]. }
    lia. }
  lia.
Qed.

Lemma of_quotient_valid s n d :
  0 <= n -> 0 < d -> valid (float.of_quotient s n d) = true.
Proof.
  intros Hn Hd. unfold float.of_quotient.
  destruct (Z.eq_dec n 0) as [->|Hn0]; [reflexivity|].
  pose proof (div_core_precise n d ltac:(lia) Hd) as H.
  destruct (SFdiv_core_binary float.prec float.emax n 0 d 0) as [[q e] l].
  destruct H as [Hq He].
  destruct n as [|p|p]; [lia| |lia]. apply binary_round_aux_valid; assumption.
Qed.

Lemma binary_normalize_valid n e sz :
  emin <= e -> valid (binary_normalize float.prec float.emax n e sz) = true.
Proof.
  intros He.
  assert (H : forall s p, valid (binary_round float.prec float.emax s p e) = true).
  { intros s p. destruct (binary_round_spec s p e He) as (m & e1 & -> & Hc & _).
    destruct (e1 <=? float.emax - float.prec) eqn:Hb; [|reflexivity].
    unfold valid, valid_binary, bounded. rewrite Hc, Hb. reflexivity. }
  destruct n; cbn [binary_normalize]; [reflexivity|apply H|apply H].
Qed.

Lemma of_decimal_valid s m e : 0 <= m -> valid (float.of_decimal s m e) = true.
Proof.
  intros Hm. pose proof emin_eq. unfold float.of_decimal.
  destruct e as [|p|p]; try (apply binary_normalize_valid; lia).
  apply of_quotient_valid; [exact Hm|].
  rewrite Z.pow_pos_fold. apply Z.pow_pos_nonneg; lia.
Qed.

Lemma digits_value_nonneg d : 0 <= float.digits_value d.
Proof.
  unfold float.digits_value. destruct (NilEmpty.uint_of_string d); [|lia].
  unfold Z.of_uint. apply N2Z.is_nonneg.
Qed.

(** [float] makes floats of the format. *)
Lemma of_string_valid s x : float.of_string s = Some x -> valid x = true.
Proof.
  unfold float.of_string.
  destruct (float.drop_underscores false _) as [t|]; [|discriminate].
  destruct (float.split_sign t) as [neg body].
  destruct (_ || _)%bool; [intros [= <-]; reflexivity|].
  destruct (String.eqb _ "nan"); [intros [= <-]; reflexivity|].
  destruct (float.span_digits body) as [int_part rest].
  destruct (match rest with String "." rest' => float.span_digits rest' | _ => _ end)
    as [frac_part rest'].
  destruct (_ && _)%bool; [discriminate|].
  destruct (float.parse_exponent rest') as [e|]; [|discriminate].
  intros [= <-]. apply of_decimal_valid, digits_value_nonneg.
Qed.

Lemma of_int_valid n x : float.of_int n = Ok x -> valid x = true.
Proof.
  unfold float.of_int. pose proof emin_eq.
  pose proof (binary_normalize_valid n 0 false ltac:(lia)) as H0.
  destruct (binary_normalize float.prec float.emax n 0 false); try discriminate;
    intros [= <-]; exact H0.
Qed.

Lemma of_value_valid v x : float.of_value v = Ok x -> valid x = true.
Proof.
  destruct v as [|b|n|s]; cbn [float.of_value]; [discriminate| | |].
  - apply of_int_valid.
  - apply of_int_valid.
  - destruct (float.of_string s) as [f|] eqn:E; [|discriminate].
    intros [= <-]. apply (of_string_valid s f E).
Qed.

(** *** The difference of two floats against a third *)

Lemma shl_align_value mx ex ez :
  ez <= ex -> Zpos (fst (shl_align mx ex ez)) = Zpos mx * 2 ^ (ex - ez).
Proof.
  intros H. unfold shl_align. destruct (ez - ex) as [|p|d] eqn:E; cbn [fst].
  - replace (ex - ez) with 0 by lia. change (2 ^ 0) with 1. lia.
  - lia.
  - rewrite iter_xO_value. f_equal. f_equal. lia.
Qed.

Lemma pow2_lt_inv a b : 0 <= a -> 0 <= b -> 2 ^ 52 * 2 ^ a < 2 ^ 53 * 2 ^ b -> a <= b.
Proof.
  intros Ha Hb H. destruct (Z.le_gt_cases a b) as [L|G]; [exact L|exfalso].
  assert (Hle : 2 ^ (b + 1) <= 2 ^ a) by (apply pow2_le; lia).
  rewrite pow2_split in Hle by lia. change (2 ^ 1) with 2 in Hle.
  change (2 ^ 53) with (2 ^ 52 * 2) in H.
  pose proof (pow2_pos b Hb). nia.
Qed.

Lemma valid_ticks_bound s m e :
  valid (S754_finite s m e) = true ->
  Zpos m * 2 ^ (e - emin) <= (2 ^ 53 - 1) * 2 ^ (e - emin) /\
  2 ^ (e - emin) <= 2 ^ (971 - emin).
Proof.
  intros H. destruct (valid_finite _ _ _ H) as (He & Hd & _).
  pose proof (digits2_bounds m) as [_ Bhi].
  assert (Hm : Zpos m < 2 ^ 53).
  { eapply Z.lt_le_trans; [exact Bhi|]. apply pow2_le. unfold float.prec in Hd. lia. }
  pose proof (pow2_pos (e - emin) ltac:(lia)) as Hp.
  split; [apply Z.mul_le_mono_nonneg_r; lia|].
  apply pow2_le. unfold float.emax, float.prec in He. lia.
Qed.

(** The rounded value [R] of [V], against the value [T] of a valid float. *)
Lemma rounded_le s mt et V R g k e' :
  valid (S754_finite s mt et) = true ->
  0 < g -> R = k * g -> R - g < V -> 2 ^ 52 * g <= V ->
  emin <= e' -> g = 2 ^ (e' - emin) ->
  V <= Zpos mt * 2 ^ (et - emin) -> R <= Zpos mt * 2 ^ (et - emin).
Proof.
  intros Ht Hg HR Hlo Hbig He' Eg HV.
  destruct (valid_finite _ _ _ Ht) as (Het & _).
  destruct (valid_ticks_bound _ _ _ Ht) as [HT _].
  pose proof (pow2_pos (et - emin) ltac:(lia)) as HU.
  assert (Hee : e' - emin <= et - emin).
  { apply pow2_lt_inv; try lia; rewrite <- Eg; lia. }
  assert (EU : 2 ^ (et - emin) = 2 ^ (et - e') * g).
  { rewrite Eg. replace (et - emin) with ((et - e') + (e' - emin)) by lia.
    apply pow2_split; lia. }
  rewrite EU in HV |- *. rewrite Z.mul_assoc in HV |- *.
  set (j := Zpos mt * 2 ^ (et - e')) in *.
  rewrite HR in Hlo |- *.
  assert (Hkj : k - 1 < j) by nia.
  apply Z.mul_le_mono_nonneg_r; lia.
Qed.

Lemma rounded_lt s mt et V R g e' :
  valid (S754_finite s mt et) = true ->
  0 < g -> V < R + g -> 2 ^ 52 * g <= R ->
  emin <= e' -> g = 2 ^ (e' - emin) ->
  R <= Zpos mt * 2 ^ (et - emin) ->
  V < Zpos mt * 2 ^ (et - emin) + 2 ^ (et - emin).
Proof.
  intros Ht Hg Hhi Hbig He' Eg HR.
  destruct (valid_finite _ _ _ Ht) as (Het & _).
  destruct (valid_ticks_bound _ _ _ Ht) as [HT _].
  pose proof (pow2_pos (et - emin) ltac:(lia)) as HU.
  assert (Hee : e' - emin <= et - emin).
  { apply pow2_lt_inv; try lia; rewrite <- Eg; lia. }
  assert (Hgu : g <= 2 ^ (et - emin)) by (rewrite Eg; apply pow2_le; lia).
  lia.
Qed.

(** A value that rounds beyond the largest float is above every float. *)
Lemma rounded_overflow s mt et m e V R :
  valid (S754_finite s mt et) = true ->
  canonical_mantissa float.prec float.emax m e = true ->
  float.emax - float.prec < e ->
  R = Zpos m * 2 ^ (e - emin) ->
  (R = V \/
   exists g k, 0 < g /\ R = k * g /\ R - g < V < R + g /\ 2 ^ 52 * g <= V /\
               2 ^ 52 * g <= R /\ exists e', emin <= e' /\ g = 2 ^ (e' - emin)) ->
  Zpos mt * 2 ^ (et - emin) < V.
Proof.
  intros Ht Hc He ER HV. pose proof emin_eq as Hemin.
  destruct (valid_ticks_bound _ _ _ Ht) as [HT HU].
  destruct (valid_finite _ _ _ Ht) as (Het & _).
  pose proof (pow2_pos (et - emin) ltac:(lia)) as HU0.
  set (W := 2 ^ (971 - emin)) in *.
  assert (HW : 0 < W) by (apply pow2_pos; lia).
  assert (HR : 2 ^ 53 * W <= R).
  { unfold canonical_mantissa in Hc. apply Z.eqb_eq in Hc. rewrite fexp_eq in Hc.
    unfold float.emax, float.prec in He.
    assert (Hd : Zpos (digits2_pos m) = 53) by lia.
    pose proof (digits2_bounds m) as [Blo _]. rewrite Hd in Blo.
    change (53 - 1) with 52 in Blo.
    assert (Hp : 2 * W <= 2 ^ (e - emin)).
    { unfold W. change 2 with (2 ^ 1) at 1. rewrite <- pow2_split by lia.
      apply pow2_le. lia. }
    rewrite ER. change (2 ^ 53) with (2 ^ 52 * 2). nia. }
  assert (HTW : Zpos mt * 2 ^ (et - emin) <= (2 ^ 53 - 1) * W).
  { eapply Z.le_trans; [exact HT|]. apply Z.mul_le_mono_nonneg_l; lia. }
  destruct HV as [HV|(g & k & Hg & _ & [Hlo _] & Hbig & _ & e' & He' & Eg)]; [lia|].
  destruct (Z.le_gt_cases V (Zpos mt * 2 ^ (et - emin))) as [Hle|Hgt]; [exfalso|exact Hgt].
  assert (Hee : e' - emin <= et - emin).
  { apply pow2_lt_inv; try lia; rewrite <- Eg; lia. }
  assert (Hgu : g <= W).
  { rewrite Eg. unfold W. apply pow2_le. unfold float.emax, float.prec in Het. lia. }
  lia.
Qed.

Lemma leb_infinity t :
  is_finite t = true -> float.leb (S754_infinity false) t = false.
Proof. destruct t as [s|s| |s m e]; try discriminate; reflexivity. Qed.

Lemma valid_abs x : valid (float.abs x) = valid x.
Proof. destruct x; reflexivity. Qed.

Lemma ticks_abs x : ticks (float.abs x) = Z.abs (ticks x).
Proof.
  destruct x as [s|s| |s m e]; try reflexivity.
  cbn [float.abs SFabs ticks cond_Zopp].
  destruct s; cbn [cond_Zopp]; [|symmetry; apply Z.abs_eq; apply Z.mul_nonneg_nonneg;
    [lia|apply Z.pow_nonneg; lia]].
  rewrite Z.abs_opp. symmetry. apply Z.abs_eq. apply Z.mul_nonneg_nonneg;
    [lia|apply Z.pow_nonneg; lia].
Qed.

Lemma ulp_pos t : valid t = true -> 0 < ulp t.
Proof.
  destruct t as [s|s| |s m e]; cbn [ulp]; try lia.
  intros H. destruct (valid_finite _ _ _ H) as (He & _). apply pow2_pos. lia.
Qed.

(** A float that is exactly the difference. *)
Lemma close_exact r D t :
  valid r = true -> is_finite r = true -> valid t = true -> is_finite t = true ->
  Z.abs (ticks r) = Z.abs D ->
  (Z.abs D <= ticks t -> float.leb (float.abs r) t = true) /\
  (float.leb (float.abs r) t = true -> Z.abs D < ticks t + ulp t).
Proof.
  intros Vr Fr Vt Ft E.
  rewrite (leb_ticks (float.abs r) t); try assumption.
  - rewrite ticks_abs, E. pose proof (ulp_pos t Vt) as Hu. split.
    + intros H. apply Z.leb_le, H.
    + intros H. apply Z.leb_le in H. lia.
  - rewrite valid_abs. exact Vr.
  - destruct r; try discriminate; reflexivity.
Qed.

(** [abs(x - y) <= t] for three floats: true when the difference of the
    values of [x] and [y] is at most the value of [t], and false when it
    is above it by a unit in the last place of [t], or more. *)
Lemma sub_abs_leb x y t :
  valid x = true -> valid y = true -> valid t = true ->
  is_finite x = true -> is_finite y = true -> is_finite t = true ->
  (Z.abs (ticks x - ticks y) <= ticks t ->
   float.leb (float.abs (float.sub x y)) t = true) /\
  (float.leb (float.abs (float.sub x y)) t = true ->
   Z.abs (ticks x - ticks y) < ticks t + ulp t).
Proof.
  intros Vx Vy Vt Fx Fy Ft.
  destruct x as [sx|sx| |sx mx ex]; try discriminate Fx;
    destruct y as [sy|sy| |sy my ey]; try discriminate Fy.
  - apply (close_exact (float.sub (S754_zero sx) (S754_zero sy))); try assumption;
      destruct sx, sy; reflexivity.
  - apply (close_exact (S754_finite (negb sy) my ey)); try assumption; try reflexivity.
    cbn [ticks]. rewrite Z.sub_0_l, Z.abs_opp.
    destruct sy; cbn [negb cond_Zopp]; rewrite ?Z.abs_opp; reflexivity.
  - apply (close_exact (S754_finite sx mx ex)); try assumption; try reflexivity.
    cbn [ticks]. rewrite Z.sub_0_r. reflexivity.
  - destruct (valid_finite _ _ _ Vx) as (Hex & _).
    destruct (valid_finite _ _ _ Vy) as (Hey & _).
    unfold float.sub. cbn [SFsub].
    set (ez := Z.min ex ey).
    assert (Hez : emin <= ez) by (unfold ez; lia).
    rewrite (shl_align_value mx ex ez), (shl_align_value my ey ez) by (unfold ez; lia).
    set (n := cond_Zopp sx (Zpos mx * 2 ^ (ex - ez)) - cond_Zopp sy (Zpos my * 2 ^ (ey - ez))).
    assert (HD : ticks (S754_finite sx mx ex) - ticks (S754_finite sy my ey)
                 = n * 2 ^ (ez - emin)).
    { cbn [ticks]. unfold n.
      replace (ex - emin) with ((ex - ez) + (ez - emin)) by lia.
      replace (ey - emin) with ((ey - ez) + (ez - emin)) by lia.
      rewrite !pow2_split by (unfold ez; lia).
      destruct sx, sy; cbn [cond_Zopp]; ring. }
    rewrite HD. clearbody n.
    pose proof (pow2_pos (ez - emin) ltac:(lia)) as Hpz.
    assert (Habs : forall p, Z.abs n = Zpos p ->
              Z.abs (n * 2 ^ (ez - emin)) = Zpos p * 2 ^ (ez - emin)).
    { intros p Hp. rewrite Z.abs_mul, Hp. f_equal. apply Z.abs_eq. lia. }
    assert (Hround : forall s p, Z.abs n = Zpos p ->
      (Z.abs (n * 2 ^ (ez - emin)) <= ticks t ->
       float.leb (float.abs (binary_round float.prec float.emax s p ez)) t = true) /\
      (float.leb (float.abs (binary_round float.prec float.emax s p ez)) t = true ->
       Z.abs (n * 2 ^ (ez - emin)) < ticks t + ulp t)).
    { intros s p Hp. rewrite (Habs p Hp).
      destruct (binary_round_spec s p ez Hez) as (m & e & Hr & Hc & He & HV).
      rewrite Hr. set (V := Zpos p * 2 ^ (ez - emin)) in *.
      set (R := Zpos m * 2 ^ (e - emin)) in *.
      assert (HV0 : 0 < V) by (unfold V; nia).
      destruct (Z.leb_spec e (float.emax - float.prec)) as [Hle|Hgt].
      - (* a float *)
        assert (Vr : valid (S754_finite false m e) = true).
        { unfold valid, valid_binary, bounded. rewrite Hc. apply Z.leb_le, Hle. }
        cbn [float.abs SFabs].
        rewrite (leb_ticks (S754_finite false m e) t Vr Vt eq_refl Ft).
        cbn [ticks cond_Zopp]. fold R.
        destruct t as [st|st| |st mt et]; try discriminate Ft.
        + cbn [ticks ulp]. assert (HR0 : 0 < R) by (unfold R; nia).
          split; [lia|]. intros H. apply Z.leb_le in H. lia.
        + cbn [ticks ulp]. destruct st; cbn [cond_Zopp].
          * pose proof (ticks_finite_pos _ _ _ Vt) as HT.
            assert (HR0 : 0 < R) by (unfold R; nia).
            split; [lia|]. intros H. apply Z.leb_le in H. lia.
          * pose proof (pow2_pos (et - emin)
                          ltac:(destruct (valid_finite _ _ _ Vt); lia)) as HU.
            split.
            { intros HVT. apply Z.leb_le.
              destruct HV as [HV|(g & k & Hg & HR & [Hlo _] & Hbig & _ & e' & He' & Eg)];
                [fold R V in HV; lia|].
              fold R V in HR, Hlo, Hbig.
              apply (rounded_le false mt et V R g k e'); assumption. }
            { intros H. apply Z.leb_le in H.
              destruct HV as [HV|(g & k & Hg & HR & [_ Hhi] & _ & Hbig & e' & He' & Eg)];
                [fold R V in HV; lia|].
              fold R V in HR, Hhi, Hbig.
              apply (rounded_lt false mt et V R g e'); assumption. }
      - (* beyond the floats *)
        cbn [float.abs SFabs]. rewrite (leb_infinity t Ft).
        split; [|discriminate]. intros HVT. exfalso.
        destruct t as [st|st| |st mt et]; try discriminate Ft.
        + cbn [ticks] in HVT. lia.
        + pose proof (rounded_overflow st mt et m e V R Vt Hc Hgt eq_refl HV) as Hov.
          cbn [ticks] in HVT. destruct st; cbn [cond_Zopp] in HVT; [|lia].
          pose proof (ticks_finite_pos _ _ _ Vt). lia. }
    destruct n as [|p|p]; cbn [binary_normalize].
    + apply (close_exact (S754_zero false)); try assumption; reflexivity.
    + apply Hround. reflexivity.
    + apply Hround. reflexivity.
Qed.

(** *** Integers as floats *)

(** An [int] below [2^53] in absolute value is a float. *)
Lemma of_int_ticks n :
  Z.abs n < 2 ^ 53 ->
  exists x, float.of_int n = Ok x /\ is_finite x = true /\ ticks x = n * 2 ^ (- emin).
Proof.
  intros Hn. pose proof emin_eq as Hemin. unfold float.of_int.
  assert (H : forall s p, Zpos p < 2 ^ 53 ->
            exists m e,
              binary_round float.prec float.emax s p 0 = S754_finite s m e /\
              Zpos m * 2 ^ (e - emin) = Zpos p * 2 ^ (- emin)).
  { intros s p Hp.
    assert (Hd : Zpos (digits2_pos p) <= 53).
    { pose proof (digits2_bounds p) as [Blo _].
      destruct (Z.le_gt_cases (Zpos (digits2_pos p)) 53) as [L|G]; [exact L|exfalso].
      assert (H : 2 ^ 53 <= 2 ^ (Zpos (digits2_pos p) - 1)) by (apply pow2_le; lia).
      lia. }
    destruct (binary_round_short s p 0 ltac:(lia) Hd) as (m & e & He & Hr & _ & _ & HV).
    exists m, e. rewrite Hr.
    assert (Hb : (e <=? float.emax - float.prec) = true).
    { apply Z.leb_le. unfold float.emax, float.prec. lia. }
    rewrite Hb. split; [reflexivity|]. rewrite HV. f_equal. }
  destruct n as [|p|p]; cbn [binary_normalize].
  - exists (S754_zero false). repeat split.
  - destruct (H false p ltac:(lia)) as (m & e & -> & HV).
    exists (S754_finite false m e). split; [reflexivity|]. split; [reflexivity|].
    cbn [ticks cond_Zopp]. exact HV.
  - destruct (H true p ltac:(lia)) as (m & e & -> & HV).
    exists (S754_finite true m e). split; [reflexivity|]. split; [reflexivity|].
    cbn [ticks cond_Zopp]. rewrite HV. lia.
Qed.

End FloatValueFacts.

(** ** Equality of two numbers *)

Section CompareNumbersFacts.
Local Open Scope Z_scope.
Variable self : config.

(** Two values that are read as numbers are compared by the float
    [abs(x - y)]. *)
Lemma compare_values_numbers a b field x y :
  float.of_value a = Ok x -> float.of_value b = Ok y ->
  compare_values self a b field
  = Ok (float.leb (float.abs (float.sub x y)) (tolerance self)).
Proof.
  intros Hx Hy. unfold compare_values.
  assert (Ha : is_none a = false) by (destruct a; [discriminate Hx|reflexivity..]).
  assert (Hb : is_none b = false) by (destruct b; [discriminate Hy|reflexivity..]).
  rewrite Ha, Hb, Hx, Hy. reflexivity.
Qed.

(** The values of the two floats decide, up to the rounding of their
    difference. *)
Lemma compare_values_close a b field x y :
  float.of_value a = Ok x -> float.of_value b = Ok y ->
  is_finite x = true -> is_finite y = true ->
  valid (tolerance self) = true -> is_finite (tolerance self) = true ->
  (Z.abs (ticks x - ticks y) <= ticks (tolerance self) ->
   compare_values self a b field = Ok true) /\
  (ticks (tolerance self) + ulp (tolerance self) <= Z.abs (ticks x - ticks y) ->
   compare_values self a b field = Ok false).
Proof.
  intros Hx Hy Fx Fy Vt Ft.
  rewrite (compare_values_numbers a b field x y Hx Hy).
  destruct (sub_abs_leb x y (tolerance self)
              (of_value_valid a x Hx) (of_value_valid b y Hy) Vt Fx Fy Ft) as [H1 H2].
  split.
  - intros H. rewrite (H1 H). reflexivity.
  - intros H. destruct (float.leb _ _); [|reflexivity].
    specialize (H2 eq_refl). lia.
Qed.

(** Under a tolerance below one, two [int]s below [2^53] are equal when
    they are the same number, and only then. *)
Lemma compare_values_ints a b field :
  Z.abs a < 2 ^ 53 -> Z.abs b < 2 ^ 53 ->
  valid (tolerance self) = true -> is_finite (tolerance self) = true ->
  0 <= ticks (tolerance self) ->
  ticks (tolerance self) + ulp (tolerance self) <= 2 ^ (- emin) ->
  compare_values self (VInt a) (VInt b) field = Ok (a =? b).
Proof.
  intros Ha Hb Vt Ft Ht0 Ht1.
  destruct (of_int_ticks a Ha) as (x & Hx & Fx & Tx).
  destruct (of_int_ticks b Hb) as (y & Hy & Fy & Ty).
  destruct (compare_values_close (VInt a) (VInt b) field x y Hx Hy Fx Fy Vt Ft)
    as [H1 H2].
  rewrite Tx, Ty in H1, H2.
  pose proof (pow2_pos (- emin) ltac:(rewrite emin_eq; lia)) as Hp.
  destruct (Z.eqb_spec a b) as [E|E].
  - apply H1. subst b. rewrite Z.sub_diag. cbn [Z.abs]. exact Ht0.
  - apply H2. rewrite <- Z.mul_sub_distr_r, Z.abs_mul, (Z.abs_eq (2 ^ (- emin))) by lia.
    assert (H : 1 <= Z.abs (a - b)) by lia. nia.
Qed.

End CompareNumbersFacts.

(** ** Words and the white space around them *)
Section WordFacts.

(** Words, each with the white space that follows it. *)
Fixpoint spaced (pieces : list (string * string)) : string :=
  match pieces with
  | [] => ""
  | (w, gap) :: tl => w ++ gap ++ spaced tl
  end.

(** Every piece is a word and white space, and there is white space
    between two words. *)
Fixpoint well_spaced (pieces : list (string * string)) : Prop :=
  match pieces with
  | [] => True
  | (w, gap) :: tl =>
      is_word w /\ all_chars isspace gap = true /\ (tl <> [] -> gap <> "") /\
      well_spaced tl
  end.

Lemma split_ws_space lead s :
  all_chars isspace lead = true -> split_ws (lead ++ s) = split_ws s.
Proof.
  induction lead as [|c lead IH]; [reflexivity|].
  cbn [all_chars]. intros H. apply andb_true_iff in H. destruct H as [Hc Hl].
  change (String c lead ++ s) with (String c (lead ++ s)).
  rewrite split_ws_eq, Hc. apply IH, Hl.
Qed.

Lemma split_ws_word_space w c rest :
  is_word w -> isspace c = true ->
  split_ws (w ++ String c rest) = w :: split_ws rest.
Proof.
  induction w as [|c0 w IH]; intros Hw Hc; [destruct Hw; congruence|].
  change (String c0 w ++ String c rest) with (String c0 (w ++ String c rest)).
  rewrite split_ws_eq, (is_word_head _ _ Hw).
  destruct w as [|c' w'].
  - cbn [append]. rewrite Hc, split_ws_eq, Hc. reflexivity.
  - change (String c' w' ++ String c rest) with (String c' (w' ++ String c rest)).
    cbv iota. rewrite (is_word_head _ _ (is_word_tail _ _ _ Hw)).
    change (String c' (w' ++ String c rest)) with (String c' w' ++ String c rest).
    rewrite (IH (is_word_tail _ _ _ Hw) Hc). reflexivity.
Qed.

(** [split] finds the words, whatever the white space is. *)
Lemma split_ws_spaced pieces :
  well_spaced pieces -> split_ws (spaced pieces) = map fst pieces.
Proof.
  induction pieces as [|[w gap] tl IH]; [reflexivity|].
  cbn [well_spaced spaced map fst]. intros (Hw & Hgap & Hsep & Htl).
  destruct gap as [|c gap].
  - destruct tl as [|p tl']; [|exfalso; apply Hsep; [discriminate|reflexivity]].
    cbn [spaced append]. rewrite append_nil_r. apply split_ws_word, Hw.
  - cbn [all_chars] in Hgap. apply andb_true_iff in Hgap. destruct Hgap as [Hc Hg].
    change (w ++ String c gap ++ spaced tl) with (w ++ String c (gap ++ spaced tl)).
    rewrite (split_ws_word_space w c _ Hw Hc), (split_ws_space gap _ Hg), (IH Htl).
    reflexivity.
Qed.

(** The normal form of a text: its words with one space between them,
    in lower case unless the case matters. *)
Lemma normalize_value_spaced self lead pieces :
  all_chars isspace lead = true -> well_spaced pieces ->
  normalize_value self (VStr (lead ++ spaced pieces))
  = VStr ((if case_sensitive self then (fun t => t) else lower)
            (if normalize_whitespace self
             then String.concat " " (map fst pieces)
             else lead ++ spaced pieces)).
Proof.
  intros Hl Hp. cbn [normalize_value].
  rewrite (split_ws_space lead _ Hl), (split_ws_spaced pieces Hp).
  destruct (case_sensitive self); reflexivity.
Qed.

End WordFacts.

(** C5 (amended). [compare_values]: two nulls are equal; a null and a
    value are not.  Two values that both convert with [float] are equal
    exactly when the float [abs(x - y)] is at most the tolerance, in
    binary64 arithmetic: for finite [x] and [y] this is so whenever the
    difference of the two floats is at most the tolerance, and not so
    whenever it is above it by a unit in the last place of the tolerance,
    or more.  The default tolerance is the float next above 0.01; under it,
    "8" and "8.0" are equal, and two [int]s below [2^53] are equal only
    when they are the same.  When the conversion of the first value fails,
    or that of the second after the first, the two are compared by their
    normalized forms, in which a string has its words joined by single
    spaces (when [normalize_whitespace]) and is lower-cased (unless
    [case_sensitive]). *)
Theorem compare_values_spec :
  (forall self field, compare_values self VNone VNone field = Ok true) /\
  (forall self field v,
     is_none v = false ->
     compare_values self VNone v field = Ok false /\
     compare_values self v VNone field = Ok false) /\
  (forall self field a b x y,
     float.of_value a = Ok x -> float.of_value b = Ok y ->
     compare_values self a b field
     = Ok (float.leb (float.abs (float.sub x y)) (tolerance self))) /\
  (forall self field a b x y,
     float.of_value a = Ok x -> float.of_value b = Ok y ->
     is_finite x = true -> is_finite y = true ->
     valid (tolerance self) = true -> is_finite (tolerance self) = true ->
     (Z.abs (ticks x - ticks y) <= ticks (tolerance self) ->
      compare_values self a b field = Ok true)%Z /\
     (ticks (tolerance self) + ulp (tolerance self) <= Z.abs (ticks x - ticks y) ->
      compare_values self a b field = Ok false)%Z) /\
  (forall self field a b,
     (Z.abs a < 2 ^ 53)%Z -> (Z.abs b < 2 ^ 53)%Z ->
     valid (tolerance self) = true -> is_finite (tolerance self) = true ->
     (0 <= ticks (tolerance self))%Z ->
     (ticks (tolerance self) + ulp (tolerance self) <= 2 ^ (- emin))%Z ->
     compare_values self (VInt a) (VInt b) field = Ok (a =? b)%Z) /\
  (tolerance default_config = float.of_decimal false 1 (-2) /\
   float.of_string "0.01" = Some (tolerance default_config) /\
   valid (tolerance default_config) = true /\
   is_finite (tolerance default_config) = true /\
   (2 ^ (- emin) < 100 * ticks (tolerance default_config)
    < 2 ^ (- emin) + 100 * ulp (tolerance default_config))%Z /\
   compare_values default_config (VStr "8") (VStr "8.0") "cpu_cores" = Ok true /\
   compare_values default_config (VStr "1") (VStr "5") "cpu_cores" = Ok false /\
   compare_values default_config (VStr "5") (VStr "1") "cpu_cores" = Ok false /\
   compare_values default_config (VStr "0.01") (VStr "0") "load" = Ok true) /\
  (forall self field a b e,
     is_none a = false -> is_none b = false ->
     e <> OverflowError ->
     float.of_value a = Raise e \/
     (exists x, float.of_value a = Ok x /\ float.of_value b = Raise e) ->
     compare_values self a b field
     = Ok (py_eqb (normalize_value self a) (normalize_value self b))) /\
  (forall self lead pieces,
     all_chars isspace lead = true -> well_spaced pieces ->
     normalize_value self (VStr (lead ++ spaced pieces))
     = VStr ((if case_sensitive self then (fun t => t) else lower)
               (if normalize_whitespace self
                then String.concat " " (map fst pieces)
                else lead ++ spaced pieces))).
Proof.
  split; [reflexivity|].
  split.
  { intros self field v Hv. unfold compare_values. cbn [is_none andb orb].
    rewrite Hv. rewrite orb_true_r. split; reflexivity. }
  split; [intros self field a b x y; apply compare_values_numbers|].
  split; [intros self field a b x y; apply compare_values_close|].
  split; [intros self field a b; apply compare_values_ints|].
  split.
  { split; [reflexivity|]. split; [reflexivity|]. split; [reflexivity|].
    split; [reflexivity|]. split; [split; vm_compute; reflexivity|].
    repeat split; vm_compute; reflexivity. }
  split.
  { intros self field a b e Ha Hb He H.
    unfold compare_values. rewrite Ha, Hb. cbn [andb orb].
    destruct H as [H|[x [Hx H]]].
    - rewrite H. destruct e; try reflexivity. congruence.
    - rewrite Hx, H. destruct e; try reflexivity. congruence. }
  intros self lead pieces. apply normalize_value_spaced.
Qed.

Lemma compare_values_spec_witness :
  compare_values default_config (VInt 4096) (VInt 4097) "ram_mb" = Ok false /\
  compare_values default_config (VStr "0.25") (VStr "0.5") "load" = Ok false /\
  compare_values default_config (VStr "  Ubuntu   Linux ") (VStr "ubuntu linux") "os"
  = Ok true /\
  normalize_value default_config (VStr "  Ubuntu   Linux ") = VStr "ubuntu linux".
Proof.
  split; [|split; [|split]].
  - apply (proj1 (proj2 (proj2 (proj2 (proj2 compare_values_spec))))
             default_config "ram_mb" 4096%Z 4097%Z);
      try reflexivity; vm_compute; congruence.
  - refine (proj2 (proj1 (proj2 (proj2 (proj2 compare_values_spec)))
                     default_config "load" (VStr "0.25") (VStr "0.5") _ _
                     eq_refl eq_refl eq_refl eq_refl eq_refl eq_refl) _).
    vm_compute. congruence.
  - rewrite (proj1 (proj2 (proj2 (proj2 (proj2 (proj2 (proj2 compare_values_spec))))))
               default_config "os" (VStr "  Ubuntu   Linux ") (VStr "ubuntu linux")
               ValueError eq_refl eq_refl).
    + reflexivity.
    + discriminate.
    + left. reflexivity.
  - assert (Hp : well_spaced [("Ubuntu", "   "); ("Linux", " ")]).
    { repeat split; discriminate. }
    exact (proj2 (proj2 (proj2 (proj2 (proj2 (proj2 (proj2 compare_values_spec))))))
             default_config "  " [("Ubuntu", "   "); ("Linux", " ")] eq_refl Hp).
Defined.

(** C5, as stated, fails: the tolerance is applied to binary64 numbers,
    not to the decimal numerals.  The numerals 0.3 and 0.29 differ by
    0.01, which is the tolerance, and are not equal: the two floats are
    further apart than the float of 0.01. *)
Lemma tolerance_is_not_decimal :
  float.of_string "0.3" = Some (float.of_decimal false 3 (-1)) /\
  float.of_string "0.29" = Some (float.of_decimal false 29 (-2)) /\
  tolerance default_config = float.of_decimal false 1 (-2) /\
  (3 * 10 - 29 <= 1)%Z /\
  compare_values default_config (VStr "0.3") (VStr "0.29") "load" = Ok false /\
  compare_values default_config (VStr "0.3") (VStr "0.29") "load" <> Ok true.
Proof.
  split; [reflexivity|]. split; [reflexivity|]. split; [reflexivity|].
  split; [vm_compute; discriminate|]. split; [reflexivity|].
  assert (H : compare_values default_config (VStr "0.3") (VStr "0.29") "load" = Ok false)
    by reflexivity.
  rewrite H. discriminate.
Qed.

(** ** The similarity score *)
Section SimilarityFacts.
Variable self : config.

(** The three types of a difference between two records of one asset. *)
Definition is_field_difference (d : difference) : Prop :=
  difference_type d = "missing_in_zabbix" \/
  difference_type d = "missing_in_topdesk" \/
  difference_type d = "value_mismatch".

Lemma compare_fields_names fields z t : forall diffs,
  compare_fields self fields z t = Ok diffs ->
  Forall is_field_difference diffs /\
  incl (map field_name diffs) fields /\
  (NoDup fields -> NoDup (map field_name diffs)).
Proof.
  induction fields as [|field rest IH]; intros diffs H; cbn [compare_fields] in H.
  - injection H as <-. repeat split; [constructor|intros f []|constructor].
  - destruct (compare_fields self rest z t) as [ds|e] eqn:Hrest.
    + destruct (IH ds eq_refl) as (Hty & Hincl & Hnd).
      assert (Hone : forall d, field_name d = field -> is_field_difference d ->
                diffs = d :: ds ->
                Forall is_field_difference diffs /\
                incl (map field_name diffs) (field :: rest) /\
                (NoDup (field :: rest) -> NoDup (map field_name diffs))).
      { intros d Hname Hd ->. repeat split.
        - constructor; assumption.
        - cbn. rewrite Hname. intros f [<-|Hf]; [left; reflexivity|right; apply Hincl, Hf].
        - intros Hn. inversion Hn as [|? ? Hout Hn']; subst. cbn. constructor.
          + intros Hin. apply Hout, Hincl, Hin.
          + apply Hnd, Hn'. }
      assert (Hnone : diffs = ds ->
                Forall is_field_difference diffs /\
                incl (map field_name diffs) (field :: rest) /\
                (NoDup (field :: rest) -> NoDup (map field_name diffs))).
      { intros ->. repeat split.
        - exact Hty.
        - intros f Hf. right. apply Hincl, Hf.
        - intros Hn. inversion Hn; subst. apply Hnd. assumption. }
      destruct (excluded self field); [injection H as <-; apply Hnone; reflexivity|].
      destruct (negb (has_key field z)).
      { cbn in H. injection H as <-.
        eapply Hone; [| |reflexivity]; [reflexivity|left; reflexivity]. }
      destruct (negb (has_key field t)).
      { cbn in H. injection H as <-.
        eapply Hone; [| |reflexivity]; [reflexivity|right; left; reflexivity]. }
      destruct (compare_values self _ _ field) as [[|]|]; cbn in H; try discriminate;
        injection H as <-.
      * apply Hnone. reflexivity.
      * eapply Hone; [| |reflexivity]; [reflexivity|right; right; reflexivity].
    + destruct (excluded self field); [discriminate|].
      destruct (negb (has_key field z)); [discriminate|].
      destruct (negb (has_key field t)); [discriminate|].
      destruct (compare_values self _ _ field) as [[]|]; discriminate.
Qed.

Lemma find_asset_missing_none diffs :
  Forall is_field_difference diffs -> find_asset_missing diffs = None.
Proof.
  unfold find_asset_missing.
  assert (G : forall found, Forall is_field_difference diffs ->
              fold_left (fun found d =>
                           if String.eqb (difference_type d) "asset_missing"
                           then Some d else found) diffs found = found).
  { induction diffs as [|d ds IH]; intros found H; [reflexivity|].
    inversion H as [|? ? Hd Hds]; subst. cbn [fold_left].
    destruct Hd as [Hd|[Hd|Hd]]; rewrite Hd; cbn; apply IH, Hds. }
  apply G.
Qed.

Lemma has_key_in {V} (d : dict V) k : has_key k d = false -> ~ In k (keys d).
Proof.
  unfold has_key. induction d as [|[k' v] d IH]; cbn; [tauto|].
  destruct (String.eqb_spec k k') as [->|Hne]; [discriminate|].
  intros H [Heq|Hin]; [congruence|apply IH; assumption].
Qed.

(** The document of an asset held by both systems scores 0.0 whenever it
    has a difference at all: [total_fields] only counts the fields that
    differ. *)
Lemma matched_similarity_is_zero z t diffs :
  _compare_matched_assets self z t = Ok diffs ->
  diffs <> [] ->
  has_key "_system_presence" z = false ->
  has_key "_system_presence" t = false ->
  similarity (find_asset_missing diffs) diffs = Ok (Some (S754_zero false)).
Proof.
  unfold _compare_matched_assets. intros H Hne Hz Ht.
  destruct (compare_fields_names _ _ _ _ H) as (Hty & Hincl & Hnd).
  specialize (Hnd (NoDup_nodup _ _)).
  rewrite (find_asset_missing_none _ Hty).
  assert (Hnames : field_names diffs = map field_name diffs).
  { unfold field_names. f_equal. apply forallb_filter_id.
    apply forallb_forall. intros d Hd. apply negb_true_iff.
    destruct (String.eqb_spec (field_name d) "_system_presence") as [E|]; [|reflexivity].
    exfalso. assert (Hin : In (field_name d) (map field_name diffs)) by (apply in_map, Hd).
    apply Hincl in Hin. unfold union_keys in Hin. rewrite nodup_In in Hin.
    rewrite E in Hin. apply in_app_or in Hin.
    destruct Hin as [Hin|Hin]; [apply (has_key_in _ _ Hz)|apply (has_key_in _ _ Ht)];
      exact Hin. }
  destruct diffs as [|d ds]; [congruence|].
  unfold similarity. rewrite Hnames, (nodup_fixed_point string_dec Hnd), length_map.
  cbn [List.length Nat.ltb Nat.leb]. rewrite Z.sub_diag.
  reflexivity.
Qed.

Lemma single_system_has_no_score asset_id asset_data system :
  let diffs := _handle_single_system_asset self asset_id asset_data system in
  similarity (find_asset_missing diffs) diffs = Ok None.
Proof.
  intros diffs.
  assert (H : exists d, find_asset_missing diffs = Some d).
  { unfold diffs, _handle_single_system_asset, find_asset_missing.
    cbn [fold_left difference_type String.eqb Ascii.eqb Bool.eqb].
    generalize (flat_map
      (fun item : string * value =>
       let '(field, v) := item in
       if negb (excluded self field)
       then
        [{| field_name := field;
            zabbix_value := if String.eqb system "zabbix" then v else VStr "null";
            topdesk_value := if String.eqb system "topdesk" then v else VStr "null";
            difference_type :=
              "missing_in_" ++ (if String.eqb system "zabbix" then "topdesk" else "zabbix")
          |}]
       else []) asset_data).
    intros l.
    generalize {| field_name := "_system_presence";
                  zabbix_value := VStr (if String.eqb system "zabbix"
                                        then "present" else "absent");
                  topdesk_value := VStr (if String.eqb system "topdesk"
                                         then "present" else "absent");
                  difference_type := "asset_missing" |}.
    induction l as [|x l IH]; intros d0; [exists d0; reflexivity|].
    cbn [fold_left]. destruct (String.eqb (difference_type x) "asset_missing"); apply IH. }
  destruct H as [d Hd]. rewrite Hd. reflexivity.
Qed.

End SimilarityFacts.

(** C1. The score the code writes.  For the two records of asset "A" that
    differ in [ip] and agree in [id], one of two compared fields differs
    and the written score is 0.0, where the specification has 50; when
    [ip] is the only field the score is 0.0 as specified; and a document
    of an asset held by one system carries no score. *)
Theorem similarity_score_written :
  (forall now,
     let zabbix_data := [("A", [("id", VStr "A"); ("ip", VStr "1.1.1.1")])] in
     let topdesk_data := [("A", [("id", VStr "A"); ("ip", VStr "1.1.1.2")])] in
     exists diffs st c,
       compare_assets default_config zabbix_data topdesk_data new_stats
       = Ok ([("A", diffs)], st) /\
       List.length diffs = 1%nat /\
       build_dif_content now "A" diffs = Ok c /\
       similarity_score c = Some (S754_zero false) /\
       similarity_score c <> Some (float.of_decimal false 50 0)) /\
  (forall now,
     let zabbix_data := [("A", [("ip", VStr "1.1.1.1")])] in
     let topdesk_data := [("A", [("ip", VStr "1.1.1.2")])] in
     exists diffs st c,
       compare_assets default_config zabbix_data topdesk_data new_stats
       = Ok ([("A", diffs)], st) /\
       build_dif_content now "A" diffs = Ok c /\
       similarity_score c = Some (S754_zero false)) /\
  (forall self now asset_id asset_data system,
     exists c,
       build_dif_content now asset_id
         (_handle_single_system_asset self asset_id asset_data system) = Ok c /\
       similarity_score c = None).
Proof.
  split; [|split].
  - intros now. do 3 eexists. repeat split. discriminate.
  - intros now. do 3 eexists. repeat split.
  - intros self now asset_id asset_data system. unfold build_dif_content.
    rewrite single_system_has_no_score. cbn [bind]. eexists. split; reflexivity.
Qed.

(** ** Writing and reading a difference document *)
Import differ_utils.

Section LineFacts.

(** No line feed and no carriage return. *)
Definition no_linebreak (s : string) : bool :=
  all_chars (fun c => negb (Ascii.eqb c LF || Ascii.eqb c CR)) s.

(** A string that [strip] leaves as it is. *)
Definition stripped_by (p : ascii -> bool) (s : string) : Prop :=
  lstrip_by p s = s /\ rstrip_by p s = s.

Lemma lstrip_by_length p s : String.length (lstrip_by p s) <= String.length s.
Proof.
  induction s as [|c s IH]; cbn; [lia|]. destruct (p c); cbn; lia.
Qed.

Lemma rstrip_by_length p s : String.length (rstrip_by p s) <= String.length s.
Proof.
  induction s as [|c s IH]; cbn; [lia|].
  destruct (rstrip_by p s); [destruct (p c); cbn; lia|cbn in *; lia].
Qed.

Lemma lstrip_by_same_length p s :
  String.length (lstrip_by p s) = String.length s -> lstrip_by p s = s.
Proof.
  destruct s as [|c s]; cbn; [reflexivity|].
  destruct (p c); [|reflexivity].
  pose proof (lstrip_by_length p s). lia.
Qed.

Lemma rstrip_by_same_length p s :
  String.length (rstrip_by p s) = String.length s -> rstrip_by p s = s.
Proof.
  induction s as [|c s IH]; cbn; [reflexivity|].
  pose proof (rstrip_by_length p s) as Hl.
  destruct (rstrip_by p s) as [|c' r] eqn:E.
  - destruct (p c); cbn; intros H; [lia|].
    destruct s; [reflexivity|cbn in H; lia].
  - cbn in *. intros H. rewrite IH; [reflexivity|lia].
Qed.

(** [strip] leaves [s] as it is exactly when neither end has a character of
    the class. *)
Lemma strip_by_fixed p s : strip_by p s = s <-> stripped_by p s.
Proof.
  unfold strip_by, stripped_by. split.
  - intros H.
    pose proof (lstrip_by_length p s) as H1.
    pose proof (rstrip_by_length p (lstrip_by p s)) as H2.
    assert (Hl : lstrip_by p s = s).
    { apply lstrip_by_same_length. rewrite H in H2. lia. }
    split; [exact Hl|]. rewrite Hl in H. exact H.
  - intros [-> ->]. reflexivity.
Qed.

Lemma lstrip_by_indent p indent s :
  all_chars p indent = true -> lstrip_by p (indent ++ s) = lstrip_by p s.
Proof.
  induction indent as [|c indent IH]; cbn; [reflexivity|].
  intros H. apply andb_true_iff in H. destruct H as [-> H]. apply IH, H.
Qed.

Lemma rstrip_by_keeps_head p c s :
  p c = false -> exists r, rstrip_by p (String c s) = String c r.
Proof.
  intros H. cbn. destruct (rstrip_by p s); [rewrite H|]; eexists; reflexivity.
Qed.

Lemma after_colon_key key r :
  all_chars (fun c => negb (Ascii.eqb c ":")) key = true ->
  after_colon (key ++ String ":" r) = Some r.
Proof.
  induction key as [|c key IH]; cbn; [reflexivity|].
  intros H. apply andb_true_iff in H. destruct H as [Hc H].
  apply negb_true_iff in Hc. rewrite Hc. apply IH, H.
Qed.

(** Lines joined into a text, each closed by a line feed. *)
Fixpoint join_lines (ls : list string) : string :=
  match ls with
  | [] => ""
  | l :: ls' => l ++ nl ++ join_lines ls'
  end.

Lemma join_lines_app ls1 ls2 : join_lines (ls1 ++ ls2) = join_lines ls1 ++ join_lines ls2.
Proof.
  induction ls1 as [|l ls1 IH]; cbn [join_lines app]; [reflexivity|].
  rewrite IH, !append_assoc. reflexivity.
Qed.

Lemma readlines_line l rest :
  no_linebreak l = true -> readlines (l ++ nl ++ rest) = (l ++ nl) :: readlines rest.
Proof.
  unfold no_linebreak. induction l as [|c l IH]; intros H.
  - reflexivity.
  - cbn [all_chars] in H. apply andb_true_iff in H. destruct H as [Hc H].
    apply negb_true_iff, orb_false_iff in Hc. destruct Hc as [Hlf Hcr].
    cbn [append readlines]. rewrite Hlf, Hcr, (IH H).
    destruct l; reflexivity.
Qed.

Lemma readlines_join_lines ls :
  Forall (fun l => no_linebreak l = true) ls ->
  readlines (join_lines ls) = map (fun l => l ++ nl) ls.
Proof.
  induction 1 as [|l ls Hl Hls IH]; [reflexivity|].
  cbn [join_lines map]. rewrite readlines_line by exact Hl. rewrite IH. reflexivity.
Qed.

Lemma no_linebreak_app s t : no_linebreak (s ++ t) = no_linebreak s && no_linebreak t.
Proof. apply all_chars_app. Qed.

Lemma no_linebreak_str_of_nat n : no_linebreak (str_of_nat n) = true.
Proof.
  unfold no_linebreak. eapply all_chars_impl; [|apply str_of_nat_decimal].
  intros c. unfold LF, CR. each_char c.
Qed.

End LineFacts.

Section ParseFacts.

Lemma lstrip_by_clean key rest :
  starts_clean key = true -> lstrip_by isspace (key ++ rest) = key ++ rest.
Proof.
  destruct key as [|c key]; [discriminate|]. cbn [starts_clean append lstrip_by].
  intros H. apply negb_true_iff in H. rewrite H. reflexivity.
Qed.

Lemma rstrip_field_line key X :
  rstrip_by isspace X = X ->
  rstrip_by isspace (key ++ ": " ++ X ++ nl)
  = key ++ ":" ++ (if String.eqb X "" then "" else " " ++ X).
Proof.
  intros HX. destruct (String.eqb_spec X "") as [->|Hne].
  - rewrite rstrip_by_app; [reflexivity|discriminate].
  - assert (E : ": " ++ X ++ nl = (": " ++ X) ++ nl).
    { rewrite append_assoc. reflexivity. }
    assert (R : rstrip_by isspace (": " ++ X ++ nl) = ": " ++ X).
    { rewrite E, rstrip_by_app_nil by reflexivity.
      rewrite (rstrip_by_app isspace ": " X) by (rewrite HX; exact Hne).
      rewrite HX. reflexivity. }
    rewrite rstrip_by_app; rewrite R; [reflexivity|discriminate].
Qed.

Lemma strip_field_line indent key X :
  all_chars isspace indent = true ->
  starts_clean key = true ->
  stripped_by isspace X ->
  strip (indent ++ key ++ ": " ++ X ++ nl)
  = key ++ ":" ++ (if String.eqb X "" then "" else " " ++ X).
Proof.
  intros Hi Hk [_ HX]. unfold strip, strip_by.
  rewrite lstrip_by_indent by exact Hi.
  rewrite lstrip_by_clean by exact Hk.
  apply rstrip_field_line, HX.
Qed.

Lemma strip_field_line_eq s indent key X :
  s = indent ++ key ++ ": " ++ X ++ nl ->
  all_chars isspace indent = true ->
  starts_clean key = true ->
  stripped_by isspace X ->
  strip s = key ++ ":" ++ (if String.eqb X "" then "" else " " ++ X).
Proof. intros ->. apply strip_field_line. Qed.

Lemma strip_tail X :
  stripped_by isspace X -> strip (if String.eqb X "" then "" else " " ++ X) = X.
Proof.
  intros [HL HR]. destruct (String.eqb_spec X "") as [->|_]; [reflexivity|].
  unfold strip, strip_by. cbn [append lstrip_by].
  change (isspace " ") with true. cbn iota. rewrite HL, HR. reflexivity.
Qed.

Lemma strip_space X : stripped_by isspace X -> strip (" " ++ X) = X.
Proof.
  intros [HL HR]. unfold strip, strip_by. cbn [append lstrip_by].
  change (isspace " ") with true. cbn iota. rewrite HL, HR. reflexivity.
Qed.

Lemma stripped_quoted V : stripped_by isspace (quote ++ V ++ quote).
Proof.
  split; [reflexivity|].
  change (quote ++ V ++ quote) with (String QUOTE (V ++ quote)).
  change (String QUOTE (V ++ quote)) with (String QUOTE V ++ quote).
  rewrite rstrip_by_app; [reflexivity|discriminate].
Qed.

Lemma strip_char_quoted V :
  stripped_by (Ascii.eqb QUOTE) V -> strip_char QUOTE (quote ++ V ++ quote) = V.
Proof.
  intros [HL HR]. unfold strip_char, strip_by.
  change (quote ++ V ++ quote) with (String QUOTE (V ++ quote)).
  cbn [lstrip_by]. rewrite Ascii.eqb_refl.
  destruct V as [|c V]; [reflexivity|].
  cbn [append lstrip_by] in HL |- *.
  destruct (Ascii.eqb QUOTE c) eqn:Hc.
  - exfalso. pose proof (lstrip_by_length (Ascii.eqb QUOTE) V) as Hlen.
    rewrite HL in Hlen. cbn in Hlen. lia.
  - change (String c (V ++ quote)) with (String c V ++ quote).
    rewrite rstrip_by_app_nil by reflexivity. exact HR.
Qed.

Lemma quoted_not_empty V : String.eqb (quote ++ V ++ quote) "" = false.
Proof. reflexivity. Qed.

(** The state after a line, by the shape of the stripped line. *)
Lemma parse_line_skip st l :
  strip l = "" \/ (exists r, strip l = String "#" r) -> parse_line st l = st.
Proof.
  intros [H|[r H]]; unfold parse_line; rewrite H; reflexivity.
Qed.

Lemma parse_line_asset_id st l tail :
  strip l = "asset_id:" ++ tail ->
  parse_line st l
  = {| data := {| asset_id := Some (strip tail);
                  note := note (data st);
                  differences := differences (data st) |};
       current_section := current_section st;
       current_diff := current_diff st |}.
Proof. intros H. unfold parse_line. rewrite H. reflexivity. Qed.

Lemma parse_line_note st l tail :
  strip l = "note:" ++ tail ->
  parse_line st l
  = {| data := {| asset_id := asset_id (data st);
                  note := Some (strip tail);
                  differences := differences (data st) |};
       current_section := current_section st;
       current_diff := current_diff st |}.
Proof. intros H. unfold parse_line. rewrite H. reflexivity. Qed.

Lemma parse_line_differences st :
  parse_line st ("differences:" ++ nl)
  = {| data := data st;
       current_section := Some "differences";
       current_diff := current_diff st |}.
Proof. reflexivity. Qed.

(** What [parse_dif_file] returns from a state of the loop. *)
Definition finish (st : parser) : parsed_data :=
  match current_diff st with
  | [] => data st
  | _ => {| asset_id := asset_id (data st);
            note := note (data st);
            differences := (differences (data st) ++ [current_diff st])%list |}
  end.

Lemma parse_line_field_name st l tail :
  current_section st = Some "differences" ->
  strip l = "- field_name:" ++ tail ->
  parse_line st l
  = {| data := finish st;
       current_section := Some "differences";
       current_diff := [("field_name", strip tail)] |}.
Proof.
  intros Hs H. unfold parse_line, finish. rewrite H, Hs. reflexivity.
Qed.

Lemma parse_line_zabbix_value st l tail :
  current_section st = Some "differences" ->
  strip l = "zabbix_value:" ++ tail ->
  parse_line st l
  = {| data := data st;
       current_section := Some "differences";
       current_diff := dict_set "zabbix_value" (strip_char QUOTE (strip tail))
                         (current_diff st) |}.
Proof.
  intros Hs H. unfold parse_line. rewrite H, Hs. reflexivity.
Qed.

Lemma parse_line_topdesk_value st l tail :
  current_section st = Some "differences" ->
  strip l = "topdesk_value:" ++ tail ->
  parse_line st l
  = {| data := data st;
       current_section := Some "differences";
       current_diff := dict_set "topdesk_value" (strip_char QUOTE (strip tail))
                         (current_diff st) |}.
Proof.
  intros Hs H. unfold parse_line. rewrite H, Hs. reflexivity.
Qed.

End ParseFacts.

Section RoundTrip.
Variable float_repr : float.float -> string.

(** A name or an identifier that survives the line format: one line, no
    white space at either end. *)
Definition clean (s : string) : Prop :=
  no_linebreak s = true /\ strip s = s.

(** A value that survives it: one line, no double quote at either end. *)
Definition clean_value (v : value) : Prop :=
  no_linebreak (str v) = true /\ strip_char QUOTE (str v) = str v.

Definition clean_difference (d : string * value * value) : Prop :=
  let '(field, zabbix, topdesk) := d in
  clean field /\ clean_value zabbix /\ clean_value topdesk.

(** The dictionary the parser builds for a difference. *)
Definition parsed_difference (d : string * value * value) : dict string :=
  let '(field, zabbix, topdesk) := d in
  [("field_name", field); ("zabbix_value", str zabbix); ("topdesk_value", str topdesk)].

Definition difference_3lines (d : string * value * value) : list string :=
  let '(field, zabbix, topdesk) := d in
  [ "  - field_name: " ++ field;
    "    zabbix_value: " ++ quote ++ str zabbix ++ quote;
    "    topdesk_value: " ++ quote ++ str topdesk ++ quote ].

Definition trailer_lines (c : dif_content) : list string :=
  List.app
    [ ""; "# Generated: " ++ timestamp c;
      "# Total differences: " ++ str_of_nat (content_total_differences c) ]
    (List.app
       match similarity_score c with
       | Some score => ["# Similarity score: " ++ float_repr score ++ "%"]
       | None => []
       end
       [ "# Value mismatches: " ++ str_of_nat (value_mismatches c);
         "# Missing in Zabbix: " ++ str_of_nat (missing_in_zabbix c);
         "# Missing in Topdesk: " ++ str_of_nat (missing_in_topdesk c) ]).

Definition header_lines (c : dif_content) : list string :=
  List.app
    ["asset_id: " ++ differ.asset_id c]
    (List.app
       match differ.note c with
       | Some n => ["note: " ++ n]
       | None => []
       end
       ["differences:"]).

Definition content_lines (c : dif_content) : list string :=
  List.app (header_lines c)
    (List.app (flat_map difference_3lines (differ.differences c)) (trailer_lines c)).

Lemma concat_difference_lines ds :
  String.concat "" (map difference_lines ds) = join_lines (flat_map difference_3lines ds).
Proof.
  induction ds as [|[[f z] t] ds IH]; [reflexivity|].
  cbn [map flat_map]. rewrite join_lines_app, <- IH.
  transitivity (difference_lines (f, z, t) ++ String.concat "" (map difference_lines ds)).
  - cbn [String.concat]. destruct (map difference_lines ds); [|reflexivity].
    cbn [String.concat]. rewrite append_nil_r. reflexivity.
  - f_equal. unfold difference_lines, difference_3lines. cbn [join_lines].
    rewrite !append_assoc. rewrite append_nil_r. reflexivity.
Qed.

Lemma trailer_is_lines c : trailer float_repr c = join_lines (trailer_lines c).
Proof.
  unfold trailer, trailer_lines.
  destruct (similarity_score c); cbn [app join_lines];
    rewrite !append_assoc; reflexivity.
Qed.

Lemma dif_text_is_lines c : dif_text float_repr c = join_lines (content_lines c).
Proof.
  unfold dif_text, content_lines, header_lines.
  rewrite concat_difference_lines, trailer_is_lines.
  rewrite !join_lines_app.
  destruct (differ.note c); cbn [join_lines]; rewrite !append_assoc; reflexivity.
Qed.

Definition with_newline (l : string) : string := l ++ nl.

Lemma parse_comment_line st r : parse_line st (with_newline (String "#" r)) = st.
Proof.
  apply parse_line_skip. right. unfold with_newline, strip, strip_by.
  cbn [append lstrip_by]. change (isspace "#") with false. cbn iota.
  apply rstrip_by_keeps_head. reflexivity.
Qed.

Lemma parse_blank_line st : parse_line st (with_newline "") = st.
Proof. apply parse_line_skip. left. reflexivity. Qed.

Lemma parse_trailer c st :
  fold_left parse_line (map with_newline (trailer_lines c)) st = st.
Proof.
  unfold trailer_lines. destruct (similarity_score c); cbn [app map fold_left];
    rewrite parse_blank_line; cbn [append];
    repeat rewrite parse_comment_line; reflexivity.
Qed.

Lemma clean_stripped s : clean s -> stripped_by isspace s.
Proof. intros [_ H]. apply strip_by_fixed, H. Qed.

Lemma clean_value_stripped v : clean_value v -> stripped_by (Ascii.eqb QUOTE) (str v).
Proof. intros [_ H]. apply strip_by_fixed, H. Qed.

(** The three lines of one difference, read in the [differences] section. *)
Lemma parse_difference d st :
  current_section st = Some "differences" ->
  clean_difference d ->
  fold_left parse_line (map with_newline (difference_3lines d)) st
  = {| data := finish st;
       current_section := Some "differences";
       current_diff := parsed_difference d |}.
Proof.
  destruct d as [[field zabbix] topdesk]. intros Hs (Hf & Hz & Ht).
  cbn [difference_3lines map fold_left].
  assert (L1 : strip (with_newline ("  - field_name: " ++ field))
               = "- field_name:" ++ (if String.eqb field "" then "" else " " ++ field)).
  { unfold with_newline. rewrite append_assoc.
    apply (strip_field_line "  " "- field_name" field);
      [reflexivity|reflexivity|apply clean_stripped, Hf]. }
  assert (L2 : forall v,
            strip (with_newline ("    zabbix_value: " ++ quote ++ str v ++ quote))
            = "zabbix_value:" ++ " " ++ quote ++ str v ++ quote).
  { intros v.
    rewrite (strip_field_line_eq _ "    " "zabbix_value" (quote ++ str v ++ quote));
      [reflexivity| |reflexivity|reflexivity|apply stripped_quoted].
    unfold with_newline. rewrite !append_assoc. reflexivity. }
  assert (L3 : forall v,
            strip (with_newline ("    topdesk_value: " ++ quote ++ str v ++ quote))
            = "topdesk_value:" ++ " " ++ quote ++ str v ++ quote).
  { intros v.
    rewrite (strip_field_line_eq _ "    " "topdesk_value" (quote ++ str v ++ quote));
      [reflexivity| |reflexivity|reflexivity|apply stripped_quoted].
    unfold with_newline. rewrite !append_assoc. reflexivity. }
  assert (Q : forall v, clean_value v ->
            strip_char QUOTE (strip (" " ++ quote ++ str v ++ quote)) = str v).
  { intros v Hv.
    rewrite (strip_space (quote ++ str v ++ quote) (stripped_quoted (str v))).
    apply strip_char_quoted, clean_value_stripped, Hv. }
  rewrite (parse_line_field_name st _ _ Hs L1).
  rewrite (strip_tail field (clean_stripped _ Hf)).
  rewrite (parse_line_zabbix_value
             {| data := finish st; current_section := Some "differences";
                current_diff := [("field_name", field)] |} _ _ eq_refl (L2 zabbix)).
  cbn [data current_diff current_section].
  rewrite (parse_line_topdesk_value
             {| data := finish st; current_section := Some "differences";
                current_diff := dict_set "zabbix_value"
                                  (strip_char QUOTE
                                     (strip (" " ++ quote ++ str zabbix ++ quote)))
                                  [("field_name", field)] |}
             _ _ eq_refl (L3 topdesk)).
  cbn [data current_diff current_section].
  rewrite (Q zabbix Hz), (Q topdesk Ht). reflexivity.
Qed.

Definition extend (d : parsed_data) (l : list (dict string)) : parsed_data :=
  {| asset_id := asset_id d; note := note d;
     differences := List.app (differences d) l |}.

Lemma parse_differences ds : forall st,
  current_section st = Some "differences" ->
  Forall clean_difference ds ->
  let st' := fold_left parse_line
               (map with_newline (flat_map difference_3lines ds)) st in
  current_section st' = Some "differences" /\
  finish st' = extend (finish st) (map parsed_difference ds).
Proof.
  induction ds as [|d ds IH]; intros st Hs Hds.
  - cbn. split; [exact Hs|]. unfold extend. rewrite app_nil_r.
    destruct (finish st); reflexivity.
  - inversion Hds as [|? ? Hd Hds']; subst.
    cbn [flat_map]. rewrite map_app, fold_left_app.
    rewrite (parse_difference d st Hs Hd).
    destruct (IH {| data := finish st; current_section := Some "differences";
                    current_diff := parsed_difference d |} eq_refl Hds') as [H1 H2].
    cbv zeta. split; [exact H1|]. rewrite H2.
    unfold extend. cbn [map]. f_equal.
    + destruct d as [[f z] t]. reflexivity.
    + destruct d as [[f z] t]. reflexivity.
    + destruct d as [[f z] t]. unfold finish at 1.
      cbn [current_diff parsed_difference data differences].
      rewrite <- app_assoc. reflexivity.
Qed.

(** The header: the identifier, the note if any, the section line. *)
Lemma parse_header c :
  clean (differ.asset_id c) ->
  match differ.note c with
  | Some n => clean n
  | None => True
  end ->
  fold_left parse_line (map with_newline (header_lines c)) initial
  = {| data := {| asset_id := Some (differ.asset_id c);
                  note := differ.note c;
                  differences := [] |};
       current_section := Some "differences";
       current_diff := [] |}.
Proof.
  intros Hid Hnote. unfold header_lines.
  assert (L1 : strip (with_newline ("asset_id: " ++ differ.asset_id c))
               = "asset_id:" ++ (if String.eqb (differ.asset_id c) "" then ""
                                 else " " ++ differ.asset_id c)).
  { unfold with_newline. rewrite append_assoc.
    apply (strip_field_line "" "asset_id"); [reflexivity|reflexivity|].
    apply clean_stripped, Hid. }
  cbn [app map fold_left].
  rewrite (parse_line_asset_id initial _ _ L1).
  rewrite (strip_tail _ (clean_stripped _ Hid)).
  destruct (differ.note c) as [n|]; cbn [app map fold_left].
  - assert (L2 : strip (with_newline ("note: " ++ n))
                 = "note:" ++ (if String.eqb n "" then "" else " " ++ n)).
    { unfold with_newline. rewrite append_assoc.
      apply (strip_field_line "" "note"); [reflexivity|reflexivity|].
      apply clean_stripped, Hnote. }
    rewrite (parse_line_note _ _ _ L2).
    rewrite (strip_tail _ (clean_stripped _ Hnote)).
    reflexivity.
  - reflexivity.
Qed.

Lemma content_lines_no_linebreak c :
  (forall f, no_linebreak (float_repr f) = true) ->
  no_linebreak (differ.asset_id c) = true ->
  match differ.note c with
  | Some n => no_linebreak n = true
  | None => True
  end ->
  no_linebreak (timestamp c) = true ->
  Forall clean_difference (differ.differences c) ->
  Forall (fun l => no_linebreak l = true) (content_lines c).
Proof.
  intros Hrepr Hid Hnote Hts Hds. unfold content_lines, header_lines, trailer_lines.
  apply Forall_app. split; [|apply Forall_app; split].
  - apply Forall_app. split; [|apply Forall_app; split].
    + repeat constructor. rewrite no_linebreak_app, Hid. reflexivity.
    + destruct (differ.note c) as [n|]; repeat constructor.
      rewrite no_linebreak_app, Hnote. reflexivity.
    + repeat constructor.
  - induction Hds as [|[[f z] t] ds (Hf & Hz & Ht) Hds IH]; [constructor|].
    cbn [flat_map]. apply Forall_app. split; [|exact IH].
    destruct Hf as [Hf _], Hz as [Hz _], Ht as [Ht _].
    repeat constructor; rewrite !no_linebreak_app;
      rewrite ?Hf, ?Hz, ?Ht; reflexivity.
  - apply Forall_app. split; [|apply Forall_app; split].
    + repeat constructor; rewrite !no_linebreak_app;
        rewrite ?Hts, ?no_linebreak_str_of_nat; reflexivity.
    + destruct (similarity_score c); repeat constructor.
      rewrite !no_linebreak_app, Hrepr. reflexivity.
    + repeat constructor; rewrite !no_linebreak_app;
        rewrite ?no_linebreak_str_of_nat; reflexivity.
Qed.

(** Reading back what was written. *)
Lemma parse_dif_text c :
  (forall f, no_linebreak (float_repr f) = true) ->
  clean (differ.asset_id c) ->
  match differ.note c with
  | Some n => clean n
  | None => True
  end ->
  no_linebreak (timestamp c) = true ->
  Forall clean_difference (differ.differences c) ->
  parse_dif_file (dif_text float_repr c)
  = {| asset_id := Some (differ.asset_id c);
       note := differ.note c;
       differences := map parsed_difference (differ.differences c) |}.
Proof.
  intros Hrepr Hid Hnote Hts Hds.
  assert (Hlines : Forall (fun l => no_linebreak l = true) (content_lines c)).
  { apply content_lines_no_linebreak; try assumption.
    - apply Hid.
    - destruct (differ.note c); [apply Hnote|exact I]. }
  unfold parse_dif_file.
  rewrite dif_text_is_lines, (readlines_join_lines _ Hlines).
  change (fun l => l ++ nl) with with_newline.
  unfold content_lines. rewrite !map_app, !fold_left_app.
  rewrite (parse_header c Hid Hnote).
  rewrite parse_trailer.
  destruct (parse_differences (differ.differences c)
              {| data := {| asset_id := Some (differ.asset_id c);
                            note := differ.note c;
                            differences := [] |};
                 current_section := Some "differences";
                 current_diff := [] |} eq_refl Hds) as [_ H].
  cbv zeta in H. exact H.
Qed.

End RoundTrip.

(** C2 (amended). Reading back a written difference document gives its
    identifier, its note (or none) and its differences in order, as the
    triples of field name, source value and target value written as
    strings, for any number of differences, none included, provided the
    identifier, the note and the field names hold no line break and no
    white space at either end, and the values hold no line break and no
    double quote at either end.  [generate_dif_file] writes such a text
    whenever it computes a score, as it does for the differences of any one
    asset of a comparison. *)
Theorem dif_round_trip :
  (forall float_repr c,
     (forall f, no_linebreak (float_repr f) = true) ->
     clean (differ.asset_id c) ->
     match differ.note c with
     | Some n => clean n
     | None => True
     end ->
     no_linebreak (timestamp c) = true ->
     Forall clean_difference (differ.differences c) ->
     parse_dif_file (dif_text float_repr c)
     = {| asset_id := Some (differ.asset_id c);
          note := differ.note c;
          differences := map parsed_difference (differ.differences c) |}) /\
  (forall float_repr now id diffs text,
     (forall f, no_linebreak (float_repr f) = true) ->
     clean id -> no_linebreak now = true ->
     Forall (fun d => clean_difference (field_name d, zabbix_value d, topdesk_value d))
       diffs ->
     generate_dif_file float_repr now id diffs = Ok text ->
     exists c,
       build_dif_content now id diffs = Ok c /\
       parse_dif_file text
       = {| asset_id := Some id;
            note := differ.note c;
            differences := map parsed_difference (differ.differences c) |}) /\
  (forall float_repr now id,
     (exists text, generate_dif_file float_repr now id [] = Ok text) /\
     (forall self asset_data system,
        exists text,
          generate_dif_file float_repr now id
            (_handle_single_system_asset self id asset_data system) = Ok text) /\
     (forall self zabbix_asset topdesk_asset diffs,
        _compare_matched_assets self zabbix_asset topdesk_asset = Ok diffs ->
        has_key "_system_presence" zabbix_asset = false ->
        has_key "_system_presence" topdesk_asset = false ->
        exists text, generate_dif_file float_repr now id diffs = Ok text)).
Proof.
  split; [exact parse_dif_text|]. split.
  - intros float_repr now id diffs text Hrepr Hid Hnow Hds Hgen.
    unfold generate_dif_file in Hgen.
    destruct (build_dif_content now id diffs) as [c|e] eqn:Hc; [|discriminate].
    cbn [bind] in Hgen. injection Hgen as <-. exists c. split; [reflexivity|].
    unfold build_dif_content in Hc.
    destruct (similarity (find_asset_missing diffs) diffs) as [score|e]; [|discriminate].
    cbn [bind] in Hc. injection Hc as <-.
    rewrite (parse_dif_text float_repr); cbn [differ.asset_id differ.note
      differ.differences timestamp]; try assumption; try reflexivity.
    + destruct (find_asset_missing diffs) as [d|]; [|exact I].
      destruct (py_eqb (zabbix_value d) (VStr "absent")); split; reflexivity.
    + clear -Hds. induction Hds as [|d ds Hd Hds IH]; [constructor|].
      cbn [filter]. destruct (negb (String.eqb (field_name d) "_system_presence"));
        [|exact IH].
      cbn [map]. constructor; [exact Hd|exact IH].
  - intros float_repr now id. unfold generate_dif_file, build_dif_content.
    split; [eexists; reflexivity|]. split.
    + intros self asset_data system. rewrite single_system_has_no_score.
      eexists. reflexivity.
    + intros self z t diffs Hd Hz Ht. destruct diffs as [|d ds].
      * eexists. reflexivity.
      * rewrite (matched_similarity_is_zero self z t _ Hd) by (assumption || discriminate).
        eexists. reflexivity.
Qed.

Lemma dif_round_trip_witness :
  let c := {| differ.asset_id := "ASSET001";
              timestamp := "2025-01-26T10:00:00";
              content_total_differences := 2;
              differ.differences :=
                [("hostname", VStr "server01.domain.com", VStr "server01");
                 ("department", VStr "null", VStr "IT Operations")];
              differ.note := None;
              value_mismatches := 1;
              missing_in_zabbix := 1;
              missing_in_topdesk := 0;
              similarity_score := Some (S754_zero false) |} in
  parse_dif_file (dif_text (fun _ => "0.0") c)
  = {| asset_id := Some "ASSET001";
       note := None;
       differences :=
         [[("field_name", "hostname"); ("zabbix_value", "server01.domain.com");
           ("topdesk_value", "server01")];
          [("field_name", "department"); ("zabbix_value", "null");
           ("topdesk_value", "IT Operations")]] |}.
Proof.
  intros c.
  apply (proj1 dif_round_trip (fun _ => "0.0") c).
  - intros f. reflexivity.
  - split; reflexivity.
  - exact I.
  - reflexivity.
  - repeat constructor.
Defined.

(** C2, as stated, fails for arbitrary strings: the writer does not escape
    and the reader strips.  A value written between double quotes of its
    own comes back without them; a value of two lines comes back as its
    first line; a field name that ends with a space comes back without
    it. *)
Lemma unescaped_text_not_reproduced :
  let doc (d : string * value * value) :=
    {| differ.asset_id := "ASSET001";
       timestamp := "2025-01-26T10:00:00";
       content_total_differences := 1;
       differ.differences := [d];
       differ.note := None;
       value_mismatches := 1;
       missing_in_zabbix := 0;
       missing_in_topdesk := 0;
       similarity_score := None |} in
  let read_back d := differences (parse_dif_file (dif_text (fun _ => "0.0") (doc d))) in
  let quoted := ("motd", VStr (quote ++ "hello" ++ quote), VStr "hello") in
  let two_lines := ("motd", VStr ("hello" ++ nl ++ "world"), VStr "hello") in
  let spaced := ("motd ", VStr "hello", VStr "world") in
  (read_back quoted
   = [[("field_name", "motd"); ("zabbix_value", "hello"); ("topdesk_value", "hello")]] /\
   read_back quoted <> [parsed_difference quoted]) /\
  (read_back two_lines
   = [[("field_name", "motd"); ("zabbix_value", "hello"); ("topdesk_value", "hello")]] /\
   read_back two_lines <> [parsed_difference two_lines]) /\
  (read_back spaced
   = [[("field_name", "motd"); ("zabbix_value", "hello"); ("topdesk_value", "world")]] /\
   read_back spaced <> [parsed_difference spaced]).
Proof. repeat split; try reflexivity; discriminate. Qed.


(** * Further properties of the code *)

(** ** [ValidationResult]: what a result holds after a sequence of calls *)
Import ValidationResult_summary.

Section ResultLogFacts.

(** The calls of a sequence, by kind. *)
Definition is_error (c : call) : bool :=
  match c with
  | AddError _ _ => true
  | _ => false
  end.

Definition is_warning (c : call) : bool :=
  match c with
  | AddWarning _ => true
  | _ => false
  end.

Definition is_check (c : call) : bool :=
  match c with
  | AddCheck _ _ => true
  | _ => false
  end.

Definition is_passed_check (c : call) : bool :=
  match c with
  | AddCheck true _ => true
  | _ => false
  end.

Definition is_failed_check (c : call) : bool :=
  match c with
  | AddCheck false _ => true
  | _ => false
  end.

(** The messages a call appends to each of the four lists. *)
Definition error_messages (c : call) : list string :=
  match c with
  | AddError m false => [m]
  | AddCheck false (Some m) => if String.eqb m "" then [] else [m]
  | _ => []
  end.

Definition critical_messages (c : call) : list string :=
  match c with
  | AddError m true => [m]
  | _ => []
  end.

Definition warning_messages (c : call) : list string :=
  match c with
  | AddWarning m => [m]
  | _ => []
  end.

Definition info_messages_of (c : call) : list string :=
  match c with
  | AddInfo m => [m]
  | _ => []
  end.

Lemma status_after_calls cs : forall r,
  live_status (status r) ->
  status (do_calls cs r)
  = if existsb is_error cs then FAILED
    else if existsb is_warning cs
         then match status r with
              | PASSED => PASSED_WITH_WARNINGS
              | s => s
              end
         else status r.
Proof.
  induction cs as [|c cs IH]; intros r Hr; [reflexivity|].
  cbn [do_calls fold_left existsb]. fold (do_calls cs (do_call c r)).
  rewrite IH by (apply do_call_live, Hr).
  destruct c as [p m|m|m crit|m]; cbn [is_error is_warning orb do_call].
  - assert (E : status (add_check p m r) = status r) by apply add_check_status.
    rewrite E. reflexivity.
  - clear IH. destruct (existsb is_error cs); [reflexivity|].
    unfold add_warning; cbn.
    destruct Hr as [Hr|[Hr|Hr]]; rewrite Hr; cbn; rewrite ?Hr;
      destruct (existsb is_warning cs); reflexivity.
  - clear IH. destruct (existsb is_error cs) eqn:E; [reflexivity|].
    assert (F : status (add_error m crit r) = FAILED).
    { unfold add_error. destruct crit; cbn; [reflexivity|].
      destruct Hr as [Hr|[Hr|Hr]]; rewrite Hr; cbn; try rewrite Hr; reflexivity. }
    rewrite F. destruct (existsb is_warning cs); reflexivity.
  - reflexivity.
Qed.

Ltac call_cases c :=
  destruct c as [[|] [?m|]|?m|?m [|]|?m]; cbn;
  unfold add_check, add_warning, add_error; cbn;
  repeat match goal with
         | |- context [if ?b then _ else _] => destruct b eqn:?; cbn
         end.

Lemma counts_after_calls cs : forall r,
  checks_performed (do_calls cs r)
  = checks_performed r + List.length (filter is_check cs) /\
  passed_checks (do_calls cs r)
  = passed_checks r + List.length (filter is_passed_check cs).
Proof.
  induction cs as [|c cs IH]; intros r; [cbn; lia|].
  cbn [do_calls fold_left]. fold (do_calls cs (do_call c r)).
  destruct (IH (do_call c r)) as [-> ->].
  call_cases c; lia.
Qed.

Lemma lists_after_calls cs : forall r,
  errors (do_calls cs r) = (errors r ++ flat_map error_messages cs)%list /\
  critical_errors (do_calls cs r)
  = (critical_errors r ++ flat_map critical_messages cs)%list /\
  warnings (do_calls cs r) = (warnings r ++ flat_map warning_messages cs)%list /\
  info_messages (do_calls cs r)
  = (info_messages r ++ flat_map info_messages_of cs)%list.
Proof.
  induction cs as [|c cs IH]; intros r.
  - cbn. rewrite !app_nil_r. repeat split.
  - cbn [do_calls fold_left flat_map]. fold (do_calls cs (do_call c r)).
    destruct (IH (do_call c r)) as (-> & -> & -> & ->).
    rewrite !app_assoc.
    call_cases c; rewrite ?app_nil_r; repeat split; discriminate.
Qed.

End ResultLogFacts.

(** X1. The status of a result is decided by the kinds of the calls it has
    received since it was created: [FAILED] as soon as there is one
    [add_error] among them, otherwise [PASSED_WITH_WARNINGS] when there is
    an [add_warning], otherwise [PASSED]; failed checks and information
    messages never count. *)
Theorem status_decided_by_calls :
  forall cs n,
    status (do_calls cs (new_result n))
    = if existsb is_error cs then FAILED
      else if existsb is_warning cs then PASSED_WITH_WARNINGS
      else PASSED.
Proof.
  intros cs n. rewrite status_after_calls by (left; reflexivity). reflexivity.
Qed.

(** X2. The counters and lists of a result are a log of its calls: every
    [add_check] is counted, so that the [failed_checks] of [get_summary]
    is the number of failed checks and is never negative; each list holds
    the messages of its calls in the order of the calls, [errors] holding
    those of the plain [add_error] calls and of the failed checks that
    carry a message. *)
Theorem summary_counts_calls :
  forall (duration : Type) (total_seconds : string -> string -> duration) now cs n,
    let r := do_calls cs (new_result n) in
    let s := get_summary total_seconds now r in
    summary_checks_performed s = List.length (filter is_check cs) /\
    summary_passed_checks s = List.length (filter is_passed_check cs) /\
    failed_checks s = Z.of_nat (List.length (filter is_failed_check cs)) /\
    errors r = flat_map error_messages cs /\
    critical_errors r = flat_map critical_messages cs /\
    warnings r = flat_map warning_messages cs /\
    info_messages r = flat_map info_messages_of cs /\
    errors_count s = List.length (flat_map error_messages cs) /\
    warnings_count s = List.length (filter is_warning cs).
Proof.
  intros duration total_seconds now cs n r s.
  destruct (counts_after_calls cs (new_result n)) as [Hc Hp].
  destruct (lists_after_calls cs (new_result n)) as (He & Hce & Hw & Hi).
  cbn in Hc, Hp, He, Hce, Hw, Hi. fold r in Hc, Hp, He, Hce, Hw, Hi.
  assert (Hsplit : List.length (filter is_check cs)
                   = List.length (filter is_passed_check cs)
                     + List.length (filter is_failed_check cs)).
  { clear. induction cs as [|c cs IH]; [reflexivity|].
    destruct c as [[|] m|m|m crit|m]; cbn; lia. }
  assert (Hwarn : List.length (flat_map warning_messages cs)
                  = List.length (filter is_warning cs)).
  { clear. induction cs as [|c cs IH]; [reflexivity|].
    destruct c as [p m|m|m crit|m]; cbn; lia. }
  subst s. cbn [get_summary summary_checks_performed summary_passed_checks failed_checks
                errors_count warnings_count].
  rewrite Hc, Hp, He, Hce, Hw, Hi, Hwarn.
  repeat split; lia.
Qed.

(** ** [MergerValidator]: difference entries, assets, recommendations *)
Import MergerValidator.

(** ** How the status moves through a validation *)
Section StatusSteps.

(** From [r] to [r'] the status has moved as recording calls move it, with
    an [add_error] among them exactly when [b]. *)
Definition steps (b : bool) (r r' : ValidationResult) : Prop :=
  live_status (status r) ->
  live_status (status r') /\
  (status r' = FAILED <-> status r = FAILED \/ b = true).

Lemma steps_refl r : steps false r r.
Proof. intros H. split; [exact H|]. split; [tauto|]. intros [?|?]; [assumption|discriminate]. Qed.

Lemma steps_trans b1 b2 r1 r2 r3 :
  steps b1 r1 r2 -> steps b2 r2 r3 -> steps (b1 || b2) r1 r3.
Proof.
  intros H12 H23 H1. destruct (H12 H1) as [H2 E12]. destruct (H23 H2) as [H3 E23].
  split; [exact H3|]. rewrite E23, E12. destruct b1, b2; cbn; intuition discriminate.
Qed.

Lemma steps_then b1 b2 b r1 r2 r3 :
  steps b1 r1 r2 -> steps b2 r2 r3 -> b1 || b2 = b -> steps b r1 r3.
Proof. intros H12 H23 <-. eapply steps_trans; eassumption. Qed.

Lemma steps_same_status b r r' :
  status r' = status r -> b = false -> steps b r r'.
Proof.
  intros E -> H. rewrite E. split; [exact H|].
  split; [tauto|]. intros [?|?]; [assumption|discriminate].
Qed.

Lemma steps_add_error m c r : steps true r (add_error m c r).
Proof.
  intros H. pose proof (do_call_live (AddError m c) r H) as L. cbn in L.
  split; [exact L|]. split; [tauto|]. intros _.
  unfold add_error. destruct c; cbn; [reflexivity|].
  destruct H as [H|[H|H]]; rewrite H; cbn; try rewrite H; reflexivity.
Qed.

Lemma steps_add_warning m r : steps false r (add_warning m r).
Proof.
  intros H. pose proof (do_call_live (AddWarning m) r H) as L. cbn in L.
  split; [exact L|]. unfold add_warning; cbn.
  destruct H as [H|[H|H]]; rewrite H; cbn; rewrite ?H;
    (split; [intros E; try discriminate E; tauto|intros [E|E]; discriminate E || reflexivity]).
Qed.

Lemma steps_add_check p m r : steps false r (add_check p m r).
Proof. apply steps_same_status; [apply add_check_status|reflexivity]. Qed.

Lemma steps_add_info m r : steps false r (add_info m r).
Proof. apply steps_same_status; reflexivity. Qed.

Lemma steps_set_metadata k v r : steps false r (set_metadata k v r).
Proof. apply steps_same_status; reflexivity. Qed.

Lemma steps_set_times t0 t1 r : steps false r (set_times t0 t1 r).
Proof. apply steps_same_status; reflexivity. Qed.

Lemma steps_eq b b' r r' : steps b r r' -> b = b' -> steps b' r r'.
Proof. intros H <-. exact H. Qed.

(** From a new result. *)
Lemma steps_from_new b n t0 t1 r' :
  steps b (set_times t0 t1 (new_result n)) r' ->
  (status r' <> FAILED <-> b = false).
Proof.
  intros H. destruct H as [_ E]; [left; reflexivity|].
  cbn in E. rewrite E. destruct b; split; intros G; try reflexivity; try discriminate.
  - exfalso. apply G. right. reflexivity.
  - intros [?|?]; discriminate.
Qed.

Lemma steps_new b n r' :
  steps b (new_result n) r' -> (status r' <> FAILED <-> b = false).
Proof.
  intros H. destruct H as [_ E]; [left; reflexivity|].
  cbn in E. rewrite E. destruct b; split; intros G; try reflexivity; try discriminate.
  - exfalso. apply G. right. reflexivity.
  - intros [?|?]; discriminate.
Qed.

End StatusSteps.

Ltac case_if :=
  match goal with
  | |- context [if ?c then _ else _] => destruct c
  end.

Ltac steps_false :=
  first [ apply steps_refl | apply steps_add_warning | apply steps_add_check
        | apply steps_add_info | apply steps_set_metadata | apply steps_set_times ].

(** ** Equality of values *)
Section ValueEquality.

(** [==] is equality up to reading [True] as 1 and [False] as 0. *)
Definition as_int (v : value) : value :=
  match v with
  | VBool b => VInt (if b then 1 else 0)
  | _ => v
  end.

Lemma py_eqb_as_int a b : py_eqb a b = true <-> as_int a = as_int b.
Proof.
  destruct a as [|x|x|s], b as [|y|y|t]; cbn [py_eqb as_int]; split; intros H;
    try discriminate H; try reflexivity.
  all: try (apply Z.eqb_eq in H; congruence).
  all: try (injection H as H; apply Z.eqb_eq; exact H).
  all: try (apply String.eqb_eq in H; congruence).
  all: try (injection H as ->; apply String.eqb_refl).
  - destruct x, y; cbn in *; congruence.
  - destruct x, y; cbn in *; congruence.
Qed.

Lemma py_eqb_refl a : py_eqb a a = true.
Proof. apply py_eqb_as_int. reflexivity. Qed.

Lemma py_eqb_trans a b c : py_eqb a b = true -> py_eqb b c = true -> py_eqb a c = true.
Proof. rewrite !py_eqb_as_int. congruence. Qed.

Lemma py_eqb_left a b c : py_eqb a b = true -> py_eqb a c = py_eqb b c.
Proof.
  intros H. destruct (py_eqb b c) eqn:E.
  - eapply py_eqb_trans; eassumption.
  - destruct (py_eqb a c) eqn:F; [|reflexivity].
    rewrite <- E. symmetry. eapply py_eqb_trans; [|exact F].
    rewrite py_eqb_sym. exact H.
Qed.

End ValueEquality.

(** ** Difference entries *)
Section DifEntriesFacts.

(** The operation of an entry is not one of the four. *)
Definition invalid_operation (entry : dict value) : bool :=
  match dict_get "operation" entry with
  | Some op => negb (py_in op VALID_DIF_OPERATIONS)
  | None => false
  end.

(** The table of operations the loop builds. *)
Fixpoint operations_of (entries : list (dict value)) (ops : list (value * list value))
    : list (value * list value) :=
  match entries with
  | [] => ops
  | entry :: rest =>
      match dict_get "asset_id" entry, dict_get "operation" entry with
      | Some asset_id, Some op => operations_of rest (append_operation asset_id op ops)
      | _, _ => operations_of rest ops
      end
  end.

Definition many_creates (item : value * list value) : bool :=
  (1 <? py_count (VStr "create") (snd item))%nat.

Lemma dif_entries_loop_operations entries : forall i ops r,
  fst (dif_entries_loop i entries ops r) = operations_of entries ops.
Proof.
  induction entries as [|entry rest IH]; intros i ops r; [reflexivity|].
  cbn [dif_entries_loop operations_of].
  destruct (dict_get "asset_id" entry) as [a|]; [|apply IH].
  unfold dif_check_operation.
  destruct (dict_get "operation" entry) as [op|]; apply IH.
Qed.

Lemma dif_check_modify_steps i entry r : steps false r (dif_check_modify i entry r).
Proof.
  unfold dif_check_modify.
  destruct (dict_get "field" entry), (dict_get "operation" entry); try steps_false.
  case_if; steps_false.
Qed.

Lemma dif_check_value_steps i entry r : steps false r (dif_check_value i entry r).
Proof.
  unfold dif_check_value. destruct (dict_get "value" entry) as [v|]; [|steps_false].
  destruct (is_none v); steps_false.
Qed.

Lemma dif_check_operation_steps i entry a ops r :
  steps (invalid_operation entry) r (snd (dif_check_operation i entry a ops r)).
Proof.
  unfold dif_check_operation, invalid_operation.
  destruct (dict_get "operation" entry) as [op|]; cbn [snd]; [|apply steps_refl].
  destruct (negb (py_in op VALID_DIF_OPERATIONS)); [apply steps_add_error|apply steps_refl].
Qed.

Lemma dif_entries_loop_steps entries : forall i ops r,
  steps (existsb (fun e => negb (has_key "asset_id" e) || invalid_operation e) entries)
    r (snd (dif_entries_loop i entries ops r)).
Proof.
  induction entries as [|entry rest IH]; intros i ops r; [apply steps_refl|].
  cbn [dif_entries_loop existsb]. unfold has_key.
  destruct (dict_get "asset_id" entry) as [a|]; cbn [negb orb].
  - pose proof (dif_check_operation_steps i entry a ops r) as Hop.
    destruct (dif_check_operation i entry a ops r) as [ops1 r1]. cbn [snd] in Hop.
    eapply steps_then; [|apply IH|reflexivity].
    eapply steps_then; [exact Hop| |apply orb_false_r].
    eapply (steps_then false false);
      [apply dif_check_modify_steps|apply dif_check_value_steps|reflexivity].
  - eapply steps_then; [apply steps_add_error|apply IH|reflexivity].
Qed.

Lemma dif_check_conflicts_steps ops : forall r,
  steps (existsb many_creates ops) r (fold_left dif_check_conflict ops r).
Proof.
  induction ops as [|[k l] ops IH]; intros r; [apply steps_refl|].
  cbn [fold_left existsb]. eapply steps_then; [|apply IH|reflexivity].
  unfold dif_check_conflict, many_creates. cbn [snd].
  destruct (py_in (VStr "delete") l && (1 <? List.length l)%nat),
           (1 <? py_count (VStr "create") l)%nat.
  - eapply (steps_then false true);
      [apply steps_add_warning|apply steps_add_error|reflexivity].
  - apply steps_add_warning.
  - apply steps_add_error.
  - apply steps_refl.
Qed.

Lemma _validate_dif_entries_steps entries r :
  steps (existsb (fun e => negb (has_key "asset_id" e) || invalid_operation e) entries
         || existsb many_creates (operations_of entries []))
    r (_validate_dif_entries entries r).
Proof.
  unfold _validate_dif_entries.
  pose proof (dif_entries_loop_operations entries 0 [] r) as Hops.
  pose proof (dif_entries_loop_steps entries 0 [] r) as Hloop.
  destruct (dif_entries_loop 0 entries [] r) as [ops r1]. cbn [fst snd] in Hops, Hloop.
  subst ops.
  eapply steps_then; [exact Hloop| |reflexivity].
  eapply steps_then; [apply dif_check_conflicts_steps|apply steps_add_check|].
  apply orb_false_r.
Qed.

(** The creations the table holds for the assets equal to [a]. *)
Fixpoint table_count (a : value) (ops : list (value * list value)) : nat :=
  match ops with
  | [] => 0
  | (k, l) :: rest =>
      (if py_eqb k a then py_count (VStr "create") l else 0) + table_count a rest
  end.

Fixpoint keys_distinct (ops : list (value * list value)) : Prop :=
  match ops with
  | [] => True
  | (k, _) :: rest => Forall (fun p => py_eqb k (fst p) = false) rest /\ keys_distinct rest
  end.

Lemma py_count_app v l1 l2 : py_count v (l1 ++ l2) = py_count v l1 + py_count v l2.
Proof. unfold py_count. rewrite filter_app, length_app. reflexivity. Qed.

Lemma table_count_append a k op ops :
  table_count a (append_operation k op ops)
  = table_count a ops
    + (if py_eqb k a && py_eqb op (VStr "create") then 1 else 0).
Proof.
  induction ops as [|[k' l] ops IH]; cbn [append_operation table_count].
  - unfold py_count. cbn [filter]. rewrite (py_eqb_sym (VStr "create") op).
    destruct (py_eqb k a), (py_eqb op (VStr "create")); reflexivity.
  - destruct (py_eqb k' k) eqn:E; cbn [table_count].
    + rewrite (py_eqb_left _ _ a E). rewrite py_count_app.
      unfold py_count at 2. cbn [filter]. rewrite (py_eqb_sym (VStr "create") op).
      destruct (py_eqb k a), (py_eqb op (VStr "create")); cbn; lia.
    + rewrite IH. lia.
Qed.

Lemma keys_distinct_append k op ops :
  keys_distinct ops -> keys_distinct (append_operation k op ops).
Proof.
  induction ops as [|[k' l] ops IH]; intros H; cbn [append_operation].
  - cbn. split; [constructor|exact I].
  - destruct H as [Hk H]. destruct (py_eqb k' k) eqn:E.
    + cbn. split; assumption.
    + cbn [keys_distinct]. split; [|apply IH, H].
      clear IH H. induction ops as [|[k2 l2] ops IH]; cbn [append_operation].
      * constructor; [exact E|constructor].
      * inversion Hk as [|? ? H2 Hk']; subst. cbn [fst] in H2.
        destruct (py_eqb k2 k); constructor; try assumption. apply IH, Hk'.
Qed.

Lemma operations_of_count a entries : forall ops,
  table_count a (operations_of entries ops) = table_count a ops + create_count a entries.
Proof.
  induction entries as [|entry rest IH]; intros ops; [cbn; lia|].
  cbn [operations_of]. unfold create_count in *. cbn [filter].
  destruct (dict_get "asset_id" entry) as [k|]; [|apply IH].
  destruct (dict_get "operation" entry) as [op|]; [|apply IH].
  rewrite IH, table_count_append.
  destruct (py_eqb k a && py_eqb op (VStr "create")); cbn [List.length]; lia.
Qed.

Lemma operations_of_distinct entries : forall ops,
  keys_distinct ops -> keys_distinct (operations_of entries ops).
Proof.
  induction entries as [|entry rest IH]; intros ops H; [exact H|].
  cbn [operations_of].
  destruct (dict_get "asset_id" entry) as [k|]; [|apply IH, H].
  destruct (dict_get "operation" entry) as [op|]; [|apply IH, H].
  apply IH, keys_distinct_append, H.
Qed.

Lemma table_count_none a ops :
  Forall (fun p => py_eqb (fst p) a = false) ops -> table_count a ops = 0.
Proof.
  induction 1 as [|[k l] ops Hk _ IH]; [reflexivity|].
  cbn in Hk |- *. rewrite Hk, IH. reflexivity.
Qed.

Lemma many_creates_iff ops :
  keys_distinct ops ->
  existsb many_creates ops = false <-> forall a, table_count a ops <= 1.
Proof.
  induction ops as [|[k l] ops IH]; intros H.
  - split; [intros _ a; cbn; lia|reflexivity].
  - destruct H as [Hk H]. specialize (IH H). cbn [existsb table_count].
    unfold many_creates at 1. cbn [snd]. split.
    + intros E a. apply orb_false_iff in E. destruct E as [E1 E2].
      apply Nat.ltb_ge in E1. destruct (py_eqb k a) eqn:Ea.
      * rewrite table_count_none; [lia|].
        eapply Forall_impl; [|exact Hk]. intros [k2 l2] Hk2. cbn [fst] in *.
        destruct (py_eqb k2 a) eqn:E2a; [|reflexivity].
        rewrite <- Hk2. symmetry. apply (py_eqb_trans _ a); [exact Ea|].
        rewrite py_eqb_sym. exact E2a.
      * cbn. apply IH, E2.
    + intros G. apply orb_false_iff. split.
      * apply Nat.ltb_ge. specialize (G k). rewrite py_eqb_refl in G. lia.
      * apply IH. intros a. specialize (G a). lia.
Qed.

Lemma no_many_creates_iff entries :
  existsb many_creates (operations_of entries []) = false
  <-> forall a, create_count a entries <= 1.
Proof.
  rewrite many_creates_iff by (apply operations_of_distinct; exact I).
  split; intros H a; specialize (H a); rewrite operations_of_count in *; cbn in *; lia.
Qed.

(** An entry the validator accepts by itself: it names its asset, and its
    operation, if it has one, is one of the four. *)
Definition well_formed_entry (entry : dict value) : Prop :=
  has_key "asset_id" entry = true /\
  match dict_get "operation" entry with
  | Some op => py_in op VALID_DIF_OPERATIONS = true
  | None => True
  end.

Lemma well_formed_entries_iff entries :
  existsb (fun e => negb (has_key "asset_id" e) || invalid_operation e) entries = false
  <-> Forall well_formed_entry entries.
Proof.
  induction entries as [|e entries IH]; [split; [constructor|reflexivity]|].
  cbn [existsb]. rewrite orb_false_iff, IH. unfold well_formed_entry, invalid_operation.
  split.
  - intros [H1 H2]. apply orb_false_iff in H1. destruct H1 as [Ha Ho].
    apply negb_false_iff in Ha. constructor; [|exact H2]. split; [exact Ha|].
    destruct (dict_get "operation" e); [apply negb_false_iff, Ho|exact I].
  - intros H. inversion H as [|? ? [Ha Ho] H2]; subst. split; [|exact H2].
    rewrite Ha. cbn [negb orb]. destruct (dict_get "operation" e); [|reflexivity].
    rewrite Ho. reflexivity.
Qed.

Lemma dif_entries_accepted_iff entries b :
  b = existsb (fun e => negb (has_key "asset_id" e) || invalid_operation e) entries
      || existsb many_creates (operations_of entries []) ->
  b = false <->
  Forall well_formed_entry entries /\ forall a, create_count a entries <= 1.
Proof.
  intros ->. rewrite orb_false_iff, well_formed_entries_iff, no_many_creates_iff.
  reflexivity.
Qed.

End DifEntriesFacts.

(** X3. A list of difference entries passes [_validate_dif_entries], and a
    difference file made of entries passes [validate_dif_file], exactly
    when every entry names its asset, every operation given is one of add,
    modify, delete and create, and no asset is created more than once;
    warnings (a delete among other operations, a modify without its old and
    new values, a null value) never fail it. *)
Theorem dif_entries_pass_iff :
  (forall entries n,
     status (_validate_dif_entries entries (new_result n)) <> FAILED
     <-> Forall well_formed_entry entries /\ forall a, create_count a entries <= 1) /\
  (forall max_str_digits set_repr exc_text filepath filename data entries t0 t1,
     data = DifList entries \/ (exists assets, data = DifObject (Some entries) assets) ->
     status (validate_dif_file max_str_digits set_repr exc_text filepath filename
               (DifParsed data) t0 t1) <> FAILED
     <-> Forall well_formed_entry entries /\ forall a, create_count a entries <= 1).
Proof.
  split.
  - intros entries n.
    rewrite (steps_new _ _ _ (_validate_dif_entries_steps entries (new_result n))).
    apply dif_entries_accepted_iff. reflexivity.
  - intros max_str_digits set_repr exc_text filepath filename data entries t0 t1 Hdata.
    unfold validate_dif_file. cbn [status set_times].
    set (r0 := set_times (Some t0) None (new_result ("DIF File: " ++ filename))).
    assert (H : exists m,
               validate_dif_data max_str_digits set_repr data r0
               = Returned (_validate_dif_entries entries
                             (add_info m (add_check true (Some "JSON structure valid") r0)))).
    { destruct Hdata as [->|[assets ->]]; eexists; reflexivity. }
    destruct H as [m ->].
    assert (S : steps
                  (existsb (fun e => negb (has_key "asset_id" e) || invalid_operation e)
                     entries
                   || existsb many_creates (operations_of entries []))
                  r0
                  (_validate_dif_entries entries
                     (add_info m (add_check true (Some "JSON structure valid") r0)))).
    { eapply (steps_then false); [apply steps_add_check| |reflexivity].
      eapply (steps_then false);
        [apply steps_add_info|apply _validate_dif_entries_steps|reflexivity]. }
    rewrite (steps_from_new _ _ _ _ _ S).
    apply dif_entries_accepted_iff. reflexivity.
Qed.

Lemma dif_entries_pass_iff_witness :
  let entries :=
    [ [("asset_id", VStr "srv1"); ("operation", VStr "create")];
      [("asset_id", VStr "srv1"); ("operation", VStr "delete")];
      [("asset_id", VStr "srv2"); ("operation", VStr "modify"); ("field", VStr "ip")] ] in
  Forall well_formed_entry entries /\ forall a, create_count a entries <= 1.
Proof.
  intros entries.
  apply (proj1 (proj2 dif_entries_pass_iff 4300 (fun _ => "") (fun _ => "")
                  "a.dif" "a.dif" (DifList entries) entries "t0" "t1"
                  (or_introl eq_refl))).
  vm_compute. discriminate.
Defined.

(** ** Assets *)
Section AssetsFacts.

Variable max_str_digits : nat.
Variable set_repr : list string -> string.
Variable exc_text : pyexc -> string.

(** The status moves as by calls with an error exactly when [b], and the
    metadata are left as they were. *)
Definition logs (b : bool) (r r' : ValidationResult) : Prop :=
  steps b r r' /\ metadata r' = metadata r.

Lemma logs_refl r : logs false r r.
Proof. split; [apply steps_refl|reflexivity]. Qed.

Lemma logs_then b1 b2 b r1 r2 r3 :
  logs b1 r1 r2 -> logs b2 r2 r3 -> b1 || b2 = b -> logs b r1 r3.
Proof.
  intros [S12 M12] [S23 M23] E. split; [eapply steps_then; eassumption|congruence].
Qed.

Lemma metadata_add_check p m r : metadata (add_check p m r) = metadata r.
Proof.
  unfold add_check. destruct p; cbn; [reflexivity|].
  destruct m as [m|]; cbn; [|reflexivity]. destruct (String.eqb m ""); reflexivity.
Qed.

Lemma metadata_add_warning m r : metadata (add_warning m r) = metadata r.
Proof. unfold add_warning. cbn. destruct (ValidationStatus_eqb _ _); reflexivity. Qed.

Lemma metadata_add_error m c r : metadata (add_error m c r) = metadata r.
Proof.
  unfold add_error. destruct c; cbn; [reflexivity|].
  destruct (_ || _); reflexivity.
Qed.

Lemma logs_add_error m c r : logs true r (add_error m c r).
Proof. split; [apply steps_add_error|apply metadata_add_error]. Qed.

Lemma logs_add_warning m r : logs false r (add_warning m r).
Proof. split; [apply steps_add_warning|apply metadata_add_warning]. Qed.

Lemma logs_add_check p m r : logs false r (add_check p m r).
Proof. split; [apply steps_add_check|apply metadata_add_check]. Qed.

Lemma logs_add_info m r : logs false r (add_info m r).
Proof. split; [apply steps_add_info|reflexivity]. Qed.

(** The asset carries an identifier that is not null. *)
Definition id_present (asset : dict value) : bool :=
  match dict_get "asset_id" asset with
  | Some v => negb (is_none v)
  | None => false
  end.

(** The identifiers of the assets that have the key, in order. *)
Definition asset_ids (assets : list (dict value)) : list value :=
  flat_map (fun asset => match dict_get "asset_id" asset with
                         | Some v => [v]
                         | None => []
                         end) assets.

Definition is_str (v : value) : bool :=
  match v with
  | VStr _ => true
  | _ => false
  end.

(** A field the checks can read: absent, counting as false, or a string. *)
Definition field_readable (k : string) (asset : dict value) : bool :=
  match dict_get k asset with
  | Some v => negb (truthy v) || is_str v
  | None => true
  end.

Definition fields_readable (asset : dict value) : bool :=
  field_readable "ip_address" asset && field_readable "serial_number" asset
  && field_readable "status" asset.

(** What a check leaves: a result logged from [r], or an exception. *)
Definition check_outcome (readable : bool) (r : ValidationResult) (o : outcome) : Prop :=
  if readable then exists r', o = Returned r' /\ logs false r r'
  else exists e r', o = Raised e r'.

Lemma asset_check_ip_outcome asset r i :
  check_outcome (field_readable "ip_address" asset) r
    (asset_check_ip max_str_digits asset r i).
Proof.
  unfold check_outcome, field_readable, asset_check_ip.
  destruct (dict_get "ip_address" asset) as [v|];
    [|eexists; split; [reflexivity|apply logs_refl]].
  destruct v as [|[|]|z|s]; cbn [truthy negb orb is_str _is_valid_ip].
  - eexists; split; [reflexivity|apply logs_refl].
  - do 2 eexists; reflexivity.
  - eexists; split; [reflexivity|apply logs_refl].
  - destruct (Z.eqb z 0); cbn [negb orb].
    + eexists; split; [reflexivity|apply logs_refl].
    + do 2 eexists; reflexivity.
  - rewrite orb_true_r.
    destruct (negb (s =? "")); [|eexists; split; [reflexivity|apply logs_refl]].
    destruct (negb (Nat.eqb _ 4)); eexists; (split; [reflexivity|]);
      case_if; first [apply logs_add_warning|apply logs_refl].
Qed.

Lemma asset_check_serial_outcome asset r i :
  check_outcome (field_readable "serial_number" asset) r (asset_check_serial asset r i).
Proof.
  unfold check_outcome, field_readable, asset_check_serial.
  destruct (dict_get "serial_number" asset) as [v|];
    [|eexists; split; [reflexivity|apply logs_refl]].
  destruct v as [|[|]|z|s]; cbn [truthy negb orb is_str].
  - eexists; split; [reflexivity|apply logs_refl].
  - do 2 eexists; reflexivity.
  - eexists; split; [reflexivity|apply logs_refl].
  - destruct (Z.eqb z 0); cbn [negb orb].
    + eexists; split; [reflexivity|apply logs_refl].
    + do 2 eexists; reflexivity.
  - rewrite orb_true_r.
    destruct (negb (s =? "")); [|eexists; split; [reflexivity|apply logs_refl]].
    eexists; (split; [reflexivity|]); case_if; first [apply logs_add_warning|apply logs_refl].
Qed.

Lemma asset_check_status_outcome asset r i :
  check_outcome (field_readable "status" asset) r (asset_check_status asset r i).
Proof.
  unfold check_outcome, field_readable, asset_check_status.
  destruct (dict_get "status" asset) as [v|];
    [|eexists; split; [reflexivity|apply logs_refl]].
  destruct v as [|[|]|z|s]; cbn [truthy negb orb is_str].
  - eexists; split; [reflexivity|apply logs_refl].
  - do 2 eexists; reflexivity.
  - eexists; split; [reflexivity|apply logs_refl].
  - destruct (Z.eqb z 0); cbn [negb orb].
    + eexists; split; [reflexivity|apply logs_refl].
    + do 2 eexists; reflexivity.
  - rewrite orb_true_r.
    destruct (negb (s =? "")); [|eexists; split; [reflexivity|apply logs_refl]].
    eexists; (split; [reflexivity|]); case_if; first [apply logs_add_warning|apply logs_refl].
Qed.

Lemma _validate_asset_fields_outcome asset r i :
  check_outcome (fields_readable asset) r
    (_validate_asset_fields max_str_digits asset r i).
Proof.
  unfold fields_readable, _validate_asset_fields.
  pose proof (asset_check_ip_outcome asset r i) as Hip.
  destruct (field_readable "ip_address" asset); cbn [andb check_outcome] in *.
  - destruct Hip as (r1 & -> & L1). cbn [then_do].
    pose proof (asset_check_serial_outcome asset r1 i) as Hs.
    destruct (field_readable "serial_number" asset); cbn [andb check_outcome] in *.
    + destruct Hs as (r2 & -> & L2). cbn [then_do].
      pose proof (asset_check_status_outcome asset r2 i) as Ht.
      destruct (field_readable "status" asset); cbn [check_outcome] in *.
      * destruct Ht as (r3 & -> & L3). exists r3. split; [reflexivity|].
        eapply (logs_then false false); [exact L1| |reflexivity].
        eapply (logs_then false false); [exact L2|exact L3|reflexivity].
      * exact Ht.
    + destruct Hs as (e & r2 & ->). do 2 eexists. reflexivity.
  - destruct Hip as (e & r1 & ->). do 2 eexists. reflexivity.
Qed.

Lemma assets_check_required_logs i asset r :
  logs (negb (id_present asset)) r (assets_check_required i asset r).
Proof.
  unfold assets_check_required, REQUIRED_ASSET_FIELDS, id_present. cbn [fold_left].
  destruct (dict_get "asset_id" asset) as [v|]; cbn [negb].
  - destruct (is_none v); cbn [negb]; [apply logs_add_error|apply logs_refl].
  - apply logs_add_error.
Qed.

Lemma assets_check_unexpected_logs i asset r :
  logs false r (assets_check_unexpected set_repr i asset r).
Proof.
  unfold assets_check_unexpected.
  destruct (filter _ _); [apply logs_refl|].
  case_if; [apply logs_add_info|apply logs_refl].
Qed.

(** The two sets the loop builds from the identifiers. *)
Fixpoint ids_loop (ids seen_ids duplicate_ids : list value) : list value * list value :=
  match ids with
  | [] => (seen_ids, duplicate_ids)
  | v :: rest =>
      if py_in v seen_ids then ids_loop rest seen_ids (set_add v duplicate_ids)
      else ids_loop rest (seen_ids ++ [v])%list duplicate_ids
  end.

(** An identifier of the list is in [seen_ids] or comes twice. *)
Fixpoint repeats (seen_ids ids : list value) : bool :=
  match ids with
  | [] => false
  | v :: rest => py_in v seen_ids || repeats (seen_ids ++ [v])%list rest
  end.

Ltac bool_eq :=
  repeat match goal with
         | |- context [?b || _] => is_var b; destruct b; cbn [orb negb]
         | |- context [_ || ?b] => is_var b; destruct b; cbn [orb negb]
         end; reflexivity.

Lemma assets_loop_outcome assets : forall i seen dup r,
  if forallb fields_readable assets then
    exists r',
      assets_loop max_str_digits set_repr i assets seen dup r
      = AssetsDone (fst (ids_loop (asset_ids assets) seen dup))
          (snd (ids_loop (asset_ids assets) seen dup)) r' /\
      logs (existsb (fun a => negb (id_present a)) assets
            || repeats seen (asset_ids assets)) r r'
  else
    exists e r', assets_loop max_str_digits set_repr i assets seen dup r
                 = AssetsRaised e r'.
Proof.
  induction assets as [|asset rest IH]; intros i seen dup r.
  - cbn. exists r. split; [reflexivity|apply logs_refl].
  - cbn [forallb assets_loop existsb].
    pose proof (assets_check_required_logs i asset r) as Hreq.
    set (r1 := assets_check_required i asset r) in *.
    set (x := negb (id_present asset)) in *.
    unfold asset_ids. cbn [flat_map]. fold (asset_ids rest).
    unfold assets_check_duplicate.
    destruct (dict_get "asset_id" asset) as [v|] eqn:Hid; cbn [app].
    + cbn [ids_loop repeats].
      destruct (py_in v seen) eqn:Hseen; cbn [orb].
      * pose proof (_validate_asset_fields_outcome asset
                      (add_error ("Duplicate asset_id: " ++ str v) false r1) i) as Hf.
        destruct (fields_readable asset); cbn [andb check_outcome] in *.
        -- destruct Hf as (r2 & -> & L2).
           specialize (IH (S i) seen (set_add v dup)
                         (assets_check_unexpected set_repr i asset r2)).
           destruct (forallb fields_readable rest).
           ++ destruct IH as (r' & -> & L). exists r'. split; [reflexivity|].
              set (E := existsb (fun a => negb (id_present a)) rest) in *.
              set (R := repeats seen (asset_ids rest)) in *.
              eapply (logs_then true (E || R)); [|exact L|clearbody x E R; bool_eq].
              eapply (logs_then x true); [exact Hreq| |apply orb_true_r].
              eapply (logs_then true false); [apply logs_add_error| |reflexivity].
              eapply (logs_then false false);
                [exact L2|apply assets_check_unexpected_logs|reflexivity].
           ++ exact IH.
        -- destruct Hf as (e & r2 & ->). do 2 eexists. reflexivity.
      * pose proof (_validate_asset_fields_outcome asset r1 i) as Hf.
        destruct (fields_readable asset); cbn [andb check_outcome] in *.
        -- destruct Hf as (r2 & -> & L2).
           specialize (IH (S i) (seen ++ [v])%list dup
                         (assets_check_unexpected set_repr i asset r2)).
           destruct (forallb fields_readable rest).
           ++ destruct IH as (r' & -> & L). exists r'. split; [reflexivity|].
              set (E := existsb (fun a => negb (id_present a)) rest) in *.
              set (R := repeats (seen ++ [v]) (asset_ids rest)) in *.
              eapply (logs_then x (E || R)); [|exact L|clearbody x E R; bool_eq].
              eapply (logs_then x false); [exact Hreq| |apply orb_false_r].
              eapply (logs_then false false);
                [exact L2|apply assets_check_unexpected_logs|reflexivity].
           ++ exact IH.
        -- destruct Hf as (e & r2 & ->). do 2 eexists. reflexivity.
    + pose proof (_validate_asset_fields_outcome asset r1 i) as Hf.
      destruct (fields_readable asset); cbn [andb check_outcome] in *.
      * destruct Hf as (r2 & -> & L2).
        specialize (IH (S i) seen dup (assets_check_unexpected set_repr i asset r2)).
        destruct (forallb fields_readable rest).
        -- destruct IH as (r' & -> & L). exists r'. split; [reflexivity|].
           set (E := existsb (fun a => negb (id_present a)) rest) in *.
           set (R := repeats seen (asset_ids rest)) in *.
           eapply (logs_then x (E || R)); [|exact L|clearbody x E R; bool_eq].
           eapply (logs_then x false); [exact Hreq| |apply orb_false_r].
           eapply (logs_then false false);
             [exact L2|apply assets_check_unexpected_logs|reflexivity].
        -- exact IH.
      * destruct Hf as (e & r2 & ->). do 2 eexists. reflexivity.
Qed.

(** *** The two sets *)

Lemma py_in_eqb a b l : py_eqb a b = true -> py_in a l = py_in b l.
Proof.
  intros H. unfold py_in. induction l as [|x l IH]; [reflexivity|].
  cbn. rewrite IH, (py_eqb_left _ _ x H). reflexivity.
Qed.

Lemma py_in_snoc v l w : py_in v (l ++ [w]) = py_in v l || py_eqb v w.
Proof. rewrite py_in_app. cbn. rewrite orb_false_r. reflexivity. Qed.

Lemma py_distinct_snoc l v : py_distinct (l ++ [v]) = py_distinct l && negb (py_in v l).
Proof.
  induction l as [|x l IH]; [reflexivity|].
  cbn [app py_distinct]. rewrite IH, py_in_snoc. cbn [py_in existsb].
  fold (py_in v l). rewrite (py_eqb_sym v x).
  destruct (py_in x l), (py_eqb x v), (py_distinct l), (py_in v l); reflexivity.
Qed.

Lemma py_distinct_seen seen v rest :
  py_in v seen = true -> py_distinct (seen ++ v :: rest) = false.
Proof.
  induction seen as [|x seen IH]; intros H; [discriminate|].
  cbn [app py_distinct]. cbn [py_in existsb] in H. fold (py_in v seen) in H.
  destruct (py_eqb v x) eqn:E.
  - rewrite py_in_app. cbn [py_in existsb]. rewrite (py_eqb_sym x v), E.
    rewrite orb_true_r. reflexivity.
  - cbn in H. rewrite (IH H). apply andb_false_r.
Qed.

Lemma repeats_distinct ids : forall seen,
  py_distinct seen = true -> repeats seen ids = negb (py_distinct (seen ++ ids)).
Proof.
  induction ids as [|v rest IH]; intros seen H.
  - cbn. rewrite app_nil_r, H. reflexivity.
  - cbn [repeats]. destruct (py_in v seen) eqn:E; cbn [orb].
    + rewrite (py_distinct_seen _ _ _ E). reflexivity.
    + rewrite IH by (rewrite py_distinct_snoc, H, E; reflexivity).
      rewrite <- app_assoc. reflexivity.
Qed.

Lemma ids_loop_no_repeat ids : forall seen dup,
  repeats seen ids = false -> ids_loop ids seen dup = ((seen ++ ids)%list, dup).
Proof.
  induction ids as [|v rest IH]; intros seen dup H.
  - cbn. rewrite app_nil_r. reflexivity.
  - cbn [repeats] in H. apply orb_false_iff in H. destruct H as [E H].
    cbn [ids_loop]. rewrite E, (IH _ _ H), <- app_assoc. reflexivity.
Qed.

Lemma ids_loop_repeat ids : forall seen dup,
  repeats seen ids = true -> snd (ids_loop ids seen dup) <> [].
Proof.
  assert (G : forall ids seen dup, dup <> [] -> snd (ids_loop ids seen dup) <> []).
  { clear. intros ids. induction ids as [|v rest IH]; intros seen dup H; [exact H|].
    cbn [ids_loop]. destruct (py_in v seen); apply IH; [|exact H].
    unfold set_add. destruct (py_in v dup); [exact H|]. destruct dup; discriminate. }
  induction ids as [|v rest IH]; intros seen dup H; [discriminate|].
  cbn [repeats] in H. cbn [ids_loop]. destruct (py_in v seen); cbn [orb] in H.
  - apply G. unfold set_add. destruct (py_in v dup) eqn:E.
    + destruct dup; [discriminate|discriminate].
    + destruct dup; discriminate.
  - apply IH, H.
Qed.

Lemma py_in_set_add v w s : py_in v (set_add w s) = py_in v s || py_eqb v w.
Proof.
  unfold set_add. destruct (py_in w s) eqn:E; [|apply py_in_snoc].
  destruct (py_eqb v w) eqn:F; [|rewrite orb_false_r; reflexivity].
  rewrite (py_in_eqb _ _ _ F), E. reflexivity.
Qed.

Lemma py_distinct_set_add w s : py_distinct s = true -> py_distinct (set_add w s) = true.
Proof.
  intros H. unfold set_add. destruct (py_in w s) eqn:E; [exact H|].
  rewrite py_distinct_snoc, H, E. reflexivity.
Qed.

Lemma py_count_cons v w l :
  py_count v (w :: l) = (if py_eqb v w then 1 else 0) + py_count v l.
Proof. unfold py_count. cbn [filter]. destruct (py_eqb v w); reflexivity. Qed.

Lemma py_in_count v l : py_in v l = (0 <? py_count v l)%nat.
Proof.
  induction l as [|w l IH]; [reflexivity|].
  rewrite py_count_cons. cbn [py_in existsb]. fold (py_in v l). rewrite IH.
  destruct (py_eqb v w); cbn [orb]; [|reflexivity].
  symmetry. apply Nat.ltb_lt. lia.
Qed.

Lemma ids_loop_sets ids : forall seen dup,
  py_distinct seen = true -> py_distinct dup = true ->
  let seen' := fst (ids_loop ids seen dup) in
  let dup' := snd (ids_loop ids seen dup) in
  py_distinct seen' = true /\
  (forall v, py_in v seen' = py_in v seen || py_in v ids) /\
  py_distinct dup' = true /\
  (forall v, py_in v dup'
             = py_in v dup
               || (if py_in v seen then (0 <? py_count v ids)%nat
                   else (1 <? py_count v ids)%nat)) /\
  List.length seen' + List.length dup'
  <= List.length seen + List.length dup + List.length ids.
Proof.
  induction ids as [|w rest IH]; intros seen dup Hs Hd; cbn zeta.
  - cbn. repeat split; try assumption.
    + intros v. rewrite orb_false_r. reflexivity.
    + intros v. destruct (py_in v seen); rewrite orb_false_r; reflexivity.
    + lia.
  - cbn [ids_loop]. destruct (py_in w seen) eqn:E.
    + destruct (IH seen (set_add w dup) Hs (py_distinct_set_add w dup Hd))
        as (H1 & H2 & H3 & H4 & H5). cbn zeta in *.
      repeat split; try assumption.
      * intros v. rewrite H2. cbn [py_in existsb]. fold (py_in v rest).
        destruct (py_eqb v w) eqn:F; [|reflexivity].
        rewrite (py_in_eqb v w seen F), E. reflexivity.
      * intros v. rewrite H4, py_in_set_add, py_count_cons.
        destruct (py_eqb v w) eqn:F.
        -- rewrite (py_in_eqb v w seen F), E. destruct (py_in v dup); reflexivity.
        -- rewrite orb_false_r. reflexivity.
      * assert (List.length (set_add w dup) <= List.length dup + 1).
        { unfold set_add. destruct (py_in w dup); [lia|].
          rewrite length_app. cbn. lia. }
        cbn [List.length]. lia.
    + assert (Hs' : py_distinct (seen ++ [w]) = true)
        by (rewrite py_distinct_snoc, Hs, E; reflexivity).
      destruct (IH (seen ++ [w])%list dup Hs' Hd) as (H1 & H2 & H3 & H4 & H5).
      cbn zeta in *. repeat split; try assumption.
      * intros v. rewrite H2, py_in_snoc. cbn [py_in existsb]. fold (py_in v rest).
        rewrite orb_assoc. reflexivity.
      * intros v. rewrite H4, py_in_snoc, py_count_cons.
        destruct (py_eqb v w) eqn:F.
        -- rewrite (py_in_eqb v w seen F), E. cbn [orb]. reflexivity.
        -- rewrite orb_false_r. reflexivity.
      * rewrite length_app in H5. cbn [List.length] in *. lia.
Qed.

Lemma asset_ids_length assets : List.length (asset_ids assets) <= List.length assets.
Proof.
  induction assets as [|a assets IH]; [reflexivity|].
  unfold asset_ids in *. cbn [flat_map]. rewrite length_app.
  destruct (dict_get "asset_id" a); cbn [List.length]; lia.
Qed.

(** *** The validation as a whole *)

Lemma _validate_assets_outcome assets r :
  if forallb fields_readable assets then
    exists r1 r',
      _validate_assets max_str_digits set_repr assets r = Returned r' /\
      logs (existsb (fun a => negb (id_present a)) assets
            || repeats [] (asset_ids assets)) r r1 /\
      steps (existsb (fun a => negb (id_present a)) assets
             || repeats [] (asset_ids assets)) r r' /\
      metadata r'
      = metadata
          (set_metadata "duplicates"
             (VInt (Z.of_nat (List.length (snd (ids_loop (asset_ids assets) [] [])))))
             (set_metadata "unique_ids"
                (VInt (Z.of_nat (List.length (fst (ids_loop (asset_ids assets) [] [])))))
                (set_metadata "total_assets" (VInt (Z.of_nat (List.length assets))) r1)))
  else
    exists e r', _validate_assets max_str_digits set_repr assets r = Raised e r'.
Proof.
  unfold _validate_assets.
  pose proof (assets_loop_outcome assets 0 [] [] r) as H.
  destruct (forallb fields_readable assets).
  - destruct H as (r1 & -> & L). exists r1. eexists. split; [reflexivity|].
    split; [exact L|]. destruct L as [S M].
    set (b := existsb (fun a => negb (id_present a)) assets
              || repeats [] (asset_ids assets)) in *.
    remember (snd (ids_loop (asset_ids assets) [] [])) as dup eqn:Edup.
    assert (Hdup : b = false -> dup = []).
    { intros Hb. unfold b in Hb. apply orb_false_iff in Hb. destruct Hb as [_ Hb].
      rewrite Edup, (ids_loop_no_repeat _ _ _ Hb). reflexivity. }
    clear Edup. split.
    + destruct dup as [|d ds].
      * eapply (steps_then b false); [exact S| |apply orb_false_r].
        eapply (steps_then false); [apply steps_set_metadata| |reflexivity].
        eapply (steps_then false); [apply steps_set_metadata| |reflexivity].
        eapply (steps_then false); [apply steps_set_metadata| |reflexivity].
        apply steps_add_check.
      * eapply (steps_then b true); [exact S| |].
        -- eapply (steps_then false); [apply steps_set_metadata| |reflexivity].
           eapply (steps_then false); [apply steps_set_metadata| |reflexivity].
           eapply (steps_then false); [apply steps_set_metadata| |reflexivity].
           eapply (steps_then true false);
             [apply steps_add_error|apply steps_add_check|reflexivity].
        -- destruct b; [reflexivity|discriminate (Hdup eq_refl)].
    + rewrite metadata_add_check. destruct dup; [reflexivity|apply metadata_add_error].
  - destruct H as (e & r' & ->). do 2 eexists. reflexivity.
Qed.

Lemma forallb_true_Forall {A} (f : A -> bool) l :
  forallb f l = true <-> Forall (fun a => f a = true) l.
Proof.
  induction l as [|a l IH]; [split; [constructor|reflexivity]|].
  cbn [forallb]. rewrite andb_true_iff, IH. split.
  - intros [? ?]. constructor; assumption.
  - intros G. inversion G; subst. split; assumption.
Qed.

Lemma assets_accepted_iff assets :
  existsb (fun a => negb (id_present a)) assets || repeats [] (asset_ids assets) = false
  <-> Forall (fun a => id_present a = true) assets /\
      py_distinct (asset_ids assets) = true.
Proof.
  rewrite orb_false_iff, (repeats_distinct _ [] eq_refl). cbn [app].
  rewrite negb_false_iff.
  assert (H : existsb (fun a => negb (id_present a)) assets = false
              <-> Forall (fun a => id_present a = true) assets).
  { induction assets as [|a assets IH]; [split; [constructor|reflexivity]|].
    cbn [existsb]. rewrite orb_false_iff, IH, negb_false_iff. split.
    - intros [? ?]. constructor; assumption.
    - intros G. inversion G; subst. split; assumption. }
  rewrite H. reflexivity.
Qed.

End AssetsFacts.

(** X4. A list of assets passes [validate_assets] (its status is not
    [FAILED]) exactly when every asset carries an identifier that is not
    null, no identifier comes twice, and the address, serial number and
    status of every asset are absent, empty or strings; an ill-formed
    address, a long serial number or an unusual status only warn. *)
Theorem assets_pass_iff :
  forall max_str_digits set_repr exc_text assets t0 t1,
    status (validate_assets max_str_digits set_repr exc_text assets t0 t1) <> FAILED
    <-> Forall (fun a => id_present a = true) assets /\
        py_distinct (asset_ids assets) = true /\
        Forall (fun a => fields_readable a = true) assets.
Proof.
  intros max_str_digits set_repr exc_text assets t0 t1.
  unfold validate_assets. cbn [status set_times].
  set (r0 := set_times (Some t0) None (new_result "Assets Validation")).
  pose proof (_validate_assets_outcome max_str_digits set_repr assets r0) as H.
  rewrite <- (forallb_true_Forall fields_readable assets).
  destruct (forallb fields_readable assets) eqn:R.
  - destruct H as (r1 & r' & -> & _ & S & _).
    rewrite (steps_from_new _ _ _ _ _ S), assets_accepted_iff. tauto.
  - destruct H as (e & r' & ->). split.
    + intros G. exfalso. apply G. reflexivity.
    + intros (_ & _ & G). discriminate G.
Qed.

Section AssetsMetadataFacts.

Lemma dict_get_replace {V} k (v : V) d :
  has_key k d = true ->
  dict_get k (map (fun kv => if String.eqb (fst kv) k then (k, v) else kv) d) = Some v.
Proof.
  unfold has_key. induction d as [|[k' v'] d IH]; cbn; [discriminate|].
  rewrite (String.eqb_sym k' k). destruct (String.eqb k k') eqn:E; cbn.
  - rewrite String.eqb_refl. reflexivity.
  - rewrite E. exact IH.
Qed.

Lemma dict_get_append {V} k (v : V) d :
  has_key k d = false -> dict_get k (d ++ [(k, v)])%list = Some v.
Proof.
  unfold has_key. induction d as [|[k' v'] d IH]; cbn.
  - rewrite String.eqb_refl. reflexivity.
  - destruct (String.eqb k k'); [discriminate|exact IH].
Qed.

Lemma dict_get_set_metadata k v r :
  dict_get k (metadata (set_metadata k v r)) = Some v.
Proof.
  cbn [metadata set_metadata]. destruct (has_key k (metadata r)) eqn:E.
  - apply dict_get_replace, E.
  - apply dict_get_append, E.
Qed.

Lemma metadata_set_times t0 t1 r : metadata (set_times t0 t1 r) = metadata r.
Proof. reflexivity. Qed.

End AssetsMetadataFacts.

(** X5. When the fields of the assets can be read, [validate_assets]
    records three numbers: [total_assets] is the length of the list,
    [unique_ids] the number of different identifiers, [duplicates] the
    number of different identifiers that come more than once; the last two
    together never exceed the first. *)
Theorem assets_metadata_counts :
  forall max_str_digits set_repr exc_text assets t0 t1,
    Forall (fun a => fields_readable a = true) assets ->
    exists seen dup,
      metadata (validate_assets max_str_digits set_repr exc_text assets t0 t1)
      = [("total_assets", VInt (Z.of_nat (List.length assets)));
         ("unique_ids", VInt (Z.of_nat (List.length seen)));
         ("duplicates", VInt (Z.of_nat (List.length dup)))] /\
      py_distinct seen = true /\
      (forall v, py_in v seen = py_in v (asset_ids assets)) /\
      py_distinct dup = true /\
      (forall v, py_in v dup = (1 <? py_count v (asset_ids assets))%nat) /\
      List.length seen + List.length dup <= List.length assets.
Proof.
  intros max_str_digits set_repr exc_text assets t0 t1 Hread.
  apply forallb_true_Forall in Hread.
  unfold validate_assets. rewrite metadata_set_times.
  set (r0 := set_times (Some t0) None (new_result "Assets Validation")).
  pose proof (_validate_assets_outcome max_str_digits set_repr assets r0) as H.
  rewrite Hread in H. destruct H as (r1 & r' & -> & [_ M] & _ & Hm).
  exists (fst (ids_loop (asset_ids assets) [] [])),
         (snd (ids_loop (asset_ids assets) [] [])).
  destruct (ids_loop_sets (asset_ids assets) [] [] eq_refl eq_refl)
    as (H1 & H2 & H3 & H4 & H5). cbn zeta in *.
  split.
  { rewrite Hm. cbn [metadata set_metadata]. rewrite M. reflexivity. }
  split; [exact H1|]. split; [exact H2|]. split; [exact H3|].
  split; [intros v; rewrite H4; reflexivity|].
  pose proof (asset_ids_length assets). cbn [List.length] in H5. lia.
Qed.

Lemma assets_metadata_counts_witness :
  let assets := [ [("asset_id", VStr "a")]; [("asset_id", VStr "b")];
                  [("asset_id", VStr "a"); ("ip_address", VStr "10.0.0.300")];
                  [("hostname", VStr "h")]; [("asset_id", VStr "a")] ] in
  exists seen dup,
    metadata (validate_assets 4300 (fun _ => "") (fun _ => "") assets "t0" "t1")
    = [("total_assets", VInt (Z.of_nat (List.length assets)));
       ("unique_ids", VInt (Z.of_nat (List.length seen)));
       ("duplicates", VInt (Z.of_nat (List.length dup)))] /\
    py_distinct seen = true /\
    (forall v, py_in v seen = py_in v (asset_ids assets)) /\
    py_distinct dup = true /\
    (forall v, py_in v dup = (1 <? py_count v (asset_ids assets))%nat) /\
    List.length seen + List.length dup <= List.length assets.
Proof.
  intros assets.
  apply (assets_metadata_counts 4300 (fun _ => "") (fun _ => "") assets "t0" "t1").
  repeat constructor.
Defined.

(** ** Addresses *)
Section AddressFacts.

Variable max_str_digits : nat.

Definition is_dot (c : ascii) : bool := Ascii.eqb c ".".

(** The number of dots of a string. *)
Fixpoint dots (s : string) : nat :=
  match s with
  | EmptyString => 0
  | String c s' => (if is_dot c then 1 else 0) + dots s'
  end.

Lemma split_on_length s : List.length (split_on "." s) = S (dots s).
Proof.
  induction s as [|c s IH]; [reflexivity|].
  cbn [split_on dots]. unfold is_dot. destruct (Ascii.eqb c ".").
  - cbn [List.length]. rewrite IH. reflexivity.
  - destruct (split_on "." s) as [|p ps]; [discriminate IH|]. cbn in *. exact IH.
Qed.

Lemma split_on_part p : all_chars (fun c => negb (is_dot c)) p = true ->
  split_on "." p = [p].
Proof.
  induction p as [|c p IH]; [reflexivity|]. cbn [all_chars split_on].
  intros H. apply andb_true_iff in H. destruct H as [Hc Hp].
  unfold is_dot in Hc. apply negb_true_iff in Hc. rewrite Hc, (IH Hp). reflexivity.
Qed.

Lemma split_on_cons p rest : all_chars (fun c => negb (is_dot c)) p = true ->
  split_on "." (p ++ "." ++ rest) = p :: split_on "." rest.
Proof.
  induction p as [|c p IH]; [reflexivity|]. cbn [all_chars append split_on].
  intros H. apply andb_true_iff in H. destruct H as [Hc Hp].
  unfold is_dot in Hc. apply negb_true_iff in Hc. rewrite Hc.
  cbn [append] in IH. rewrite (IH Hp). reflexivity.
Qed.

Lemma is_decimal_not_dot c : is_decimal c = true -> negb (is_dot c) = true.
Proof. unfold is_dot. each_char c. Qed.

Lemma is_decimal_not_float_space c : is_decimal c = true -> negb (float.isspace c) = true.
Proof. each_char c. Qed.

Lemma lstrip_by_none p s :
  all_chars (fun c => negb (p c)) s = true -> lstrip_by p s = s.
Proof.
  destruct s as [|c s]; [reflexivity|]. cbn [all_chars lstrip_by].
  intros H. apply andb_true_iff in H. destruct H as [Hc _].
  apply negb_true_iff in Hc. rewrite Hc. reflexivity.
Qed.

Lemma drop_underscores_decimal s : forall prev,
  all_chars is_decimal s = true -> float.drop_underscores prev s = Some s.
Proof.
  induction s as [|c s IH]; intros prev H; [reflexivity|].
  cbn [all_chars] in H. apply andb_true_iff in H. destruct H as [Hc Hs].
  cbn [float.drop_underscores].
  assert (E : Ascii.eqb c "_" = false) by (revert Hc; each_char c).
  rewrite E, (IH _ Hs). reflexivity.
Qed.

(** [int] reads back what [str] writes of a natural number, unless the
    numeral is longer than the limit allows. *)
Lemma int_of_string_str_of_nat n :
  int_of_string max_str_digits (str_of_nat n)
  = if ((640 <? String.length (str_of_nat n)) && (0 <? max_str_digits)
        && (max_str_digits <? String.length (str_of_nat n)))%nat
    then None else Some (Z.of_nat n).
Proof.
  unfold int_of_string.
  pose proof (str_of_nat_decimal n) as Hd.
  pose proof (str_of_nat_nonempty n) as Hne.
  assert (Hstrip : strip_by float.isspace (str_of_nat n) = str_of_nat n).
  { unfold strip_by.
    assert (Hs : all_chars (fun c => negb (float.isspace c)) (str_of_nat n) = true)
      by (eapply all_chars_impl; [apply is_decimal_not_float_space|exact Hd]).
    rewrite (lstrip_by_none _ _ Hs). apply rstrip_by_none, Hs. }
  rewrite Hstrip.
  assert (Hsign : float.split_sign (str_of_nat n) = (false, str_of_nat n)).
  { destruct (str_of_nat n) as [|c s]; [reflexivity|].
    cbn [all_chars] in Hd. apply andb_true_iff in Hd. destruct Hd as [Hc _].
    revert Hc. each_char c. }
  rewrite Hsign, (drop_underscores_decimal _ _ Hd), Hd.
  destruct (String.eqb_spec (str_of_nat n) "") as [E|_]; [contradiction|].
  cbn [orb negb].
  rewrite digits_value_str_of_nat. reflexivity.
Qed.

Lemma short_numerals n : n <= 255 -> String.length (str_of_nat n) <= 3.
Proof.
  intros H.
  assert (G : forallb (fun k => (String.length (str_of_nat k) <=? 3)%nat) (seq 0 256) = true)
    by (vm_compute; reflexivity).
  rewrite forallb_forall in G. apply Nat.leb_le, G, in_seq. lia.
Qed.

Lemma octet_accepted n :
  match int_of_string max_str_digits (str_of_nat n) with
  | Some z => (0 <=? z)%Z && (z <=? 255)%Z
  | None => false
  end = (n <=? 255)%nat.
Proof.
  rewrite int_of_string_str_of_nat.
  destruct (Nat.leb_spec n 255) as [H|H].
  - pose proof (short_numerals n H) as L.
    replace (640 <? String.length (str_of_nat n))%nat with false
      by (symmetry; apply Nat.ltb_ge; lia).
    cbn [andb]. apply andb_true_iff. split; [apply Z.leb_le|apply Z.leb_le]; lia.
  - destruct (_ && _ && _); [reflexivity|].
    apply andb_false_iff. right. apply Z.leb_gt. lia.
Qed.

(** Four numbers written with dots between them. *)
Definition dotted (a b c d : nat) : string :=
  str_of_nat a ++ "." ++ str_of_nat b ++ "." ++ str_of_nat c ++ "." ++ str_of_nat d.

Lemma str_of_nat_no_dot n : all_chars (fun c => negb (is_dot c)) (str_of_nat n) = true.
Proof. eapply all_chars_impl; [apply is_decimal_not_dot|apply str_of_nat_decimal]. Qed.

Lemma split_on_dotted a b c d :
  split_on "." (dotted a b c d) = [str_of_nat a; str_of_nat b; str_of_nat c; str_of_nat d].
Proof.
  unfold dotted.
  rewrite !split_on_cons by apply str_of_nat_no_dot.
  rewrite split_on_part by apply str_of_nat_no_dot. reflexivity.
Qed.

End AddressFacts.

(** X6. [_is_valid_ip] accepts four numerals written with dots between them
    exactly when each number is at most 255, whatever the limit on the
    length of numerals; a string with more or fewer than three dots is
    never an address; and a string is always answered, never refused with
    an exception, while a value that is not a string raises
    [AttributeError]. *)
Theorem valid_ip_dotted_quad :
  forall max_str_digits,
    (forall a b c d,
       _is_valid_ip max_str_digits (VStr (dotted a b c d))
       = Ok ((a <=? 255) && (b <=? 255) && (c <=? 255) && (d <=? 255))%nat) /\
    (forall s, dots s <> 3 -> _is_valid_ip max_str_digits (VStr s) = Ok false) /\
    (forall s, exists valid, _is_valid_ip max_str_digits (VStr s) = Ok valid) /\
    (forall v, is_str v = false -> _is_valid_ip max_str_digits v = Raise AttributeError).
Proof.
  intros max_str_digits. split; [|split; [|split]].
  - intros a b c d. unfold _is_valid_ip. rewrite split_on_dotted.
    cbn [List.length Nat.eqb negb forallb].
    rewrite !octet_accepted, andb_true_r, !andb_assoc. reflexivity.
  - intros s H. unfold _is_valid_ip. rewrite split_on_length.
    destruct (Nat.eqb_spec (S (dots s)) 4) as [E|E]; [exfalso; apply H; lia|reflexivity].
  - intros s. unfold _is_valid_ip. destruct (negb _); eexists; reflexivity.
  - intros v H. destruct v; try reflexivity. discriminate H.
Qed.

Lemma valid_ip_dotted_quad_witness :
  _is_valid_ip 4300 (VStr "192.168.1..1") = Ok false /\
  _is_valid_ip 4300 (VInt 5) = Raise AttributeError.
Proof.
  split.
  - apply (proj1 (proj2 (valid_ip_dotted_quad 4300)) "192.168.1..1"). discriminate.
  - apply (proj2 (proj2 (proj2 (valid_ip_dotted_quad 4300))) (VInt 5)). reflexivity.
Defined.

(** ** Recommendations *)
Section RecommendationFacts.

Definition RESOLVE_DUPLICATES : string := "Resolve duplicate asset IDs before sync".
Definition ADDRESS_ERRORS : string := "Address critical errors before proceeding with sync".
Definition ALL_PASSED : string := "All validations passed successfully".

Lemma recommendations_nonempty history recs :
  _generate_recommendations history = Ok recs -> recs <> [].
Proof.
  unfold _generate_recommendations.
  destruct (metadata_recommendations history) as [more|e]; cbn [bind]; [|discriminate].
  intros [= <-]. destruct (_ ++ more)%list eqn:E; [discriminate|].
  intros H. discriminate H.
Qed.

Lemma metadata_recommendations_duplicates history : forall more v z,
  metadata_recommendations history = Ok more ->
  In v history -> dict_get "duplicates" (metadata v) = Some (VInt z) -> (0 < z)%Z ->
  In RESOLVE_DUPLICATES more.
Proof.
  induction history as [|w rest IH]; intros more v z H Hin Hd Hz; [contradiction|].
  cbn [metadata_recommendations] in H.
  destruct (match dict_get "sync_errors" (metadata w) with
            | Some n => _ | None => _ end) as [sync|e]; cbn [bind] in H; [|discriminate].
  destruct (match dict_get "duplicates" (metadata w) with
            | Some n => _ | None => _ end) as [dup|e] eqn:Edup; cbn [bind] in H;
    [|discriminate].
  destruct (metadata_recommendations rest) as [rest_more|e] eqn:Erest; cbn [bind] in H;
    [|discriminate].
  injection H as <-. apply in_or_app. right. apply in_or_app.
  destruct Hin as [->|Hin].
  - left. rewrite Hd in Edup. cbn in Edup.
    apply Z.ltb_lt in Hz. rewrite Hz in Edup. injection Edup as <-. left. reflexivity.
  - right. eapply IH; eauto.
Qed.

Lemma total_errors_positive history v :
  In v history -> errors v <> [] ->
  (0 <? list_sum (map (fun v => List.length (errors v)) history))%nat = true.
Proof.
  intros Hin Hne. apply Nat.ltb_lt.
  induction history as [|w rest IH]; [contradiction|].
  cbn [map]. change (list_sum (?a :: ?l)) with (a + list_sum l).
  destruct Hin as [->|Hin].
  - destruct (errors v); [contradiction|]. cbn [List.length]. lia.
  - specialize (IH Hin). lia.
Qed.

(** A result that holds critical errors only and no metadata. *)
Definition only_critical (v : ValidationResult) : Prop :=
  errors v = [] /\ warnings v = [] /\ metadata v = [].

Lemma recommendations_only_critical history :
  Forall only_critical history ->
  _generate_recommendations history = Ok [ALL_PASSED].
Proof.
  intros H. unfold _generate_recommendations.
  assert (He : list_sum (map (fun v => List.length (errors v)) history) = 0).
  { induction H as [|v l (E & _ & _) _ IH]; [reflexivity|].
    cbn [map]. change (list_sum (?a :: ?l)) with (a + list_sum l).
    rewrite E, IH. reflexivity. }
  assert (Hw : list_sum (map (fun v => List.length (warnings v)) history) = 0).
  { clear -H. induction H as [|v l (_ & E & _) _ IH]; [reflexivity|].
    cbn [map]. change (list_sum (?a :: ?l)) with (a + list_sum l).
    rewrite E, IH. reflexivity. }
  assert (Hm : metadata_recommendations history = Ok []).
  { clear -H. induction H as [|v l (_ & _ & E) _ IH]; [reflexivity|].
    cbn [metadata_recommendations]. rewrite E, IH. reflexivity. }
  rewrite He, Hw, Hm. reflexivity.
Qed.

End RecommendationFacts.

(** X7. [_generate_recommendations] never returns an empty list, and it
    does not look at critical errors or at the status: for a history made
    of validations of change-list files that are missing or are not JSON,
    every one of them [FAILED], the one recommendation is that all
    validations passed successfully. *)
Theorem recommendations_ignore_critical :
  (forall history recs, _generate_recommendations history = Ok recs -> recs <> []) /\
  (forall fromisoformat exc_text history,
     Forall (fun v => exists filepath filename file t0 t1,
                        (file = FileNotFound \/ exists msg, file = InvalidJSON msg) /\
                        v = validate_apl_file fromisoformat exc_text filepath filename
                              file t0 t1) history ->
     Forall (fun v => status v = FAILED) history /\
     _generate_recommendations history = Ok [ALL_PASSED]).
Proof.
  split; [exact recommendations_nonempty|].
  intros fromisoformat exc_text history H. split.
  - eapply Forall_impl; [|exact H].
    intros v (filepath & filename & file & t0 & t1 & [->|[msg ->]] & ->); reflexivity.
  - apply recommendations_only_critical. eapply Forall_impl; [|exact H].
    intros v (filepath & filename & file & t0 & t1 & [->|[msg ->]] & ->);
      repeat split.
Qed.

Lemma recommendations_ignore_critical_witness :
  let history := [validate_apl_file (fun _ => true) (fun _ => "") "a.apl" "a.apl"
                    FileNotFound "t0" "t1"] in
  Forall (fun v => status v = FAILED) history /\
  _generate_recommendations history = Ok [ALL_PASSED].
Proof.
  intros history.
  apply (proj2 recommendations_ignore_critical (fun _ => true) (fun _ => "")).
  constructor; [|constructor].
  exists "a.apl", "a.apl", FileNotFound, "t0", "t1". split; [left|]; reflexivity.
Defined.

(** X8. Duplicate identifiers found by [validate_assets] reach the
    recommendations: when the history holds the validation of a list of
    assets in which an identifier comes twice, the recommendations, if
    they can be computed, tell to resolve the duplicate identifiers and to
    address the errors. *)
Theorem duplicates_are_recommended :
  forall max_str_digits set_repr exc_text assets t0 t1 history recs,
    Forall (fun a => fields_readable a = true) assets ->
    py_distinct (asset_ids assets) = false ->
    In (validate_assets max_str_digits set_repr exc_text assets t0 t1) history ->
    _generate_recommendations history = Ok recs ->
    In RESOLVE_DUPLICATES recs /\ In ADDRESS_ERRORS recs.
Proof.
  intros max_str_digits set_repr exc_text assets t0 t1 history recs Hread Hdup Hin Hrecs.
  set (v := validate_assets max_str_digits set_repr exc_text assets t0 t1) in *.
  apply forallb_true_Forall in Hread.
  assert (Hrep : repeats [] (asset_ids assets) = true).
  { rewrite (repeats_distinct _ [] eq_refl). cbn [app]. rewrite Hdup. reflexivity. }
  pose proof (ids_loop_repeat (asset_ids assets) [] [] Hrep) as Hne.
  assert (Hv : errors v <> [] /\
               exists z, dict_get "duplicates" (metadata v) = Some (VInt z) /\ (0 < z)%Z).
  { unfold v, validate_assets, _validate_assets.
    pose proof (assets_loop_outcome max_str_digits set_repr assets 0 [] []
                  (set_times (Some t0) None (new_result "Assets Validation"))) as H.
    rewrite Hread in H. destruct H as (r1 & -> & _).
    destruct (snd (ids_loop (asset_ids assets) [] [])) as [|d ds] eqn:E;
      [contradiction|].
    cbn [errors set_times metadata]. split.
    - unfold add_check. cbn. destruct (errors _); discriminate.
    - eexists. rewrite metadata_add_check, metadata_add_error, dict_get_set_metadata.
      split; [reflexivity|]. cbn [List.length]. lia. }
  destruct Hv as (He & z & Hz & Hpos).
  unfold _generate_recommendations in Hrecs.
  destruct (metadata_recommendations history) as [more|e] eqn:Hm; cbn [bind] in Hrecs;
    [|discriminate].
  pose proof (metadata_recommendations_duplicates _ _ _ _ Hm Hin Hz Hpos) as Hres.
  rewrite (total_errors_positive _ _ Hin He) in Hrecs.
  injection Hrecs as <-. cbn [app]. split.
  - right. destruct (10 <? _)%nat; [right|]; exact Hres.
  - left. reflexivity.
Qed.

Lemma duplicates_are_recommended_witness :
  let assets := [ [("asset_id", VStr "a")]; [("asset_id", VStr "a")] ] in
  let history := [validate_assets 4300 (fun _ => "") (fun _ => "") assets "t0" "t1"] in
  _generate_recommendations history = Ok [ADDRESS_ERRORS; RESOLVE_DUPLICATES] /\
  In RESOLVE_DUPLICATES [ADDRESS_ERRORS; RESOLVE_DUPLICATES] /\
  In ADDRESS_ERRORS [ADDRESS_ERRORS; RESOLVE_DUPLICATES].
Proof.
  intros assets history.
  assert (H : _generate_recommendations history
              = Ok [ADDRESS_ERRORS; RESOLVE_DUPLICATES]) by reflexivity.
  split; [exact H|].
  apply (duplicates_are_recommended 4300 (fun _ => "") (fun _ => "") assets "t0" "t1"
           history).
  - repeat constructor.
  - reflexivity.
  - left. reflexivity.
  - exact H.
Defined.

(** ** Sorting again what is sorted, and the order of equal elements *)
Section SortOrderFacts.
Context {A : Type}.
Variable cmp : A -> A -> exn Z.

(** The two elements compare, and neither is smaller than the other. *)
Definition tie (x y : A) : bool :=
  match cmp_lt cmp x y, cmp_lt cmp y x with
  | Ok false, Ok false => true
  | _, _ => false
  end.

Lemma insert_last x acc :
  (forall a, In a acc -> in_order cmp a x) -> insert cmp x acc = Ok (acc ++ [x])%list.
Proof.
  induction acc as [|y acc IH]; intros H; [reflexivity|].
  cbn [insert app]. unfold in_order in H. rewrite (H y (or_introl eq_refl)). cbn [bind].
  rewrite IH; [reflexivity|]. intros a Ha. apply H. right. exact Ha.
Qed.

Lemma fold_insert_fixed l : forall acc,
  StronglySorted (in_order cmp) l ->
  (forall a x, In a acc -> In x l -> in_order cmp a x) ->
  fold_left (fun acc x => bind acc (insert cmp x)) l (Ok acc) = Ok (acc ++ l)%list.
Proof.
  induction l as [|x l IH]; intros acc Hs Hacc; cbn [fold_left].
  - rewrite app_nil_r. reflexivity.
  - cbn [bind]. rewrite insert_last by (intros a Ha; apply Hacc; [exact Ha|left; reflexivity]).
    inversion Hs as [|? ? Hs' Hx]; subst.
    rewrite IH; [rewrite <- app_assoc; reflexivity|exact Hs'|].
    intros a y Ha Hy. apply in_app_or in Ha. destruct Ha as [Ha|[<-|[]]].
    + apply Hacc; [exact Ha|right; exact Hy].
    + rewrite Forall_forall in Hx. apply Hx, Hy.
Qed.

(** A list in order is left as it is. *)
Lemma stable_sort_fixed l :
  StronglySorted (in_order cmp) l -> stable_sort cmp l = Ok l.
Proof.
  intros H. unfold stable_sort. rewrite (fold_insert_fixed l [] H); [reflexivity|].
  intros a x [].
Qed.

Variable dom : A -> Prop.
Hypothesis cmp_total : forall x y, dom x -> dom y -> exists b, cmp_lt cmp x y = Ok b.
Hypothesis cmp_asym : forall x y, cmp_lt cmp x y = Ok true -> cmp_lt cmp y x = Ok false.
Hypothesis cmp_trans : forall x y z,
  dom x -> dom z -> in_order cmp x y -> in_order cmp y z -> in_order cmp x z.

Lemma in_order_refl x : dom x -> in_order cmp x x.
Proof.
  intros H. unfold in_order. destruct (cmp_total x x H H) as [[|] E]; [|exact E].
  rewrite (cmp_asym _ _ E) in E. discriminate.
Qed.

Lemma sorted_strongly l :
  Forall dom l -> Sorted (in_order cmp) l -> StronglySorted (in_order cmp) l.
Proof.
  induction l as [|x l IH]; intros Hd Hs; [constructor|].
  inversion Hd as [|? ? Hx Hl]; subst. inversion Hs as [|? ? Hs' Hhd]; subst.
  specialize (IH Hl Hs'). constructor; [exact IH|].
  destruct l as [|y l]; [constructor|].
  inversion Hhd as [|? ? Hxy]; subst. inversion IH as [|? ? _ Hy]; subst.
  constructor; [exact Hxy|].
  rewrite Forall_forall in *. intros z Hz.
  apply (cmp_trans x y z); [exact Hx|apply Hl; right; exact Hz|exact Hxy|apply Hy, Hz].
Qed.

Lemma stable_sort_strongly l r :
  Forall dom l -> stable_sort cmp l = Ok r -> StronglySorted (in_order cmp) r.
Proof.
  intros Hd H. apply sorted_strongly.
  - rewrite Forall_forall in *. intros x Hx. apply Hd.
    apply (Permutation_in _ (stable_sort_perm _ _ _ H)), Hx.
  - eapply stable_sort_sorted; [exact cmp_asym|exact H].
Qed.

Lemma stable_sort_idempotent l r :
  Forall dom l -> stable_sort cmp l = Ok r -> stable_sort cmp r = Ok r.
Proof. intros Hd H. apply stable_sort_fixed. eapply stable_sort_strongly; eassumption. Qed.

Lemma insert_tie x0 z acc : forall r,
  dom x0 -> dom z -> Forall dom acc ->
  StronglySorted (in_order cmp) acc ->
  insert cmp z acc = Ok r ->
  filter (tie x0) r = (filter (tie x0) acc ++ (if tie x0 z then [z] else []))%list.
Proof.
  induction acc as [|y acc IH]; intros r H0 Hz Hd Hs H; cbn [insert] in H.
  - injection H as <-. reflexivity.
  - inversion Hd as [|? ? Hy Hacc]; subst. inversion Hs as [|? ? Hs' Hall]; subst.
    destruct (cmp_lt cmp z y) as [[|]|e] eqn:Hzy; cbn [bind] in H; try discriminate.
    + injection H as <-. cbn [filter].
      destruct (tie x0 z) eqn:Tz; [|rewrite app_nil_r; reflexivity].
      assert (G : forall w, In w (y :: acc) -> tie x0 w = false).
      { intros w Hw. destruct (tie x0 w) eqn:Tw; [exfalso|reflexivity].
        assert (Hdw : dom w).
        { destruct Hw as [<-|Hw]; [exact Hy|]. rewrite Forall_forall in Hacc.
          apply Hacc, Hw. }
        assert (Hyw : in_order cmp y w).
        { destruct Hw as [<-|Hw]; [apply in_order_refl, Hy|].
          rewrite Forall_forall in Hall. apply Hall, Hw. }
        unfold tie in Tz, Tw.
        destruct (cmp_lt cmp x0 z) as [[|]|] eqn:E1; try discriminate Tz.
        destruct (cmp_lt cmp z x0) as [[|]|] eqn:E2; try discriminate Tz.
        destruct (cmp_lt cmp x0 w) as [[|]|] eqn:E3; try discriminate Tw.
        destruct (cmp_lt cmp w x0) as [[|]|] eqn:E4; try discriminate Tw.
        assert (Hyx : in_order cmp y x0)
          by (apply (cmp_trans y w x0); [exact Hy|exact H0|exact Hyw|exact E3]).
        assert (Hyz : in_order cmp y z)
          by (apply (cmp_trans y x0 z); [exact Hy|exact Hz|exact Hyx|exact E2]).
        unfold in_order in Hyz. congruence. }
      assert (E : filter (tie x0) (y :: acc) = []).
      { clear -G. induction (y :: acc) as [|w l IH]; [reflexivity|].
        cbn [filter]. rewrite (G w (or_introl eq_refl)). apply IH.
        intros w' Hw'. apply G. right. exact Hw'. }
      cbn [filter] in E. rewrite E. reflexivity.
    + destruct (insert cmp z acc) as [r'|e] eqn:Hi; cbn [bind] in H; [|discriminate].
      injection H as <-. cbn [filter]. rewrite (IH r' H0 Hz Hacc Hs' eq_refl).
      destruct (tie x0 y); reflexivity.
Qed.

Lemma fold_insert_tie x0 l : forall acc r,
  dom x0 -> Forall dom l -> Forall dom acc ->
  Sorted (in_order cmp) acc ->
  fold_left (fun acc x => bind acc (insert cmp x)) l (Ok acc) = Ok r ->
  filter (tie x0) r = (filter (tie x0) acc ++ filter (tie x0) l)%list.
Proof.
  induction l as [|z l IH]; intros acc r H0 Hl Hacc Hs H; cbn [fold_left] in H.
  - injection H as <-. cbn. rewrite app_nil_r. reflexivity.
  - inversion Hl as [|? ? Hz Hl']; subst. cbn [bind] in H.
    destruct (insert cmp z acc) as [acc'|e] eqn:Hi;
      [|rewrite fold_insert_raise in H; discriminate].
    assert (Hacc' : Forall dom acc').
    { rewrite Forall_forall in *. intros a Ha.
      apply (Permutation_in _ (insert_perm _ _ _ _ Hi)) in Ha.
      destruct Ha as [<-|Ha]; [exact Hz|apply Hacc, Ha]. }
    rewrite (IH acc' r H0 Hl' Hacc'
               (insert_sorted _ cmp_asym _ _ _ Hi Hs) H).
    rewrite (insert_tie x0 z acc acc' H0 Hz Hacc (sorted_strongly _ Hacc Hs) Hi).
    rewrite <- app_assoc. cbn [filter]. destruct (tie x0 z); reflexivity.
Qed.

(** The sort is stable: the elements that tie with [x0] keep their order. *)
Lemma stable_sort_stable x0 l r :
  dom x0 -> Forall dom l -> stable_sort cmp l = Ok r ->
  filter (tie x0) r = filter (tie x0) l.
Proof.
  intros H0 Hl H.
  apply (fold_insert_tie x0 l [] r H0 Hl (Forall_nil _) (Sorted_nil _) H).
Qed.

End SortOrderFacts.

(** ** The order of texts and of keys *)
Section KeyOrderFacts.

Lemma ascii_compare_lt_trans a b c :
  Ascii.compare a b = Lt -> Ascii.compare b c = Lt -> Ascii.compare a c = Lt.
Proof.
  unfold Ascii.compare. rewrite !N.compare_lt_iff. apply N.lt_trans.
Qed.

Lemma ascii_compare_refl a : Ascii.compare a a = Eq.
Proof. unfold Ascii.compare. apply N.compare_refl. Qed.

Lemma string_compare_refl s : String.compare s s = Eq.
Proof. induction s as [|c s IH]; [reflexivity|]. cbn. rewrite ascii_compare_refl. exact IH. Qed.

Lemma string_compare_lt_trans s : forall t u,
  String.compare s t = Lt -> String.compare t u = Lt -> String.compare s u = Lt.
Proof.
  induction s as [|a s IH]; intros [|b t] [|c u]; cbn; try discriminate; try reflexivity.
  destruct (Ascii.compare a b) eqn:Eab; try discriminate.
  - apply Ascii.compare_eq_iff in Eab. subst b.
    destruct (Ascii.compare a c); try discriminate; [apply IH|reflexivity].
  - destruct (Ascii.compare b c) eqn:Ebc; try discriminate.
    + apply Ascii.compare_eq_iff in Ebc. subst c. rewrite Eab. reflexivity.
    + rewrite (ascii_compare_lt_trans _ _ _ Eab Ebc). reflexivity.
Qed.

(** A total order on the elements of keys that agrees with [<] wherever
    [<] is defined: numbers by value, infinity above them, texts by code. *)
Definition key_part_compare (x y : key_part) : comparison :=
  match x, y with
  | KInt a, KInt b => Z.compare a b
  | KInt _, _ => Lt
  | KInf, KInt _ => Gt
  | KInf, KInf => Eq
  | KInf, KStr _ => Lt
  | KStr a, KStr b => String.compare a b
  | KStr _, _ => Gt
  end.

Fixpoint key_compare (a b : list key_part) : comparison :=
  match a, b with
  | [], [] => Eq
  | [], _ :: _ => Lt
  | _ :: _, [] => Gt
  | x :: a', y :: b' =>
      match key_part_compare x y with
      | Eq => key_compare a' b'
      | c => c
      end
  end.

Definition is_lt (c : comparison) : bool :=
  match c with
  | Lt => true
  | _ => false
  end.

Lemma key_part_compare_eq x y : key_part_compare x y = Eq <-> x = y.
Proof.
  destruct x as [a|s|], y as [b|t|]; cbn; split; intros H;
    try discriminate H; try reflexivity.
  - apply Z.compare_eq in H. congruence.
  - injection H as ->. apply Z.compare_refl.
  - apply String.compare_eq_iff in H. congruence.
  - injection H as ->. apply string_compare_refl.
Qed.

Lemma key_part_compare_antisym x y :
  key_part_compare x y = CompOpp (key_part_compare y x).
Proof.
  destruct x as [a|s|], y as [b|t|]; cbn; try reflexivity.
  - apply Z.compare_antisym.
  - apply String.compare_antisym.
Qed.

Lemma key_part_compare_lt_trans x y z :
  key_part_compare x y = Lt -> key_part_compare y z = Lt -> key_part_compare x z = Lt.
Proof.
  destruct x as [a|s|], y as [b|t|], z as [c|u|]; cbn; try discriminate; try reflexivity.
  - rewrite !Z.compare_lt_iff. apply Z.lt_trans.
  - apply string_compare_lt_trans.
Qed.

Lemma key_compare_eq a : forall b, key_compare a b = Eq -> a = b.
Proof.
  induction a as [|x a IH]; intros [|y b]; cbn; try discriminate; try reflexivity.
  destruct (key_part_compare x y) eqn:E; try discriminate.
  apply key_part_compare_eq in E. subst y. intros H. rewrite (IH b H). reflexivity.
Qed.

Lemma key_compare_antisym a : forall b, key_compare a b = CompOpp (key_compare b a).
Proof.
  induction a as [|x a IH]; intros [|y b]; cbn; try reflexivity.
  rewrite (key_part_compare_antisym y x).
  destruct (key_part_compare x y); cbn; [apply IH|reflexivity|reflexivity].
Qed.

Lemma key_compare_lt_trans a : forall b c,
  key_compare a b = Lt -> key_compare b c = Lt -> key_compare a c = Lt.
Proof.
  induction a as [|x a IH]; intros [|y b] [|z c]; cbn; try discriminate; try reflexivity.
  destruct (key_part_compare x y) eqn:Exy; try discriminate.
  - apply key_part_compare_eq in Exy. subst y.
    destruct (key_part_compare x z); try discriminate; [apply IH|reflexivity].
  - destruct (key_part_compare y z) eqn:Eyz; try discriminate.
    + apply key_part_compare_eq in Eyz. subst z. rewrite Exy. reflexivity.
    + rewrite (key_part_compare_lt_trans _ _ _ Exy Eyz). reflexivity.
Qed.

(** The elements that are not smaller follow one another. *)
Lemma key_compare_le_trans a b c :
  is_lt (key_compare b a) = false -> is_lt (key_compare c b) = false ->
  is_lt (key_compare c a) = false.
Proof.
  intros Hba Hcb. destruct (key_compare c a) eqn:Hca; try reflexivity. exfalso.
  destruct (key_compare b a) eqn:E; try discriminate Hba.
  - apply key_compare_eq in E. subst b. rewrite Hca in Hcb. discriminate.
  - rewrite key_compare_antisym in E. destruct (key_compare a b) eqn:Eab; try discriminate E.
    rewrite (key_compare_lt_trans _ _ _ Hca Eab) in Hcb. discriminate.
Qed.

Lemma key_part_eqb_compare x y :
  key_part_eqb x y = match key_part_compare x y with Eq => true | _ => false end.
Proof.
  destruct x as [a|s|], y as [b|t|]; cbn; try reflexivity.
  - destruct (Z.compare_spec a b) as [->|H|H].
    + apply Z.eqb_refl.
    + apply Z.eqb_neq. lia.
    + apply Z.eqb_neq. lia.
  - destruct (String.compare s t) eqn:E.
    + apply String.compare_eq_iff in E. subst. apply String.eqb_refl.
    + apply String.eqb_neq. intros ->. rewrite string_compare_refl in E. discriminate.
    + apply String.eqb_neq. intros ->. rewrite string_compare_refl in E. discriminate.
Qed.

Lemma key_part_ltb_compare x y r :
  key_part_ltb x y = Ok r -> r = is_lt (key_part_compare x y).
Proof.
  destruct x as [a|s|], y as [b|t|]; cbn; try discriminate; intros [= <-];
    reflexivity.
Qed.

Lemma key_ltb_compare a : forall b r,
  key_ltb a b = Ok r -> r = is_lt (key_compare a b).
Proof.
  induction a as [|x a IH]; intros [|y b] r; cbn; try (intros [= <-]; reflexivity).
  rewrite key_part_eqb_compare.
  destruct (key_part_compare x y) eqn:E; [apply IH| |].
  - intros H. apply key_part_ltb_compare in H. rewrite E in H. exact H.
  - intros H. apply key_part_ltb_compare in H. rewrite E in H. exact H.
Qed.

(** The place of an asset in the order: the assets with an identifier by
    their keys, the others after them. *)
Definition rank (a : asset) : nat * list key_part :=
  if truthy (id_of a)
  then (0, match natural_sort_key (id_of a) with
           | Ok k => k
           | Raise _ => []
           end)
  else (1, []).

Definition rank_ltb (p q : nat * list key_part) : bool :=
  (fst p <? fst q)%nat || ((fst p =? fst q)%nat && is_lt (key_compare (snd p) (snd q))).

Lemma rank_le_trans p q s :
  rank_ltb q p = false -> rank_ltb s q = false -> rank_ltb s p = false.
Proof.
  unfold rank_ltb. destruct p as [n a], q as [m b], s as [k c]. cbn [fst snd].
  intros H1 H2. apply orb_false_iff in H1, H2. destruct H1 as [H1 H1'], H2 as [H2 H2'].
  apply Nat.ltb_ge in H1, H2. apply orb_false_iff. split; [apply Nat.ltb_ge; lia|].
  destruct (Nat.eqb_spec k n) as [->|]; [|reflexivity]. cbn [andb].
  assert (m = n) by lia. subst m. rewrite Nat.eqb_refl in H1', H2'. cbn [andb] in *.
  eapply key_compare_le_trans; eassumption.
Qed.

Lemma cmp_lt_rank a b r :
  cmp_lt asset_id_comparator a b = Ok r -> r = rank_ltb (rank a) (rank b).
Proof.
  unfold cmp_lt, rank.
  destruct (truthy (id_of a)) eqn:Ha, (truthy (id_of b)) eqn:Hb.
  - rewrite (comparator_truthy a b Ha Hb).
    destruct (natural_sort_key (id_of a)) as [ka|]; [|discriminate].
    destruct (natural_sort_key (id_of b)) as [kb|]; [|discriminate].
    cbn [bind]. unfold rank_ltb. cbn [fst snd Nat.ltb Nat.leb Nat.eqb orb andb].
    destruct (key_ltb ka kb) as [lt|] eqn:Hlt; cbn [bind]; [|discriminate].
    rewrite <- (key_ltb_compare _ _ _ Hlt).
    destruct lt; [intros [= <-]; reflexivity|].
    destruct (key_ltb kb ka) as [[|]|]; cbn [bind]; try discriminate;
      intros [= <-]; reflexivity.
  - destruct (comparator_falsy_truthy b a Hb Ha) as [_ ->]. cbn. intros [= <-]. reflexivity.
  - destruct (comparator_falsy_truthy a b Ha Hb) as [-> _]. cbn. intros [= <-]. reflexivity.
  - rewrite (comparator_falsy_falsy a b Ha Hb). cbn. intros [= <-]. reflexivity.
Qed.

Lemma comparator_in_order_trans x y z :
  (exists b, cmp_lt asset_id_comparator z x = Ok b) ->
  in_order asset_id_comparator x y -> in_order asset_id_comparator y z ->
  in_order asset_id_comparator x z.
Proof.
  unfold in_order. intros [b Hb] Hxy Hyz. rewrite Hb. f_equal.
  rewrite (cmp_lt_rank _ _ _ Hb).
  apply (rank_le_trans _ (rank y)).
  - symmetry. apply (cmp_lt_rank _ _ _ Hxy).
  - symmetry. apply (cmp_lt_rank _ _ _ Hyz).
Qed.

Lemma comparable_cmp_lt l x y :
  comparable asset_id_comparator l -> In x l -> In y l ->
  exists b, cmp_lt asset_id_comparator x y = Ok b.
Proof.
  intros H Hx Hy. destruct (H x y Hx Hy) as [c Hc]. unfold cmp_lt. rewrite Hc.
  eexists. reflexivity.
Qed.

(** The comparator reads an asset through its identifier only. *)
Lemma comparator_get a a' b b' :
  sorter.get "asset_id" a' = sorter.get "asset_id" a ->
  sorter.get "asset_id" b' = sorter.get "asset_id" b ->
  asset_id_comparator a' b' = asset_id_comparator a b.
Proof.
  intros Ha Hb.
  assert (G : forall x x', sorter.get "asset_id" x' = sorter.get "asset_id" x ->
              truthy (id_of x') = truthy (id_of x) /\
              (truthy (id_of x) = true -> id_of x' = id_of x)).
  { intros x x' H. rewrite !truthy_id_of, H. split; [reflexivity|].
    intros T. rewrite (id_of_truthy x T), (id_of_truthy x') by (rewrite H; exact T).
    exact H. }
  destruct (G a a' Ha) as [Ta Ia]. destruct (G b b' Hb) as [Tb Ib].
  destruct (truthy (id_of a)) eqn:Ea, (truthy (id_of b)) eqn:Eb.
  - rewrite (comparator_truthy a' b' Ta Tb), (comparator_truthy a b Ea Eb).
    rewrite (Ia eq_refl), (Ib eq_refl). reflexivity.
  - destruct (comparator_falsy_truthy b' a' Tb Ta) as [_ ->].
    destruct (comparator_falsy_truthy b a Eb Ea) as [_ ->]. reflexivity.
  - destruct (comparator_falsy_truthy a' b' Ta Tb) as [-> _].
    destruct (comparator_falsy_truthy a b Ea Eb) as [-> _]. reflexivity.
  - rewrite (comparator_falsy_falsy a' b' Ta Tb), (comparator_falsy_falsy a b Ea Eb).
    reflexivity.
Qed.

End KeyOrderFacts.

(** ** Sorting assets and their fields *)
Section SortAgainFacts.

Lemma insert_map {A} (cmp : A -> A -> exn Z) (f : A -> A) x l :
  (forall a b, cmp (f a) (f b) = cmp a b) ->
  insert cmp (f x) (map f l)
  = match insert cmp x l with
    | Ok r => Ok (map f r)
    | Raise e => Raise e
    end.
Proof.
  intros Hf. induction l as [|y l IH]; [reflexivity|].
  cbn [map insert]. unfold cmp_lt. rewrite Hf.
  destruct (cmp x y) as [c|e]; cbn [bind]; [|reflexivity].
  destruct (c <? 0)%Z; [reflexivity|].
  rewrite IH. destruct (insert cmp x l); reflexivity.
Qed.

Lemma stable_sort_map {A} (cmp : A -> A -> exn Z) (f : A -> A) l :
  (forall a b, cmp (f a) (f b) = cmp a b) ->
  stable_sort cmp (map f l)
  = match stable_sort cmp l with
    | Ok r => Ok (map f r)
    | Raise e => Raise e
    end.
Proof.
  intros Hf. unfold stable_sort.
  assert (G : forall l acc,
            fold_left (fun acc x => bind acc (insert cmp x)) (map f l)
              (match acc with Ok r => Ok (map f r) | Raise e => Raise e end)
            = match fold_left (fun acc x => bind acc (insert cmp x)) l acc with
              | Ok r => Ok (map f r)
              | Raise e => Raise e
              end).
  { clear l. induction l as [|x l IH]; intros acc; [reflexivity|].
    cbn [map fold_left]. rewrite <- IH. f_equal.
    destruct acc as [r|e]; cbn [bind]; [|reflexivity]. apply insert_map, Hf. }
  apply (G l (Ok [])).
Qed.

(** *** The fields *)

(** The sort key of a field, as a key. *)
Definition field_key (f : string) : list key_part :=
  [KInt (fst (field_sort_key f)); KStr (snd (field_sort_key f))].

Lemma cmp_lt_field f g :
  cmp_lt field_cmp f g = Ok (is_lt (key_compare (field_key f) (field_key g))).
Proof.
  unfold cmp_lt, field_cmp, field_key.
  destruct (field_sort_key f) as [p n], (field_sort_key g) as [q m].
  cbn [bind fst snd key_compare key_part_compare]. f_equal.
  unfold String.ltb. rewrite (String.compare_antisym n m).
  destruct (Z.compare_spec p q) as [->|H|H].
  - rewrite Z.ltb_irrefl. destruct (String.compare m n); reflexivity.
  - apply Z.ltb_lt in H. rewrite H. reflexivity.
  - assert (E : (p <? q)%Z = false) by (apply Z.ltb_ge; lia).
    apply Z.ltb_lt in H. rewrite E, H. reflexivity.
Qed.

Lemma field_cmp_asym f g :
  cmp_lt field_cmp f g = Ok true -> cmp_lt field_cmp g f = Ok false.
Proof.
  rewrite !cmp_lt_field, (key_compare_antisym (field_key g)).
  generalize (key_compare (field_key f) (field_key g)). intros [| |]; cbn; congruence.
Qed.

Lemma field_cmp_trans f g h :
  in_order field_cmp f g -> in_order field_cmp g h -> in_order field_cmp f h.
Proof.
  unfold in_order. rewrite !cmp_lt_field. intros H1 H2. f_equal.
  apply (key_compare_le_trans _ (field_key g)); congruence.
Qed.

Lemma fields_strongly_sorted ks r :
  stable_sort field_cmp ks = Ok r -> StronglySorted (in_order field_cmp) r.
Proof.
  intros H.
  refine (stable_sort_strongly field_cmp (fun _ => True) field_cmp_asym _ ks r _ H).
  - intros x y z _ _. apply field_cmp_trans.
  - apply Forall_forall. intros; exact I.
Qed.

Lemma stable_sort_field_returns ks : exists r, stable_sort field_cmp ks = Ok r.
Proof.
  apply stable_sort_returns. intros x y _ _. apply field_cmp_returns.
Qed.

Lemma sort_asset_fields_keys a :
  exists ks, stable_sort field_cmp (keys a) = Ok ks /\
             sort_asset_fields a = map (fun k => (k, get_default k VNone a)) ks /\
             keys (sort_asset_fields a) = ks.
Proof.
  destruct (stable_sort_field_returns (keys a)) as [ks Hks]. exists ks.
  split; [exact Hks|]. unfold sort_asset_fields, sorted. rewrite Hks.
  split; [reflexivity|]. unfold keys. rewrite map_map. cbn [fst]. apply map_id.
Qed.

Lemma sort_asset_fields_idempotent a :
  sort_asset_fields (sort_asset_fields a) = sort_asset_fields a.
Proof.
  destruct (sort_asset_fields_keys a) as (ks & Hks & Ha & Hk).
  destruct (sort_asset_fields_keys (sort_asset_fields a)) as (ks' & Hks' & Ha' & _).
  rewrite Hk in Hks'.
  rewrite (stable_sort_fixed _ _ (fields_strongly_sorted _ _ Hks)) in Hks'.
  injection Hks' as <-. rewrite Ha'. etransitivity; [|symmetry; exact Ha].
  apply map_ext. intros k. f_equal. apply (get_sort_asset_fields k a).
Qed.

(** The priority of a field is at least 1, and 1 for [asset_id] only. *)
Lemma field_priority f :
  (1 <= fst (field_sort_key f))%Z /\
  (fst (field_sort_key f) = 1%Z -> lower f = "asset_id").
Proof.
  unfold field_sort_key. cbn [fst]. unfold FIELD_PRIORITY. cbn [dict_get].
  repeat match goal with
         | |- context [String.eqb ?a ?b] => destruct (String.eqb_spec a b)
         end; split; try lia; try (intros; assumption); intros H; discriminate H.
Qed.

Lemma priority_not_less p n q m :
  is_lt (key_compare [KInt p; KStr n] [KInt q; KStr m]) = false -> (q <= p)%Z.
Proof.
  cbn [key_compare key_part_compare].
  destruct (Z.compare_spec p q) as [E|E|E]; intros H; try lia. discriminate H.
Qed.

Lemma sort_asset_fields_first a k :
  dict_get "asset_id" a = Some k ->
  exists first rest, keys (sort_asset_fields a) = first :: rest /\
                     lower first = "asset_id".
Proof.
  intros Hk.
  destruct (sort_asset_fields_keys a) as (ks & Hks & _ & ->).
  pose proof (fields_strongly_sorted _ _ Hks) as Hs.
  assert (Hin : In "asset_id" ks).
  { apply (Permutation_in _ (Permutation_sym (stable_sort_perm _ _ _ Hks))).
    clear -Hk. induction a as [|[k' v] a IH]; [discriminate|].
    unfold keys in *. cbn [dict_get map fst In] in Hk |- *.
    destruct (String.eqb_spec "asset_id" k') as [<-|]; [left; reflexivity|].
    right. apply IH, Hk. }
  destruct ks as [|first rest]; [contradiction|]. exists first, rest.
  split; [reflexivity|].
  assert (Hle : in_order field_cmp first "asset_id").
  { destruct Hin as [->|Hin].
    - unfold in_order. rewrite cmp_lt_field. reflexivity.
    - inversion Hs as [|? ? _ Hall]; subst. rewrite Forall_forall in Hall.
      apply Hall, Hin. }
  unfold in_order in Hle. rewrite cmp_lt_field in Hle.
  destruct (field_priority first) as [H1 H2]. apply H2.
  assert (Hq : (fst (field_sort_key first) <= fst (field_sort_key "asset_id"))%Z).
  { apply (priority_not_less _ (snd (field_sort_key "asset_id"))
             _ (snd (field_sort_key first))).
    unfold field_key in Hle. congruence. }
  change (fst (field_sort_key "asset_id")) with 1%Z in Hq. lia.
Qed.

(** *** The assets *)

Lemma comparator_sort_asset_fields a b :
  asset_id_comparator (sort_asset_fields a) (sort_asset_fields b)
  = asset_id_comparator a b.
Proof. apply comparator_get; apply get_sort_asset_fields. Qed.

Lemma comparable_ordered assets :
  comparable asset_id_comparator assets ->
  forall l r, Forall (fun a => In a assets) l ->
    stable_sort asset_id_comparator l = Ok r ->
    StronglySorted (in_order asset_id_comparator) r.
Proof.
  intros Hc l r Hl H.
  refine (stable_sort_strongly asset_id_comparator (fun a => In a assets)
            comparator_asym _ l r Hl H).
  intros x y z Hx Hz. apply comparator_in_order_trans.
  apply (comparable_cmp_lt assets); assumption.
Qed.

Lemma Forall_In_self {A} (l : list A) : Forall (fun a => In a l) l.
Proof. apply Forall_forall. intros a Ha. exact Ha. Qed.

Lemma comparable_rev {A} (cmp : A -> A -> exn Z) l :
  comparable cmp l -> comparable cmp (rev l).
Proof. intros H x y Hx Hy. apply H; apply in_rev; assumption. Qed.

Lemma sort_assets_ascending assets :
  comparable asset_id_comparator assets ->
  exists r, stable_sort asset_id_comparator assets = Ok r /\
            sort_assets assets false = map sort_asset_fields r /\
            StronglySorted (in_order asset_id_comparator) r.
Proof.
  intros Hc. destruct (stable_sort_returns _ _ Hc) as [r Hr]. exists r.
  split; [exact Hr|]. split.
  - unfold sort_assets, sort_assets_with, sorted. rewrite Hr. reflexivity.
  - apply (comparable_ordered assets Hc assets r (Forall_In_self _) Hr).
Qed.

Lemma strongly_sorted_map_fields r :
  StronglySorted (in_order asset_id_comparator) r ->
  StronglySorted (in_order asset_id_comparator) (map sort_asset_fields r).
Proof.
  induction 1 as [|a r Hs IH Ha]; [constructor|].
  cbn [map]. constructor; [exact IH|].
  rewrite Forall_forall in *. intros b Hb. apply in_map_iff in Hb.
  destruct Hb as (b0 & <- & Hb0). unfold in_order, cmp_lt.
  rewrite comparator_sort_asset_fields. apply (Ha b0 Hb0).
Qed.

Lemma sort_assets_reverse assets :
  sort_assets assets true = rev (sort_assets (rev assets) false).
Proof.
  unfold sort_assets, sort_assets_with, sorted.
  destruct (stable_sort asset_id_comparator (rev assets)) as [r|e] eqn:H; cbn [bind].
  - rewrite map_rev. reflexivity.
  - (* the sort fails either way: the list handed in is returned *)
    rewrite rev_involutive. reflexivity.
Qed.

Lemma tie_sort_asset_fields x a :
  tie asset_id_comparator x (sort_asset_fields a) = tie asset_id_comparator x a.
Proof.
  unfold tie, cmp_lt.
  rewrite (comparator_get x x a (sort_asset_fields a) eq_refl (get_sort_asset_fields _ a)).
  rewrite (comparator_get a (sort_asset_fields a) x x (get_sort_asset_fields _ a) eq_refl).
  reflexivity.
Qed.

Lemma filter_map_fields x r :
  filter (tie asset_id_comparator x) (map sort_asset_fields r)
  = map sort_asset_fields (filter (tie asset_id_comparator x) r).
Proof.
  induction r as [|a r IH]; [reflexivity|].
  cbn [map filter]. rewrite tie_sort_asset_fields, IH.
  destruct (tie asset_id_comparator x a); reflexivity.
Qed.

Lemma filter_rev {A} (p : A -> bool) l : filter p (rev l) = rev (filter p l).
Proof.
  induction l as [|a l IH]; [reflexivity|].
  cbn [rev filter]. rewrite filter_app, IH. cbn [filter].
  destruct (p a); [reflexivity|apply app_nil_r].
Qed.

Lemma stable_sort_comparable_stable assets x r :
  comparable asset_id_comparator assets -> In x assets ->
  stable_sort asset_id_comparator assets = Ok r ->
  filter (tie asset_id_comparator x) r = filter (tie asset_id_comparator x) assets.
Proof.
  intros Hc Hx H.
  refine (stable_sort_stable asset_id_comparator (fun a => In a assets) _
            comparator_asym _ x assets r Hx (Forall_In_self _) H).
  - intros a b Ha Hb. apply (comparable_cmp_lt assets); assumption.
  - intros a b c Ha Hc'. apply comparator_in_order_trans.
    apply (comparable_cmp_lt assets); assumption.
Qed.

End SortAgainFacts.

(** X9. [sort_asset_fields] keeps what every field holds and the set of
    field names, sorting the same asset again changes nothing, and an
    asset that has the field [asset_id] gets it, or a field that is the
    same but for the case of its letters, as its first field. *)
Theorem sort_asset_fields_keeps_and_orders :
  forall a,
    (forall k, sorter.get k (sort_asset_fields a) = sorter.get k a) /\
    Permutation (keys (sort_asset_fields a)) (keys a) /\
    sort_asset_fields (sort_asset_fields a) = sort_asset_fields a /\
    (has_key "asset_id" a = true ->
     exists first rest, keys (sort_asset_fields a) = first :: rest /\
                        lower first = "asset_id").
Proof.
  intros a. split; [intros k; apply get_sort_asset_fields|].
  split.
  { destruct (sort_asset_fields_keys a) as (ks & Hks & _ & ->).
    apply (stable_sort_perm _ _ _ Hks). }
  split; [apply sort_asset_fields_idempotent|].
  unfold has_key. destruct (dict_get "asset_id" a) as [k|] eqn:E; [|discriminate].
  intros _. apply (sort_asset_fields_first a k E).
Qed.

Lemma sort_asset_fields_keeps_and_orders_witness :
  let a := [("notes", VStr "n"); ("Asset_ID", VStr "srv1"); ("model", VStr "m");
            ("asset_id", VStr "srv1")] in
  exists first rest, keys (sort_asset_fields a) = first :: rest /\
                     lower first = "asset_id".
Proof.
  intros a.
  apply (proj2 (proj2 (proj2 (sort_asset_fields_keeps_and_orders a)))).
  reflexivity.
Defined.

(** X10. Sorting assets twice is sorting them once, in either direction,
    when all their identifiers compare with one another, and also when
    the sort fails (the list is then returned as it is both times). *)
Theorem sort_assets_idempotent :
  forall assets reverse,
    comparable asset_id_comparator assets \/
    (exists e, sorted asset_id_comparator assets reverse = Raise e) ->
    sort_assets (sort_assets assets reverse) reverse = sort_assets assets reverse.
Proof.
  assert (Asc : forall assets, comparable asset_id_comparator assets ->
            sort_assets (sort_assets assets false) false = sort_assets assets false).
  { intros assets Hc.
    destruct (sort_assets_ascending assets Hc) as (r & Hr & -> & Hs).
    unfold sort_assets, sort_assets_with, sorted.
    rewrite (stable_sort_map _ _ _ comparator_sort_asset_fields).
    rewrite (stable_sort_fixed _ _ Hs), map_map.
    apply map_ext. intros a. apply sort_asset_fields_idempotent. }
  intros assets [|] [Hc|[e He]].
  - rewrite !sort_assets_reverse, rev_involutive.
    rewrite (Asc (rev assets) (comparable_rev _ _ Hc)). reflexivity.
  - unfold sort_assets, sort_assets_with. rewrite He. rewrite He. reflexivity.
  - apply Asc, Hc.
  - unfold sort_assets, sort_assets_with. rewrite He. rewrite He. reflexivity.
Qed.

Lemma sort_assets_idempotent_witness :
  let assets := [ [("asset_id", VStr "srv10")]; [("asset_id", VNone)];
                  [("asset_id", VStr "srv2"); ("a", VInt 1)] ] in
  sort_assets (sort_assets assets true) true = sort_assets assets true.
Proof.
  intros assets. apply sort_assets_idempotent. left.
  intros x y Hx Hy. cbn in Hx, Hy.
  repeat (destruct Hx as [<-|Hx]); try contradiction;
    repeat (destruct Hy as [<-|Hy]); try contradiction;
    eexists; reflexivity.
Defined.

(** X11. When all identifiers compare with one another, [sort_assets]
    puts the assets in ascending order (no asset is smaller than one
    before it) and the sort is stable: the assets that compare equal to a
    given one come out in the order they came in, in ascending and in
    descending order alike; the descending order is the reverse of the
    ascending order of the reversed list. *)
Theorem sort_assets_ordered_and_stable :
  forall assets,
    comparable asset_id_comparator assets ->
    StronglySorted (in_order asset_id_comparator) (sort_assets assets false) /\
    (forall x reverse,
       In x assets ->
       filter (tie asset_id_comparator x) (sort_assets assets reverse)
       = map sort_asset_fields (filter (tie asset_id_comparator x) assets)) /\
    sort_assets assets true = rev (sort_assets (rev assets) false).
Proof.
  intros assets Hc. split; [|split].
  - destruct (sort_assets_ascending assets Hc) as (r & _ & -> & Hs).
    apply strongly_sorted_map_fields, Hs.
  - assert (Asc : forall l x, comparable asset_id_comparator l -> In x l ->
              filter (tie asset_id_comparator x) (sort_assets l false)
              = map sort_asset_fields (filter (tie asset_id_comparator x) l)).
    { intros l x Hl Hx. destruct (sort_assets_ascending l Hl) as (r & Hr & -> & _).
      rewrite filter_map_fields.
      rewrite (stable_sort_comparable_stable l x r Hl Hx Hr). reflexivity. }
    intros x [|] Hx; [|apply Asc; assumption].
    rewrite sort_assets_reverse, filter_rev.
    rewrite (Asc (rev assets) x (comparable_rev _ _ Hc)) by (apply in_rev in Hx; exact Hx).
    rewrite filter_rev, map_rev, rev_involutive. reflexivity.
  - apply sort_assets_reverse.
Qed.

Lemma sort_assets_ordered_and_stable_witness :
  let assets := [ [("asset_id", VStr "dup1"); ("value", VStr "first")];
                  [("asset_id", VStr "a")];
                  [("asset_id", VStr "DUP1"); ("value", VStr "second")] ] in
  filter (tie asset_id_comparator [("asset_id", VStr "dup1"); ("value", VStr "first")])
    (sort_assets assets true)
  = map sort_asset_fields
      (filter (tie asset_id_comparator [("asset_id", VStr "dup1"); ("value", VStr "first")])
         assets).
Proof.
  intros assets.
  assert (Hc : comparable asset_id_comparator assets).
  { intros x y Hx Hy. cbn in Hx, Hy.
    repeat (destruct Hx as [<-|Hx]); try contradiction;
      repeat (destruct Hy as [<-|Hy]); try contradiction;
      eexists; reflexivity. }
  apply (proj1 (proj2 (sort_assets_ordered_and_stable assets Hc))).
  left. reflexivity.
Defined.

(** ** More of [lib/differ.py]: comparing two values *)

Section FloatFacts.

(** The sign handed to the rounding only decides the sign of the result. *)
Lemma abs_binary_round s s' m e :
  SFabs (binary_round float.prec float.emax s m e)
  = SFabs (binary_round float.prec float.emax s' m e).
Proof.
  unfold binary_round.
  destruct (shl_align m e _) as [mz ez]. unfold binary_round_aux.
  destruct (shr_fexp float.prec float.emax (Z.pos mz) ez loc_Exact) as [mrs e'].
  destruct (shr_fexp float.prec float.emax _ e' loc_Exact) as [mrs' e''].
  destruct (shr_m mrs') as [|p|p]; [reflexivity| |reflexivity].
  destruct (Z.leb e'' _); reflexivity.
Qed.

Lemma abs_binary_normalize m e :
  SFabs (binary_normalize float.prec float.emax m e false)
  = SFabs (binary_normalize float.prec float.emax (- m) e false).
Proof.
  destruct m as [|p|p]; cbn [Z.opp binary_normalize]; [reflexivity| |];
    apply abs_binary_round.
Qed.

(** [abs(x - y) == abs(y - x)], whatever the two floats are. *)
Lemma abs_sub_sym x y :
  float.abs (float.sub x y) = float.abs (float.sub y x).
Proof.
  unfold float.abs, float.sub.
  destruct x as [sx|sx| |sx mx ex], y as [sy|sy| |sy my ey]; cbn [SFsub SFabs];
    try reflexivity; try (destruct sx, sy; reflexivity).
  rewrite (Z.min_comm ey ex). rewrite abs_binary_normalize. f_equal. f_equal. lia.
Qed.

(** A finite float minus itself is the positive zero. *)
Lemma sub_self_finite s m e :
  float.sub (S754_finite s m e) (S754_finite s m e) = S754_zero false.
Proof.
  unfold float.sub. cbn [SFsub]. rewrite Z.sub_diag. reflexivity.
Qed.

End FloatFacts.

Section CompareValuesFacts.
Variable self : config.

(** What [float(v)] gives is an infinity or a NaN: only a string reads so. *)
Definition reads_as_non_finite (v : value) : bool :=
  match float.of_value v with
  | Ok (S754_infinity _) | Ok S754_nan => true
  | _ => false
  end.

(** X14. [normalize_value] is idempotent under every configuration: a
    normalized value is its own normal form, so values are compared by a
    canonical representative. *)
Theorem normalize_value_idempotent v :
  normalize_value self (normalize_value self v) = normalize_value self v.
Proof.
  destruct v as [|b|z|s]; cbn [normalize_value]; try reflexivity.
  - destruct (normalize_whitespace self), (case_sensitive self); reflexivity.
  - f_equal.
    destruct (normalize_whitespace self), (case_sensitive self); cbn [negb].
    + rewrite (split_ws_concat _ (split_ws_is_word s)). reflexivity.
    + rewrite (lower_concat (split_ws s)), split_ws_concat.
      * rewrite <- (lower_concat (split_ws s)). apply lower_idem.
      * apply Forall_map.
        apply (Forall_impl _ is_word_lower (split_ws_is_word s)).
    + reflexivity.
    + apply lower_idem.
Qed.

Lemma compare_values_swap a b field :
  float_safe a = true -> float_safe b = true ->
  compare_values self a b field = compare_values self b a field.
Proof.
  unfold float_safe, compare_values. intros Ha Hb.
  rewrite (andb_comm (is_none b)), (orb_comm (is_none b)).
  destruct (is_none a && is_none b); [reflexivity|].
  destruct (is_none a || is_none b); [reflexivity|].
  rewrite (py_eqb_sym (normalize_value self b)).
  destruct (float.of_value a) as [x|[]], (float.of_value b) as [y|[]];
    try discriminate; try reflexivity.
  rewrite abs_sub_sym. reflexivity.
Qed.

Lemma compare_values_self a field :
  float.leb (S754_zero false) (tolerance self) = true ->
  float_safe a = true ->
  compare_values self a a field = Ok (negb (reads_as_non_finite a)).
Proof.
  unfold float_safe, compare_values, reads_as_non_finite. intros Htol Ha.
  destruct (is_none a) eqn:Hn.
  - destruct a; try discriminate Hn. reflexivity.
  - cbn [andb orb]. rewrite py_eqb_refl.
    destruct (float.of_value a) as [x|[]]; try discriminate; try reflexivity.
    destruct x as [s|s| |s m e].
    + destruct s; cbn; rewrite Htol; reflexivity.
    + destruct s; reflexivity.
    + reflexivity.
    + rewrite sub_self_finite. cbn [float.abs SFabs negb]. rewrite Htol. reflexivity.
Qed.

End CompareValuesFacts.

(** X12. [compare_values] does not depend on the order of its two values
    when neither holds a number too large for a float.  (When one does,
    the order matters: the error leaves the function only if the
    conversion of the large number is reached.) *)
Theorem compare_values_symmetric :
  forall self a b field,
    float_safe a = true -> float_safe b = true ->
    compare_values self a b field = compare_values self b a field.
Proof. intros self a b field Ha Hb. apply compare_values_swap; assumption. Qed.

Lemma compare_values_symmetric_witness :
  compare_values default_config (VStr "7.995") (VInt 8) "ram_gb"
  = compare_values default_config (VInt 8) (VStr "7.995") "ram_gb" /\
  compare_values default_config (VInt 8) (VStr "7.995") "ram_gb" = Ok true.
Proof.
  split; [|reflexivity].
  apply compare_values_symmetric; reflexivity.
Defined.

(** X13. With a tolerance that is not negative, a value that is not too
    large for a float is found equal to itself exactly when it does not
    read as an infinity or a NaN: [abs(inf - inf)] is a NaN, which is not
    below any tolerance, so the strings "inf" and "nan" differ from
    themselves. *)
Theorem compare_values_reflexive :
  forall self a field,
    float.leb (S754_zero false) (tolerance self) = true ->
    float_safe a = true ->
    compare_values self a a field = Ok (negb (reads_as_non_finite a)).
Proof. intros self a field Htol Ha. apply compare_values_self; assumption. Qed.

Lemma compare_values_reflexive_witness :
  compare_values default_config (VStr "Infinity") (VStr "Infinity") "load" = Ok false /\
  compare_values default_config (VStr "DC1 Rack5") (VStr "DC1 Rack5") "location" = Ok true.
Proof.
  split.
  - apply (compare_values_reflexive default_config (VStr "Infinity") "load");
      reflexivity.
  - apply (compare_values_reflexive default_config (VStr "DC1 Rack5") "location");
      reflexivity.
Defined.

(** ** More of [lib/differ.py]: the differences of two records *)

Section MatchedFacts.
Variable self : config.
Variables zabbix_asset topdesk_asset : dict value.

(** The entry the loop of [_compare_matched_assets] appends for a field
    it reports. *)
Definition reported_difference (field : string) : difference :=
  if negb (has_key field zabbix_asset) then
    {| field_name := field; zabbix_value := VStr "null";
       topdesk_value := VStr (str (differ.get field topdesk_asset));
       difference_type := "missing_in_zabbix" |}
  else if negb (has_key field topdesk_asset) then
    {| field_name := field;
       zabbix_value := VStr (str (differ.get field zabbix_asset));
       topdesk_value := VStr "null";
       difference_type := "missing_in_topdesk" |}
  else
    {| field_name := field;
       zabbix_value := VStr (str (differ.get field zabbix_asset));
       topdesk_value := VStr (str (differ.get field topdesk_asset));
       difference_type := "value_mismatch" |}.

(** The loop reports the field. *)
Definition reports (field : string) : bool :=
  negb (excluded self field)
  && (negb (has_key field zabbix_asset)
      || negb (has_key field topdesk_asset)
      || match compare_values self (differ.get field zabbix_asset)
                 (differ.get field topdesk_asset) field with
         | Ok false => true
         | _ => false
         end).

(** The field is held by one record only, or by both with values that
    [compare_values] finds different. *)
Definition field_differs (field : string) : Prop :=
  (has_key field zabbix_asset = true /\ has_key field topdesk_asset = false) \/
  (has_key field zabbix_asset = false /\ has_key field topdesk_asset = true) \/
  (has_key field zabbix_asset = true /\ has_key field topdesk_asset = true /\
   compare_values self (differ.get field zabbix_asset) (differ.get field topdesk_asset)
     field = Ok false).

Lemma has_key_keys {V} (d : dict V) k : has_key k d = true <-> In k (keys d).
Proof.
  unfold has_key, keys. induction d as [|[k' v] d IH]; cbn [dict_get map fst In].
  - split; [discriminate|tauto].
  - destruct (String.eqb_spec k k') as [->|Hne].
    + split; [left; reflexivity|reflexivity].
    + rewrite IH. split; [right; assumption|intros [H|H]; [congruence|exact H]].
Qed.

Lemma field_name_reported field : field_name (reported_difference field) = field.
Proof.
  unfold reported_difference.
  destruct (negb (has_key field zabbix_asset)); [reflexivity|].
  destruct (negb (has_key field topdesk_asset)); reflexivity.
Qed.

(** The list of differences in closed form. *)
Lemma compare_fields_closed fields : forall diffs,
  compare_fields self fields zabbix_asset topdesk_asset = Ok diffs ->
  diffs = map reported_difference (filter reports fields).
Proof.
  induction fields as [|field rest IH]; intros diffs H; cbn [compare_fields] in H.
  - injection H as <-. reflexivity.
  - cbn [filter]. unfold reports at 1.
    destruct (excluded self field); [apply IH, H|]. cbn [negb andb].
    destruct (compare_fields self rest zabbix_asset topdesk_asset) as [ds|e] eqn:Hr.
    + specialize (IH ds eq_refl).
      destruct (negb (has_key field zabbix_asset)) eqn:Ez.
      { cbn [bind app] in H. injection H as <-. cbn [orb map]. rewrite <- IH.
        unfold reported_difference. rewrite Ez. reflexivity. }
      destruct (negb (has_key field topdesk_asset)) eqn:Et.
      { cbn [bind app] in H. injection H as <-. cbn [orb map]. rewrite <- IH.
        unfold reported_difference. rewrite Ez, Et. reflexivity. }
      destruct (compare_values self _ _ field) as [[|]|];
        cbn [bind negb app orb map] in H |- *; try discriminate H;
        injection H as <-; [exact IH|].
      rewrite <- IH. unfold reported_difference. rewrite Ez, Et. reflexivity.
    + destruct (negb (has_key field zabbix_asset)); [discriminate|].
      destruct (negb (has_key field topdesk_asset)); [discriminate|].
      destruct (compare_values self _ _ field) as [[]|]; discriminate.
Qed.

Lemma map_field_name_reported fields :
  map field_name (map reported_difference fields) = fields.
Proof.
  rewrite map_map. rewrite <- (map_id fields) at 2.
  apply map_ext. apply field_name_reported.
Qed.

Lemma reports_differs f :
  In f (union_keys zabbix_asset topdesk_asset) ->
  (reports f = true <-> excluded self f = false /\ field_differs f).
Proof.
  unfold union_keys. rewrite nodup_In, in_app_iff, <- !has_key_keys.
  unfold reports, field_differs. intros Hin.
  destruct (excluded self f); cbn [negb andb].
  { split; [discriminate|intros [H _]; discriminate H]. }
  destruct (has_key f zabbix_asset), (has_key f topdesk_asset); cbn [negb orb].
  - destruct (compare_values self _ _ f) as [[|]|e].
    + split; [discriminate|]. intros [_ [[_ H]|[[H _]|(_ & _ & H)]]]; discriminate H.
    + split; [|reflexivity]. intros _. split; [reflexivity|]. right. right. tauto.
    + split; [discriminate|]. intros [_ [[_ H]|[[H _]|(_ & _ & H)]]]; discriminate H.
  - split; [|reflexivity]. intros _. split; [reflexivity|]. left. tauto.
  - split; [|reflexivity]. intros _. split; [reflexivity|]. right. left. tauto.
  - destruct Hin as [H|H]; discriminate H.
Qed.

Lemma field_differs_in f :
  field_differs f -> In f (union_keys zabbix_asset topdesk_asset).
Proof.
  unfold union_keys. rewrite nodup_In, in_app_iff, <- !has_key_keys.
  intros [[H _]|[[_ H]|(H & _)]]; tauto.
Qed.

Lemma NoDup_filter {A} (p : A -> bool) l : NoDup l -> NoDup (filter p l).
Proof.
  induction 1 as [|a l Ha Hl IH]; [constructor|].
  cbn [filter]. destruct (p a); [|exact IH].
  constructor; [|exact IH]. intros H. apply filter_In in H. tauto.
Qed.

Lemma matched_report diffs :
  _compare_matched_assets self zabbix_asset topdesk_asset = Ok diffs ->
  NoDup (map field_name diffs) /\
  (forall f, In f (map field_name diffs) <->
             excluded self f = false /\ field_differs f) /\
  Forall (fun d => d = reported_difference (field_name d)) diffs.
Proof.
  unfold _compare_matched_assets. intros H.
  apply compare_fields_closed in H. subst diffs.
  rewrite map_field_name_reported. split; [|split].
  - apply NoDup_filter, NoDup_nodup.
  - intros f. rewrite filter_In. split.
    + intros [Hin Hr]. apply (reports_differs f Hin), Hr.
    + intros [He Hd]. pose proof (field_differs_in f Hd) as Hin.
      split; [exact Hin|]. apply (reports_differs f Hin). tauto.
  - apply Forall_forall. intros d Hd. apply in_map_iff in Hd.
    destruct Hd as (f & <- & _). rewrite field_name_reported. reflexivity.
Qed.

End MatchedFacts.

(** X15. What [_compare_matched_assets] reports, when it returns: a
    field appears in the list exactly when it is not excluded and is held
    by one of the two records only, or by both with values that
    [compare_values] finds different; no field appears twice; and an
    entry is [missing_in_zabbix] with the value "null" when the first
    record lacks the field, else [missing_in_topdesk] when the second
    lacks it, else [value_mismatch], the values written with [str]. *)
Theorem matched_assets_report :
  forall self zabbix_asset topdesk_asset diffs,
    _compare_matched_assets self zabbix_asset topdesk_asset = Ok diffs ->
    NoDup (map field_name diffs) /\
    (forall f, In f (map field_name diffs) <->
               excluded self f = false /\
               field_differs self zabbix_asset topdesk_asset f) /\
    Forall (fun d => d = reported_difference zabbix_asset topdesk_asset (field_name d))
      diffs.
Proof. intros self z t diffs. apply matched_report. Qed.

Lemma matched_assets_report_witness :
  let zabbix_asset := [("os", VStr "Linux"); ("ram_gb", VInt 32); ("rack", VNone)] in
  let topdesk_asset := [("os", VStr " linux "); ("ram_gb", VStr "64"); ("owner", VNone)] in
  exists diffs,
    _compare_matched_assets default_config zabbix_asset topdesk_asset = Ok diffs /\
    NoDup (map field_name diffs) /\
    (In "os" (map field_name diffs) <->
     excluded default_config "os" = false /\
     field_differs default_config zabbix_asset topdesk_asset "os") /\
    map field_name diffs = ["rack"; "ram_gb"; "owner"].
Proof.
  intros zabbix_asset topdesk_asset. eexists.
  assert (H : _compare_matched_assets default_config zabbix_asset topdesk_asset
              = Ok (map (reported_difference zabbix_asset topdesk_asset)
                      ["rack"; "ram_gb"; "owner"])) by reflexivity.
  split; [exact H|].
  destruct (matched_assets_report _ _ _ _ H) as (Hn & Hi & _).
  split; [exact Hn|]. split; [apply Hi|reflexivity].
Defined.

(** ** More of [lib/differ.py]: the differences of two systems *)

Section DifferencesFacts.
Variable self : config.
Variables zabbix_data topdesk_data : dict (dict value).

(** What the body of the loop of [compare_assets] finds for one
    identifier. *)
Definition asset_differences (id : string) : exn (list difference) :=
  let zabbix_asset := get_asset id zabbix_data in
  let topdesk_asset := get_asset id topdesk_data in
  if is_empty zabbix_asset then
    Ok (_handle_single_system_asset self id topdesk_asset "topdesk")
  else if is_empty topdesk_asset then
    Ok (_handle_single_system_asset self id zabbix_asset "zabbix")
  else _compare_matched_assets self zabbix_asset topdesk_asset.

(** The entry of [all_differences] for one identifier, if it has one. *)
Definition entry_of (id : string) : dict (list difference) :=
  match asset_differences id with
  | Ok (d :: ds) => [(id, d :: ds)]
  | _ => []
  end.

Definition entries (ids : list string) : dict (list difference) :=
  flat_map entry_of ids.

(** The number of differences in all entries. *)
Definition differences_count (all : dict (list difference)) : nat :=
  list_sum (map (fun e => List.length (snd e)) all).

Lemma differences_count_app a b :
  differences_count (a ++ b)%list = differences_count a + differences_count b.
Proof. unfold differences_count. rewrite map_app, list_sum_app. reflexivity. Qed.

Lemma compare_ids_entries ids : forall all st r st',
  compare_ids self ids zabbix_data topdesk_data all st = Ok (r, st') ->
  r = (all ++ entries ids)%list /\
  assets_with_differences st'
  = assets_with_differences st + List.length (entries ids) /\
  total_differences st' = total_differences st + differences_count (entries ids) /\
  Forall (fun id => exists ds, asset_differences id = Ok ds) ids.
Proof.
  induction ids as [|id ids IH]; intros all st r st' H.
  - cbn in H. injection H as <- <-. cbn. rewrite app_nil_r.
    repeat split; try lia. constructor.
  - cbn [compare_ids] in H.
    assert (Hds : exists k ds,
              asset_differences id = Ok ds /\
              match ds with
              | [] => compare_ids self ids zabbix_data topdesk_data all (count_asset k st)
              | _ => compare_ids self ids zabbix_data topdesk_data
                       (all ++ [(id, ds)])%list
                       (count_differences (List.length ds) (count_asset k st))
              end = Ok (r, st')).
    { unfold asset_differences.
      destruct (is_empty (get_asset id zabbix_data));
        [|destruct (is_empty (get_asset id topdesk_data))].
      - exists 2. eexists. split; [reflexivity|exact H].
      - exists 1. eexists. split; [reflexivity|exact H].
      - destruct (_compare_matched_assets self _ _) as [ds|e]; [|discriminate H].
        exists 0, ds. split; [reflexivity|exact H]. }
    clear H. destruct Hds as (k & ds & Hds & H).
    cbn [entries flat_map]. fold (entries ids). unfold entry_of at 1 2 3. rewrite Hds.
    destruct ds as [|d ds]; apply IH in H; destruct H as (-> & Ha & Ht & Hall).
    + split; [reflexivity|]. split; [exact Ha|]. split; [exact Ht|].
      constructor; [exists []; exact Hds|exact Hall].
    + split; [rewrite <- app_assoc; reflexivity|].
      split; [rewrite Ha; cbn; lia|].
      split; [rewrite Ht; unfold differences_count, list_sum; cbn; lia|].
      constructor; [exists (d :: ds); exact Hds|exact Hall].
Qed.

Lemma keys_entries ids :
  keys (entries ids) = filter (fun id => match entry_of id with
                                         | [] => false
                                         | _ => true
                                         end) ids.
Proof.
  unfold keys. induction ids as [|id ids IH]; [reflexivity|].
  cbn [entries flat_map filter]. fold (entries ids). rewrite map_app, IH.
  unfold entry_of. destruct (asset_differences id) as [[|d ds]|e]; reflexivity.
Qed.

Lemma in_entries id ds ids :
  In (id, ds) (entries ids) <->
  In id ids /\ ds <> [] /\ asset_differences id = Ok ds.
Proof.
  unfold entries. rewrite in_flat_map. split.
  - intros (x & Hx & Hin). unfold entry_of in Hin.
    destruct (asset_differences x) as [[|d l]|e] eqn:E; try contradiction.
    destruct Hin as [Heq|[]]. injection Heq as <- <-.
    split; [exact Hx|]. split; [discriminate|exact E].
  - intros (Hin & Hne & Hds). exists id. split; [exact Hin|].
    unfold entry_of. rewrite Hds. destruct ds; [congruence|left; reflexivity].
Qed.

(** An asset that one system holds alone always has an entry. *)
Lemma single_system_entry id :
  is_matched zabbix_data topdesk_data id = false ->
  match entry_of id with [] => false | _ => true end = true.
Proof.
  unfold is_matched, entry_of, asset_differences. intros H.
  destruct (is_empty (get_asset id zabbix_data)); [reflexivity|].
  destruct (is_empty (get_asset id topdesk_data)); [reflexivity|discriminate H].
Qed.

Lemma filter_length_le_filter {A} (p q : A -> bool) l :
  (forall a, p a = true -> q a = true) ->
  List.length (filter p l) <= List.length (filter q l).
Proof.
  intros Hpq. induction l as [|a l IH]; [reflexivity|].
  cbn [filter]. destruct (p a) eqn:Hp.
  - rewrite (Hpq a Hp). cbn. lia.
  - destruct (q a); cbn; lia.
Qed.

Lemma compare_assets_entries st all st' :
  compare_assets self zabbix_data topdesk_data st = Ok (all, st') ->
  let ids := union_keys zabbix_data topdesk_data in
  all = entries ids /\
  NoDup (keys all) /\
  assets_with_differences st' = assets_with_differences st + List.length all /\
  total_differences st' = total_differences st + differences_count all /\
  (forall id ds, In (id, ds) all <->
                 In id ids /\ ds <> [] /\ asset_differences id = Ok ds) /\
  (forall id, In id ids -> is_matched zabbix_data topdesk_data id = false ->
              In id (keys all)) /\
  count (is_zabbix_only zabbix_data topdesk_data) ids
  + count (is_topdesk_only zabbix_data) ids <= List.length all.
Proof.
  intros H ids. unfold compare_assets in H. fold ids in H.
  apply compare_ids_entries in H. cbn [app] in H.
  destruct H as (-> & Ha & Ht & _). cbn in Ha, Ht.
  split; [reflexivity|]. split.
  { rewrite keys_entries. apply NoDup_filter, NoDup_nodup. }
  split; [exact Ha|]. split; [exact Ht|]. split; [intros; apply in_entries|].
  split.
  { intros id Hin Hm. rewrite keys_entries. apply filter_In.
    split; [exact Hin|apply single_system_entry, Hm]. }
  rewrite <- (length_map fst (entries ids)). fold (keys (entries ids)).
  rewrite keys_entries. unfold count.
  pose proof (filter_length_le_filter
                (fun id => negb (is_matched zabbix_data topdesk_data id))
                (fun id => match entry_of id with [] => false | _ => true end) ids)
    as Hle.
  assert (Hs : List.length (filter (is_matched zabbix_data topdesk_data) ids)
               + List.length
                   (filter (fun id => negb (is_matched zabbix_data topdesk_data id)) ids)
               = List.length ids).
  { clear. induction ids as [|a l IH]; [reflexivity|].
    cbn [filter]. destruct (is_matched zabbix_data topdesk_data a); cbn; lia. }
  pose proof (categories_partition zabbix_data topdesk_data ids) as Hp.
  unfold count in Hp.
  assert (Hi : forall a, negb (is_matched zabbix_data topdesk_data a) = true ->
                         match entry_of a with [] => false | _ => true end = true).
  { intros id Hm. apply single_system_entry. apply negb_true_iff, Hm. }
  specialize (Hle Hi). lia.
Qed.

End DifferencesFacts.

(** X16. The book-keeping of [compare_assets], when it returns:
    [all_differences] has one entry for each identifier of either system
    whose list of differences is not empty, and no other; no identifier
    has two entries; [assets_with_differences] grows by the number of
    entries and [total_differences] by the number of differences in them;
    and an asset that one system holds alone always has an entry, so the
    entries are at least as many as those assets. *)
Theorem compare_assets_differences :
  forall self zabbix_data topdesk_data st all_differences st',
    compare_assets self zabbix_data topdesk_data st = Ok (all_differences, st') ->
    let ids := union_keys zabbix_data topdesk_data in
    NoDup (keys all_differences) /\
    assets_with_differences st'
    = assets_with_differences st + List.length all_differences /\
    total_differences st'
    = total_differences st + differences_count all_differences /\
    (forall id ds,
       In (id, ds) all_differences <->
       In id ids /\ ds <> [] /\
       asset_differences self zabbix_data topdesk_data id = Ok ds) /\
    (forall id, In id ids -> is_matched zabbix_data topdesk_data id = false ->
                In id (keys all_differences)) /\
    count (is_zabbix_only zabbix_data topdesk_data) ids
    + count (is_topdesk_only zabbix_data) ids <= List.length all_differences.
Proof.
  intros self zd td st all st' H ids.
  destruct (compare_assets_entries self zd td st all st' H)
    as (_ & H1 & H2 & H3 & H4 & H5 & H6).
  split; [exact H1|]. split; [exact H2|]. split; [exact H3|].
  split; [exact H4|]. split; [exact H5|exact H6].
Qed.

Lemma compare_assets_differences_witness :
  let zabbix_data := [("A", [("os", VStr "Linux"); ("cpu", VInt 8)]);
                      ("C", [("os", VStr "BSD")])] in
  let topdesk_data := [("A", [("os", VStr "linux"); ("cpu", VStr "8.0")]);
                       ("B", [("os", VStr "Linux"); ("cpu", VInt 4)])] in
  exists all_differences st',
    compare_assets default_config zabbix_data topdesk_data new_stats
    = Ok (all_differences, st') /\
    keys all_differences = ["C"; "B"] /\
    assets_with_differences st' = 2 /\
    total_differences st' = 5 /\
    NoDup (keys all_differences).
Proof.
  intros zabbix_data topdesk_data. do 2 eexists.
  assert (H : compare_assets default_config zabbix_data topdesk_data new_stats
              = Ok (entries default_config zabbix_data topdesk_data ["C"; "A"; "B"],
                    {| total_assets_processed := 3; matched_assets := 1;
                       zabbix_only := 1; topdesk_only := 1;
                       assets_with_differences := 2; total_differences := 5 |}))
    by reflexivity.
  split; [exact H|].
  repeat split.
  apply (proj1 (compare_assets_differences _ _ _ _ _ _ H)).
Defined.

(** ** More of [lib/differ.py]: [process_comparison] *)

Import DifferAgent.

Section ProcessFacts.
Variable self : config.
Variable float_repr : float.float -> string.
Variable now : nat -> string.
Context {fs os_error : Type}.
Variable filepath : string -> string.
Variable write_text : string -> string -> fs -> fs * option os_error.

(** No asset has a field with the name of the presence marker. *)
Definition no_presence_field (d : dict (dict value)) : bool :=
  forallb (fun kv => negb (has_key "_system_presence" (snd kv))) d.

Lemma get_asset_no_presence_field id d :
  no_presence_field d = true -> has_key "_system_presence" (get_asset id d) = false.
Proof.
  unfold no_presence_field, get_asset.
  induction d as [|[k a] d IH]; cbn [forallb dict_get snd]; [reflexivity|].
  intros H. apply andb_true_iff in H. destruct H as [Ha Hd].
  destruct (String.eqb id k); [apply negb_true_iff, Ha|apply IH, Hd].
Qed.

(** The path of the file of an asset. *)
Definition dif_path (id : string) : string := filepath (id ++ ".dif").

(** The file of an entry: its path, and the text of its document. *)
Definition file_of (e : string * list difference) (f : file) : Prop :=
  fst f = dif_path (fst e) /\
  exists t, generate_dif_file float_repr t (fst e) (snd e) = Ok (snd f).

(** Files written one after the other, up to the first the file system
    refuses: the file system left, the paths written, and the exception. *)
Fixpoint write_all (files : list file) (disk : fs) : fs * list string * option os_error :=
  match files with
  | [] => (disk, [], None)
  | (path, text) :: rest =>
      let '(disk, failure) := write_text path text disk in
      match failure with
      | Some e => (disk, [], Some e)
      | None =>
          let '(disk, written, r) := write_all rest disk in
          (disk, path :: written, r)
      end
  end.

(** What the agent makes of the writes. *)
Definition ended {A} (st : A) (w : fs * list string * option os_error)
    : fs * ends os_error (list string * A) :=
  let '(disk, written, r) := w in
  (disk, match r with
         | None => Returns (written, st)
         | Some e => RaisesOS e
         end).

Lemma generate_files_writes all : forall k,
  (forall id ds t, In (id, ds) all -> exists c, build_dif_content t id ds = Ok c) ->
  exists files,
    Forall2 file_of all files /\
    forall disk,
      generate_files float_repr now filepath write_text k all disk
      = let '(disk', written, r) := write_all files disk in
        (disk', match r with
                | None => Returns written
                | Some e => RaisesOS e
                end).
Proof.
  induction all as [|[id ds] all IH]; intros k Hall.
  - exists []. split; [constructor|reflexivity].
  - destruct (Hall id ds (now k) (or_introl eq_refl)) as [c Hc].
    destruct (IH (S k)) as (files & H2 & Hrun).
    { intros id' ds' t Hin. apply Hall. right. exact Hin. }
    exists ((dif_path id, dif_text float_repr c) :: files). split.
    + constructor; [|exact H2]. split; [reflexivity|].
      exists (now k). cbn [fst snd]. unfold generate_dif_file. rewrite Hc. reflexivity.
    + intros disk. cbn [generate_files write_all].
      unfold generate_dif_file at 1. rewrite Hc. cbn [bind]. fold (dif_path id).
      destruct (write_text (dif_path id) (dif_text float_repr c) disk) as [disk1 [e|]];
        [reflexivity|].
      rewrite Hrun. destruct (write_all files disk1) as [[disk2 written] [e|]]; reflexivity.
Qed.

Lemma write_all_paths files : forall disk,
  (forall path text d, snd (write_text path text d) = None) ->
  snd (fst (write_all files disk)) = map fst files /\ snd (write_all files disk) = None.
Proof.
  induction files as [|[path text] files IH]; intros disk Hw; [split; reflexivity|].
  cbn [write_all]. pose proof (Hw path text disk) as H1.
  destruct (write_text path text disk) as [disk1 r]. cbn [snd] in H1. subst r.
  destruct (IH disk1 Hw) as [Hp Hr].
  destruct (write_all files disk1) as [[disk2 written] r]. cbn [fst snd] in *.
  subst. split; reflexivity.
Qed.

Lemma write_all_written files : forall disk,
  exists rest,
    map fst files = (snd (fst (write_all files disk)) ++ rest)%list /\
    (snd (write_all files disk) = None -> rest = []).
Proof.
  induction files as [|[path text] files IH]; intros disk.
  - exists []. split; reflexivity.
  - cbn [write_all]. destruct (write_text path text disk) as [disk1 [e|]].
    + exists (path :: map fst files). split; [reflexivity|discriminate].
    + destruct (IH disk1) as (rest & Hp & Hr).
      destruct (write_all files disk1) as [[disk2 written] r]. cbn [fst snd] in *.
      exists rest. split; [cbn [map fst app]; rewrite Hp; reflexivity|exact Hr].
Qed.

Lemma Forall2_paths all files :
  Forall2 file_of all files -> map fst files = map dif_path (keys all).
Proof.
  unfold keys. induction 1 as [|e f all files [Hn _] _ IH]; [reflexivity|].
  cbn [map]. rewrite Hn, IH. reflexivity.
Qed.

Lemma entry_document zabbix_data topdesk_data id ds t :
  no_presence_field zabbix_data = true -> no_presence_field topdesk_data = true ->
  ds <> [] -> asset_differences self zabbix_data topdesk_data id = Ok ds ->
  exists c, build_dif_content t id ds = Ok c.
Proof.
  intros Hz Ht Hne Hds. unfold build_dif_content.
  assert (Hs : exists score, similarity (find_asset_missing ds) ds = Ok score).
  { unfold asset_differences in Hds.
    destruct (is_empty (get_asset id zabbix_data));
      [|destruct (is_empty (get_asset id topdesk_data))].
    - injection Hds as <-. eexists. apply single_system_has_no_score.
    - injection Hds as <-. eexists. apply single_system_has_no_score.
    - eexists. apply (matched_similarity_is_zero self _ _ _ Hds Hne);
        apply get_asset_no_presence_field; assumption. }
  destruct Hs as [score Hs]. rewrite Hs. cbn [bind]. eexists. reflexivity.
Qed.

(** X17. [process_comparison] on data without numbers too large for a
    float and without a field named [_system_presence], whatever [pathlib]
    and the file system do.  No exception of the computation leaves it.
    For each entry of the differences [compare_assets] finds from fresh
    statistics, in their order, it writes the text of [generate_dif_file]
    to the path of [<asset_id>.dif] under the output directory, up to the
    first write the file system refuses, whose exception leaves it; when
    none is refused it returns the paths written and the statistics.  The
    entries have pairwise different identifiers; their number is
    [assets_with_differences]; the three category counters sum to
    [total_assets_processed]; and the entries are at least as many as the
    assets that one system holds alone. *)
Theorem process_comparison_files zabbix_data topdesk_data :
  data_float_safe zabbix_data = true -> data_float_safe topdesk_data = true ->
  no_presence_field zabbix_data = true -> no_presence_field topdesk_data = true ->
  exists all_differences files st,
    compare_assets self zabbix_data topdesk_data new_stats = Ok (all_differences, st) /\
    Forall2 file_of all_differences files /\
    (forall disk,
       process_comparison self float_repr now filepath write_text
         zabbix_data topdesk_data disk
       = ended st (write_all files disk)) /\
    (forall disk, exists rest,
       map dif_path (keys all_differences)
       = (snd (fst (write_all files disk)) ++ rest)%list /\
       (snd (write_all files disk) = None -> rest = [])) /\
    ((forall path text d, snd (write_text path text d) = None) ->
     forall disk,
       snd (process_comparison self float_repr now filepath write_text
              zabbix_data topdesk_data disk)
       = Returns (map dif_path (keys all_differences), st)) /\
    NoDup (keys all_differences) /\
    List.length all_differences = assets_with_differences st /\
    matched_assets st + zabbix_only st + topdesk_only st = total_assets_processed st /\
    zabbix_only st + topdesk_only st <= List.length all_differences.
Proof.
  intros Fz Ft Hz Ht.
  assert (Hex : exists all st,
            compare_assets self zabbix_data topdesk_data new_stats = Ok (all, st)).
  { unfold compare_assets. apply compare_ids_returns; assumption. }
  destruct Hex as (all & st & Hc).
  pose proof (compare_assets_entries self _ _ _ _ _ Hc)
    as (_ & Hn & Ha & _ & Hin & _ & Hs).
  pose proof Hc as Hk. unfold compare_assets in Hk.
  apply compare_ids_counts in Hk. cbn in Hk. destruct Hk as (Hto & Hma & Hzo & Htd).
  destruct (generate_files_writes all 0) as (files & H2 & Hrun).
  { intros id ds t Hi. apply Hin in Hi. destruct Hi as (_ & Hne & Hds).
    apply (entry_document zabbix_data topdesk_data); assumption. }
  assert (Hp : forall disk,
            process_comparison self float_repr now filepath write_text
              zabbix_data topdesk_data disk
            = ended st (write_all files disk)).
  { intros disk. unfold process_comparison, ended. rewrite Hc, Hrun.
    destruct (write_all files disk) as [[disk' written] [e|]]; reflexivity. }
  exists all, files, st. split; [exact Hc|]. split; [exact H2|]. split; [exact Hp|].
  split.
  { intros disk. rewrite <- (Forall2_paths _ _ H2). apply write_all_written. }
  split.
  { intros Hw disk. rewrite Hp. unfold ended.
    destruct (write_all_paths files disk Hw) as [Hw1 Hw2].
    destruct (write_all files disk) as [[disk' written] r]. cbn [fst snd] in *.
    subst. rewrite (Forall2_paths _ _ H2). reflexivity. }
  split; [exact Hn|].
  split; [rewrite Ha; reflexivity|].
  split.
  { rewrite Hto, Hma, Hzo, Htd. apply categories_partition. }
  rewrite Hzo, Htd. exact Hs.
Qed.

End ProcessFacts.

Lemma process_comparison_files_witness :
  let zabbix_data := [("A", [("os", VStr "Linux"); ("cpu", VInt 8)]);
                      ("x/y", [("os", VStr "BSD")])] in
  let topdesk_data := [("A", [("os", VStr "linux"); ("cpu", VStr "16")]);
                       ("B", [("os", VStr "Linux"); ("cpu", VInt 4)])] in
  let float_repr := fun _ : float.float => "0.0" in
  let now := fun k : nat => "2025-01-0" ++ str_of_nat (S k) in
  let filepath := fun name : string => "differences/" ++ name in
  let accept := fun (path text : string) (disk : list file) =>
                  ((disk ++ [(path, text)])%list, @None string) in
  let flat := fun (path text : string) (disk : list file) =>
                if String.eqb path "differences/x/y.dif"
                then (disk, Some "FileNotFoundError")
                else ((disk ++ [(path, text)])%list, None) in
  (exists st,
     snd (process_comparison default_config float_repr now filepath accept
            zabbix_data topdesk_data [])
     = Returns (["differences/x/y.dif"; "differences/A.dif"; "differences/B.dif"], st)) /\
  (exists disk,
     process_comparison default_config float_repr now filepath flat
       zabbix_data [("A", [("os", VStr "linux"); ("cpu", VStr "16")])] []
     = (disk, RaisesOS "FileNotFoundError")).
Proof.
  intros zabbix_data topdesk_data float_repr now filepath accept flat.
  split.
  - destruct (process_comparison_files default_config float_repr now
                filepath accept zabbix_data topdesk_data eq_refl eq_refl eq_refl eq_refl)
      as (all & files & st & Hc & _ & _ & _ & Hr & _).
    exists st. rewrite (Hr (fun _ _ _ => eq_refl) []).
    vm_compute in Hc. injection Hc as <- _. reflexivity.
  - eexists. reflexivity.
Defined.

(** ** More of [lib/differ.py]: the numbers in a difference document *)

Section DocumentFacts.
Variable self : config.

(** The presence marker of [_handle_single_system_asset]. *)
Definition presence_marker (system : string) : difference :=
  {| field_name := "_system_presence";
     zabbix_value := VStr (if String.eqb system "zabbix" then "present" else "absent");
     topdesk_value := VStr (if String.eqb system "topdesk" then "present" else "absent");
     difference_type := "asset_missing" |}.

(** The entry for one field of an asset that one system holds alone. *)
Definition missing_field (system : string) (item : string * value) : difference :=
  {| field_name := fst item;
     zabbix_value := if String.eqb system "zabbix" then snd item else VStr "null";
     topdesk_value := if String.eqb system "topdesk" then snd item else VStr "null";
     difference_type :=
       "missing_in_" ++ (if String.eqb system "zabbix" then "topdesk" else "zabbix") |}.

Definition included (item : string * value) : bool := negb (excluded self (fst item)).

Lemma single_system_closed id a system :
  _handle_single_system_asset self id a system
  = presence_marker system :: map (missing_field system) (filter included a).
Proof.
  unfold _handle_single_system_asset, presence_marker. f_equal.
  induction a as [|[f v] a IH]; [reflexivity|].
  cbn [flat_map filter]. unfold included at 1. cbn [fst].
  destruct (negb (excluded self f)); cbn [app map]; rewrite IH; reflexivity.
Qed.

Lemma find_asset_missing_last found diffs :
  Forall (fun d => String.eqb (difference_type d) "asset_missing" = false) diffs ->
  fold_left (fun found d =>
               if String.eqb (difference_type d) "asset_missing" then Some d
               else found) diffs found = found.
Proof.
  intros H. revert found. induction H as [|d ds Hd _ IH]; intros found; [reflexivity|].
  cbn [fold_left]. rewrite Hd. apply IH.
Qed.

Lemma count_type_app t a b :
  count_type t (a ++ b) = count_type t a + count_type t b.
Proof. unfold count_type. rewrite filter_app, length_app. reflexivity. Qed.

Lemma count_type_all t diffs :
  Forall (fun d => difference_type d = t) diffs ->
  count_type t diffs = List.length diffs.
Proof.
  unfold count_type. induction 1 as [|d ds Hd _ IH]; [reflexivity|].
  cbn [filter]. rewrite Hd, String.eqb_refl. cbn [List.length]. rewrite IH. reflexivity.
Qed.

Lemma count_type_none t diffs :
  Forall (fun d => difference_type d <> t) diffs -> count_type t diffs = 0.
Proof.
  unfold count_type. induction 1 as [|d ds Hd _ IH]; [reflexivity|].
  cbn [filter]. destruct (String.eqb_spec (difference_type d) t); [contradiction|exact IH].
Qed.

(** Each of the three types of a difference of fields is counted once. *)
Lemma count_type_sum diffs :
  Forall is_field_difference diffs ->
  count_type "value_mismatch" diffs + count_type "missing_in_zabbix" diffs
  + count_type "missing_in_topdesk" diffs = List.length diffs.
Proof.
  unfold count_type. induction 1 as [|d ds Hd _ IH]; [reflexivity|].
  cbn [filter List.length].
  destruct Hd as [Hd|[Hd|Hd]]; rewrite Hd; cbn [String.eqb Ascii.eqb Bool.eqb];
    cbn [List.length]; lia.
Qed.

Lemma listed_length diffs :
  ~ In "_system_presence" (map field_name diffs) ->
  List.length
    (map (fun d => (field_name d, zabbix_value d, topdesk_value d))
       (filter (fun d => negb (String.eqb (field_name d) "_system_presence")) diffs))
  = List.length diffs.
Proof.
  intros H. rewrite length_map. f_equal. apply forallb_filter_id.
  apply forallb_forall. intros d Hd. apply negb_true_iff.
  destruct (String.eqb_spec (field_name d) "_system_presence") as [E|]; [|reflexivity].
  exfalso. apply H. rewrite <- E. apply in_map, Hd.
Qed.

(** The differences under the name of the presence marker, which are
    counted and not listed. *)
Definition presence_named (diffs : list difference) : list difference :=
  filter (fun d => String.eqb (field_name d) "_system_presence") diffs.

Lemma listed_and_presence_named diffs :
  List.length
    (map (fun d => (field_name d, zabbix_value d, topdesk_value d))
       (filter (fun d => negb (String.eqb (field_name d) "_system_presence")) diffs))
  + List.length (presence_named diffs)
  = List.length diffs.
Proof.
  rewrite length_map. unfold presence_named.
  induction diffs as [|d ds IH]; [reflexivity|].
  cbn [filter]. destruct (String.eqb (field_name d) "_system_presence");
    cbn [negb List.length]; lia.
Qed.

Lemma presence_named_once diffs :
  NoDup (map field_name diffs) -> List.length (presence_named diffs) <= 1.
Proof.
  unfold presence_named. induction diffs as [|d ds IH]; cbn [map filter]; [cbn; lia|].
  intros Hn. inversion Hn as [|? ? Hout Hn']; subst.
  destruct (String.eqb_spec (field_name d) "_system_presence") as [E|_];
    [|apply IH, Hn'].
  assert (Hnone : filter (fun d0 => String.eqb (field_name d0) "_system_presence") ds = []).
  { rewrite E in Hout. clear - Hout. induction ds as [|d' ds IH]; [reflexivity|].
    cbn [filter]. destruct (String.eqb_spec (field_name d') "_system_presence") as [E|_].
    - exfalso. apply Hout. left. exact E.
    - apply IH. intros H. apply Hout. right. exact H. }
  rewrite Hnone. cbn. lia.
Qed.

Lemma presence_named_in diffs :
  presence_named diffs <> [] <-> In "_system_presence" (map field_name diffs).
Proof.
  unfold presence_named. induction diffs as [|d ds IH]; cbn [map filter In].
  - split; [congruence|contradiction].
  - destruct (String.eqb_spec (field_name d) "_system_presence") as [E|E].
    + split; [intros _; left; exact E|discriminate].
    + rewrite IH. split; [intros H; right; exact H|intros [H|H]; [contradiction|exact H]].
Qed.

Lemma matched_document now id z t diffs c :
  _compare_matched_assets self z t = Ok diffs ->
  build_dif_content now id diffs = Ok c ->
  differ.note c = None /\
  content_total_differences c = List.length diffs /\
  value_mismatches c + missing_in_zabbix c + missing_in_topdesk c
  = content_total_differences c /\
  List.length (differ.differences c) + List.length (presence_named diffs)
  = content_total_differences c /\
  List.length (presence_named diffs) <= 1 /\
  (presence_named diffs <> [] <->
   excluded self "_system_presence" = false /\
   field_differs self z t "_system_presence") /\
  (has_key "_system_presence" z = false -> has_key "_system_presence" t = false ->
   List.length (differ.differences c) = content_total_differences c).
Proof.
  intros Hd Hc. unfold build_dif_content in Hc.
  destruct (similarity (find_asset_missing diffs) diffs) as [score|e]; [|discriminate].
  cbn [bind] in Hc. injection Hc as <-.
  cbn [differ.note content_total_differences value_mismatches missing_in_zabbix
       missing_in_topdesk differ.differences].
  pose proof (proj1 (compare_fields_names self _ _ _ _ Hd)) as Hty.
  destruct (matched_report self z t diffs Hd) as (Hnd & Hmem & _).
  rewrite (find_asset_missing_none _ Hty).
  split; [reflexivity|]. split; [reflexivity|].
  split; [apply count_type_sum, Hty|].
  split; [apply listed_and_presence_named|].
  split; [apply presence_named_once, Hnd|].
  split; [rewrite presence_named_in; apply Hmem|].
  intros Hz Ht. apply listed_length. intros Hin.
  apply Hmem in Hin. destruct Hin as [_ Hin].
  destruct Hin as [[H _]|[[_ H]|(H & _)]]; congruence.
Qed.

(** A field with the name of the presence marker. *)
Definition presence_item (item : string * value) : bool :=
  String.eqb (fst item) "_system_presence".

Lemma single_system_document now id a system c :
  build_dif_content now id (_handle_single_system_asset self id a system) = Ok c ->
  let n := List.length (filter included a) in
  let only_zabbix := String.eqb system "zabbix" in
  content_total_differences c = S n /\
  differ.note c = Some (if only_zabbix then "Asset exists only in Zabbix system"
                        else "Asset exists only in Topdesk system") /\
  value_mismatches c = 0 /\
  missing_in_zabbix c = (if only_zabbix then 0 else n) /\
  missing_in_topdesk c = (if only_zabbix then n else 0) /\
  List.length (differ.differences c)
  = List.length (filter (fun item => included item && negb (presence_item item)) a) /\
  (has_key "_system_presence" a = false -> List.length (differ.differences c) = n).
Proof.
  intros Hc n only_zabbix. rewrite single_system_closed in Hc.
  set (fields := map (missing_field system) (filter included a)) in Hc.
  remember (presence_marker system :: fields) as diffs eqn:Hdiffs.
  unfold build_dif_content in Hc.
  destruct (similarity _ _) as [score|e]; [|discriminate].
  cbn [bind] in Hc. injection Hc as <-.
  cbn [differ.note content_total_differences value_mismatches missing_in_zabbix
       missing_in_topdesk differ.differences].
  subst diffs.
  assert (Hlen : List.length fields = n).
  { unfold fields. apply length_map. }
  assert (Hty : Forall (fun d => difference_type d
                                 = "missing_in_" ++ (if only_zabbix then "topdesk"
                                                     else "zabbix")) fields).
  { unfold fields. apply Forall_forall. intros d Hd. apply in_map_iff in Hd.
    destruct Hd as (item & <- & _). reflexivity. }
  assert (Hnames : map field_name fields = map fst (filter included a)).
  { unfold fields. rewrite map_map. reflexivity. }
  assert (Hlisted : forall l : list (string * value),
            List.length
              (filter (fun d => negb (String.eqb (field_name d) "_system_presence"))
                 (map (missing_field system) l))
            = List.length (filter (fun item => negb (presence_item item)) l)).
  { induction l as [|item l IH]; [reflexivity|].
    cbn [map filter missing_field field_name]. unfold presence_item at 1.
    destruct (String.eqb (fst item) "_system_presence"); cbn [negb List.length];
      rewrite IH; reflexivity. }
  assert (Hboth : forall l : list (string * value),
            filter (fun item => negb (presence_item item)) (filter included l)
            = filter (fun item => included item && negb (presence_item item)) l).
  { induction l as [|item l IH]; [reflexivity|].
    cbn [filter]. destruct (included item); cbn [andb filter];
      [destruct (negb (presence_item item))|]; rewrite IH; reflexivity. }
  assert (Hfl : List.length
                  (filter (fun d => negb (String.eqb (field_name d) "_system_presence"))
                     fields)
                = List.length
                    (filter (fun item => included item && negb (presence_item item)) a)).
  { unfold fields. rewrite Hlisted, Hboth. reflexivity. }
  clear Hlisted Hboth.
  clearbody fields.
  assert (Hfind : find_asset_missing (presence_marker system :: fields)
                  = Some (presence_marker system)).
  { unfold find_asset_missing. cbn [fold_left presence_marker difference_type].
    apply find_asset_missing_last.
    refine (Forall_impl _ _ Hty); intros d Hd; cbv beta in Hd |- *.
    destruct only_zabbix; rewrite Hd; reflexivity. }
  assert (Hcount : forall t, t <> "asset_missing" ->
            count_type t (presence_marker system :: fields) = count_type t fields).
  { intros t Ht. unfold count_type. cbn [filter presence_marker difference_type].
    destruct (String.eqb_spec "asset_missing" t); [congruence|reflexivity]. }
  split. { change (S (List.length fields) = S n). rewrite Hlen. reflexivity. }
  split.
  { rewrite Hfind. unfold presence_marker. cbn [zabbix_value].
    fold only_zabbix. destruct only_zabbix; reflexivity. }
  split.
  { rewrite Hcount by discriminate. apply count_type_none.
    refine (Forall_impl _ _ Hty); intros d Hd; cbv beta in Hd |- *.
    destruct only_zabbix; rewrite Hd; discriminate. }
  split.
  { rewrite Hcount by discriminate. destruct only_zabbix.
    - apply count_type_none. refine (Forall_impl _ _ Hty); intros d Hd; cbv beta in Hd |- *.
      rewrite Hd. discriminate.
    - rewrite (count_type_all "missing_in_zabbix" fields Hty). exact Hlen. }
  split.
  { rewrite Hcount by discriminate. destruct only_zabbix.
    - rewrite (count_type_all "missing_in_topdesk" fields Hty). exact Hlen.
    - apply count_type_none. refine (Forall_impl _ _ Hty); intros d Hd; cbv beta in Hd |- *.
      rewrite Hd. discriminate. }
  split.
  { cbn [filter presence_marker field_name].
    cbn [String.eqb Ascii.eqb Bool.eqb negb].
    rewrite length_map. exact Hfl. }
  intros Hk. cbn [filter presence_marker field_name].
  cbn [String.eqb Ascii.eqb Bool.eqb negb].
  rewrite listed_length; [exact Hlen|].
  rewrite Hnames.
  intros Hin. apply in_map_iff in Hin. destruct Hin as (item & Hname & Hin).
  apply filter_In in Hin. destruct Hin as [Hin _].
  apply has_key_in in Hk. apply Hk. unfold keys. rewrite <- Hname.
  apply in_map, Hin.
Qed.

End DocumentFacts.

(** X18. The numbers [generate_dif_file] writes.  For the differences
    of two records of one asset there is no note, and the three counts of
    the summary add up to the total.  A difference under the name
    [_system_presence] is counted in the total and not listed: the total is
    the number of differences listed, plus one when the two records differ
    in a field of that name which is not excluded, so the two numbers are
    equal when neither record has such a field.  For an asset that one
    system holds alone the total counts the presence marker, which is not
    listed: it is one more than the number of fields that are not excluded,
    all of which are counted as missing in the other system, and those of
    them not named [_system_presence] are listed. *)
Theorem dif_document_counts :
  (forall self now id z t diffs c,
     _compare_matched_assets self z t = Ok diffs ->
     build_dif_content now id diffs = Ok c ->
     differ.note c = None /\
     content_total_differences c = List.length diffs /\
     value_mismatches c + missing_in_zabbix c + missing_in_topdesk c
     = content_total_differences c /\
     List.length (differ.differences c) + List.length (presence_named diffs)
     = content_total_differences c /\
     List.length (presence_named diffs) <= 1 /\
     (presence_named diffs <> [] <->
      excluded self "_system_presence" = false /\
      field_differs self z t "_system_presence") /\
     (has_key "_system_presence" z = false ->
      has_key "_system_presence" t = false ->
      List.length (differ.differences c) = content_total_differences c)) /\
  (forall self now id a system c,
     build_dif_content now id (_handle_single_system_asset self id a system) = Ok c ->
     let n := List.length (filter (included self) a) in
     let only_zabbix := String.eqb system "zabbix" in
     content_total_differences c = S n /\
     differ.note c = Some (if only_zabbix then "Asset exists only in Zabbix system"
                           else "Asset exists only in Topdesk system") /\
     value_mismatches c = 0 /\
     missing_in_zabbix c = (if only_zabbix then 0 else n) /\
     missing_in_topdesk c = (if only_zabbix then n else 0) /\
     List.length (differ.differences c)
     = List.length
         (filter (fun item => included self item && negb (presence_item item)) a) /\
     (has_key "_system_presence" a = false ->
      List.length (differ.differences c) = n)).
Proof.
  split.
  - intros self now id z t diffs c. apply matched_document.
  - intros self now id a system c. apply single_system_document.
Qed.

Lemma dif_document_counts_witness :
  let a := [("os", VStr "BSD"); ("cpu", VInt 2); ("rack", VNone)] in
  let self := {| case_sensitive := false; normalize_whitespace := true;
                 excluded_fields := ["rack"];
                 tolerance := tolerance default_config |} in
  let z := [("os", VStr "BSD"); ("_system_presence", VStr "a")] in
  let t := [("os", VStr "bsd"); ("_system_presence", VStr "b")] in
  (exists c,
     build_dif_content "2025-01-01" "C" (_handle_single_system_asset self "C" a "zabbix")
     = Ok c /\
     content_total_differences c = 3 /\
     List.length (differ.differences c) = 2 /\
     missing_in_topdesk c = 2 /\
     differ.note c = Some "Asset exists only in Zabbix system") /\
  (exists diffs c,
     _compare_matched_assets self z t = Ok diffs /\
     build_dif_content "2025-01-01" "D" diffs = Ok c /\
     content_total_differences c = 1 /\
     List.length (differ.differences c) + 1 = content_total_differences c).
Proof.
  intros a self z t. split.
  - assert (H : exists c,
              build_dif_content "2025-01-01" "C"
                (_handle_single_system_asset self "C" a "zabbix") = Ok c)
      by (eexists; reflexivity).
    destruct H as [c H]. exists c. split; [exact H|].
    destruct (proj2 dif_document_counts self _ _ _ _ _ H)
      as (H1 & H2 & _ & _ & H5 & _ & H6).
    split; [exact H1|]. split; [exact (H6 eq_refl)|]. split; [exact H5|exact H2].
  - assert (Hd : exists diffs, _compare_matched_assets self z t = Ok diffs)
      by (eexists; reflexivity).
    destruct Hd as [diffs Hd].
    assert (Hc : exists c, build_dif_content "2025-01-01" "D" diffs = Ok c).
    { vm_compute in Hd. injection Hd as <-. eexists. reflexivity. }
    destruct Hc as [c Hc]. exists diffs, c. split; [exact Hd|]. split; [exact Hc|].
    destruct (proj1 dif_document_counts self _ _ _ _ _ _ Hd Hc)
      as (_ & H2 & _ & H4 & _).
    vm_compute in Hd. injection Hd as <-.
    split; [exact H2|exact H4].
Defined.

(** ** More of [lib/sorter.py]: [handle_edge_cases] *)

Import SortingStrategy.

Section EdgeCaseFacts.

(** Not one of the four characters [handle_edge_cases] replaces. *)
Definition unproblematic (c : ascii) : bool :=
  negb (Ascii.eqb c LF || Ascii.eqb c CR || Ascii.eqb c TAB || Ascii.eqb c NUL).

Definition not_nul (c : ascii) : bool := negb (Ascii.eqb c NUL).

Lemma replace_char_none old new s :
  all_chars (fun c => negb (Ascii.eqb c old)) s = true -> replace_char old new s = s.
Proof.
  induction s as [|c s IH]; cbn [replace_char all_chars]; [reflexivity|].
  intros H. apply andb_true_iff in H. destruct H as [Hc Hs].
  apply negb_true_iff in Hc. rewrite Hc, (IH Hs). reflexivity.
Qed.

Lemma replace_problematic_none s :
  all_chars unproblematic s = true -> replace_problematic s = s.
Proof.
  intros H. unfold replace_problematic.
  assert (Hall : forall old, In old [LF; CR; TAB; NUL] ->
                   all_chars (fun c => negb (Ascii.eqb c old)) s = true).
  { intros old Hin. refine (all_chars_impl _ _ s _ H). intros c Hc.
    unfold unproblematic in Hc. apply negb_true_iff in Hc.
    destruct Hin as [<-|[<-|[<-|[<-|[]]]]];
      destruct (Ascii.eqb c LF), (Ascii.eqb c CR), (Ascii.eqb c TAB),
               (Ascii.eqb c NUL); try discriminate Hc; reflexivity. }
  rewrite (replace_char_none LF " " s) by (apply Hall; cbn; tauto).
  rewrite (replace_char_none CR " " s) by (apply Hall; cbn; tauto).
  rewrite (replace_char_none TAB " " s) by (apply Hall; cbn; tauto).
  apply replace_char_none, Hall. cbn. tauto.
Qed.

Lemma replace_nul_not_nul s : all_chars not_nul (replace_char NUL "" s) = true.
Proof.
  induction s as [|c s IH]; cbn [replace_char]; [reflexivity|].
  destruct (Ascii.eqb c NUL) eqn:E; [exact IH|].
  cbn [all_chars]. unfold not_nul at 1. rewrite E, IH. reflexivity.
Qed.

Lemma all_chars_split_ws p s :
  all_chars p s = true -> Forall (fun w => all_chars p w = true) (split_ws s).
Proof.
  induction s as [|c s IH]; intros H; [constructor|].
  cbn [all_chars] in H. apply andb_true_iff in H. destruct H as [Hc Hs].
  specialize (IH Hs). rewrite split_ws_eq.
  assert (H1 : all_chars p (String c "") = true) by (cbn; rewrite Hc; reflexivity).
  destruct (isspace c); [exact IH|].
  destruct s as [|c' s']; [repeat constructor; exact H1|].
  destruct (isspace c'); [constructor; [exact H1|exact IH]|].
  destruct (split_ws (String c' s')) as [|w tl]; [repeat constructor; exact H1|].
  inversion IH as [|? ? Hw Htl]; subst. constructor; [|exact Htl].
  cbn [all_chars]. rewrite Hc, Hw. reflexivity.
Qed.

Lemma all_chars_concat p ws :
  p " "%char = true -> Forall (fun w => all_chars p w = true) ws ->
  all_chars p (String.concat " " ws) = true.
Proof.
  intros Hsp. induction 1 as [|w ws Hw Hws IH]; [reflexivity|].
  destruct ws as [|w' ws']; [exact Hw|].
  cbn [String.concat] in IH |- *. rewrite !all_chars_app, Hw, IH.
  cbn [all_chars]. rewrite Hsp. reflexivity.
Qed.

(** A word without the character [NUL]: it has none of the four
    characters, the other three being white space. *)
Definition clean_word (w : string) : Prop := is_word w /\ all_chars not_nul w = true.

Lemma clean_word_unproblematic w : clean_word w -> all_chars unproblematic w = true.
Proof.
  intros [[_ Hw] Hn]. induction w as [|c w IH]; [reflexivity|].
  cbn [all_chars] in *. apply andb_true_iff in Hw, Hn.
  destruct Hw as [Hc Hw], Hn as [Hc' Hn]. rewrite (IH Hw Hn), andb_true_r.
  clear - Hc Hc'. unfold unproblematic, not_nul in *.
  apply negb_true_iff in Hc, Hc'. rewrite Hc', orb_false_r.
  revert Hc. each_char c.
Qed.

Lemma lstrip_words ws :
  Forall is_word ws -> lstrip_by isspace (String.concat " " ws) = String.concat " " ws.
Proof.
  intros H. destruct H as [|w ws Hw Hws]; [reflexivity|].
  destruct w as [|c w]; [destruct Hw; congruence|].
  pose proof (is_word_head _ _ Hw) as Hc.
  destruct ws as [|w' ws']; cbn [String.concat append lstrip_by]; rewrite Hc; reflexivity.
Qed.

Lemma rstrip_word w : is_word w -> rstrip_by isspace w = w.
Proof. intros [_ H]. apply rstrip_by_none, H. Qed.

Lemma rstrip_words ws :
  Forall is_word ws -> rstrip_by isspace (String.concat " " ws) = String.concat " " ws.
Proof.
  induction 1 as [|w ws Hw Hws IH]; [reflexivity|].
  destruct ws as [|w' ws']; [exact (rstrip_word w Hw)|].
  change (String.concat " " (w :: w' :: ws'))
    with (w ++ (" " ++ String.concat " " (w' :: ws'))).
  change (" " ++ String.concat " " (w' :: ws'))
    with (String " " (String.concat " " (w' :: ws'))).
  assert (Hne : String.concat " " (w' :: ws') <> "").
  { inversion Hws as [|? ? [Hw' _] _]; subst.
    destruct w' as [|c w'']; [congruence|].
    destruct ws'; cbn [String.concat append]; discriminate. }
  rewrite rstrip_by_app; cbn [rstrip_by]; rewrite IH.
  - destruct (String.concat " " (w' :: ws')); [congruence|reflexivity].
  - destruct (String.concat " " (w' :: ws')); [congruence|discriminate].
Qed.

Lemma strip_words ws :
  Forall is_word ws -> strip (String.concat " " ws) = String.concat " " ws.
Proof.
  intros H. unfold strip. apply strip_by_fixed. split.
  - apply lstrip_words, H.
  - apply rstrip_words, H.
Qed.

(** The result of [handle_edge_cases] as words joined by single spaces. *)
Lemma handle_edge_cases_words v :
  exists ws, Forall clean_word ws /\ handle_edge_cases v = String.concat " " ws.
Proof.
  destruct v as [|b|z|s]; cbn [handle_edge_cases].
  - exists []. split; [constructor|reflexivity].
  - exists [if b then "0" else "1"]. split; [|reflexivity].
    repeat constructor; destruct b; try discriminate; reflexivity.
  - exists [str_of_Z z]. split; [|reflexivity].
    assert (H : str_of_Z z <> "" /\
                all_chars (fun c => is_decimal c || Ascii.eqb c "-") (str_of_Z z) = true).
    { destruct z as [|p|p].
      - split; [discriminate|reflexivity].
      - rewrite <- (positive_nat_Z p). fold (str_of_nat (Pos.to_nat p)).
        split; [apply str_of_nat_nonempty|].
        refine (all_chars_impl _ _ _ _ (str_of_nat_decimal _)).
        intros c ->. reflexivity.
      - change (str_of_Z (Z.neg p)) with (String "-" (str_of_Z (Z.pos p))).
        split; [discriminate|]. cbn [all_chars]. apply andb_true_iff.
        split; [reflexivity|].
        rewrite <- (positive_nat_Z p). fold (str_of_nat (Pos.to_nat p)).
        refine (all_chars_impl _ _ _ _ (str_of_nat_decimal _)).
        intros c ->. reflexivity. }
    destruct H as [Hne Hc]. repeat constructor; try exact Hne.
    + refine (all_chars_impl _ _ _ _ Hc). intros c. each_char c.
    + refine (all_chars_impl _ _ _ _ Hc). intros c. each_char c.
  - exists (split_ws (replace_problematic s)).
    assert (Hw : Forall clean_word (split_ws (replace_problematic s))).
    { pose proof (split_ws_is_word (replace_problematic s)) as H1.
      pose proof (all_chars_split_ws not_nul (replace_problematic s)
                    (replace_nul_not_nul _)) as H2.
      rewrite Forall_forall in *. intros w Hin. split; [apply H1|apply H2]; exact Hin. }
    split; [exact Hw|]. apply strip_words.
    refine (Forall_impl _ _ Hw). intros w [H _]. exact H.
Qed.

Lemma handle_edge_cases_of_words ws :
  Forall clean_word ws ->
  handle_edge_cases (VStr (String.concat " " ws)) = String.concat " " ws.
Proof.
  intros H. cbn [handle_edge_cases].
  assert (Hw : Forall is_word ws).
  { refine (Forall_impl _ _ H). intros w [Hw _]. exact Hw. }
  rewrite replace_problematic_none.
  - rewrite (split_ws_concat _ Hw). apply strip_words, Hw.
  - apply all_chars_concat; [reflexivity|].
    refine (Forall_impl _ _ H). apply clean_word_unproblematic.
Qed.

End EdgeCaseFacts.

(** X19. [handle_edge_cases] gives a normal form: the result has none of
    the characters line feed, carriage return, tabulator and NUL, is
    unchanged by [strip] and by joining its words with single spaces, and
    passing it through [handle_edge_cases] again changes nothing. *)
Theorem handle_edge_cases_normal_form :
  forall v,
    let r := handle_edge_cases v in
    all_chars unproblematic r = true /\
    strip r = r /\
    String.concat " " (split_ws r) = r /\
    handle_edge_cases (VStr r) = r.
Proof.
  intros v r. destruct (handle_edge_cases_words v) as (ws & Hws & Hr).
  fold r in Hr. rewrite Hr.
  assert (Hw : Forall is_word ws).
  { refine (Forall_impl _ _ Hws). intros w [Hw _]. exact Hw. }
  split.
  { apply all_chars_concat; [reflexivity|].
    refine (Forall_impl _ _ Hws). apply clean_word_unproblematic. }
  split; [apply strip_words, Hw|].
  split; [rewrite (split_ws_concat _ Hw); reflexivity|].
  apply handle_edge_cases_of_words, Hws.
Qed.

(** ** More of [lib/sorter.py]: [sort_dif_entries] and [sort_apl_entries] *)

Import SortingKeys.

(** *** Orders that agree with [<] where it is defined *)
Section OrderLaws.
Context {K : Type}.
Variable eqb : K -> K -> bool.
Variable ltb : K -> K -> exn bool.
Variable compare : K -> K -> comparison.

(** [compare] is a total preorder; [==] is its equivalence, and [<], where
    it does not raise, its strict part. *)
Record item_order : Prop := {
  eqb_compare : forall a b, eqb a b = true <-> compare a b = Eq;
  ltb_compare : forall a b r, ltb a b = Ok r -> r = is_lt (compare a b);
  ltb_sym : forall a b r, ltb a b = Ok r -> exists r', ltb b a = Ok r';
  compare_antisym : forall a b, compare a b = CompOpp (compare b a);
  compare_cong : forall a b c, compare a b = Eq -> compare c a = compare c b;
  compare_lt_trans : forall a b c,
    compare a b = Lt -> compare b c = Lt -> compare a c = Lt
}.

Hypothesis laws : item_order.

Lemma compare_cong_l a b c : compare a b = Eq -> compare a c = compare b c.
Proof.
  intros H. rewrite (compare_antisym laws a c), (compare_antisym laws b c).
  rewrite (compare_cong laws a b c H). reflexivity.
Qed.

Lemma compare_eq_sym a b : compare a b = Eq -> compare b a = Eq.
Proof.
  intros H. rewrite (compare_antisym laws). rewrite H. reflexivity.
Qed.

Lemma eqb_sym a b : eqb a b = eqb b a.
Proof.
  destruct (eqb a b) eqn:E, (eqb b a) eqn:F; try reflexivity.
  - apply (eqb_compare laws) in E. apply compare_eq_sym in E.
    apply (eqb_compare laws) in E. congruence.
  - apply (eqb_compare laws) in F. apply compare_eq_sym in F.
    apply (eqb_compare laws) in F. congruence.
Qed.

Lemma eqb_false_compare a b : eqb a b = false -> compare a b <> Eq.
Proof.
  intros E H. apply (eqb_compare laws) in H. congruence.
Qed.

(** [a <= b] and [b <= c] give [a <= c]. *)
Lemma compare_le_trans a b c :
  is_lt (compare b a) = false -> is_lt (compare c b) = false ->
  is_lt (compare c a) = false.
Proof.
  intros Hba Hcb. destruct (compare c a) eqn:Hca; try reflexivity. exfalso.
  destruct (compare b a) eqn:E; try discriminate Hba.
  - rewrite <- (compare_cong laws b a c E) in Hca. rewrite Hca in Hcb. discriminate.
  - rewrite (compare_antisym laws) in E.
    destruct (compare a b) eqn:Eab; try discriminate E.
    rewrite (compare_lt_trans laws _ _ _ Hca Eab) in Hcb. discriminate.
Qed.

End OrderLaws.

Section TupleOrder.
Context {K1 K2 K3 : Type}.
Variable eqb1 : K1 -> K1 -> bool.
Variable ltb1 : K1 -> K1 -> exn bool.
Variable compare1 : K1 -> K1 -> comparison.
Variable eqb2 : K2 -> K2 -> bool.
Variable ltb2 : K2 -> K2 -> exn bool.
Variable compare2 : K2 -> K2 -> comparison.
Variable eqb3 : K3 -> K3 -> bool.
Variable ltb3 : K3 -> K3 -> exn bool.
Variable compare3 : K3 -> K3 -> comparison.
Hypothesis laws1 : item_order eqb1 ltb1 compare1.
Hypothesis laws2 : item_order eqb2 ltb2 compare2.
Hypothesis laws3 : item_order eqb3 ltb3 compare3.

Definition tuple_eqb (a b : K1 * K2 * K3) : bool :=
  let '(a1, a2, a3) := a in
  let '(b1, b2, b3) := b in
  eqb1 a1 b1 && eqb2 a2 b2 && eqb3 a3 b3.

(** The lexicographic order of the tuples. *)
Definition tuple_compare (a b : K1 * K2 * K3) : comparison :=
  let '(a1, a2, a3) := a in
  let '(b1, b2, b3) := b in
  match compare1 a1 b1 with
  | Eq => match compare2 a2 b2 with
          | Eq => compare3 a3 b3
          | c => c
          end
  | c => c
  end.

Lemma tuple_order :
  item_order tuple_eqb (tuple_ltb eqb1 ltb1 eqb2 ltb2 eqb3 ltb3) tuple_compare.
Proof.
  constructor.
  - intros [[a1 a2] a3] [[b1 b2] b3]. cbn [tuple_eqb tuple_compare].
    rewrite !andb_true_iff.
    rewrite (eqb_compare _ _ _ laws1), (eqb_compare _ _ _ laws2),
            (eqb_compare _ _ _ laws3).
    destruct (compare1 a1 b1), (compare2 a2 b2), (compare3 a3 b3);
      intuition congruence.
  - intros [[a1 a2] a3] [[b1 b2] b3] r. cbn [tuple_ltb tuple_compare].
    destruct (eqb1 a1 b1) eqn:E1; cbn [negb].
    2:{ intros H. apply (ltb_compare _ _ _ laws1) in H.
        pose proof (eqb_false_compare _ _ _ laws1 _ _ E1) as Hne.
        destruct (compare1 a1 b1); [congruence|exact H|exact H]. }
    apply (eqb_compare _ _ _ laws1) in E1. rewrite E1.
    destruct (eqb2 a2 b2) eqn:E2; cbn [negb].
    2:{ intros H. apply (ltb_compare _ _ _ laws2) in H.
        pose proof (eqb_false_compare _ _ _ laws2 _ _ E2) as Hne.
        destruct (compare2 a2 b2); [congruence|exact H|exact H]. }
    apply (eqb_compare _ _ _ laws2) in E2. rewrite E2.
    destruct (eqb3 a3 b3) eqn:E3; cbn [negb].
    2:{ intros H. apply (ltb_compare _ _ _ laws3) in H. exact H. }
    apply (eqb_compare _ _ _ laws3) in E3. rewrite E3.
    intros [= <-]. reflexivity.
  - intros [[a1 a2] a3] [[b1 b2] b3] r. cbn [tuple_ltb].
    rewrite (eqb_sym _ _ _ laws1 b1 a1), (eqb_sym _ _ _ laws2 b2 a2),
            (eqb_sym _ _ _ laws3 b3 a3).
    destruct (eqb1 a1 b1); cbn [negb]; [|apply (ltb_sym _ _ _ laws1)].
    destruct (eqb2 a2 b2); cbn [negb]; [|apply (ltb_sym _ _ _ laws2)].
    destruct (eqb3 a3 b3); cbn [negb]; [|apply (ltb_sym _ _ _ laws3)].
    intros _. exists false. reflexivity.
  - intros [[a1 a2] a3] [[b1 b2] b3]. cbn [tuple_compare].
    rewrite (compare_antisym _ _ _ laws1 a1 b1), (compare_antisym _ _ _ laws2 a2 b2),
            (compare_antisym _ _ _ laws3 a3 b3).
    destruct (compare1 b1 a1), (compare2 b2 a2); reflexivity.
  - intros [[a1 a2] a3] [[b1 b2] b3] [[c1 c2] c3]. cbn [tuple_compare].
    destruct (compare1 a1 b1) eqn:E1; try discriminate.
    destruct (compare2 a2 b2) eqn:E2; try discriminate.
    intros E3.
    rewrite (compare_cong _ _ _ laws1 _ _ c1 E1), (compare_cong _ _ _ laws2 _ _ c2 E2),
            (compare_cong _ _ _ laws3 _ _ c3 E3).
    reflexivity.
  - intros [[a1 a2] a3] [[b1 b2] b3] [[c1 c2] c3]. cbn [tuple_compare].
    destruct (compare1 a1 b1) eqn:E1; try discriminate.
    + rewrite (compare_cong_l _ _ _ laws1 _ _ c1 E1).
      destruct (compare1 b1 c1) eqn:F1; try discriminate; [|reflexivity].
      destruct (compare2 a2 b2) eqn:E2; try discriminate.
      * rewrite (compare_cong_l _ _ _ laws2 _ _ c2 E2).
        destruct (compare2 b2 c2) eqn:F2; try discriminate; [|reflexivity].
        apply (compare_lt_trans _ _ _ laws3).
      * intros _.
        destruct (compare2 b2 c2) eqn:F2; try discriminate.
        -- rewrite <- (compare_cong _ _ _ laws2 _ _ a2 F2), E2. reflexivity.
        -- rewrite (compare_lt_trans _ _ _ laws2 _ _ _ E2 F2). reflexivity.
    + intros _.
      destruct (compare1 b1 c1) eqn:F1; try discriminate.
      * rewrite <- (compare_cong _ _ _ laws1 _ _ a1 F1), E1. reflexivity.
      * rewrite (compare_lt_trans _ _ _ laws1 _ _ _ E1 F1). reflexivity.
Qed.

End TupleOrder.

(** *** The orders of the items of a key *)
Section ItemOrders.

Lemma int_order : item_order Z.eqb (fun a b => Ok (Z.ltb a b)) Z.compare.
Proof.
  constructor.
  - intros a b. rewrite Z.eqb_eq, Z.compare_eq_iff. reflexivity.
  - intros a b r [= <-]. unfold Z.ltb. destruct (Z.compare a b); reflexivity.
  - intros a b r _. eexists. reflexivity.
  - intros a b. apply Z.compare_antisym.
  - intros a b c H. apply Z.compare_eq_iff in H. subst. reflexivity.
  - intros a b c. rewrite !Z.compare_lt_iff. apply Z.lt_trans.
Qed.

Lemma str_order : item_order String.eqb (fun a b => Ok (String.ltb a b)) String.compare.
Proof.
  constructor.
  - intros a b. split; intros H.
    + apply String.eqb_eq in H. subst. apply string_compare_refl.
    + apply String.compare_eq_iff in H. subst. apply String.eqb_refl.
  - intros a b r [= <-]. unfold String.ltb. destruct (String.compare a b); reflexivity.
  - intros a b r _. eexists. reflexivity.
  - intros a b. apply String.compare_antisym.
  - intros a b c H. apply String.compare_eq_iff in H. subst. reflexivity.
  - intros a b c. apply string_compare_lt_trans.
Qed.

Lemma key_eqb_compare a : forall b, key_eqb a b = true <-> key_compare a b = Eq.
Proof.
  induction a as [|x a IH]; intros [|y b]; cbn [key_eqb key_compare];
    try (split; [discriminate|discriminate]); [split; reflexivity|].
  rewrite andb_true_iff, IH, key_part_eqb_compare.
  destruct (key_part_compare x y); split; try tauto; try discriminate;
    intros [H _]; discriminate H.
Qed.

Lemma key_part_ltb_sym x y r :
  key_part_ltb x y = Ok r -> exists r', key_part_ltb y x = Ok r'.
Proof.
  destruct x, y; cbn; try discriminate; intros _; eexists; reflexivity.
Qed.

Lemma key_ltb_sym a : forall b r, key_ltb a b = Ok r -> exists r', key_ltb b a = Ok r'.
Proof.
  induction a as [|x a IH]; intros [|y b] r; cbn [key_ltb];
    try (intros _; eexists; reflexivity).
  rewrite (key_part_eqb_sym y x).
  destruct (key_part_eqb x y); [apply IH|apply key_part_ltb_sym].
Qed.

Lemma keys_order : item_order key_eqb key_ltb key_compare.
Proof.
  constructor.
  - intros a b. apply key_eqb_compare.
  - intros a b r. apply key_ltb_compare.
  - intros a b r. apply key_ltb_sym.
  - intros a b. apply key_compare_antisym.
  - intros a b c H. apply key_compare_eq in H. subst. reflexivity.
  - intros a b c. apply key_compare_lt_trans.
Qed.

(** An order of all values that agrees with [<]: [None], then the numbers,
    then the strings. *)
Definition value_compare (a b : value) : comparison :=
  match a, b with
  | VStr s, VStr t => String.compare s t
  | VStr _, _ => Gt
  | _, VStr _ => Lt
  | _, _ =>
      match as_number a, as_number b with
      | Some x, Some y => Z.compare x y
      | None, None => Eq
      | None, Some _ => Lt
      | Some _, None => Gt
      end
  end.

Ltac values :=
  repeat match goal with
         | v : value |- _ => destruct v as [|[|]|?|?]
         end;
  cbn [value_compare as_number py_eqb py_ltb CompOpp is_lt Bool.eqb].

Lemma value_order : item_order py_eqb py_ltb value_compare.
Proof.
  constructor.
  - intros a b. values; try (split; [discriminate|discriminate]);
      try (split; reflexivity);
      try (rewrite Z.eqb_eq, Z.compare_eq_iff; reflexivity).
    split; intros H.
    + apply String.eqb_eq in H. subst. apply string_compare_refl.
    + apply String.compare_eq_iff in H. subst. apply String.eqb_refl.
  - intros a b r. values; try discriminate; intros [= <-]; try reflexivity;
      try (unfold Z.ltb; match goal with
                         | |- context [Z.compare ?x ?y] => destruct (Z.compare x y)
                         end; reflexivity).
    all: try (unfold String.ltb; destruct (String.compare _ _); reflexivity).
  - intros a b r. values; try discriminate; intros _; eexists; reflexivity.
  - intros a b. values; try reflexivity; try apply Z.compare_antisym.
    all: try apply String.compare_antisym.
  - intros a b c. values; try discriminate; try reflexivity; intros H;
      try (apply Z.compare_eq_iff in H; subst; reflexivity).
    all: try (apply String.compare_eq_iff in H; subst; reflexivity).
  - intros a b c. values; try discriminate; try reflexivity;
      try (rewrite !Z.compare_lt_iff; lia).
    all: try apply string_compare_lt_trans.
Qed.

Definition dif_key_compare : dif_key -> dif_key -> comparison :=
  tuple_compare key_compare Z.compare String.compare.

Definition apl_key_compare : apl_key -> apl_key -> comparison :=
  tuple_compare value_compare key_compare value_compare.

Lemma dif_key_order :
  item_order (tuple_eqb key_eqb Z.eqb String.eqb) dif_key_ltb dif_key_compare.
Proof. apply tuple_order; [apply keys_order|apply int_order|apply str_order]. Qed.

Lemma apl_key_order :
  item_order (tuple_eqb py_eqb key_eqb py_eqb) apl_key_ltb apl_key_compare.
Proof. apply tuple_order; [apply value_order|apply keys_order|apply value_order]. Qed.

End ItemOrders.

(** *** Sorting by a key *)
Section KeyedSortFacts.
Context {A K : Type}.
Variable key : A -> exn K.
Variable eqb : K -> K -> bool.
Variable ltb : K -> K -> exn bool.
Variable compare : K -> K -> comparison.
Hypothesis laws : item_order eqb ltb compare.

(** The key of [x] is not above the key of [y]. *)
Definition key_leb (x y : A) : bool :=
  match key x, key y with
  | Ok a, Ok b => negb (is_lt (compare b a))
  | _, _ => false
  end.

(** The keys of [x] and [y] are equal. *)
Definition same_key (x y : A) : bool :=
  match key x, key y with
  | Ok a, Ok b => eqb a b
  | _, _ => false
  end.

(** All keys are computed, and any two of them compare. *)
Definition keys_comparable (l : list A) : Prop :=
  forall x y, In x l -> In y l ->
    exists kx ky r, key x = Ok kx /\ key y = Ok ky /\ ltb kx ky = Ok r.

Lemma cmp_lt_key_cmp (x y : K * A) :
  cmp_lt (key_cmp ltb) x y = ltb (fst x) (fst y).
Proof.
  unfold cmp_lt, key_cmp. destruct (ltb (fst x) (fst y)) as [[|]|e]; reflexivity.
Qed.

Lemma with_keys_spec l : forall keyed,
  with_keys key l = Ok keyed ->
  map snd keyed = l /\ Forall (fun p => key (snd p) = Ok (fst p)) keyed.
Proof.
  induction l as [|x l IH]; intros keyed H; cbn [with_keys] in H.
  - injection H as <-. split; [reflexivity|constructor].
  - destruct (key x) as [k|e] eqn:Hk; [|discriminate].
    destruct (with_keys key l) as [r|e]; [|discriminate].
    cbn [bind] in H. injection H as <-.
    destruct (IH r eq_refl) as [Hm Hf]. split.
    + cbn [map snd]. rewrite Hm. reflexivity.
    + constructor; [exact Hk|exact Hf].
Qed.

Lemma with_keys_returns l :
  Forall (fun x => exists k, key x = Ok k) l -> exists keyed, with_keys key l = Ok keyed.
Proof.
  induction 1 as [|x l [k Hk] _ [r Hr]]; [exists []; reflexivity|].
  cbn [with_keys]. rewrite Hk, Hr. eexists. reflexivity.
Qed.

(** The first element whose key cannot be computed decides the
    exception. *)
Lemma with_keys_raises before x after e :
  Forall (fun y => exists k, key y = Ok k) before -> key x = Raise e ->
  with_keys key (before ++ x :: after) = Raise e.
Proof.
  intros Hb Hx. induction Hb as [|y l [k Hk] _ IH]; cbn [app with_keys].
  - rewrite Hx. reflexivity.
  - rewrite Hk, IH. reflexivity.
Qed.

Lemma sorted_by_key_raises before x after e :
  Forall (fun y => exists k, key y = Ok k) before -> key x = Raise e ->
  sorted_by_key key ltb (before ++ x :: after) = Raise e.
Proof.
  intros Hb Hx. unfold sorted_by_key.
  rewrite (with_keys_raises before x after e Hb Hx). reflexivity.
Qed.

Lemma key_cmp_asym (x y : K * A) :
  cmp_lt (key_cmp ltb) x y = Ok true -> cmp_lt (key_cmp ltb) y x = Ok false.
Proof.
  rewrite !cmp_lt_key_cmp. intros H.
  destruct (ltb_sym _ _ _ laws _ _ _ H) as [r Hr]. rewrite Hr. f_equal.
  apply (ltb_compare _ _ _ laws) in H, Hr. subst r.
  rewrite (compare_antisym _ _ _ laws).
  destruct (compare (fst x) (fst y)); try discriminate H. reflexivity.
Qed.

Lemma key_cmp_trans (x y z : K * A) :
  (exists r, ltb (fst z) (fst x) = Ok r) ->
  in_order (key_cmp ltb) x y -> in_order (key_cmp ltb) y z ->
  in_order (key_cmp ltb) x z.
Proof.
  unfold in_order. rewrite !cmp_lt_key_cmp. intros [r Hr] Hyx Hzy.
  rewrite Hr. f_equal.
  apply (ltb_compare _ _ _ laws) in Hr, Hyx, Hzy. subst r.
  symmetry in Hyx, Hzy. apply (compare_le_trans _ _ _ laws _ _ _ Hyx Hzy).
Qed.

Lemma StronglySorted_map {B C} (R : B -> B -> Prop) (S : C -> C -> Prop) (f : B -> C) l :
  (forall x y, In x l -> In y l -> R x y -> S (f x) (f y)) ->
  StronglySorted R l -> StronglySorted S (map f l).
Proof.
  intros H Hs. induction Hs as [|a l Hs IH Ha]; [constructor|].
  cbn [map]. constructor.
  - apply IH. intros x y Hx Hy. apply H; right; assumption.
  - rewrite Forall_forall in *. intros c Hc. apply in_map_iff in Hc.
    destruct Hc as (b & <- & Hb). apply H; [left; reflexivity|right; exact Hb|].
    apply Ha, Hb.
Qed.

Lemma map_filter_snd (f : A -> bool) (l : list (K * A)) :
  map snd (filter (fun p => f (snd p)) l) = filter f (map snd l).
Proof.
  induction l as [|p l IH]; [reflexivity|].
  cbn [filter map]. destruct (f (snd p)); cbn [map]; rewrite IH; reflexivity.
Qed.

Lemma sorted_by_key_spec l :
  keys_comparable l ->
  exists r,
    sorted_by_key key ltb l = Ok r /\
    Permutation r l /\
    StronglySorted (fun x y => key_leb x y = true) r /\
    (forall x, In x l -> filter (same_key x) r = filter (same_key x) l).
Proof.
  intros Hc.
  assert (Hkeys : Forall (fun x => exists k, key x = Ok k) l).
  { apply Forall_forall. intros x Hx. destruct (Hc x x Hx Hx) as (k & _ & _ & Hk & _).
    exists k. exact Hk. }
  destruct (with_keys_returns l Hkeys) as [keyed Hkeyed].
  destruct (with_keys_spec l keyed Hkeyed) as [Hsnd Hpairs].
  rewrite Forall_forall in Hpairs.
  assert (Hin : forall p, In p keyed -> In (snd p) l).
  { intros p Hp. rewrite <- Hsnd. apply in_map, Hp. }
  assert (Hlt : forall p q, In p keyed -> In q keyed ->
                            exists r, ltb (fst p) (fst q) = Ok r).
  { intros p q Hp Hq.
    destruct (Hc (snd p) (snd q) (Hin p Hp) (Hin q Hq)) as (kp & kq & r & H1 & H2 & H3).
    rewrite (Hpairs p Hp) in H1. rewrite (Hpairs q Hq) in H2.
    injection H1 as <-. injection H2 as <-. exists r. exact H3. }
  assert (Hcomp : comparable (key_cmp ltb) keyed).
  { intros p q Hp Hq. destruct (Hlt p q Hp Hq) as [r Hr].
    unfold key_cmp. rewrite Hr. eexists. reflexivity. }
  destruct (stable_sort_returns _ _ Hcomp) as [rp Hrp].
  pose proof (stable_sort_perm _ _ _ Hrp) as Hperm.
  assert (Hrin : forall p, In p rp -> In p keyed).
  { intros p Hp. apply (Permutation_in _ Hperm Hp). }
  exists (map snd rp). split.
  { unfold sorted_by_key. rewrite Hkeyed. cbn [bind]. rewrite Hrp. reflexivity. }
  split.
  { rewrite <- Hsnd. apply Permutation_map, Hperm. }
  split.
  { assert (Hs : StronglySorted (in_order (key_cmp ltb)) rp).
    { refine (stable_sort_strongly (key_cmp ltb) (fun p => In p keyed)
                key_cmp_asym _ keyed rp _ Hrp).
      - intros x y z Hx Hz. apply key_cmp_trans. apply Hlt; assumption.
      - apply Forall_forall. intros p Hp. exact Hp. }
    refine (StronglySorted_map _ _ snd rp _ Hs).
    intros p q Hp Hq Ho. unfold in_order in Ho. rewrite cmp_lt_key_cmp in Ho.
    unfold key_leb. rewrite (Hpairs p (Hrin p Hp)), (Hpairs q (Hrin q Hq)).
    apply (ltb_compare _ _ _ laws) in Ho. rewrite <- Ho. reflexivity. }
  intros x Hx. rewrite <- Hsnd in Hx. apply in_map_iff in Hx.
  destruct Hx as (p0 & <- & Hp0).
  assert (Htie : forall q, In q keyed ->
                   tie (key_cmp ltb) p0 q = same_key (snd p0) (snd q)).
  { intros q Hq. unfold tie, same_key. rewrite !cmp_lt_key_cmp.
    rewrite (Hpairs p0 Hp0), (Hpairs q Hq).
    destruct (Hlt p0 q Hp0 Hq) as [r1 H1]. destruct (Hlt q p0 Hq Hp0) as [r2 H2].
    rewrite H1, H2.
    apply (ltb_compare _ _ _ laws) in H1, H2. subst r1 r2.
    rewrite (compare_antisym _ _ _ laws (fst q) (fst p0)).
    destruct (eqb (fst p0) (fst q)) eqn:E.
    - apply (eqb_compare _ _ _ laws) in E. rewrite E. reflexivity.
    - pose proof (eqb_false_compare _ _ _ laws _ _ E) as Hne.
      destruct (compare (fst p0) (fst q)); [congruence|reflexivity|reflexivity]. }
  assert (Hst : filter (tie (key_cmp ltb) p0) rp = filter (tie (key_cmp ltb) p0) keyed).
  { refine (stable_sort_stable (key_cmp ltb) (fun p => In p keyed) _
              key_cmp_asym _ p0 keyed rp Hp0 _ Hrp).
    - intros p q Hp Hq. rewrite cmp_lt_key_cmp. apply Hlt; assumption.
    - intros a b c Ha Hc'. apply key_cmp_trans. apply Hlt; assumption.
    - apply Forall_forall. intros p Hp. exact Hp. }
  rewrite <- Hsnd, <- !map_filter_snd.
  rewrite <- (filter_ext_in _ _ _ Htie).
  rewrite <- (filter_ext_in _ _ rp (fun q Hq => Htie q (Hrin q Hq))).
  rewrite Hst. reflexivity.
Qed.

End KeyedSortFacts.

(** X20. [sort_dif_entries].  The key of every entry is computed before
    anything is compared, so the first entry without a key (a [field] that
    is not a string has no [lower]) decides the exception, whatever the
    other entries are.  When all keys are computed and compare with one
    another, the result is a permutation of the entries in ascending
    order of the key (the natural key of [asset_id], then the rank of
    [operation]: add, modify, delete, anything else; then the lower-cased
    [field]), and entries with equal keys keep their order. *)
Theorem sort_dif_entries_sorts :
  (forall before entry after e,
     Forall (fun x => exists k, dif_sort_key x = Ok k) before ->
     dif_sort_key entry = Raise e ->
     sort_dif_entries (before ++ entry :: after) = Raise e) /\
  (forall entries,
     keys_comparable dif_sort_key dif_key_ltb entries ->
     exists r,
       sort_dif_entries entries = Ok r /\
       Permutation r entries /\
       StronglySorted (fun x y => key_leb dif_sort_key dif_key_compare x y = true) r /\
       (forall x, In x entries ->
          filter (same_key dif_sort_key (tuple_eqb key_eqb Z.eqb String.eqb) x) r
          = filter (same_key dif_sort_key (tuple_eqb key_eqb Z.eqb String.eqb) x)
              entries)).
Proof.
  split.
  - intros before entry after e. apply sorted_by_key_raises.
  - intros entries. apply (sorted_by_key_spec _ _ _ _ dif_key_order).
Qed.

Lemma sort_dif_entries_sorts_witness :
  let e1 := [("asset_id", VStr "srv2"); ("operation", VStr "modify"); ("field", VStr "os")] in
  let e2 := [("asset_id", VStr "srv10"); ("operation", VStr "add"); ("field", VStr "ip")] in
  let e3 := [("asset_id", VStr "SRV2"); ("operation", VStr "add"); ("field", VStr "Zone")] in
  let e4 := [("asset_id", VStr "srv2"); ("operation", VStr "modify"); ("field", VStr "OS");
             ("note", VStr "second")] in
  let bad := [("asset_id", VStr "srv1"); ("field", VNone)] in
  sort_dif_entries [e1; e2; e3; e4] = Ok [e3; e1; e4; e2] /\
  StronglySorted (fun x y => key_leb dif_sort_key dif_key_compare x y = true)
    [e3; e1; e4; e2] /\
  sort_dif_entries [e1; bad; e2] = Raise AttributeError.
Proof.
  intros e1 e2 e3 e4 bad.
  assert (Hc : keys_comparable dif_sort_key dif_key_ltb [e1; e2; e3; e4]).
  { intros x y Hx Hy. cbn [In] in Hx, Hy.
    repeat (destruct Hx as [<-|Hx]); try contradiction;
      repeat (destruct Hy as [<-|Hy]); try contradiction;
      do 3 eexists; repeat split; reflexivity. }
  destruct (proj2 sort_dif_entries_sorts _ Hc) as (r & Hr & _ & Hs & _).
  assert (Hv : sort_dif_entries [e1; e2; e3; e4] = Ok [e3; e1; e4; e2]) by reflexivity.
  rewrite Hv in Hr. injection Hr as <-.
  split; [exact Hv|]. split; [exact Hs|].
  apply (proj1 sort_dif_entries_sorts [e1] bad [e2] AttributeError).
  - repeat constructor. eexists. reflexivity.
  - reflexivity.
Defined.

(** X21. [sort_apl_entries].  The key is the triple of the timestamp
    (or '9999-99-99'), the natural key of [asset_id], and the sequence
    number (or 999999), the timestamp and the sequence compared as they
    are.  When all keys are computed and compare with one another (two
    timestamps of which one is a string and the other is not do not), the
    result is a permutation of the entries in ascending order of the key,
    and entries with equal keys keep their order; the first entry without
    a key decides the exception. *)
Theorem sort_apl_entries_sorts :
  (forall before entry after e,
     Forall (fun x => exists k, apl_sort_key x = Ok k) before ->
     apl_sort_key entry = Raise e ->
     sort_apl_entries (before ++ entry :: after) = Raise e) /\
  (forall entries,
     keys_comparable apl_sort_key apl_key_ltb entries ->
     exists r,
       sort_apl_entries entries = Ok r /\
       Permutation r entries /\
       StronglySorted (fun x y => key_leb apl_sort_key apl_key_compare x y = true) r /\
       (forall x, In x entries ->
          filter (same_key apl_sort_key (tuple_eqb py_eqb key_eqb py_eqb) x) r
          = filter (same_key apl_sort_key (tuple_eqb py_eqb key_eqb py_eqb) x)
              entries)).
Proof.
  split.
  - intros before entry after e. apply sorted_by_key_raises.
  - intros entries. apply (sorted_by_key_spec _ _ _ _ apl_key_order).
Qed.

Lemma sort_apl_entries_sorts_witness :
  let e1 := [("timestamp", VStr "2025-01-02T00:00:00"); ("asset_id", VStr "srv1");
             ("sequence", VInt 2)] in
  let e2 := [("asset_id", VStr "srv1"); ("sequence", VInt 1)] in
  let e3 := [("timestamp", VStr "2025-01-02T00:00:00"); ("asset_id", VStr "srv1");
             ("sequence", VInt 1)] in
  let e4 := [("timestamp", VStr "2025-01-01T00:00:00"); ("asset_id", VStr "srv10")] in
  sort_apl_entries [e1; e2; e3; e4] = Ok [e4; e3; e1; e2] /\
  Permutation [e4; e3; e1; e2] [e1; e2; e3; e4] /\
  sort_apl_entries [e1; [("timestamp", VInt 20250101)]] = Raise TypeError.
Proof.
  intros e1 e2 e3 e4.
  assert (Hc : keys_comparable apl_sort_key apl_key_ltb [e1; e2; e3; e4]).
  { intros x y Hx Hy. cbn [In] in Hx, Hy.
    repeat (destruct Hx as [<-|Hx]); try contradiction;
      repeat (destruct Hy as [<-|Hy]); try contradiction;
      do 3 eexists; repeat split; reflexivity. }
  destruct (proj2 sort_apl_entries_sorts _ Hc) as (r & Hr & Hp & _).
  assert (Hv : sort_apl_entries [e1; e2; e3; e4] = Ok [e4; e3; e1; e2]) by reflexivity.
  rewrite Hv in Hr. injection Hr as <-.
  split; [exact Hv|]. split; [exact Hp|reflexivity].
Defined.

(** ** More of [lib/differ_utils.py]: [analyze_difference_patterns] *)

Import DifferenceAnalyzer.

Section AnalysisFacts.

(** The number of entries counted. *)
Definition counted (d : dict nat) : nat := list_sum (map snd d).

Lemma counted_increment k d : counted (increment k d) = S (counted d).
Proof.
  unfold counted, increment.
  induction d as [|[k' n] d IH]; [reflexivity|].
  cbn [dict_get dict_set].
  destruct (String.eqb k k'); cbn [map snd list_sum fold_right] in *; [lia|].
  unfold list_sum in IH. rewrite IH. lia.
Qed.

Lemma keys_dict_set_in {V} k (v : V) d :
  forall x, In x (keys (dict_set k v d)) <-> x = k \/ In x (keys d).
Proof.
  unfold keys. induction d as [|[k' v'] d IH]; intros x; cbn [dict_set map fst In].
  - split; [intros [H|[]]; left; congruence|intros [H|[]]; left; congruence].
  - destruct (String.eqb_spec k k') as [->|Hne]; cbn [map fst In].
    + split; [intros [H|H]; [left; congruence|right; right; exact H]|].
      intros [H|[H|H]]; [left; congruence|left; exact H|right; exact H].
    + rewrite IH. split; [intros [H|[H|H]]|intros [H|[H|H]]]; tauto.
Qed.

Lemma NoDup_dict_set {V} k (v : V) d : NoDup (keys d) -> NoDup (keys (dict_set k v d)).
Proof.
  unfold keys. induction d as [|[k' v'] d IH]; intros H; cbn [dict_set map fst].
  - constructor; [intros []|constructor].
  - inversion H as [|? ? Hout Hd]; subst.
    destruct (String.eqb_spec k k') as [->|Hne]; cbn [map fst].
    + constructor; assumption.
    + constructor; [|apply IH, Hd].
      intros Hin. apply (keys_dict_set_in k v d k') in Hin.
      destruct Hin as [Hin|Hin]; [congruence|contradiction].
Qed.

(** The file counts in the coverage of its own system, or of both. *)
Definition covered (data : parsed_data) : bool :=
  match note data with
  | Some (String a n) => contains "Zabbix" (String a n) || contains "Topdesk" (String a n)
  | _ => true
  end.

Definition coverage_total (c : system_coverage) : nat :=
  both_systems c + coverage_zabbix_only c + coverage_topdesk_only c.

Lemma coverage_total_cover data c :
  coverage_total (cover (note data) c)
  = coverage_total c + (if covered data then 1 else 0).
Proof.
  unfold coverage_total, cover, covered.
  destruct (note data) as [[|a n]|];
    cbn [both_systems coverage_zabbix_only coverage_topdesk_only]; try lia.
  destruct (contains "Zabbix" (String a n));
    cbn [both_systems coverage_zabbix_only coverage_topdesk_only orb]; [lia|].
  destruct (contains "Topdesk" (String a n));
    cbn [both_systems coverage_zabbix_only coverage_topdesk_only]; lia.
Qed.

(** A difference that has the items the analysis reads. *)
Definition complete (diff : dict string) : bool :=
  match dict_get "field_name" diff, dict_get "zabbix_value" diff with
  | Some _, Some zabbix =>
      String.eqb zabbix "null"
      || match dict_get "topdesk_value" diff with
         | Some _ => true
         | None => false
         end
  | _, _ => false
  end.

(** The invariant of the two loops. *)
Definition counts_grow (n : nat) (covered_files : nat) (c c' : counts) : Prop :=
  counted (field_frequency c') = counted (field_frequency c) + n /\
  counted (common_differences c') = counted (common_differences c) + n /\
  coverage_total (coverage c') = coverage_total (coverage c) + covered_files /\
  (NoDup (keys (field_frequency c)) -> NoDup (keys (field_frequency c'))) /\
  (NoDup (keys (common_differences c)) -> NoDup (keys (common_differences c'))).

Lemma counts_grow_refl c : counts_grow 0 0 c c.
Proof. unfold counts_grow. repeat split; try lia; tauto. Qed.

Lemma count_difference_spec c diff :
  match count_difference c diff with
  | Done c' => complete diff = true /\ counts_grow 1 0 c c' /\ coverage c' = coverage c
  | Failed (KeyError _) => complete diff = false
  | Failed (FloatError _) => False
  end.
Proof.
  unfold count_difference, complete, pattern_of.
  destruct (dict_get "field_name" diff) as [f|]; [|reflexivity].
  assert (G : forall p,
            counts_grow 1 0 c
              {| field_frequency := increment f (field_frequency c);
                 common_differences := increment p (common_differences c);
                 coverage := coverage c |}).
  { intros p. unfold counts_grow. cbn [field_frequency common_differences coverage].
    rewrite !counted_increment.
    repeat split; try lia; apply NoDup_dict_set. }
  destruct (dict_get "zabbix_value" diff) as [z|]; [|reflexivity].
  destruct (String.eqb z "null"); cbn [and_then orb].
  { split; [reflexivity|]. split; [apply G|reflexivity]. }
  destruct (dict_get "topdesk_value" diff) as [t|]; [|reflexivity].
  destruct (String.eqb t "null"); cbn [and_then];
    (split; [reflexivity|]; split; [apply G|reflexivity]).
Qed.

Lemma counts_grow_trans n m k l a b c :
  counts_grow n k a b -> counts_grow m l b c -> counts_grow (n + m) (k + l) a c.
Proof.
  unfold counts_grow. intros (H1 & H2 & H3 & H4 & H5) (G1 & G2 & G3 & G4 & G5).
  repeat split; try lia; tauto.
Qed.

Lemma count_differences_spec diffs : forall c,
  match count_differences c diffs with
  | Done c' => forallb complete diffs = true /\
               counts_grow (List.length diffs) 0 c c' /\ coverage c' = coverage c
  | Failed (KeyError _) => forallb complete diffs = false
  | Failed (FloatError _) => False
  end.
Proof.
  induction diffs as [|diff rest IH]; intros c; cbn [count_differences forallb].
  - split; [reflexivity|]. split; [apply counts_grow_refl|reflexivity].
  - pose proof (count_difference_spec c diff) as H.
    destruct (count_difference c diff) as [c1|[k|e]]; cbn [and_then].
    + destruct H as (Hc & Hg & Hcov). rewrite Hc. cbn [andb].
      specialize (IH c1). destruct (count_differences c1 rest) as [c2|[k|e]].
      * destruct IH as (Hr & Hg' & Hcov'). split; [exact Hr|].
        split; [|congruence].
        apply (counts_grow_trans 1 (List.length rest) 0 0 _ _ _ Hg Hg').
      * exact IH.
      * exact IH.
    + rewrite H. reflexivity.
    + exact H.
Qed.

(** The files whose differences are all complete. *)
Definition readable (data : parsed_data) : bool := forallb complete (differences data).

Definition differences_in (files : list parsed_data) : nat :=
  list_sum (map (fun data => List.length (differences data)) files).

Definition covered_in (files : list parsed_data) : nat :=
  List.length (filter covered files).

Lemma count_file_spec c data :
  match count_file c data with
  | Done c' => readable data = true /\
               counts_grow (List.length (differences data))
                 (if covered data then 1 else 0) c c'
  | Failed (KeyError _) => readable data = false
  | Failed (FloatError _) => False
  end.
Proof.
  unfold count_file, readable.
  pose proof (count_differences_spec (differences data)
                {| field_frequency := field_frequency c;
                   common_differences := common_differences c;
                   coverage := cover (note data) (coverage c) |}) as H.
  destruct (count_differences _ (differences data)) as [c'|[k|e]]; try exact H.
  destruct H as (Hr & Hg & Hcov). split; [exact Hr|].
  unfold counts_grow in *. cbn [field_frequency common_differences coverage] in Hg.
  destruct Hg as (H1 & H2 & _ & H4 & H5).
  repeat split; try assumption.
  rewrite Hcov. cbn [coverage]. apply coverage_total_cover.
Qed.

Lemma count_files_spec files : forall c,
  match count_files c files with
  | Done c' => forallb readable files = true /\
               counts_grow (differences_in files) (covered_in files) c c'
  | Failed (KeyError _) => forallb readable files = false
  | Failed (FloatError _) => False
  end.
Proof.
  induction files as [|data rest IH]; intros c; cbn [count_files forallb].
  - split; [reflexivity|]. apply counts_grow_refl.
  - pose proof (count_file_spec c data) as H.
    destruct (count_file c data) as [c1|[k|e]]; cbn [and_then].
    + destruct H as (Hc & Hg). rewrite Hc. cbn [andb].
      specialize (IH c1). destruct (count_files c1 rest) as [c2|[k|e]]; try exact IH.
      destruct IH as (Hr & Hg'). split; [exact Hr|].
      pose proof (counts_grow_trans _ _ _ _ _ _ _ Hg Hg') as G.
      unfold differences_in, covered_in in *. cbn [map list_sum fold_right filter].
      destruct (covered data); cbn [List.length Nat.add] in *; exact G.
    + rewrite H. reflexivity.
    + exact H.
Qed.

Lemma statistics_spec total items :
  match statistics total items with
  | Done st => keys st = keys items /\
               map (fun kv => occurrences (snd kv)) st = map snd items
  | Failed (KeyError _) => False
  | Failed (FloatError _) => True
  end.
Proof.
  induction items as [|[f n] items IH]; cbn [statistics]; [split; reflexivity|].
  destruct (percent n total) as [p|e]; [|exact I].
  destruct (statistics total items) as [st|[k|e]]; cbn [and_then]; try exact IH.
  destruct IH as [Hk Ho]. unfold keys in *. cbn [map fst snd occurrences].
  rewrite Hk, Ho. split; reflexivity.
Qed.

Lemma covered_in_le files : covered_in files <= List.length files.
Proof. unfold covered_in. apply filter_length_le. Qed.

End AnalysisFacts.

(** X22. [analyze_difference_patterns] on the texts of the files.  It
    raises [KeyError] exactly when a parsed difference lacks an item the
    analysis reads, and no other [KeyError].  When it returns, the field
    frequencies and the difference patterns each add up to the number of
    parsed differences; the three coverage counters add up to the number
    of files whose note is empty or names one of the systems, so at most
    to [total_files]; no field and no pattern is counted under two
    entries; and the statistics list the fields of the frequencies, in
    their order, each with its number of occurrences. *)
Theorem analysis_counts_differences :
  forall dif_files,
    let files := map parse_dif_file dif_files in
    match analyze_difference_patterns dif_files with
    | Done a =>
        forallb readable files = true /\
        total_files a = List.length dif_files /\
        counted (field_frequency (analysis_counts a)) = differences_in files /\
        counted (common_differences (analysis_counts a)) = differences_in files /\
        coverage_total (coverage (analysis_counts a)) = covered_in files /\
        covered_in files <= total_files a /\
        NoDup (keys (field_frequency (analysis_counts a))) /\
        NoDup (keys (common_differences (analysis_counts a))) /\
        keys (field_statistics a) = keys (field_frequency (analysis_counts a)) /\
        map (fun kv => occurrences (snd kv)) (field_statistics a)
        = map snd (field_frequency (analysis_counts a))
    | Failed (KeyError _) => forallb readable files = false
    | Failed (FloatError _) => forallb readable files = true
    end.
Proof.
  intros dif_files files. unfold analyze_difference_patterns. fold files.
  pose proof (count_files_spec files no_counts) as H.
  destruct (count_files no_counts files) as [c|[k|e]]; cbn [and_then];
    [|exact H|contradiction].
  destruct H as (Hr & H1 & H2 & H3 & H4 & H5).
  pose proof (statistics_spec (list_sum (map snd (field_frequency c)))
                (field_frequency c)) as Hs.
  destruct (statistics _ (field_frequency c)) as [st|[k|e]]; cbn [and_then];
    [|contradiction|exact Hr].
  cbn [total_files analysis_counts field_statistics].
  destruct Hs as [Hk Ho]. cbn in H1, H2, H3.
  assert (Hlen : List.length files = List.length dif_files) by apply length_map.
  pose proof (covered_in_le files) as Hle.
  repeat split; try assumption; try lia.
  - apply H4. constructor.
  - apply H5. constructor.
Qed.

Lemma analysis_counts_differences_witness :
  let matched := String.concat nl
    ["asset_id: A"; "differences:"; "  - field_name: os";
     "    zabbix_value: Linux"; "    topdesk_value: null";
     "  - field_name: cpu"; "    zabbix_value: 8"; "    topdesk_value: 16"; ""] in
  let single := String.concat nl
    ["asset_id: C"; "note: Asset exists only in Zabbix system"; "differences:";
     "  - field_name: os"; "    zabbix_value: BSD"; "    topdesk_value: null"; ""] in
  exists a,
    analyze_difference_patterns [matched; single] = Done a /\
    field_frequency (analysis_counts a) = [("os", 2); ("cpu", 1)] /\
    common_differences (analysis_counts a)
    = [("os_missing_in_topdesk", 2); ("cpu_value_mismatch", 1)] /\
    coverage (analysis_counts a)
    = {| both_systems := 1; coverage_zabbix_only := 1; coverage_topdesk_only := 0 |} /\
    counted (field_frequency (analysis_counts a))
    = differences_in (map parse_dif_file [matched; single]).
Proof.
  intros matched single. eexists.
  assert (E : analyze_difference_patterns [matched; single] = Done _)
    by (vm_compute; reflexivity).
  pose proof (analysis_counts_differences [matched; single]) as H.
  cbv zeta in H. rewrite E in H. destruct H as (_ & _ & H & _).
  split; [exact E|]. split; [reflexivity|]. split; [reflexivity|].
  split; [reflexivity|exact H].
Defined.

(** ** More of [lib/sorter.py]: what the natural key ignores *)

Section NaturalKeyFacts.

Lemma lstrip_by_lower s :
  lstrip_by isspace (lower s) = lower (lstrip_by isspace s).
Proof.
  induction s as [|c s IH]; [reflexivity|].
  cbn [lower lstrip_by]. rewrite isspace_lower_char.
  destruct (isspace c); [exact IH|reflexivity].
Qed.

Lemma rstrip_by_lower s :
  rstrip_by isspace (lower s) = lower (rstrip_by isspace s).
Proof.
  induction s as [|c s IH]; [reflexivity|].
  cbn [lower rstrip_by]. rewrite IH, isspace_lower_char.
  destruct (rstrip_by isspace s); cbn [lower]; [|reflexivity].
  destruct (isspace c); reflexivity.
Qed.

Lemma strip_lower s : strip (lower s) = lower (strip s).
Proof. unfold strip, strip_by. rewrite lstrip_by_lower, rstrip_by_lower. reflexivity. Qed.

Lemma rstrip_by_idem p s : rstrip_by p (rstrip_by p s) = rstrip_by p s.
Proof.
  induction s as [|c s IH]; [reflexivity|].
  cbn [rstrip_by]. destruct (rstrip_by p s) as [|c' r] eqn:E.
  - destruct (p c) eqn:Hc; [reflexivity|]. cbn [rstrip_by]. rewrite Hc. reflexivity.
  - cbn [rstrip_by]. cbn [rstrip_by] in IH.
    destruct (rstrip_by p r) as [|c'' r'] eqn:F.
    + destruct (p c') eqn:Hc'; [discriminate IH|]. injection IH as <-. reflexivity.
    + rewrite IH. reflexivity.
Qed.

Lemma lstrip_by_head p s :
  lstrip_by p s = "" \/ exists c r, lstrip_by p s = String c r /\ p c = false.
Proof.
  induction s as [|c s IH]; [left; reflexivity|].
  cbn [lstrip_by]. destruct (p c) eqn:Hc; [exact IH|].
  right. exists c, s. split; [reflexivity|exact Hc].
Qed.

Lemma strip_by_idem p s : strip_by p (strip_by p s) = strip_by p s.
Proof.
  unfold strip_by.
  assert (H : lstrip_by p (rstrip_by p (lstrip_by p s)) = rstrip_by p (lstrip_by p s)).
  { destruct (lstrip_by_head p s) as [->|(c & r & -> & Hc)]; [reflexivity|].
    destruct (rstrip_by_keeps_head p c r Hc) as [r' ->].
    cbn [lstrip_by]. rewrite Hc. reflexivity. }
  rewrite H. apply rstrip_by_idem.
Qed.

Lemma natural_sort_key_text s t :
  lower (strip s) = lower (strip t) ->
  natural_sort_key (VStr s) = natural_sort_key (VStr t).
Proof. intros H. unfold natural_sort_key. cbn [str]. rewrite H. reflexivity. Qed.

Lemma key_part_eqb_refl x : key_part_eqb x x = true.
Proof. destruct x; cbn; [apply Z.eqb_refl|apply String.eqb_refl|reflexivity]. Qed.

Lemma key_ltb_irrefl k : key_ltb k k = Ok false.
Proof.
  induction k as [|x k IH]; [reflexivity|].
  cbn [key_ltb]. rewrite key_part_eqb_refl. exact IH.
Qed.

Lemma comparator_same_key a b k :
  truthy (id_of a) = true -> truthy (id_of b) = true ->
  natural_sort_key (id_of a) = Ok k -> natural_sort_key (id_of b) = Ok k ->
  asset_id_comparator a b = Ok 0%Z.
Proof.
  intros Ta Tb Ka Kb. unfold asset_id_comparator. fold (id_of a) (id_of b).
  rewrite Ta, Tb, Ka, Kb. cbn [negb andb bind].
  rewrite key_gtb_ltb, key_ltb_irrefl. reflexivity.
Qed.

End NaturalKeyFacts.

(** X23. The natural key of a string ignores the case of its letters
    and the white space at its two ends.  Two assets whose identifiers
    differ in these only therefore compare as equal, whenever the key of
    one of them is computed. *)
Theorem natural_sort_key_ignores_case_and_margin :
  (forall s,
     natural_sort_key (VStr (lower s)) = natural_sort_key (VStr s) /\
     natural_sort_key (VStr (strip s)) = natural_sort_key (VStr s)) /\
  (forall a b s t k,
     id_of a = VStr s -> id_of b = VStr t ->
     s <> "" -> t <> "" ->
     lower (strip s) = lower (strip t) ->
     natural_sort_key (VStr s) = Ok k ->
     asset_id_comparator a b = Ok 0%Z).
Proof.
  split.
  - intros s. split; apply natural_sort_key_text.
    + rewrite strip_lower. apply lower_idem.
    + unfold strip. rewrite strip_by_idem. reflexivity.
  - intros a b s t k Ha Hb Hs Ht Hst Hk.
    apply (comparator_same_key a b k).
    + rewrite Ha. cbn [truthy]. apply negb_true_iff, String.eqb_neq, Hs.
    + rewrite Hb. cbn [truthy]. apply negb_true_iff, String.eqb_neq, Ht.
    + rewrite Ha. exact Hk.
    + rewrite Hb. rewrite <- (natural_sort_key_text s t Hst). exact Hk.
Qed.

Lemma natural_sort_key_ignores_case_and_margin_witness :
  asset_id_comparator [("asset_id", VStr " SRV10 "); ("site", VStr "a")]
                      [("asset_id", VStr "srv10"); ("site", VStr "b")] = Ok 0%Z.
Proof.
  apply (proj2 natural_sort_key_ignores_case_and_margin _ _ " SRV10 " "srv10"
           [KStr "srv"; KInt 10]); try reflexivity; discriminate.
Defined.

(** ** More of [lib/differ.py]: a system compared with itself *)

Section SelfComparisonFacts.
Variable self : config.
Hypothesis tolerance_not_negative :
  float.leb (S754_zero false) (tolerance self) = true.

(** No value of the record reads as an infinity or a NaN. *)
Definition asset_finite (a : dict value) : bool :=
  forallb (fun kv => negb (reads_as_non_finite (snd kv))) a.

(** Every record is finite in this sense, and has a field. *)
Definition data_finite (d : dict (dict value)) : bool :=
  forallb (fun kv => asset_finite (snd kv) && negb (is_empty (snd kv))) d.

Lemma get_finite field a :
  asset_finite a = true -> reads_as_non_finite (differ.get field a) = false.
Proof.
  unfold differ.get, asset_finite.
  induction a as [|[k v] a IH]; cbn [forallb dict_get snd]; [reflexivity|].
  intros H. apply andb_true_iff in H. destruct H as [Hv Ha].
  destruct (String.eqb field k); [apply negb_true_iff, Hv|apply IH, Ha].
Qed.

Lemma get_asset_finite id d :
  data_finite d = true -> In id (keys d) ->
  asset_finite (get_asset id d) = true /\ is_empty (get_asset id d) = false.
Proof.
  unfold data_finite, get_asset, keys.
  induction d as [|[k a] d IH]; cbn [forallb dict_get map fst snd In]; [contradiction|].
  intros H Hin. apply andb_true_iff in H. destruct H as [Ha Hd].
  apply andb_true_iff in Ha. destruct Ha as [Hf He].
  destruct (String.eqb_spec id k) as [->|Hne].
  - split; [exact Hf|apply negb_true_iff, He].
  - destruct Hin as [Hin|Hin]; [congruence|apply IH; assumption].
Qed.

Lemma reports_itself a f :
  asset_float_safe a = true -> asset_finite a = true ->
  In f (union_keys a a) -> reports self a a f = false.
Proof.
  intros Hs Hf Hin. unfold reports.
  destruct (excluded self f); [reflexivity|]. cbn [negb andb].
  assert (Hk : has_key f a = true).
  { apply has_key_keys. unfold union_keys in Hin. rewrite nodup_In in Hin.
    apply in_app_or in Hin. tauto. }
  rewrite Hk. cbn [negb orb].
  rewrite (compare_values_self self (differ.get f a) f tolerance_not_negative
             (get_float_safe f a Hs)).
  rewrite (get_finite f a Hf). reflexivity.
Qed.

Lemma matched_with_itself a :
  asset_float_safe a = true -> asset_finite a = true ->
  _compare_matched_assets self a a = Ok [].
Proof.
  intros Hs Hf.
  destruct (compare_fields_returns self (union_keys a a) a a Hs Hs) as [r Hr].
  unfold _compare_matched_assets. rewrite Hr. f_equal.
  rewrite (compare_fields_closed self a a _ _ Hr).
  assert (H : filter (reports self a a) (union_keys a a) = []).
  { assert (G : forall l, (forall f, In f l -> reports self a a f = false) ->
                          filter (reports self a a) l = []).
    { clear. induction l as [|f l IH]; intros H; [reflexivity|].
      cbn [filter]. rewrite (H f (or_introl eq_refl)). apply IH.
      intros g Hg. apply H. right. exact Hg. }
    apply G. intros f Hin. apply reports_itself; assumption. }
  rewrite H. reflexivity.
Qed.

Lemma union_keys_itself {V} (d : dict V) id : In id (union_keys d d) <-> In id (keys d).
Proof. unfold union_keys. rewrite nodup_In, in_app_iff. tauto. Qed.

Lemma filter_all {A} (p : A -> bool) l :
  (forall a, In a l -> p a = true) -> filter p l = l.
Proof.
  intros H. apply forallb_filter_id. apply forallb_forall. exact H.
Qed.

Lemma compare_with_itself data st :
  data_float_safe data = true -> data_finite data = true ->
  exists st',
    compare_assets self data data st = Ok ([], st') /\
    matched_assets st' = matched_assets st + List.length (union_keys data data) /\
    zabbix_only st' = zabbix_only st /\
    topdesk_only st' = topdesk_only st /\
    assets_with_differences st' = assets_with_differences st /\
    total_differences st' = total_differences st.
Proof.
  intros Hs Hf. unfold compare_assets.
  set (ids := union_keys data data).
  destruct (compare_ids_returns self data data ids []
              (set_total (List.length ids) st) Hs Hs) as (r & st' & H).
  assert (Hid : forall id, In id ids ->
            asset_differences self data data id = Ok [] /\
            is_matched data data id = true).
  { intros id Hin. apply union_keys_itself in Hin.
    destruct (get_asset_finite id data Hf Hin) as [Ha He].
    unfold asset_differences, is_matched. rewrite He. cbn [negb andb].
    split; [|reflexivity].
    apply matched_with_itself; [apply get_asset_float_safe, Hs|exact Ha]. }
  destruct (compare_ids_entries self data data ids _ _ _ _ H) as (Hr & Ha & Ht & _).
  destruct (compare_ids_counts self data data ids _ _ _ _ H) as (_ & Hm & Hz & Htd).
  assert (He : entries self data data ids = []).
  { clear - Hid. induction ids as [|id l IH]; [reflexivity|].
    cbn [entries flat_map]. unfold entry_of at 1.
    rewrite (proj1 (Hid id (or_introl eq_refl))). cbn [app].
    apply IH. intros x Hx. apply Hid. right. exact Hx. }
  rewrite He in Hr, Ha, Ht. cbn in Hr, Ha, Ht. subst r.
  exists st'. rewrite H. split; [reflexivity|].
  assert (Hall : count (is_matched data data) ids = List.length ids).
  { unfold count. rewrite filter_all; [reflexivity|]. intros id Hin. apply Hid, Hin. }
  pose proof (categories_partition data data ids) as Hp.
  cbn in Hm, Hz, Htd. repeat split; lia.
Qed.

End SelfComparisonFacts.

(** X24. A system compared with itself shows no difference: when the
    tolerance is not negative, every record has a field, and no value is a
    number too large for a float or reads as an infinity or a NaN,
    [compare_assets] of the data with itself returns no entry, counts
    every identifier as matched, and leaves the other counters as they
    were. *)
Theorem compare_assets_with_itself :
  forall self data st,
    float.leb (S754_zero false) (tolerance self) = true ->
    data_float_safe data = true -> data_finite data = true ->
    exists st',
      compare_assets self data data st = Ok ([], st') /\
      matched_assets st' = matched_assets st + List.length (union_keys data data) /\
      zabbix_only st' = zabbix_only st /\
      topdesk_only st' = topdesk_only st /\
      assets_with_differences st' = assets_with_differences st /\
      total_differences st' = total_differences st.
Proof. intros self data st Htol. apply compare_with_itself, Htol. Qed.

Lemma compare_assets_with_itself_witness :
  let data := [("A", [("os", VStr "Linux"); ("cpu", VInt 8); ("rack", VNone)]);
               ("B", [("os", VStr " BSD "); ("load", VStr "0.5")])] in
  exists st',
    compare_assets default_config data data new_stats = Ok ([], st') /\
    matched_assets st' = 2 /\
    (exists d st'',
       compare_assets default_config [("A", [("load", VStr "inf")])]
         [("A", [("load", VStr "inf")])] new_stats = Ok ([("A", d)], st'')).
Proof.
  intros data.
  destruct (compare_assets_with_itself default_config data new_stats
              eq_refl eq_refl eq_refl) as (st' & H & Hm & _).
  exists st'. split; [exact H|]. split; [exact Hm|].
  do 2 eexists. reflexivity.
Defined.

(** ** More of [lib/differ.py]: the two systems exchanged *)

Section SwapFacts.
Variable self : config.

Lemma union_keys_swap {V} (a b : dict V) :
  Permutation (union_keys a b) (union_keys b a).
Proof.
  unfold union_keys. apply NoDup_Permutation; try apply NoDup_nodup.
  intros x. rewrite !nodup_In, !in_app_iff. tauto.
Qed.

Lemma filter_permutation {A} (p : A -> bool) l l' :
  Permutation l l' -> Permutation (filter p l) (filter p l').
Proof.
  induction 1 as [|x l l' _ IH|x y l|l l' l'' _ IH1 _ IH2].
  - constructor.
  - cbn [filter]. destruct (p x); [constructor|]; exact IH.
  - cbn [filter]. destruct (p x), (p y); try apply Permutation_refl. constructor.
  - exact (Permutation_trans IH1 IH2).
Qed.

Lemma list_sum_permutation l l' : Permutation l l' -> list_sum l = list_sum l'.
Proof.
  induction 1 as [|x l l' _ IH|x y l|l l' l'' _ IH1 _ IH2];
    unfold list_sum in *; cbn [fold_right] in *; lia.
Qed.

Lemma reports_swap z t f :
  asset_float_safe z = true -> asset_float_safe t = true ->
  reports self z t f = reports self t z f.
Proof.
  intros Hz Ht. unfold reports.
  rewrite (compare_values_swap self (differ.get f z) (differ.get f t) f
             (get_float_safe f z Hz) (get_float_safe f t Ht)).
  destruct (excluded self f), (has_key f z), (has_key f t); reflexivity.
Qed.

(** The number of differences [_compare_matched_assets] returns. *)
Lemma matched_length z t ds :
  _compare_matched_assets self z t = Ok ds ->
  List.length ds = List.length (filter (reports self z t) (union_keys z t)).
Proof.
  unfold _compare_matched_assets. intros H.
  rewrite (compare_fields_closed self z t _ _ H). apply length_map.
Qed.

Lemma matched_swap z t ds ds' :
  asset_float_safe z = true -> asset_float_safe t = true ->
  _compare_matched_assets self z t = Ok ds ->
  _compare_matched_assets self t z = Ok ds' ->
  List.length ds = List.length ds'.
Proof.
  intros Hz Ht H H'.
  rewrite (matched_length z t ds H), (matched_length t z ds' H').
  rewrite (filter_ext _ _ (fun f => reports_swap z t f Hz Ht)).
  apply Permutation_length, filter_permutation, union_keys_swap.
Qed.

Lemma single_system_length id id' a system system' :
  List.length (_handle_single_system_asset self id a system)
  = List.length (_handle_single_system_asset self id' a system').
Proof.
  unfold _handle_single_system_asset. cbn [List.length]. f_equal.
  induction a as [|[f v] a IH]; [reflexivity|].
  cbn [flat_map]. rewrite !length_app, IH.
  destruct (negb (excluded self f)); reflexivity.
Qed.

(** The number of differences the loop of [compare_assets] finds for one
    identifier. *)
Definition differences_of (zabbix_data topdesk_data : dict (dict value)) (id : string)
    : nat :=
  match asset_differences self zabbix_data topdesk_data id with
  | Ok ds => List.length ds
  | Raise _ => 0
  end.

Section Swap.
Variables zabbix_data topdesk_data : dict (dict value).
Hypothesis zabbix_safe : data_float_safe zabbix_data = true.
Hypothesis topdesk_safe : data_float_safe topdesk_data = true.

Lemma differences_of_swap id :
  differences_of zabbix_data topdesk_data id = differences_of topdesk_data zabbix_data id.
Proof.
  unfold differences_of, asset_differences.
  pose proof (get_asset_float_safe id zabbix_data zabbix_safe) as Hz.
  pose proof (get_asset_float_safe id topdesk_data topdesk_safe) as Ht.
  destruct (get_asset id zabbix_data) as [|z0 z] eqn:Ez,
           (get_asset id topdesk_data) as [|t0 t] eqn:Et; cbn [is_empty].
  - apply single_system_length.
  - apply single_system_length.
  - apply single_system_length.
  - destruct (compare_fields_returns self (union_keys (z0 :: z) (t0 :: t))
                (z0 :: z) (t0 :: t) Hz Ht) as [ds Hds].
    destruct (compare_fields_returns self (union_keys (t0 :: t) (z0 :: z))
                (t0 :: t) (z0 :: z) Ht Hz) as [ds' Hds'].
    fold (_compare_matched_assets self (z0 :: z) (t0 :: t)) in Hds.
    fold (_compare_matched_assets self (t0 :: t) (z0 :: z)) in Hds'.
    rewrite Hds, Hds'. apply (matched_swap _ _ _ _ Hz Ht Hds Hds').
Qed.

Lemma is_matched_swap id :
  is_matched zabbix_data topdesk_data id = is_matched topdesk_data zabbix_data id.
Proof. unfold is_matched. apply andb_comm. Qed.

End Swap.

Lemma entries_length zd td ids :
  List.length (entries self zd td ids)
  = List.length (filter (fun id => Nat.ltb 0 (differences_of zd td id)) ids).
Proof.
  induction ids as [|id ids IH]; [reflexivity|].
  cbn [entries flat_map filter]. fold (entries self zd td ids).
  rewrite length_app, IH. unfold entry_of, differences_of.
  destruct (asset_differences self zd td id) as [[|d ds]|e]; reflexivity.
Qed.

Lemma entries_count zd td ids :
  differences_count (entries self zd td ids) = list_sum (map (differences_of zd td) ids).
Proof.
  induction ids as [|id ids IH]; [reflexivity|].
  cbn [entries flat_map map]. fold (entries self zd td ids).
  rewrite differences_count_app, IH. unfold entry_of, differences_of at 2.
  destruct (asset_differences self zd td id) as [[|d ds]|e];
    unfold differences_count, list_sum; cbn; lia.
Qed.

Lemma entries_keys zd td ids :
  keys (entries self zd td ids) = filter (fun id => Nat.ltb 0 (differences_of zd td id)) ids.
Proof.
  rewrite keys_entries. apply filter_ext. intros id.
  unfold entry_of, differences_of.
  destruct (asset_differences self zd td id) as [[|d ds]|e]; reflexivity.
Qed.

Lemma compare_swapped zd td st :
  data_float_safe zd = true -> data_float_safe td = true ->
  exists all st1 all' st2,
    compare_assets self zd td st = Ok (all, st1) /\
    compare_assets self td zd st = Ok (all', st2) /\
    Permutation (keys all) (keys all') /\
    total_assets_processed st1 = total_assets_processed st2 /\
    matched_assets st1 = matched_assets st2 /\
    zabbix_only st1 + topdesk_only st1 = zabbix_only st2 + topdesk_only st2 /\
    assets_with_differences st1 = assets_with_differences st2 /\
    total_differences st1 = total_differences st2.
Proof.
  intros Hz Ht. unfold compare_assets.
  pose proof (union_keys_swap zd td) as Hp.
  set (ids := union_keys zd td) in *. set (ids' := union_keys td zd) in *.
  destruct (compare_ids_returns self zd td ids []
              (set_total (List.length ids) st) Hz Ht) as (all & st1 & H1).
  destruct (compare_ids_returns self td zd ids' []
              (set_total (List.length ids') st) Ht Hz) as (all' & st2 & H2).
  exists all, st1, all', st2. split; [exact H1|]. split; [exact H2|].
  destruct (compare_ids_entries self zd td ids _ _ _ _ H1) as (-> & Ha1 & Hd1 & _).
  destruct (compare_ids_entries self td zd ids' _ _ _ _ H2) as (-> & Ha2 & Hd2 & _).
  destruct (compare_ids_counts self zd td ids _ _ _ _ H1) as (Hn1 & Hm1 & Hz1 & Ht1).
  destruct (compare_ids_counts self td zd ids' _ _ _ _ H2) as (Hn2 & Hm2 & Hz2 & Ht2).
  pose proof (categories_partition zd td ids) as Hc1.
  pose proof (categories_partition td zd ids') as Hc2.
  pose proof (Permutation_length Hp) as Hlen.
  cbn [app] in *.
  assert (Hf : Permutation (filter (fun id => Nat.ltb 0 (differences_of zd td id)) ids)
                 (filter (fun id => Nat.ltb 0 (differences_of td zd id)) ids')).
  { rewrite (filter_ext _ (fun id => Nat.ltb 0 (differences_of td zd id)) (fun id =>
               f_equal (Nat.ltb 0) (differences_of_swap zd td Hz Ht id))).
    apply filter_permutation, Hp. }
  assert (Hm : count (is_matched zd td) ids = count (is_matched td zd) ids').
  { unfold count. rewrite (filter_ext _ _ (is_matched_swap zd td)).
    apply Permutation_length, filter_permutation, Hp. }
  assert (Hs : list_sum (map (differences_of zd td) ids)
               = list_sum (map (differences_of td zd) ids')).
  { rewrite (map_ext _ _ (differences_of_swap zd td Hz Ht)).
    apply list_sum_permutation, Permutation_map, Hp. }
  rewrite !entries_keys. split; [exact Hf|].
  rewrite entries_length in Ha1, Ha2. rewrite entries_count in Hd1, Hd2.
  pose proof (Permutation_length Hf) as Hfl.
  unfold set_total in *.
  cbn [total_assets_processed matched_assets zabbix_only topdesk_only
       assets_with_differences total_differences] in *.
  repeat split; lia.
Qed.

End SwapFacts.

(** X25. The two systems exchanged.  When no stored number is too large
    for a float, [compare_assets] returns in both directions, and the
    direction changes neither the identifiers that get an entry, nor the
    number of assets processed, of matched assets, of assets with
    differences and of differences; the assets of one system only are as
    many in total.  (These numbers therefore do not depend on the order in
    which the identifiers and the fields are visited.) *)
Theorem compare_assets_swapped :
  forall self zabbix_data topdesk_data st,
    data_float_safe zabbix_data = true -> data_float_safe topdesk_data = true ->
    exists all st1 all' st2,
      compare_assets self zabbix_data topdesk_data st = Ok (all, st1) /\
      compare_assets self topdesk_data zabbix_data st = Ok (all', st2) /\
      Permutation (keys all) (keys all') /\
      total_assets_processed st1 = total_assets_processed st2 /\
      matched_assets st1 = matched_assets st2 /\
      zabbix_only st1 + topdesk_only st1 = zabbix_only st2 + topdesk_only st2 /\
      assets_with_differences st1 = assets_with_differences st2 /\
      total_differences st1 = total_differences st2.
Proof. intros self zd td st. apply compare_swapped. Qed.

Lemma compare_assets_swapped_witness :
  let zd := [("A", [("os", VStr "Linux"); ("cpu", VInt 8)]);
             ("B", [("os", VStr "BSD")]); ("D", [])] in
  let td := [("A", [("os", VStr "linux"); ("cpu", VInt 4); ("rack", VStr "r1")]);
             ("C", [("os", VStr "AIX"); ("cpu", VInt 2)])] in
  exists all st1 all' st2,
    compare_assets default_config zd td new_stats = Ok (all, st1) /\
    compare_assets default_config td zd new_stats = Ok (all', st2) /\
    total_differences st1 = 8 /\ total_differences st2 = 8 /\
    zabbix_only st1 = 1 /\ topdesk_only st1 = 2 /\
    zabbix_only st2 = 1 /\ topdesk_only st2 = 2.
Proof.
  intros zd td.
  destruct (compare_assets_swapped default_config zd td new_stats eq_refl eq_refl)
    as (all & st1 & all' & st2 & H1 & H2 & _ & _ & _ & _ & _ & Hd).
  exists all, st1, all', st2. split; [exact H1|]. split; [exact H2|].
  vm_compute in H1, H2. injection H1 as _ <-. injection H2 as _ <-.
  repeat split.
Defined.

(** *** Sorting what is sorted *)
Section KeyedSortFixed.
Context {A K : Type}.
Variable key : A -> exn K.
Variable eqb : K -> K -> bool.
Variable ltb : K -> K -> exn bool.
Variable compare : K -> K -> comparison.
Hypothesis laws : item_order eqb ltb compare.

Lemma with_keys_pairs (keyed : list (K * A)) :
  Forall (fun p => key (snd p) = Ok (fst p)) keyed ->
  with_keys key (map snd keyed) = Ok keyed.
Proof.
  induction 1 as [|[k x] l Hk _ IH]; [reflexivity|].
  cbn [map snd with_keys]. cbn [fst snd] in Hk. rewrite Hk, IH. reflexivity.
Qed.

Lemma sorted_by_key_fixed l r :
  keys_comparable key ltb l ->
  sorted_by_key key ltb l = Ok r -> sorted_by_key key ltb r = Ok r.
Proof.
  intros Hc H.
  assert (Hkeys : Forall (fun x => exists k, key x = Ok k) l).
  { apply Forall_forall. intros x Hx. destruct (Hc x x Hx Hx) as (k & _ & _ & Hk & _).
    exists k. exact Hk. }
  destruct (with_keys_returns key l Hkeys) as [keyed Hkeyed].
  destruct (with_keys_spec key l keyed Hkeyed) as [Hsnd Hpairs].
  unfold sorted_by_key in H. rewrite Hkeyed in H. cbn [bind] in H.
  destruct (stable_sort (key_cmp ltb) keyed) as [rp|e] eqn:Hrp; [|discriminate H].
  cbn [bind] in H. injection H as <-.
  pose proof (stable_sort_perm _ _ _ Hrp) as Hperm.
  rewrite Forall_forall in Hpairs.
  assert (Hlt : forall p q, In p keyed -> In q keyed ->
                            exists b, ltb (fst p) (fst q) = Ok b).
  { intros p q Hp Hq.
    assert (Hip : In (snd p) l) by (rewrite <- Hsnd; apply in_map, Hp).
    assert (Hiq : In (snd q) l) by (rewrite <- Hsnd; apply in_map, Hq).
    destruct (Hc (snd p) (snd q) Hip Hiq) as (kp & kq & b & H1 & H2 & H3).
    rewrite (Hpairs p Hp) in H1. rewrite (Hpairs q Hq) in H2.
    injection H1 as <-. injection H2 as <-. exists b. exact H3. }
  assert (Hfix : stable_sort (key_cmp ltb) rp = Ok rp).
  { refine (stable_sort_idempotent (key_cmp ltb) (fun p => In p keyed)
              (key_cmp_asym _ _ _ laws) _ keyed rp _ Hrp).
    - intros x y z Hx Hz. apply (key_cmp_trans _ _ _ laws). apply Hlt; assumption.
    - apply Forall_forall. intros p Hp. exact Hp. }
  unfold sorted_by_key. rewrite with_keys_pairs.
  - cbn [bind]. rewrite Hfix. reflexivity.
  - apply Forall_forall. intros p Hp. apply Hpairs.
    apply (Permutation_in _ Hperm Hp).
Qed.

End KeyedSortFixed.

(** X26. Sorting the entries of a file twice is sorting them once: when
    all keys are computed and compare with one another, the result of
    [sort_dif_entries] is left as it is by [sort_dif_entries], and the
    result of [sort_apl_entries] by [sort_apl_entries]. *)
Theorem sort_entries_idempotent :
  (forall entries r,
     keys_comparable dif_sort_key dif_key_ltb entries ->
     sort_dif_entries entries = Ok r -> sort_dif_entries r = Ok r) /\
  (forall entries r,
     keys_comparable apl_sort_key apl_key_ltb entries ->
     sort_apl_entries entries = Ok r -> sort_apl_entries r = Ok r).
Proof.
  split; intros entries r.
  - apply (sorted_by_key_fixed _ _ _ _ dif_key_order).
  - apply (sorted_by_key_fixed _ _ _ _ apl_key_order).
Qed.

Lemma sort_entries_idempotent_witness :
  let d1 := [("asset_id", VStr "srv2"); ("operation", VStr "modify"); ("field", VStr "os")] in
  let d2 := [("asset_id", VStr "srv10"); ("operation", VStr "add"); ("field", VStr "ip")] in
  let d3 := [("asset_id", VStr "SRV2"); ("operation", VStr "delete"); ("field", VStr "os")] in
  let a1 := [("timestamp", VStr "2025-03-01T10:00:00"); ("asset_id", VStr "srv1")] in
  let a2 := [("asset_id", VStr "srv9"); ("sequence", VInt 4)] in
  let a3 := [("timestamp", VStr "2025-01-01T10:00:00"); ("asset_id", VStr "srv7")] in
  sort_dif_entries [d1; d2; d3] = Ok [d1; d3; d2] /\
  sort_dif_entries [d1; d3; d2] = Ok [d1; d3; d2] /\
  sort_apl_entries [a1; a2; a3] = Ok [a3; a1; a2] /\
  sort_apl_entries [a3; a1; a2] = Ok [a3; a1; a2].
Proof.
  intros d1 d2 d3 a1 a2 a3.
  assert (Hd : keys_comparable dif_sort_key dif_key_ltb [d1; d2; d3]).
  { intros x y Hx Hy. cbn [In] in Hx, Hy.
    repeat (destruct Hx as [<-|Hx]); try contradiction;
      repeat (destruct Hy as [<-|Hy]); try contradiction;
      do 3 eexists; repeat split; reflexivity. }
  assert (Ha : keys_comparable apl_sort_key apl_key_ltb [a1; a2; a3]).
  { intros x y Hx Hy. cbn [In] in Hx, Hy.
    repeat (destruct Hx as [<-|Hx]); try contradiction;
      repeat (destruct Hy as [<-|Hy]); try contradiction;
      do 3 eexists; repeat split; reflexivity. }
  assert (H1 : sort_dif_entries [d1; d2; d3] = Ok [d1; d3; d2]) by reflexivity.
  assert (H2 : sort_apl_entries [a1; a2; a3] = Ok [a3; a1; a2]) by reflexivity.
  split; [exact H1|]. split.
  { exact (proj1 sort_entries_idempotent _ _ Hd H1). }
  split; [exact H2|].
  exact (proj2 sort_entries_idempotent _ _ Ha H2).
Defined.
